(* ===== verification/_CoqProject ===== *)
-Q . S2P
Prelude.v
Wire.v
Text.v
Config.v
Net.v
Io.v
Tls.v
Relay.v
Endpoint.v
Registry.v
Udp.v
ClientCfg.v
ClientUdp.v
AgentUdp.v
PeerUdp.v
Agent.v
Peer.v
Broker.v
Control.v
BrokerSample.v
Handshake.v
PeerHandshake.v
Json.v
Ipc.v
IpcSample.v
System.v
