(* ===== verification/Prelude.v ===== *)
(** * TunnelMate: a verification development

    TunnelMate publishes a TCP or UDP service that sits behind a NAT.  Three programs
    written in C share a library.

    - The _broker_ (src/broker) has a public port per tunnel, a TLS control port to
      which agents and peers connect, and a unix socket on which the control plane
      (in Python, not treated here) creates, changes and deletes tunnels with JSON
      requests.
    - The _agent_ (src/agent) runs beside the service.  It keeps one control connection
      to the broker, registers its tunnel with a secret, and for every stream the
      broker announces (OPEN_STREAM) opens one data connection to the broker and one
      connection to the service and relays between them.  For a UDP tunnel it keeps a
      DTLS session instead.
    - The _peer_ (src/peer) runs beside a consumer of a closed tunnel, one that has no
      public access.  It authenticates with the shared token of the tunnel and relays
      local connections or datagrams.
    - The _library_ (src/common) has the frame and envelope formats, the configuration
      parser, text, digest and address helpers, the byte pumps (legs) over TCP and TLS,
      and JSON.

    A consumer's byte thus goes from a public socket through the broker's relay
    (relay.c) to the agent's data connection, through the agent's relay (tcp.c) to the
    service; a datagram goes under a flow id that the broker assigns.

    ** Files, in order of dependency

    - Prelude.v (this file): integers at their width, bytes and C strings, lists, the
      tactics and hints shared by all files.
    - Wire.v: common.h and frame.c, the frame encoder and streaming reader, the datagram
      envelope, byte order.
    - Text.v: common.c, crypto.c and the text part of log.c.
    - Config.v: config.c (Module Conf) and the settings of the broker (Module BrokerCfg,
      [cfg_load] of broker/src/main.c).
    - Net.v: net.c.
    - Io.v: the TCP leg of io.c (Module Tcp), the class [TmIo] of what a relay relies on
      of a leg, and that the TCP leg provides it (Module TcpLeg).
    - Tls.v: the stream driver of tls.c over the class [TLS] that stands for OpenSSL
      (Module Tls), the TLS legs of io.c as an instance of [TmIo] (Module TlsLeg), and
      the dispatch between the two kinds of leg, again an instance (Module Dispatch).
    - Relay.v: relay.c of the broker, over any [TmIo].
    - Endpoint.v: the relays in tcp.c of the agent and of the peer, over any [TmIo].
    - Registry.v: the port tables of registry.c (Module Ports), the accept limiter of
      broker/src/tcp.c (Module Rate), the life of a tunnel's listener (Module Listener).
    - Udp.v: udp.c of the broker, over the class [DTLS] that stands for OpenSSL.
    - ClientCfg.v: the settings of the agent (Module AgentCfg) and the command line of
      the peer (Module PeerCfg).
    - ClientUdp.v, AgentUdp.v, PeerUdp.v: udp.c of the agent and of the peer; the first
      has what both programs write alike.
    - Agent.v: control.c, tcp.c and main.c of the agent: the control session, its timers
      and reconnects, the stream table and the handshake of a data connection.
    - Peer.v: tcp.c of the peer and its shutdown (Module PeerTcp): the sessions as heap
      objects, their handshake with the broker and their release.
    - Broker.v: the state of broker.h as one heap, with registry.c, the public connections
      of tcp.c and the calls of relay.c on streams of the heap.
    - Control.v: control.c of the broker.
    - BrokerSample.v: a concrete broker at which theorems are applied.
    - Handshake.v and PeerHandshake.v: agent and broker, and peer and broker, together,
      from the connect to the registration and to the authentication.
    - Json.v: the part of cJSON.c that the broker calls.
    - Ipc.v: ipc.c and metrics.c, on top of Broker.v and Json.v; IpcSample.v is concrete
      input for it.
    - System.v: everything the event loop of the broker can run, as one step relation,
      with the start and the shutdown of broker/src/main.c.

    ** How the code is represented

    A struct is a record and a function of the code is a function of the model with the
    same name where that name is free.  Integers are values of [Z]; where the code
    stores into a narrower type the wrap-around is written out ([wrap]).  Buffers are
    lists of byte values.  Objects that callbacks refer to by pointer live in heaps
    ([gmap] by address), and every access to a released object, to a closed session
    through its tunnel, or past the end of a buffer shows in a ghost flag ([uaf], [fault])
    or as a result of its own ([POver] of the JSON parser) instead of being ruled out by
    construction; the safety theorems say that the flag stays down, the counterexamples
    that it comes up.

    Callbacks that run in the middle of a call, as the legs of io.c run them, are
    arguments of the functions (Io.v, Tls.v) or tied into a fixpoint (Relay.v,
    Endpoint.v), and re-entry is part of the model.  In Broker.v, Control.v, Agent.v and
    Peer.v what a leg notes during a call is delivered when the call returns; a TLS leg
    whose reading is resumed delivers what it holds as its next events.

    Code outside the repository is a parameter.  OpenSSL is the classes [TLS], [DTLS]
    and [OpenSSL] with the laws the code relies on (a retried write is repeated with
    the same bytes; what is read was decrypted; HMAC is a function); the doubles of the
    C library are [CDouble]; the clock, random bytes and the results of libuv calls are
    functions of how often they were used, or come with the event.  Each class has a
    concrete instance, at which the theorems that assume it are applied.

    ** What is proved

    - Order of bytes.  Legs are bounded FIFO queues ([Tcp.tcp_leg_fifo], [Tls.tls_fifo]);
      relays over them hand on, to legs that refuse no write, exactly what each source
      delivered, in order, with the FIN last ([relay_fifo], [endpoint_fifo]; for the
      agent's late local connections see [late_bind_loses]), within a bound
      ([relay_backpressure]), and close gracefully only when nothing is left for the legs
      that are open ([relay_graceful_close]).  Envelopes keep their order in every UDP
      plane.
    - Authority.  A frame of the control port changes the role of a connection only with
      the matching secret and touches no other tunnel ([conn_frame_authorised]); likewise
      the sessions of the UDP plane, over runs in which the digests of the tunnel do not
      change ([udp_authenticated]; System.v has the steps that change them); rotation revokes ([ipc_rotate_revokes]); refusals do
      not tell whether a tunnel exists ([refusals_indistinguishable]).
    - Consistency.  In every reachable state of the broker names and ports are exclusive,
      counters agree with what they count and limits hold ([registry_consistent]).  No
      sequence of events makes the UDP plane or, as long as its binds succeed, a listener
      touch released memory ([udp_memory_safe], [listener_safe]).
    - Operations.  Creation, deletion, rotation and the other requests do what they
      answer ([tunnel_create_correct], [tunnel_delete_correct], [ipc_create_correct]);
      every line but a request for the status is shown to be answered
      ([ipc_request_answered]); a created tunnel is one its
      agent can register ([created_tunnel_registers], [agent_registers]) and its peers
      can authenticate for ([peer_authenticates]).
    - The agent.  Unless its set-up fails it is always connecting, connected or waiting
      for a bounded time ([agent_keeps_trying], [agent_backoff]); it says the frames of the protocol in order
      ([agent_session_order]), and every stream it keeps is a run of the relay model
      ([agent_streams_relay]).
    - The peer.  Its sessions are released exactly with the last handle the event loop
      holds of them ([peer_sessions_safe]) and speak the protocol before they relay
      ([peer_session_order]).
    - Formats.  Frames and requests do not depend on how the stream is cut
      ([drive_chunks_concat], [ipc_stream_lines]); JSON and addresses are read back
      ([json_roundtrip], [peer_address_roundtrip]); accepted settings are well formed
      ([agent_cfg_ok]).
    - Where the code does not do what it means to, a theorem exhibits it
      ([tcp_write_done_use_after_free], [flush_use_after_free], [id_copy_overflows],
      [peer_outlives_tunnel], [ipc_pipelined_answers_lost], [agent_setup_failures],
      [peer_setup_failures], [bind_double_free], [late_bind_loses] and others), and the
      general theorem has the hypothesis that excludes it.

    ** Fuel

    - Nested callbacks of a relay have depth at most 10 ([relay_depth], [ep_depth]); the
      theorems on order show that this is never exhausted ([stuck] stays down).
    - Read loops have the number of buffered bytes as fuel, since every frame takes at
      least its header; loops over OpenSSL reads have the number of unread records, which
      is a component of the engine's class; write pumps have the number of queued bytes.
      [control_reads_terminate] and the corresponding lemmas show that it is enough.
    - Growing a buffer by doubling takes at most 64 rounds for a [size_t].
    - The JSON parser has the length of its input plus the nesting limit of the code.

    ** Not modelled

    - Building TLS contexts, certificates and host name checks: calls of OpenSSL only.
    - Writing log lines, allocation (the programs end when memory runs out), receive
      buffer callbacks, signal handlers, opening the listening sockets: calls of the C
      library or of libuv without logic of the program's own.
    - The functions of cJSON.c that nothing in the repository calls, its error position
      and its allocation hooks; [tm_config_get_double], which has no caller.
    - The control plane and the SDK (Python), tests, deployment and build scripts. *)

From stdpp Require Export base list list_numbers strings gmap.
From Stdlib Require Export ZArith Lia Bool.

#[global] Set Warnings "-notation-overridden,-ambiguous-paths".
Global Open Scope Z_scope.

(** ** Integers at their width *)

(** The value a [w]-bit unsigned C object holds after [z] is stored in it. *)
Definition wrap (w z : Z) : Z := z mod 2 ^ w.

Abbreviation u8 := (wrap 8).
Abbreviation u16 := (wrap 16).
Abbreviation u32 := (wrap 32).
Abbreviation u64 := (wrap 64).

Definition in_width (w z : Z) : Prop := 0 <= z < 2 ^ w.

Lemma wrap_range w z : 0 <= w -> in_width w (wrap w z).
Proof. intros; apply Z.mod_pos_bound; apply Z.pow_pos_nonneg; lia. Qed.

Lemma wrap_small w z : in_width w z -> wrap w z = z.
Proof. intros; now apply Z.mod_small. Qed.

Lemma wrap_wrap w z : 0 <= w -> wrap w (wrap w z) = wrap w z.
Proof. intros; apply wrap_small, wrap_range; done. Qed.

(** ** Bytes and C strings *)

Abbreviation bytes := (list Z).

Definition byte_ok (b : Z) : Prop := in_width 8 b.
Definition bytes_ok (l : bytes) : Prop := Forall byte_ok l.

(** Lengths are C [size_t] values, kept as [Z]. *)
Definition blen {A} (l : list A) : Z := Z.of_nat (length l).

Lemma blen_nonneg {A} (l : list A) : 0 <= blen l.
Proof. unfold blen; lia. Qed.

Lemma blen_nil {A} : blen (@nil A) = 0.
Proof. reflexivity. Qed.

Lemma blen_cons {A} (x : A) l : blen (x :: l) = 1 + blen l.
Proof. unfold blen; cbn [length]; lia. Qed.

Lemma blen_app {A} (l k : list A) : blen (l ++ k) = blen l + blen k.
Proof. unfold blen; rewrite length_app; lia. Qed.

Lemma blen_take {A} n (l : list A) :
  0 <= n -> blen (take (Z.to_nat n) l) = Z.min n (blen l).
Proof. intros; unfold blen; rewrite length_take; lia. Qed.

Lemma blen_drop {A} n (l : list A) :
  0 <= n <= blen l -> blen (drop (Z.to_nat n) l) = blen l - n.
Proof. unfold blen; intros; rewrite length_drop; lia. Qed.

Lemma blen_0_nil {A} (l : list A) : blen l = 0 <-> l = [].
Proof. destruct l; unfold blen; cbn [length]; split; intros; first [done | lia]. Qed.

Lemma blen_pos_cons {A} (l : list A) : 0 < blen l -> l <> [].
Proof. destruct l; unfold blen; cbn [length]; intros; [lia | done]. Qed.

(** A string literal as the bytes of the C string, without its final NUL. *)
Definition cstr (s : string) : bytes :=
  map (fun a => Z.of_N (Ascii.N_of_ascii a)) (String.list_ascii_of_string s).

(** The C string that starts at a buffer: the bytes before the first NUL. *)
Fixpoint strz (l : bytes) : bytes :=
  match l with
  | [] => []
  | c :: l' => if c =? 0 then [] else c :: strz l'
  end.

(** [strcmp(a, b) == 0] *)
Definition streq (a b : bytes) : bool := bool_decide (a = b).

Lemma streq_true a b : streq a b = true <-> a = b.
Proof. apply bool_decide_eq_true. Qed.

Lemma streq_false a b : streq a b = false <-> a <> b.
Proof. apply bool_decide_eq_false. Qed.

(** [snprintf(dst, cap, "%s", s)]: at most [cap - 1] bytes are kept. *)
Definition str_trunc (cap : Z) (s : bytes) : bytes := take (Z.to_nat (cap - 1)) s.

Lemma blen_str_trunc cap s : 1 <= cap -> blen (str_trunc cap s) < cap.
Proof. intros; unfold str_trunc; rewrite blen_take; lia. Qed.

Lemma str_trunc_id cap s : blen s < cap -> str_trunc cap s = s.
Proof.
  intros; unfold str_trunc; apply take_ge; unfold blen in *; lia.
Qed.

(** ** Record update

    [r <| f := v |>] is the record [r] with the field [f] replaced.  A record
    type opts in with an [Eta] instance that lists its fields. *)

Definition r_pure {E T} (x : T) : E -> T := fun _ => x.
Definition r_ap {E A B} (f : E -> A -> B) (x : E -> A) : E -> B := fun e => f e (x e).

Class Eta (R : Type) := eta : R -> R.
Class Setter {R T} (p : R -> T) := upd : (T -> T) -> R -> R.
Arguments upd {R T} p {_} f r /.

Ltac solve_setter :=
  lazymatch goal with
  | |- @Setter ?R ?T ?p =>
      let e := constr:(_ : Eta R) in
      let body := eval red in e in
      lazymatch eval pattern p in body with
      | ?g _ =>
          let s := eval cbv beta delta [r_ap r_pure] in
                     (fun f : T -> T => g (fun r => f (p r))) in
          exact s
      end
  end.
#[export] Hint Extern 1 (Setter _) => solve_setter : typeclass_instances.

Declare Scope record_scope.
Delimit Scope record_scope with rec.
Global Open Scope record_scope.
Notation "r <| p := v |>" := (upd p (fun _ => v) r)
  (at level 12, left associativity, p at level 9, format "r  <| p  :=  v |>") : record_scope.
Notation "r <| p ::= f |>" := (upd p f r)
  (at level 12, left associativity, p at level 9, format "r  <| p  ::=  f |>") : record_scope.
Notation "'settable!' mk < f ; .. ; g >" :=
  (r_ap .. (r_ap (r_pure mk) f) .. g)
  (at level 0, mk at level 10, f at level 9, g at level 9, only parsing) : record_scope.

(** ** Automation *)

#[export] Hint Rewrite Z.eqb_eq Z.eqb_neq Z.ltb_lt Z.ltb_ge Z.leb_le Z.leb_gt
  andb_true_iff andb_false_iff orb_true_iff orb_false_iff negb_true_iff negb_false_iff
  bool_decide_eq_true bool_decide_eq_false : zbool.
#[export] Hint Rewrite @blen_nil @blen_cons @blen_app : blen.

(** Turn boolean comparisons in the context into propositions. *)
Ltac zb := autorewrite with zbool in *.

(** Case analysis on a scrutinee of the goal, booleans turned into propositions. *)
Ltac cm := case_match; simplify_eq/=; zb.
Ltac cms := repeat cm.

(** The same without touching the shape of the tests. *)
Ltac cmh := repeat (case_match; simplify_eq/=; try done).

(** Arithmetic about lengths. *)
Ltac blen_solve :=
  autorewrite with blen in *; unfold blen in *; rewrite ?length_app in *; lia.

(** Case analysis on whether the entry looked up is the one just stored. *)
Ltac upd_case k k' :=
  destruct (decide (k = k')) as [->|?];
  rewrite ?lookup_insert_eq, ?lookup_delete_eq, ?lookup_insert_ne, ?lookup_delete_ne by done.

Create HintDb tm.
#[export] Hint Resolve blen_nonneg wrap_range : tm.

(** ** Lists *)

Lemma take_drop_split {A} n (l : list A) : take n l ++ drop n l = l.
Proof. apply take_drop. Qed.

(** [find] with the position left out: the first element that satisfies [f]. *)
Lemma find_some_in {A} (f : A -> bool) l x :
  List.find f l = Some x -> In x l /\ f x = true.
Proof. apply List.find_some. Qed.

Lemma find_none_all {A} (f : A -> bool) l :
  List.find f l = None <-> forall x, In x l -> f x = false.
Proof.
  split; [apply List.find_none|].
  induction l as [|a l IH]; cbn; intros H; [done|].
  rewrite (H a (or_introl eq_refl)); auto.
Qed.

(** ** Growing a buffer

    Every queue of the program doubles its capacity until the request fits
    ([while (ncap < need) ncap *= 2]); 64 doublings exhaust [size_t]. *)

Fixpoint double_until (fuel : nat) (ncap need : Z) : Z :=
  match fuel with
  | O => ncap
  | S fuel' => if ncap <? need then double_until fuel' (ncap * 2) need else ncap
  end.

Definition grow (ncap need : Z) : Z := double_until 64 ncap need.
Arguments grow : simpl never.

Lemma double_until_fits fuel : forall ncap need,
  1 <= ncap -> need <= ncap * 2 ^ Z.of_nat fuel -> need <= double_until fuel ncap need.
Proof.
  induction fuel as [|fuel IH]; intros ncap need Hc Hn; cbn [double_until].
  { cbn in Hn; lia. }
  cm; [|lia].
  apply IH; [lia|]. rewrite Nat2Z.inj_succ, Z.pow_succ_r in Hn by lia. nia.
Qed.

Lemma double_until_bound fuel : forall ncap need,
  1 <= ncap -> ncap <= double_until fuel ncap need <= Z.max ncap (2 * need).
Proof.
  induction fuel as [|fuel IH]; intros ncap need Hc; cbn [double_until]; [lia|].
  cm; [|lia]. specialize (IH (ncap * 2) need). lia.
Qed.

Lemma grow_fits ncap need : 1 <= ncap -> need < 2 ^ 64 -> need <= grow ncap need.
Proof. intros; apply double_until_fits; [done|]. change (Z.of_nat 64) with 64. nia. Qed.

Lemma grow_bound ncap need : 1 <= ncap -> ncap <= grow ncap need <= Z.max ncap (2 * need).
Proof. apply double_until_bound. Qed.
#[export] Hint Resolve grow_fits grow_bound : tm.

(** ** Bit operations as arithmetic *)

Lemma testbit_above b n i : 0 <= b < 2 ^ n -> n <= i -> Z.testbit b i = false.
Proof.
  intros Hb Hi. rewrite Z.testbit_eqb.
  - apply Z.eqb_neq. rewrite Z.div_small; [done|].
    split; [lia|]. apply Z.lt_le_trans with (2 ^ n); [lia|].
    apply Z.pow_le_mono_r; lia.
  - destruct (Z.lt_ge_cases n 0); [rewrite Z.pow_neg_r in Hb; lia | lia].
Qed.

Lemma lor_shiftl_add a b n : 0 <= n -> 0 <= b < 2 ^ n -> Z.lor (Z.shiftl a n) b = a * 2 ^ n + b.
Proof.
  intros Hn Hb. rewrite <- Z.shiftl_mul_pow2 by done.
  rewrite <- (Z.add_lor_land (Z.shiftl a n) b).
  assert (Z.land (Z.shiftl a n) b = 0) as ->; [|lia].
  apply Z.bits_inj'; intros i Hi. rewrite Z.land_spec, Z.bits_0.
  destruct (Z.lt_ge_cases i n).
  - now rewrite Z.shiftl_spec_low.
  - rewrite (testbit_above b n) by lia. apply andb_false_r.
Qed.


Lemma bytes_ok_app l k : bytes_ok l -> bytes_ok k -> bytes_ok (l ++ k).
Proof. apply Forall_app_2. Qed.
Lemma bytes_ok_take n l : bytes_ok l -> bytes_ok (take n l).
Proof. apply Forall_take. Qed.
Lemma bytes_ok_drop n l : bytes_ok l -> bytes_ok (drop n l).
Proof. apply Forall_drop. Qed.
#[export] Hint Resolve bytes_ok_app bytes_ok_take bytes_ok_drop : tm.

(** Deciding that a list holds bytes. *)
Definition bytes_okb (l : bytes) : bool := forallb (fun z => (0 <=? z) && (z <? 256)) l.

Lemma bytes_okb_ok l : bytes_okb l = true -> bytes_ok l.
Proof.
  unfold bytes_okb. rewrite forallb_forall. intros Hf. apply Forall_forall. intros z Hz.
  apply list_elem_of_In, Hf in Hz. zb. split; [lia|]. change (2 ^ 8) with 256. lia.
Qed.
