(* ===== verification/Wire.v ===== *)
(** * Wire formats

    The constants and byte-order helpers of [common/include/tunnelmate/common.h],
    the control-frame encoder and streaming reader and the datagram envelope of
    [common/src/frame.c].  Buffers are lists of byte values; the reader keeps the
    valid prefix of its buffer and the allocated capacity. *)

From S2P Require Import Prelude.

(** ** Constants of common.h and frame.h *)

Definition TM_PROTO_VERSION : Z := 1.
Definition TM_PROTO_STRING : bytes := cstr "TunnelMate/1".
Definition TM_PROTO_STRING_LEN : Z := 11.
Definition TM_MAX_FRAME_PAYLOAD : Z := 256 * 1024.
Definition TM_FRAME_HDR_LEN : Z := 10.
Definition TM_TUNNEL_ID_LEN : Z := 24.
Definition TM_MAX_TUNNEL_ID : Z := 128.
Definition TM_MAX_SECRET : Z := 256.
Definition TM_DEFAULT_DATAGRAM : Z := 1400.
Definition TM_PORT_START_DEFAULT : Z := 20000.
Definition TM_PORT_END_DEFAULT : Z := 40000.

Definition TM_MSG_HELLO : Z := 1.
Definition TM_MSG_HELLO_ACK : Z := 2.
Definition TM_MSG_REGISTER : Z := 3.
Definition TM_MSG_REGISTER_OK : Z := 4.
Definition TM_MSG_REGISTER_ERROR : Z := 5.
Definition TM_MSG_PING : Z := 6.
Definition TM_MSG_PONG : Z := 7.
Definition TM_MSG_OPEN_STREAM : Z := 8.
Definition TM_MSG_OPEN_STREAM_ACK : Z := 9.
Definition TM_MSG_OPEN_STREAM_ERROR : Z := 10.
Definition TM_MSG_DATA_BIND : Z := 11.
Definition TM_MSG_DATA_BIND_OK : Z := 12.
Definition TM_MSG_DATA_BIND_ERROR : Z := 13.
Definition TM_MSG_CLOSE_STREAM : Z := 14.
Definition TM_MSG_GOING_AWAY : Z := 15.
Definition TM_MSG_ERROR : Z := 16.
Definition TM_MSG_KILL_STREAM : Z := 17.
Definition TM_MSG_REGISTER_ACK : Z := 18.
Definition TM_MSG_AUTH : Z := 19.
Definition TM_MSG_AUTH_OK : Z := 20.
Definition TM_MSG_AUTH_ERROR : Z := 21.

Definition TM_ENV_FLAG_DIR_P2S : Z := 1.
Definition TM_ENV_FLAG_AUTH_REQ : Z := 2.
Definition TM_ENV_FLAG_AUTH_OK : Z := 4.
Definition TM_ENV_FLAG_AUTH_ERR : Z := 8.
Definition TM_ENV_FLAG_ALL : Z :=
  Z.lor (Z.lor (Z.lor TM_ENV_FLAG_DIR_P2S TM_ENV_FLAG_AUTH_REQ) TM_ENV_FLAG_AUTH_OK)
        TM_ENV_FLAG_AUTH_ERR.

Inductive tm_proto := TM_PROTO_TCP | TM_PROTO_UDP.

#[export] Instance tm_proto_eq_dec : EqDecision tm_proto.
Proof. solve_decision. Defined.

Inductive tm_status :=
  | TM_OK | TM_ERR | TM_ERR_AGAIN | TM_ERR_EOF | TM_ERR_PROTO | TM_ERR_TLS
  | TM_ERR_OOM | TM_ERR_BUSY | TM_ERR_NOTFOUND | TM_ERR_FULL | TM_ERR_INVALID | TM_ERR_IO.

#[export] Instance tm_status_eq_dec : EqDecision tm_status.
Proof. solve_decision. Defined.

(** ** Big-endian integers *)

Definition byte_at (p : bytes) (i : nat) : Z := List.nth i p 0.

Definition rd_u16 (p : bytes) : Z :=
  u16 (Z.lor (Z.shiftl (byte_at p 0) 8) (byte_at p 1)).

Definition rd_u32 (p : bytes) : Z :=
  Z.lor (Z.lor (Z.lor (Z.shiftl (byte_at p 0) 24) (Z.shiftl (byte_at p 1) 16))
               (Z.shiftl (byte_at p 2) 8)) (byte_at p 3).

Definition rd_u64 (p : bytes) : Z :=
  Z.lor (Z.shiftl (rd_u32 p) 32) (rd_u32 (drop 4 p)).

Definition wr_u16 (v : Z) : bytes := [u8 (Z.shiftr v 8); u8 v].

Definition wr_u32 (v : Z) : bytes :=
  [u8 (Z.shiftr v 24); u8 (Z.shiftr v 16); u8 (Z.shiftr v 8); u8 v].

Definition wr_u64 (v : Z) : bytes := wr_u32 (u32 (Z.shiftr v 32)) ++ wr_u32 (u32 v).

(** ** Frames *)

Record tm_frame := Frame {
  f_version : Z;
  f_type : Z;
  f_stream_id : Z;
  f_payload_len : Z;
  f_payload : bytes;
}.

(** [tm_frame_make]: NULL for an oversized payload, otherwise a copy of the
    first [payload_len] bytes of [payload]. *)
Definition tm_frame_make (type stream_id : Z) (payload : bytes) (payload_len : Z)
  : option tm_frame :=
  if TM_MAX_FRAME_PAYLOAD <? payload_len then None
  else Some (Frame TM_PROTO_VERSION (u8 type) (u32 stream_id) payload_len
                   (take (Z.to_nat payload_len) payload)).

Definition tm_frame_encode (f : tm_frame) : option bytes :=
  if TM_MAX_FRAME_PAYLOAD <? f_payload_len f then None
  else Some ([TM_PROTO_VERSION; f_type f] ++ wr_u32 (f_payload_len f)
             ++ wr_u32 (f_stream_id f)
             ++ take (Z.to_nat (f_payload_len f)) (f_payload f)).

(** ** The streaming reader *)

Record tm_frame_reader := Reader {
  fr_buf : bytes;   (* buf[0 .. len) *)
  fr_cap : Z;
}.

#[export] Instance eta_reader : Eta tm_frame_reader := settable! Reader <fr_buf; fr_cap>.

Definition tm_frame_reader_new : tm_frame_reader := Reader [] 0.

Definition tm_frame_reader_buffered (r : option tm_frame_reader) : Z :=
  match r with Some r => blen (fr_buf r) | None => 0 end.

(** The bytes drained and the reader left; the capacity is kept. *)
Definition tm_frame_reader_drain (r : tm_frame_reader) : bytes * tm_frame_reader :=
  if blen (fr_buf r) =? 0 then ([], r) else (fr_buf r, r <| fr_buf := [] |>).

Inductive feed_res := FeedErr | FeedMore | FeedFrame (f : tm_frame).

(** [tm_frame_reader_feed(r, data, len, &errored)]; the call with
    [data == NULL, len == 0] is [feed r []]. *)
Definition tm_frame_reader_feed (r : tm_frame_reader) (data : bytes)
  : feed_res * tm_frame_reader :=
  let len := blen data in
  if negb (len =? 0) &&
     ((2 ^ 64 - 1 - blen (fr_buf r) <? len) ||
      (TM_MAX_FRAME_PAYLOAD + TM_FRAME_HDR_LEN <? blen (fr_buf r) + len))
  then (FeedErr, r)
  else
    let r :=
      if negb (len =? 0) then
        let cap := if fr_cap r <? blen (fr_buf r) + len
                   then grow (if fr_cap r =? 0 then 1024 else fr_cap r) (blen (fr_buf r) + len)
                   else fr_cap r in
        Reader (fr_buf r ++ data) cap
      else r in
    let buf := fr_buf r in
    if blen buf <? TM_FRAME_HDR_LEN then (FeedMore, r)
    else if negb (byte_at buf 0 =? TM_PROTO_VERSION) then (FeedErr, r)
    else
      let pay_len := rd_u32 (drop 2 buf) in
      if TM_MAX_FRAME_PAYLOAD <? pay_len then (FeedErr, r)
      else
        let frame_len := TM_FRAME_HDR_LEN + pay_len in
        if blen buf <? frame_len then (FeedMore, r)
        else
          match tm_frame_make (byte_at buf 1) (rd_u32 (drop 6 buf)) (drop 10 buf) pay_len with
          | None => (FeedMore, r)
          | Some f => (FeedFrame f, r <| fr_buf := drop (Z.to_nat frame_len) buf |>)
          end.

(** ** Datagram envelopes *)

Definition TM_ENV_HDR_LEN : Z := 11.

Definition tm_env_encode (flow_id flags : Z) (payload : bytes) : bytes :=
  wr_u16 11 ++ wr_u64 flow_id ++ [u8 flags] ++ payload.

(** [flow_id, flags, payload] on TM_OK, [None] for TM_ERR_PROTO. *)
Definition tm_env_decode (buf : bytes) : option (Z * Z * bytes) :=
  if blen buf <? 11 then None
  else if negb (rd_u16 buf =? 11) then None
  else
    let fl := byte_at buf 10 in
    if negb (Z.land fl (Z.lnot TM_ENV_FLAG_ALL) =? 0) then None
    else Some (rd_u64 (drop 2 buf), fl, drop 11 buf).

(** ** Big-endian round trips *)

Lemma rd_u16_eq a b l :
  byte_ok a -> byte_ok b -> rd_u16 (a :: b :: l) = a * 256 + b.
Proof.
  unfold byte_ok, in_width, rd_u16, byte_at; cbn [List.nth]; intros Ha Hb.
  rewrite lor_shiftl_add by lia. apply wrap_small. red. lia.
Qed.

Lemma rd_u32_eq a b c d l :
  byte_ok a -> byte_ok b -> byte_ok c -> byte_ok d ->
  rd_u32 (a :: b :: c :: d :: l) = ((a * 256 + b) * 256 + c) * 256 + d.
Proof.
  unfold byte_ok, in_width, rd_u32, byte_at; cbn [List.nth]; intros Ha Hb Hc Hd.
  rewrite <- !Z.lor_assoc, (lor_shiftl_add c d), (Z.lor_comm (Z.shiftl b 16)).
  all: try lia.
  rewrite Z.lor_comm, (Z.lor_comm _ (Z.shiftl b 16)), (lor_shiftl_add b), Z.lor_comm,
    lor_shiftl_add by lia. lia.
Qed.

Lemma wr_u16_ok v : bytes_ok (wr_u16 v).
Proof. repeat constructor; apply wrap_range; lia. Qed.
Lemma wr_u32_ok v : bytes_ok (wr_u32 v).
Proof. repeat constructor; apply wrap_range; lia. Qed.
Lemma wr_u64_ok v : bytes_ok (wr_u64 v).
Proof. apply Forall_app; split; apply wr_u32_ok. Qed.
#[export] Hint Resolve wr_u16_ok wr_u32_ok wr_u64_ok : tm.

Lemma wrap8_shiftr v n : 0 <= n -> u8 (Z.shiftr v n) = (v / 2 ^ n) mod 256.
Proof. intros; unfold wrap. now rewrite Z.shiftr_div_pow2. Qed.

Lemma rd_wr_u16 v l : in_width 16 v -> rd_u16 (wr_u16 v ++ l) = v.
Proof.
  intros Hv. cbn [wr_u16 app]. rewrite rd_u16_eq by (apply wrap_range; lia).
  rewrite wrap8_shiftr by lia. unfold wrap, in_width in *.
  Z.div_mod_to_equations; lia.
Qed.

Lemma rd_wr_u32 v l : in_width 32 v -> rd_u32 (wr_u32 v ++ l) = v.
Proof.
  intros Hv. cbn [wr_u32 app]. rewrite rd_u32_eq by (apply wrap_range; lia).
  rewrite !wrap8_shiftr by lia. unfold wrap, in_width in *.
  Z.div_mod_to_equations; lia.
Qed.

Lemma rd_u32_range l : bytes_ok l -> in_width 32 (rd_u32 l).
Proof.
  intros Hl.
  assert (Hb : forall i, byte_ok (byte_at l i)).
  { intros i. unfold byte_at. destruct (Nat.lt_ge_cases i (length l)).
    - apply (proj1 (List.Forall_forall _ _) Hl). now apply nth_In.
    - rewrite nth_overflow by lia. unfold byte_ok, in_width; lia. }
  pose proof (rd_u32_eq _ _ _ _ [] (Hb 0%nat) (Hb 1%nat) (Hb 2%nat) (Hb 3%nat)) as E.
  change (rd_u32 [byte_at l 0; byte_at l 1; byte_at l 2; byte_at l 3]) with (rd_u32 l) in E.
  pose proof (Hb 0%nat); pose proof (Hb 1%nat); pose proof (Hb 2%nat); pose proof (Hb 3%nat).
  unfold byte_ok, in_width in *. rewrite E. lia.
Qed.

Lemma rd_wr_u64 v l : in_width 64 v -> rd_u64 (wr_u64 v ++ l) = v.
Proof.
  intros Hv. unfold rd_u64, wr_u64. rewrite <- app_assoc, rd_wr_u32 by (apply wrap_range; lia).
  change (drop 4 (wr_u32 (u32 (Z.shiftr v 32)) ++ ?x)) with x.
  rewrite rd_wr_u32 by (apply wrap_range; lia).
  rewrite lor_shiftl_add by (first [lia | apply wrap_range; lia]).
  unfold wrap, in_width in *. rewrite Z.shiftr_div_pow2 by lia.
  Z.div_mod_to_equations; lia.
Qed.

(** Reading only looks at a prefix of the buffer. *)
Lemma byte_at_app i l k : (i < length l)%nat -> byte_at (l ++ k) i = byte_at l i.
Proof. intros; unfold byte_at; now apply app_nth1. Qed.

Lemma rd_u32_app l k : (4 <= length l)%nat -> rd_u32 (l ++ k) = rd_u32 l.
Proof. intros; unfold rd_u32; now rewrite !byte_at_app by lia. Qed.

(** ** The reader as a parser of its buffer

    [parse1] is what [tm_frame_reader_feed] does once the data is buffered; the
    capacity plays no part in it. *)

Inductive parse_res := PErr | PMore | PFrame (f : tm_frame) (rest : bytes).

Definition parse1 (buf : bytes) : parse_res :=
  if blen buf <? TM_FRAME_HDR_LEN then PMore
  else if negb (byte_at buf 0 =? TM_PROTO_VERSION) then PErr
  else
    let pay_len := rd_u32 (drop 2 buf) in
    if TM_MAX_FRAME_PAYLOAD <? pay_len then PErr
    else if blen buf <? TM_FRAME_HDR_LEN + pay_len then PMore
    else PFrame (Frame TM_PROTO_VERSION (u8 (byte_at buf 1)) (u32 (rd_u32 (drop 6 buf))) pay_len
                       (take (Z.to_nat pay_len) (drop 10 buf)))
                (drop (Z.to_nat (TM_FRAME_HDR_LEN + pay_len)) buf).

Definition feed_fits (r : tm_frame_reader) (data : bytes) : Prop :=
  blen (fr_buf r) + blen data <= TM_MAX_FRAME_PAYLOAD + TM_FRAME_HDR_LEN.

Definition feed_of_parse (p : parse_res) : feed_res :=
  match p with PErr => FeedErr | PMore => FeedMore | PFrame f _ => FeedFrame f end.

Definition rest_of_parse (buf : bytes) (p : parse_res) : bytes :=
  match p with PFrame _ rest => rest | _ => buf end.

Lemma feed_parse r data :
  feed_fits r data ->
  let p := parse1 (fr_buf r ++ data) in
  (tm_frame_reader_feed r data).1 = feed_of_parse p /\
  fr_buf (tm_frame_reader_feed r data).2 = rest_of_parse (fr_buf r ++ data) p.
Proof.
  unfold feed_fits; intros Hfit; pose proof (blen_nonneg (fr_buf r)).
  unfold tm_frame_reader_feed, TM_MAX_FRAME_PAYLOAD, TM_FRAME_HDR_LEN in *.
  replace (negb (blen data =? 0) && _) with false.
  2: { symmetry; zb. right; split; zb; lia. }
  destruct (negb (blen data =? 0)) eqn:Ed; cbn [fr_buf].
  2: { zb. apply blen_0_nil in Ed as ->. rewrite app_nil_r. unfold parse1, tm_frame_make.
       unfold TM_MAX_FRAME_PAYLOAD, TM_FRAME_HDR_LEN. cms; naive_solver lia. }
  unfold parse1, tm_frame_make, TM_MAX_FRAME_PAYLOAD, TM_FRAME_HDR_LEN. cms; naive_solver lia.
Qed.

Lemma feed_overflow r data :
  0 < blen data -> ~ feed_fits r data -> tm_frame_reader_feed r data = (FeedErr, r).
Proof.
  unfold feed_fits; intros. unfold tm_frame_reader_feed. cm; [done|]. naive_solver lia.
Qed.

(** A decision taken on a buffer stands when more bytes arrive. *)
Lemma parse1_app_err a b : parse1 a = PErr -> parse1 (a ++ b) = PErr.
Proof.
  unfold parse1, TM_FRAME_HDR_LEN. intros H.
  destruct (blen a <? 10) eqn:E; [done|]. zb.
  replace (blen (a ++ b) <? 10) with false by (symmetry; zb; blen_solve).
  rewrite byte_at_app by blen_solve.
  rewrite drop_app_le by blen_solve. rewrite rd_u32_app by (rewrite length_drop; blen_solve).
  cmh.
Qed.

Lemma parse1_app_frame a b f rest :
  bytes_ok a -> parse1 a = PFrame f rest -> parse1 (a ++ b) = PFrame f (rest ++ b).
Proof.
  unfold parse1, TM_FRAME_HDR_LEN. intros Hok H.
  destruct (blen a <? 10) eqn:E; [done|]. zb.
  replace (blen (a ++ b) <? 10) with false by (symmetry; zb; blen_solve).
  rewrite !byte_at_app by blen_solve.
  rewrite !(drop_app_le a b) by blen_solve.
  rewrite !rd_u32_app by (rewrite length_drop; blen_solve).
  assert (in_width 32 (rd_u32 (drop 2 a))) as Hp by (apply rd_u32_range, Forall_drop, Hok).
  unfold in_width in Hp.
  cmh; zb; try blen_solve. f_equal; [f_equal|].
  - rewrite take_app_le by (rewrite length_drop; blen_solve). done.
  - rewrite drop_app_le by blen_solve. done.
Qed.

Lemma parse1_frame_inv buf f rest :
  bytes_ok buf -> parse1 buf = PFrame f rest ->
  f_version f = TM_PROTO_VERSION /\ in_width 8 (f_type f) /\ in_width 32 (f_stream_id f) /\
  f_payload_len f = blen (f_payload f) /\ f_payload_len f <= TM_MAX_FRAME_PAYLOAD /\
  bytes_ok (f_payload f) /\ bytes_ok rest /\
  blen buf = TM_FRAME_HDR_LEN + f_payload_len f + blen rest.
Proof.
  intros Hok. unfold parse1, TM_FRAME_HDR_LEN. intros H.
  assert (in_width 32 (rd_u32 (drop 2 buf))) as Hp by (apply rd_u32_range, Forall_drop, Hok).
  unfold in_width in Hp. cmh. zb.
  assert (blen (drop 10 buf) = blen buf - 10) by (apply (blen_drop 10); blen_solve).
  rewrite blen_take by lia. rewrite blen_drop by lia.
  repeat split; try (apply wrap_range; lia); try lia; auto using Forall_take, Forall_drop;
    try (apply Forall_take, Forall_drop, Hok); try (apply Forall_drop, Hok).
  all: apply (wrap_range 8 (byte_at buf 1)) || apply (wrap_range 32); lia.
Qed.

(** A frame that comes out took its bytes from the buffer. *)
Lemma feed_consumes r data : bytes_ok (fr_buf r) -> bytes_ok data ->
  bytes_ok (fr_buf (tm_frame_reader_feed r data).2) /\
  forall f, (tm_frame_reader_feed r data).1 = FeedFrame f ->
    (length (fr_buf (tm_frame_reader_feed r data).2) < length (fr_buf r) + length data)%nat.
Proof.
  intros Hr Hd. unfold tm_frame_reader_feed. cbv zeta. destruct (negb _ && _); [by split|].
  set (r1 := if negb _ then Reader _ _ else r).
  assert (fr_buf r1 = fr_buf r ++ data) as E1.
  { subst r1. destruct (blen data =? 0) eqn:E; cbn [negb]; [|done]. zb. apply blen_0_nil in E as ->. by rewrite app_nil_r. }
  clearbody r1. rewrite E1. set (buf := fr_buf r ++ data).
  assert (bytes_ok buf) as Hb by (by apply bytes_ok_app).
  assert (length buf = length (fr_buf r) + length data)%nat as <- by (unfold buf; by rewrite length_app).
  assert (in_width 32 (rd_u32 (drop 2 buf))) as [Hp _] by (apply rd_u32_range, Forall_drop, Hb).
  unfold tm_frame_make, TM_FRAME_HDR_LEN. repeat case_match; simplify_eq/=; rewrite ?E1; try by split.
  split; [by apply Forall_drop|]. intros _ _. rewrite length_drop. zb. unfold blen in *. lia.
Qed.

(** ** The read loop

    Every owner of a reader (the control connection, the agent session, the
    agent's and the peer's connections) drives it the same way: feed the chunk
    that arrived, then feed nothing until no frame comes out.  The result is the
    frames in order, whether the last call set [errored], and the reader;
    [None] means the fuel ran out. *)

Fixpoint drive_loop (fuel : nat) (r : tm_frame_reader) (data : bytes)
  : option (list tm_frame * bool * tm_frame_reader) :=
  match fuel with
  | O => None
  | S fuel' =>
      match tm_frame_reader_feed r data with
      | (FeedErr, r') => Some ([], true, r')
      | (FeedMore, r') => Some ([], false, r')
      | (FeedFrame f, r') =>
          match drive_loop fuel' r' [] with
          | Some (fs, err, r'') => Some (f :: fs, err, r'')
          | None => None
          end
      end
  end.

Definition drive (r : tm_frame_reader) (data : bytes) :=
  drive_loop (S (length (fr_buf r ++ data))) r data.

(** Chunks as they arrive; nothing is read after an error. *)
Fixpoint drive_chunks (r : tm_frame_reader) (cs : list bytes)
  : option (list tm_frame * bool * tm_frame_reader) :=
  match cs with
  | [] => Some ([], false, r)
  | c :: cs' =>
      match drive r c with
      | Some (fs, false, r') =>
          match drive_chunks r' cs' with
          | Some (fs', err, r'') => Some (fs ++ fs', err, r'')
          | None => None
          end
      | res => res
      end
  end.

(** The same loop on the buffer alone. *)
Fixpoint parse_all (fuel : nat) (buf : bytes) : list tm_frame * bool * bytes :=
  match fuel with
  | O => ([], false, buf)
  | S fuel' =>
      match parse1 buf with
      | PErr => ([], true, buf)
      | PMore => ([], false, buf)
      | PFrame f rest =>
          let '(fs, err, rest') := parse_all fuel' rest in (f :: fs, err, rest')
      end
  end.

Definition parse_stream (buf : bytes) := parse_all (S (length buf)) buf.

#[global] Arguments parse_stream : simpl never.

Definition outcome (o : option (list tm_frame * bool * tm_frame_reader))
  : option (list tm_frame * bool * bytes) :=
  match o with Some (fs, e, r) => Some (fs, e, fr_buf r) | None => None end.

Lemma parse_all_fuel n : forall m buf,
  bytes_ok buf -> (length buf < n)%nat -> (length buf < m)%nat ->
  parse_all n buf = parse_all m buf.
Proof.
  induction n as [|n IH]; intros [|m] buf Hok Hn Hm; try lia. cbn [parse_all].
  destruct (parse1 buf) as [| |f rest] eqn:E; try done.
  pose proof (parse1_frame_inv _ _ _ Hok E) as (_ & _ & _ & Hpl & _ & _ & Hr & Hlen).
  rewrite (IH m rest); [done|done| |];
    unfold TM_FRAME_HDR_LEN in Hlen; pose proof (blen_nonneg (f_payload f)); blen_solve.
Qed.

Lemma drive_loop_parse n : forall r data,
  feed_fits r data -> bytes_ok (fr_buf r ++ data) -> (length (fr_buf r ++ data) < n)%nat ->
  outcome (drive_loop n r data) = Some (parse_all n (fr_buf r ++ data)).
Proof.
  induction n as [|n IH]; intros r data Hfit Hok Hn; [lia|]. cbn [drive_loop parse_all].
  destruct (feed_parse r data Hfit) as [H1 H2].
  destruct (tm_frame_reader_feed r data) as [res r'] eqn:E; cbn [fst snd] in *.
  destruct (parse1 (fr_buf r ++ data)) as [| |f rest] eqn:Ep; cbn in H1, H2; subst res; cbn.
  1,2: now rewrite H2.
  pose proof (parse1_frame_inv _ _ _ Hok Ep) as (_ & _ & _ & Hpl & _ & _ & Hr & Hlen).
  assert (length rest < n)%nat as Hlt.
  { unfold TM_FRAME_HDR_LEN in Hlen; pose proof (blen_nonneg (f_payload f)); blen_solve. }
  assert (feed_fits r' []) as Hfit'.
  { unfold feed_fits in *. rewrite H2. pose proof (blen_nonneg (f_payload f)).
    unfold TM_FRAME_HDR_LEN in Hlen. autorewrite with blen in *. lia. }
  specialize (IH r' [] Hfit'). rewrite app_nil_r, H2 in IH. specialize (IH Hr Hlt).
  destruct (drive_loop n r' []) as [[[fs e] r'']|]; [|done].
  destruct (parse_all n rest) as [[fs' e'] rest']. cbn in IH |- *. congruence.
Qed.

Lemma drive_parse r data :
  feed_fits r data -> bytes_ok (fr_buf r ++ data) ->
  outcome (drive r data) = Some (parse_stream (fr_buf r ++ data)).
Proof. intros; apply drive_loop_parse; auto with lia. Qed.

Lemma parse_stream_err a : parse1 a = PErr -> parse_stream a = ([], true, a).
Proof. intros E. unfold parse_stream. cbn [parse_all]. now rewrite E. Qed.

Lemma parse_stream_pmore a : parse1 a = PMore -> parse_stream a = ([], false, a).
Proof. intros E. unfold parse_stream. cbn [parse_all]. now rewrite E. Qed.

Lemma parse_stream_frame a f rest :
  bytes_ok a -> parse1 a = PFrame f rest ->
  parse_stream a = let '(fs, e, r) := parse_stream rest in (f :: fs, e, r).
Proof.
  intros Ha E. unfold parse_stream at 1. cbn [parse_all]. rewrite E.
  pose proof (parse1_frame_inv _ _ _ Ha E) as (_ & _ & _ & Hpl & _ & _ & Hr & Hlen).
  rewrite (parse_all_fuel _ (S (length rest))); [done|done| |lia].
  unfold TM_FRAME_HDR_LEN in Hlen; pose proof (blen_nonneg (f_payload f)); blen_solve.
Qed.

(** Parsing a concatenation: parse the first part, then what it left followed by
    the second. *)
Lemma parse_stream_app a b :
  bytes_ok a -> bytes_ok b ->
  parse_stream (a ++ b) =
    match parse_stream a with
    | (fs, true, _) => (fs, true, (parse_stream (a ++ b)).2)
    | (fs, false, rest) =>
        let '(fs', e, rest') := parse_stream (rest ++ b) in (fs ++ fs', e, rest')
    end.
Proof.
  intros Ha Hb. remember (length a) as n eqn:En. revert a Ha En.
  induction n as [n IH] using lt_wf_ind; intros a Ha ->.
  destruct (parse1 a) as [| |f rest] eqn:E.
  - rewrite (parse_stream_err a) by done.
    now rewrite (parse_stream_err (a ++ b)) by now apply parse1_app_err.
  - rewrite (parse_stream_pmore a) by done.
    now destruct (parse_stream (a ++ b)) as [[fs e] rest].
  - rewrite (parse_stream_frame a f rest) by done.
    rewrite (parse_stream_frame (a ++ b) f (rest ++ b)) by eauto using parse1_app_frame with tm.
    pose proof (parse1_frame_inv _ _ _ Ha E) as (_ & _ & _ & Hpl & _ & _ & Hr & Hlen).
    assert (length rest < length a)%nat as Hlt.
    { unfold TM_FRAME_HDR_LEN in Hlen; pose proof (blen_nonneg (f_payload f)); blen_solve. }
    specialize (IH _ Hlt rest Hr eq_refl).
    rewrite IH. destruct (parse_stream rest) as [[fs [|]] rest']; [done|].
    now destruct (parse_stream (rest' ++ b)) as [[fs2 e2] r2].
Qed.

Lemma parse_stream_rest_ok a : bytes_ok a -> bytes_ok (parse_stream a).2 /\
  blen (parse_stream a).2 <= blen a.
Proof.
  unfold parse_stream. generalize (S (length a)) as n. intros n; revert a.
  induction n as [|n IH]; intros a Ha; cbn [parse_all]; [cbn; split; [done|lia]|].
  destruct (parse1 a) as [| |f rest] eqn:E; cbn; try (split; [done|lia]).
  pose proof (parse1_frame_inv _ _ _ Ha E) as (_ & _ & _ & Hpl & _ & _ & Hr & Hlen).
  destruct (IH rest Hr) as [H1 H2]. destruct (parse_all n rest) as [[fs e] rest']; cbn in *.
  split; [done|]. unfold TM_FRAME_HDR_LEN in *. pose proof (blen_nonneg (f_payload f)). lia.
Qed.

Lemma parse_stream_more a :
  bytes_ok a -> (parse_stream a).1.2 = false -> parse1 (parse_stream a).2 = PMore.
Proof.
  unfold parse_stream. assert (length a < S (length a))%nat as Hn by lia. revert Hn.
  generalize (S (length a)) as n. intros n; revert a.
  induction n as [|n IH]; intros a Hn Ha; cbn [parse_all]; [lia|].
  destruct (parse1 a) as [| |f rest] eqn:E; cbn; try done.
  pose proof (parse1_frame_inv _ _ _ Ha E) as (_ & _ & _ & Hpl & _ & _ & Hr & Hlen).
  specialize (IH rest). destruct (parse_all n rest) as [[fs e] rest']; cbn in *.
  intros ->. apply IH; auto. unfold TM_FRAME_HDR_LEN in Hlen.
  pose proof (blen_nonneg (f_payload f)); blen_solve.
Qed.

(** C31: how the control stream is cut into chunks does not matter.  As long as
    the bytes buffered plus the bytes still to come fit the reader's limit,
    feeding them chunk by chunk yields the same frames, the same error flag and
    the same unparsed tail as feeding them at once. *)
Theorem drive_chunks_concat r cs :
  feed_fits r (concat cs) -> bytes_ok (fr_buf r) -> Forall bytes_ok cs ->
  parse1 (fr_buf r) = PMore ->
  exists fs e r1 r2,
    drive_chunks r cs = Some (fs, e, r1) /\
    drive r (concat cs) = Some (fs, e, r2) /\
    (e = false -> fr_buf r1 = fr_buf r2).
Proof.
  revert r; induction cs as [|c cs IH]; intros r Hfit Hb Hcs Hmore; cbn [concat drive_chunks] in *.
  { pose proof (drive_parse r [] Hfit) as D. rewrite app_nil_r in D. specialize (D Hb).
    unfold parse_stream in D. cbn [parse_all] in D. rewrite Hmore in D.
    destruct (drive r []) as [[[fs e] r2]|]; cbn in D; simplify_eq. naive_solver. }
  apply Forall_cons in Hcs as [Hc Hcs].
  assert (bytes_ok (concat cs)) as Hcc by (now apply Forall_concat).
  assert (feed_fits r c) as Hf1 by (unfold feed_fits in *; autorewrite with blen in *;
                                    pose proof (blen_nonneg (concat cs)); lia).
  pose proof (drive_parse r c Hf1 (Forall_app_2 _ _ _ Hb Hc)) as D1.
  pose proof (drive_parse r _ Hfit (Forall_app_2 _ _ _ Hb (Forall_app_2 _ _ _ Hc Hcc))) as D2.
  rewrite app_assoc, parse_stream_app in D2 by auto with tm.
  pose proof (parse_stream_rest_ok _ (Forall_app_2 _ _ _ Hb Hc)) as [Hrok Hrlen].
  pose proof (parse_stream_more _ (Forall_app_2 _ _ _ Hb Hc)) as Hrm.
  destruct (drive r c) as [[[fs1 e1] r1]|]; [|done]. cbn in D1.
  destruct (parse_stream (fr_buf r ++ c)) as [[fs1' e1'] rest1]; cbn in Hrok, Hrlen, Hrm.
  injection D1 as <- <- <-.
  destruct (drive r (c ++ concat cs)) as [[[fs2 e2] r2]|]; [|done]. cbn in D2.
  destruct e1.
  { injection D2 as -> -> _. do 4 eexists; split_and!; eauto. done. }
  assert (feed_fits r1 (concat cs)) as Hf2
    by (unfold feed_fits in *; autorewrite with blen in *; lia).
  destruct (IH r1 Hf2 Hrok Hcs (Hrm eq_refl)) as (fs & e & ra & rb & Ha & Hbb & Hab).
  pose proof (drive_parse r1 _ Hf2 (Forall_app_2 _ _ _ Hrok Hcc)) as D3.
  rewrite Ha. rewrite Hbb in D3. cbn in D3.
  destruct (parse_stream (fr_buf r1 ++ concat cs)) as [[fs3 e3] rest3].
  injection D3 as -> -> D3. injection D2 as -> -> D2.
  do 4 eexists; split_and!; eauto. intros ->. rewrite Hab by done. congruence.
Qed.

Lemma drive_chunks_concat_witness :
  exists fs e r1 r2,
    drive_chunks tm_frame_reader_new [[1; 6; 0]; [0; 0; 0; 0; 0; 0]; [9; 1]] = Some (fs, e, r1) /\
    drive tm_frame_reader_new (concat [[1; 6; 0]; [0; 0; 0; 0; 0; 0]; [9; 1]]) = Some (fs, e, r2) /\
    (e = false -> fr_buf r1 = fr_buf r2).
Proof.
  apply (drive_chunks_concat tm_frame_reader_new [[1; 6; 0]; [0; 0; 0; 0; 0; 0]; [9; 1]]).
  - vm_compute; discriminate.
  - constructor.
  - repeat constructor; lia.
  - reflexivity.
Defined.

(** ** Round trips *)

Definition wf_frame (f : tm_frame) : Prop :=
  f_version f = TM_PROTO_VERSION /\ in_width 8 (f_type f) /\ in_width 32 (f_stream_id f) /\
  f_payload_len f = blen (f_payload f) /\ f_payload_len f <= TM_MAX_FRAME_PAYLOAD.

(** What [tm_frame_make] builds is well formed, and it builds one exactly for
    payloads within the limit. *)
Lemma tm_frame_make_wf type sid payload f :
  tm_frame_make type sid payload (blen payload) = Some f ->
  wf_frame f /\ f_payload f = payload /\ f_type f = u8 type /\ f_stream_id f = u32 sid.
Proof.
  unfold tm_frame_make. intros; cmh; zb. pose proof (blen_nonneg payload).
  unfold wf_frame; cbn. rewrite !take_ge by (unfold blen; lia).
  split_and!; try done; try (apply wrap_range; lia).
Qed.

Lemma parse1_encode f bs rest :
  wf_frame f -> tm_frame_encode f = Some bs -> parse1 (bs ++ rest) = PFrame f rest.
Proof.
  destruct f as [v t sid pl p]; unfold wf_frame, tm_frame_encode; cbn.
  intros (-> & Ht & Hs & -> & Hp) H. case_match; [done|]. simplify_eq. zb.
  assert (0 <= blen p < 2 ^ 32) as Hw by (unfold TM_MAX_FRAME_PAYLOAD in *;
                                          pose proof (blen_nonneg p); lia).
  rewrite (take_ge p) by (unfold blen; lia).
  set (hdr := 1 :: t :: wr_u32 (blen p) ++ wr_u32 sid ++ p ++ rest).
  match goal with |- parse1 ?x = _ => replace x with hdr by reflexivity end.
  unfold parse1, TM_FRAME_HDR_LEN, TM_PROTO_VERSION.
  assert (blen hdr = 10 + blen p + blen rest) as Hl by (unfold hdr; cbn; blen_solve).
  assert (drop 10 hdr = p ++ rest) as Hd by reflexivity.
  assert (drop 2 hdr = wr_u32 (blen p) ++ (wr_u32 sid ++ p ++ rest)) as H2 by reflexivity.
  assert (drop 6 hdr = wr_u32 sid ++ (p ++ rest)) as H6 by reflexivity.
  pose proof (blen_nonneg rest).
  rewrite Hd, H2, H6, !rd_wr_u32 by (red; lia || done).
  rewrite Hl. repeat (case_match; zb; try lia; try done).
  f_equal; [f_equal|].
  - now apply wrap_small.
  - now apply wrap_small.
  - apply take_app_length'. unfold blen; lia.
  - replace (Z.to_nat (10 + blen p)) with (10 + length p)%nat by (unfold blen; lia).
    rewrite <- drop_drop, Hd. apply drop_app_length.
Qed.

(** What the encoder writes the reader gives back.  A reader with an empty
    buffer that is fed an encoded frame followed by any bytes returns exactly that
    frame and keeps exactly those bytes. *)
Theorem frame_roundtrip f bs rest cap :
  wf_frame f -> tm_frame_encode f = Some bs ->
  blen bs + blen rest <= TM_MAX_FRAME_PAYLOAD + TM_FRAME_HDR_LEN ->
  exists r', tm_frame_reader_feed (Reader [] cap) (bs ++ rest) = (FeedFrame f, r') /\
             fr_buf r' = rest.
Proof.
  intros Hw He Hl.
  destruct (feed_parse (Reader [] cap) (bs ++ rest)) as [H1 H2].
  { unfold feed_fits; cbn [fr_buf]. autorewrite with blen. lia. }
  cbn [fr_buf app] in *. rewrite (parse1_encode f bs rest Hw He) in *.
  destruct (tm_frame_reader_feed _ _) as [res r'] eqn:E; cbn in H1, H2. subst. eauto.
Qed.

Lemma frame_roundtrip_witness :
  exists r', tm_frame_reader_feed (Reader [] 0) ([1; 16; 0; 0; 0; 2; 0; 0; 0; 7; 104; 105] ++ [9])
             = (FeedFrame (Frame 1 16 7 2 [104; 105]), r') /\ fr_buf r' = [9].
Proof.
  apply (frame_roundtrip (Frame 1 16 7 2 [104; 105]) _ [9] 0); [|reflexivity|].
  - repeat split; vm_compute; congruence.
  - vm_compute; discriminate.
Defined.

(** A stream of encoded frames is self-delimiting.  The read loop splits the
    concatenation of any encoded frames, followed by a tail that is not yet a
    frame, into exactly those frames in order, without error and without running
    out of fuel, and leaves the tail in the buffer (which is what
    [tm_frame_reader_drain] hands to the relay). *)
Theorem drive_frames r fs bss tail :
  Forall wf_frame fs -> Forall2 (fun f bs => tm_frame_encode f = Some bs) fs bss ->
  Forall bytes_ok bss -> bytes_ok tail -> parse1 tail = PMore -> fr_buf r = [] ->
  blen (concat bss ++ tail) <= TM_MAX_FRAME_PAYLOAD + TM_FRAME_HDR_LEN ->
  exists r', drive r (concat bss ++ tail) = Some (fs, false, r') /\ fr_buf r' = tail /\
             (tm_frame_reader_drain r').1 = tail.
Proof.
  intros Hwf He Hok Htail Hmore Hr Hlen.
  assert (parse_stream (concat bss ++ tail) = (fs, false, tail)) as Hp.
  { clear Hlen. induction He as [|f bs fs bss E _ IH]; cbn [concat app].
    { now apply parse_stream_pmore. }
    apply Forall_cons in Hwf as [Hf Hwf]. apply Forall_cons in Hok as [Hb Hok].
    rewrite <- app_assoc.
    assert (bytes_ok (concat bss)) as Hc by (now apply Forall_concat).
    rewrite (parse_stream_frame _ f (concat bss ++ tail)); [|auto with tm|now apply parse1_encode].
    now rewrite (IH Hwf Hok). }
  pose proof (drive_parse r (concat bss ++ tail)) as D. rewrite Hr in D. cbn [app] in D.
  assert (bytes_ok (concat bss)) as Hc by (now apply Forall_concat).
  rewrite Hp in D. destruct (drive r (concat bss ++ tail)) as [[[fs' e'] r']|].
  2: { cbn in D. unfold feed_fits in D. rewrite Hr in D. cbn in D. naive_solver eauto with tm. }
  cbn in D. unfold feed_fits in D. rewrite Hr in D. cbn [blen length] in D.
  specialize (D Hlen (bytes_ok_app _ _ Hc Htail)). simplify_eq.
  exists r'. split_and!; auto. unfold tm_frame_reader_drain. case_match; [|done].
  zb. apply blen_0_nil in H. now rewrite H.
Qed.

Lemma drive_frames_witness :
  exists r', drive tm_frame_reader_new
               (concat [[1; 1; 0; 0; 0; 1; 0; 0; 0; 0; 84]; [1; 6; 0; 0; 0; 0; 0; 0; 0; 0]] ++ [1; 6])
             = Some ([Frame 1 1 0 1 [84]; Frame 1 6 0 0 []], false, r') /\ fr_buf r' = [1; 6] /\
             (tm_frame_reader_drain r').1 = [1; 6].
Proof.
  apply drive_frames; try reflexivity.
  - repeat constructor; vm_compute; congruence.
  - repeat constructor.
  - repeat constructor; lia.
  - repeat constructor; lia.
  - vm_compute; discriminate.
Defined.

(** ** Bounds of the reader *)

Definition reader_wf (r : tm_frame_reader) : Prop :=
  bytes_ok (fr_buf r) /\ blen (fr_buf r) <= fr_cap r /\
  blen (fr_buf r) <= TM_MAX_FRAME_PAYLOAD + TM_FRAME_HDR_LEN /\
  fr_cap r <= 2 * (TM_MAX_FRAME_PAYLOAD + TM_FRAME_HDR_LEN).

Lemma reader_new_wf : reader_wf tm_frame_reader_new.
Proof. unfold reader_wf; cbn; split_and!; first [constructor | vm_compute; congruence]. Qed.

(** A peer cannot make the reader hold more than one maximal frame.  Feeding
    any bytes keeps the buffer inside its capacity, the buffered bytes below
    256 KiB + 10 and the allocation below twice that, whatever lengths the headers
    declare; a frame that comes out is well formed and its payload is bounded. *)
Theorem feed_bounds r data :
  reader_wf r -> bytes_ok data ->
  reader_wf (tm_frame_reader_feed r data).2 /\
  (forall f, (tm_frame_reader_feed r data).1 = FeedFrame f ->
     wf_frame f /\ bytes_ok (f_payload f)).
Proof.
  intros (Hb & Hc & Hm & Hcap) Hd. pose proof (blen_nonneg data). pose proof (blen_nonneg (fr_buf r)).
  destruct (Z.eq_dec (blen data) 0) as [E|E].
  2: destruct (Z.le_gt_cases (blen (fr_buf r) + blen data) (TM_MAX_FRAME_PAYLOAD + TM_FRAME_HDR_LEN)) as [L|L].
  3: { rewrite feed_overflow by (unfold feed_fits; lia). cbn. split; [repeat split; done|done]. }
  1: assert (feed_fits r data) as Hfit by (unfold feed_fits; lia).
  2: assert (feed_fits r data) as Hfit by (unfold feed_fits; lia).
  all: destruct (feed_parse r data Hfit) as [H1 H2]; unfold reader_wf;
    assert (fr_cap r <= fr_cap (tm_frame_reader_feed r data).2 /\
            blen (fr_buf r) + blen data <= fr_cap (tm_frame_reader_feed r data).2
            <= 2 * (TM_MAX_FRAME_PAYLOAD + TM_FRAME_HDR_LEN)) as [Hc1 Hc2].
  1,3: unfold tm_frame_reader_feed, TM_MAX_FRAME_PAYLOAD, TM_FRAME_HDR_LEN, feed_fits in *;
    pose proof (grow_bound (if fr_cap r =? 0 then 1024 else fr_cap r) (blen (fr_buf r) + blen data));
    pose proof (grow_fits (if fr_cap r =? 0 then 1024 else fr_cap r) (blen (fr_buf r) + blen data));
    repeat (case_match; zb; simplify_eq/=); lia.
  all: rewrite H1, H2; clear H1;
    pose proof (parse1_frame_inv (fr_buf r ++ data)) as Hi; unfold feed_fits in Hfit;
    destruct (parse1 (fr_buf r ++ data)) as [| |f rest]; cbn [feed_of_parse rest_of_parse];
    try (split; [split_and!; try (autorewrite with blen; lia); auto with tm|done]).
  all: destruct (Hi f rest) as (Hv & Ht & Hs & Hpl & Hpm & Hpo & Hr & Hlen); auto with tm;
    pose proof (blen_nonneg (f_payload f)); unfold TM_FRAME_HDR_LEN in *; autorewrite with blen in Hlen;
    (split; [split_and!; auto; lia|]); intros ? [= <-]; unfold wf_frame; auto 10.
Qed.

Lemma feed_bounds_witness :
  reader_wf (tm_frame_reader_feed tm_frame_reader_new [1; 6; 255; 255; 255; 255; 0; 0; 0; 0]).2 /\
  (forall f, (tm_frame_reader_feed tm_frame_reader_new [1; 6; 255; 255; 255; 255; 0; 0; 0; 0]).1
             = FeedFrame f -> wf_frame f /\ bytes_ok (f_payload f)).
Proof.
  apply (feed_bounds tm_frame_reader_new [1; 6; 255; 255; 255; 255; 0; 0; 0; 0]).
  - exact reader_new_wf.
  - repeat constructor; lia.
Defined.

(** A frame whose header declares more than the maximum payload, or another
    protocol version, is refused as soon as the header is there: the call reports
    an error and no frame, however many of its payload bytes follow. *)
Theorem feed_rejects_bad_header r data :
  feed_fits r data -> 10 <= blen (fr_buf r ++ data) ->
  byte_at (fr_buf r ++ data) 0 <> TM_PROTO_VERSION \/
  TM_MAX_FRAME_PAYLOAD < rd_u32 (drop 2 (fr_buf r ++ data)) ->
  (tm_frame_reader_feed r data).1 = FeedErr.
Proof.
  intros Hfit Hl Hbad. destruct (feed_parse r data Hfit) as [-> _].
  unfold parse1, TM_FRAME_HDR_LEN. repeat (case_match; zb; try done; try lia).
Qed.

Lemma feed_rejects_bad_header_witness :
  (tm_frame_reader_feed tm_frame_reader_new [1; 6; 0; 4; 0; 1; 0; 0; 0; 0]).1 = FeedErr.
Proof.
  apply (feed_rejects_bad_header tm_frame_reader_new [1; 6; 0; 4; 0; 1; 0; 0; 0; 0]).
  - vm_compute; congruence.
  - vm_compute; congruence.
  - right; vm_compute; reflexivity.
Defined.

(** ** Envelopes *)

Lemma env_decode_encode flow flags payload :
  in_width 64 flow -> 0 <= flags <= TM_ENV_FLAG_ALL ->
  tm_env_decode (tm_env_encode flow flags payload) = Some (flow, flags, payload).
Proof.
  intros Hflow Hfl. unfold tm_env_decode.
  change (TM_ENV_FLAG_ALL) with 15 in Hfl.
  assert (u8 flags = flags) as Hu by (apply wrap_small; red; lia).
  assert (blen (tm_env_encode flow flags payload) = 11 + blen payload) as Hl
    by (unfold tm_env_encode; cbn; blen_solve).
  pose proof (blen_nonneg payload).
  case_match; zb; [lia|].
  unfold tm_env_encode. rewrite rd_wr_u16 by (red; lia).
  change (negb (11 =? 11)) with false. cbv iota.
  change (byte_at (wr_u16 11 ++ wr_u64 flow ++ [u8 flags] ++ payload) 10) with (u8 flags).
  rewrite Hu.
  change (drop 2 (wr_u16 11 ++ ?x)) with x. rewrite rd_wr_u64 by done.
  change (drop 11 (wr_u16 11 ++ wr_u64 flow ++ [flags] ++ payload)) with payload.
  assert (Z.land flags (Z.lnot TM_ENV_FLAG_ALL) = 0) as ->; [|done].
  change TM_ENV_FLAG_ALL with (Z.ones 4). apply Z.bits_inj'; intros i Hi.
  rewrite Z.land_spec, Z.lnot_spec, Z.bits_0 by lia.
  destruct (Z.lt_ge_cases i 4).
  - rewrite Z.ones_spec_low by lia. apply andb_false_r.
  - rewrite (testbit_above flags 4) by lia. done.
Qed.

(** The envelope of a datagram decodes to the same flow id, flags and payload
    for every flow id, every payload and every combination of the defined flags. *)
Theorem env_roundtrip flow flags payload :
  in_width 64 flow -> 0 <= flags <= TM_ENV_FLAG_ALL ->
  tm_env_decode (tm_env_encode flow flags payload) = Some (flow, flags, payload).
Proof. apply env_decode_encode. Qed.

Lemma env_roundtrip_witness :
  tm_env_decode (tm_env_encode 3735928559 TM_ENV_FLAG_DIR_P2S [1; 2; 3; 4; 5])
  = Some (3735928559, TM_ENV_FLAG_DIR_P2S, [1; 2; 3; 4; 5]).
Proof. apply env_roundtrip; vm_compute; split; congruence. Defined.

Lemma wr_rd_u32 a b c d l :
  bytes_ok [a; b; c; d] -> wr_u32 (rd_u32 (a :: b :: c :: d :: l)) = [a; b; c; d].
Proof.
  intros H. assert (byte_ok a /\ byte_ok b /\ byte_ok c /\ byte_ok d) as (Ha & Hb & Hc & Hd).
  { unfold bytes_ok in H. rewrite !Forall_cons in H. naive_solver. }
  rewrite rd_u32_eq by done. unfold wr_u32. rewrite !wrap8_shiftr by lia.
  unfold wrap, byte_ok, in_width in *. repeat f_equal; Z.div_mod_to_equations; lia.
Qed.

(** The bytes of a frame that is parsed are those that encode it. *)
Lemma parse1_image buf f rest : bytes_ok buf -> parse1 buf = PFrame f rest ->
  exists bs, tm_frame_encode f = Some bs /\ buf = bs ++ rest.
Proof.
  intros Hok. unfold parse1, TM_FRAME_HDR_LEN. intros H.
  assert (in_width 32 (rd_u32 (drop 2 buf))) as Hp by (apply rd_u32_range, Forall_drop, Hok).
  repeat case_match; try done. zb. injection H as <- <-.
  destruct buf as [|v [|t [|a [|b [|c [|d [|e [|g [|h [|k pl]]]]]]]]]]; cbn [byte_at List.nth drop] in *; try (unfold blen in *; cbn in *; lia).
  unfold bytes_ok in Hok. rewrite !Forall_cons in Hok. destruct Hok as (? & ? & ? & ? & ? & ? & ? & ? & ? & ? & Hpl).
  set (n := rd_u32 (a :: b :: c :: d :: _)) in *. unfold tm_frame_encode. cbn [f_payload_len f_type f_stream_id f_payload].
  destruct (_ <? _) eqn:E; zb; [lia|]. eexists. split; [done|].
  rewrite !wrap_small by first [done|apply rd_u32_range; unfold bytes_ok; by rewrite !Forall_cons].
  subst n. rewrite !wr_rd_u32 by (unfold bytes_ok; by rewrite !Forall_cons, Forall_nil). change (drop 8 (a :: b :: c :: d :: e :: g :: h :: k :: pl)) with pl.
  replace (Z.to_nat (10 + rd_u32 (a :: b :: c :: d :: e :: g :: h :: k :: pl))) with (10 + Z.to_nat (rd_u32 (a :: b :: c :: d :: e :: g :: h :: k :: pl)))%nat
    by (destruct Hp; lia).
  cbn [Nat.add drop app]. rewrite take_take, Nat.min_id, take_drop. subst v. done.
Qed.

(** Whatever a feed without error takes out of the reader is what the frame encodes. *)
Lemma feed_image r data : reader_wf r -> bytes_ok data ->
  match (tm_frame_reader_feed r data).1 with
  | FeedErr => True
  | FeedMore => fr_buf (tm_frame_reader_feed r data).2 = fr_buf r ++ data
  | FeedFrame f => exists bs, tm_frame_encode f = Some bs /\ fr_buf r ++ data = bs ++ fr_buf (tm_frame_reader_feed r data).2
  end.
Proof.
  intros (Hr & _ & Hm & _) Hd. pose proof (blen_nonneg data).
  destruct (decide (blen data = 0 \/ blen (fr_buf r) + blen data <= TM_MAX_FRAME_PAYLOAD + TM_FRAME_HDR_LEN)) as [Hfit|Hno].
  2: { rewrite feed_overflow; [done|lia|]. unfold feed_fits. lia. }
  destruct (feed_parse r data) as [E1 E2]; [unfold feed_fits; lia|]. cbv zeta in *. rewrite E1, E2.
  destruct (parse1 (fr_buf r ++ data)) as [| |f rest] eqn:Ep; cbn; [done..|].
  by apply parse1_image; [apply bytes_ok_app|].
Qed.

Lemma wr_rd_u64 x l :
  length x = 8%nat -> bytes_ok x -> wr_u64 (rd_u64 (x ++ l)) = x.
Proof.
  intros Hx Hok. do 9 (destruct x as [|? x]; try discriminate Hx). cbn [app].
  unfold wr_u64, rd_u64. cbn [drop].
  assert (bytes_ok [z; z0; z1; z2] /\ bytes_ok [z3; z4; z5; z6]) as [H1 H2].
  { unfold bytes_ok in *. rewrite !Forall_cons in *. naive_solver. }
  pose proof (rd_u32_range _ (bytes_ok_app _ _ H1 (Forall_nil_2 _))) as R1.
  pose proof (rd_u32_range _ (bytes_ok_app _ _ H2 (Forall_nil_2 _))) as R2.
  rewrite <- (rd_u32_app _ (z3 :: z4 :: z5 :: z6 :: l)) in R1 by (cbn; lia).
  rewrite <- (rd_u32_app _ l) in R2 by (cbn; lia). cbn [app] in R1, R2.
  set (hi := rd_u32 (z :: _)) in *. set (lo := rd_u32 (z3 :: _)) in *.
  rewrite lor_shiftl_add by (first [lia | exact R2]).
  rewrite Z.shiftr_div_pow2, Z.div_add_l, (Z.div_small lo), Z.add_0_r by (first [lia | exact R2]).
  rewrite (wrap_small 32 hi) by done.
  assert (u32 (hi * 2 ^ 32 + lo) = lo) as ->.
  { unfold wrap. rewrite Z.add_comm, Z.mod_add by lia. now apply Z.mod_small. }
  unfold hi, lo. now rewrite !wr_rd_u32.
Qed.

(** Decoding accepts only what encoding produces: a datagram that decodes is
    byte for byte the envelope of the decoded fields, so no two datagrams decode
    to the same envelope and nothing with a reserved flag is accepted. *)
Theorem env_decode_canonical buf flow flags payload :
  bytes_ok buf -> tm_env_decode buf = Some (flow, flags, payload) ->
  buf = tm_env_encode flow flags payload /\ in_width 64 flow /\
  Z.land flags (Z.lnot TM_ENV_FLAG_ALL) = 0.
Proof.
  intros Hok. unfold tm_env_decode. intros H. cmh. zb.
  assert (exists a b x fl p, buf = a :: b :: x ++ fl :: p /\ length x = 8%nat) as
    (a & b & x & fl & p & -> & Hx).
  { do 11 (destruct buf as [|? buf]; [unfold blen in *; cbn in *; lia|]).
    do 2 eexists. exists [z1; z2; z3; z4; z5; z6; z7; z8], z9, buf. done. }
  do 9 (destruct x as [|? x]; try discriminate Hx). cbn in Hok.
  assert (byte_ok a /\ byte_ok b /\ byte_ok fl) as (Ha & Hb & Hf).
  { unfold bytes_ok in Hok. rewrite !Forall_cons in Hok. naive_solver. }
  assert (bytes_ok [z; z0; z1; z2; z3; z4; z5; z6]) as Hx8.
  { unfold bytes_ok in *. rewrite !Forall_cons in *. naive_solver. }
  rewrite rd_u16_eq in * by done. cbn [drop app byte_at List.nth] in *.
  pose proof (wr_rd_u64 [z; z0; z1; z2; z3; z4; z5; z6] (fl :: p) eq_refl Hx8) as E.
  cbn [app] in E. unfold byte_ok, in_width in Ha, Hb.
  assert (a = 0 /\ b = 11) as [-> ->] by lia.
  split_and!; [|..|done].
  - unfold tm_env_encode. rewrite E, (wrap_small 8 fl) by done. reflexivity.
  - unfold rd_u64. cbn [drop].
    pose proof (rd_u32_range (z :: z0 :: z1 :: z2 :: z3 :: z4 :: z5 :: z6 :: fl :: p)) as R1.
    pose proof (rd_u32_range (z3 :: z4 :: z5 :: z6 :: fl :: p)) as R2.
    unfold bytes_ok in *. rewrite !Forall_cons in *.
    destruct R1 as [? ?]; [naive_solver|]. assert (in_width 32 (rd_u32 (z3 :: z4 :: z5 :: z6 :: fl :: p)))
      as R2' by (apply R2; naive_solver).
    rewrite lor_shiftl_add by (first [lia | exact R2']). unfold in_width in *. lia.
Qed.

Lemma env_decode_canonical_witness :
  [0; 11; 0; 0; 0; 0; 0; 0; 0; 9; 2; 65] = tm_env_encode 9 2 [65] /\ in_width 64 9 /\
  Z.land 2 (Z.lnot TM_ENV_FLAG_ALL) = 0.
Proof.
  apply (env_decode_canonical [0; 11; 0; 0; 0; 0; 0; 0; 0; 9; 2; 65] 9 2 [65]).
  - repeat constructor; lia.
  - reflexivity.
Defined.
