(* ===== verification/Text.v ===== *)
(** * Text and digests

    [tm_utf8_valid] and [tm_ct_eq] of [common/src/common.c], the hex and token
    helpers of [common/src/crypto.c] and the level names and JSON escaping of
    [common/src/log.c].  HMAC, SHA-256 and the random generator belong to OpenSSL
    and are parameters. *)

From S2P Require Import Prelude Wire.

(** ** UTF-8 validation *)

Module Utf8.

(** The lead byte decides how many continuation bytes follow. *)
Definition lead (c : Z) : option (Z * nat) :=
  if Z.land c 0xE0 =? 0xC0 then Some (Z.land c 0x1F, 1%nat)
  else if Z.land c 0xF0 =? 0xE0 then Some (Z.land c 0x0F, 2%nat)
  else if Z.land c 0xF8 =? 0xF0 then Some (Z.land c 0x07, 3%nat)
  else None.

(** [for (int j = 1; j <= cont; j++)] over the bytes at [p]. *)
Fixpoint continuation (p : bytes) (cont : nat) (cp : Z) : option Z :=
  match cont with
  | O => Some cp
  | S cont' =>
      let b := byte_at p 0 in
      if negb (Z.land b 0xC0 =? 0x80) then None
      else continuation (tail p) cont' (u32 (Z.lor (Z.shiftl cp 6) (Z.land b 0x3F)))
  end.

Definition bad_cp (cont : nat) (cp : Z) : bool :=
  ((Nat.eqb cont 1 && (cp <? 0x80)) || (Nat.eqb cont 2 && (cp <? 0x800)) ||
   (Nat.eqb cont 3 && (cp <? 0x10000)) || (0x10FFFF <? cp) ||
   ((0xD800 <=? cp) && (cp <=? 0xDFFF))).

(** [mem] is the memory from [s] on, which goes on after the [len] bytes. *)
Fixpoint loop (fuel : nat) (mem : bytes) (len i : Z) : option bool :=
  match fuel with
  | O => None
  | S fuel' =>
      if i <? len then
        let c := byte_at mem (Z.to_nat i) in
        if c <? 0x80 then loop fuel' mem len (i + 1)
        else match lead c with
             | None => Some false
             | Some (cp, cont) =>
                 if len + 1 <=? i + Z.of_nat cont then Some false
                 else if len <? i + Z.of_nat cont then Some false
                 else match continuation (drop (Z.to_nat (i + 1)) mem) cont cp with
                      | None => Some false
                      | Some cp => if bad_cp cont cp then Some false
                                   else loop fuel' mem len (i + Z.of_nat cont + 1)
                      end
             end
      else Some true
  end.

Definition tm_utf8_valid (mem : bytes) (len : Z) : option bool :=
  loop (S (Z.to_nat len)) mem len 0.

(** The reference: text is a concatenation of encoded Unicode scalar values. *)
Definition scalar (cp : Z) : Prop := 0 <= cp <= 0x10FFFF /\ ~ (0xD800 <= cp <= 0xDFFF).

Definition encode (cp : Z) : bytes :=
  if cp <? 0x80 then [cp]
  else if cp <? 0x800 then [192 + cp / 64; 128 + cp mod 64]
  else if cp <? 0x10000 then [224 + cp / 4096; 128 + (cp / 64) mod 64; 128 + cp mod 64]
  else [240 + cp / 262144; 128 + (cp / 4096) mod 64; 128 + (cp / 64) mod 64; 128 + cp mod 64].

Definition well_formed (s : bytes) : Prop :=
  exists cps, Forall scalar cps /\ s = concat (map encode cps).

(** Facts about single bytes are checked on all 256 of them. *)
Lemma byte_cases (P : Z -> bool) c :
  forallb P (seqZ 0 256) = true -> byte_ok c -> P c = true.
Proof.
  intros H Hc. rewrite forallb_forall in H. apply H.
  apply list_elem_of_In, elem_of_seqZ. unfold byte_ok, in_width in Hc. lia.
Qed.

Lemma lead_spec c : byte_ok c -> 0x80 <= c ->
  lead c = if c <? 192 then None
           else if c <? 224 then Some (c - 192, 1%nat)
           else if c <? 240 then Some (c - 224, 2%nat)
           else if c <? 248 then Some (c - 240, 3%nat) else None.
Proof.
  intros Hc Hge.
  assert (Hb := byte_cases (fun c => (c <? 128) || bool_decide (lead c =
           if c <? 192 then None
           else if c <? 224 then Some (c - 192, 1%nat)
           else if c <? 240 then Some (c - 224, 2%nat)
           else if c <? 248 then Some (c - 240, 3%nat) else None)) c eq_refl Hc).
  apply orb_true_iff in Hb as [Hb|Hb]; [zb; lia|]. now apply bool_decide_eq_true in Hb.
Qed.

Lemma cont_byte b : byte_ok b -> (Z.land b 0xC0 =? 0x80) = ((128 <=? b) && (b <? 192)).
Proof.
  intros Hb. apply (proj1 (bool_decide_eq_true _)).
  exact (byte_cases (fun b => bool_decide ((Z.land b 0xC0 =? 0x80) = ((128 <=? b) && (b <? 192))))
           b eq_refl Hb).
Qed.

Lemma cont_bits b : byte_ok b -> 128 <= b < 192 -> Z.land b 0x3F = b - 128.
Proof.
  intros Hb Hr.
  assert (H := byte_cases (fun b => negb ((128 <=? b) && (b <? 192)) || (Z.land b 0x3F =? b - 128))
                 b eq_refl Hb). cbn beta in H. zb. destruct H as [[H|H]|H]; zb; lia.
Qed.

Lemma continuation_step p cont cp :
  byte_ok (byte_at p 0) -> 0 <= cp < 2 ^ 26 ->
  continuation p (S cont) cp =
    if (128 <=? byte_at p 0) && (byte_at p 0 <? 192)
    then continuation (tail p) cont (cp * 64 + (byte_at p 0 - 128)) else None.
Proof.
  intros Hb Hcp. cbn [continuation]. rewrite cont_byte by done.
  destruct ((128 <=? byte_at p 0) && (byte_at p 0 <? 192)) eqn:E; [|done]. cbn [negb]. zb.
  rewrite cont_bits, lor_shiftl_add by (done || lia). rewrite wrap_small by (red; lia). done.
Qed.

(** One iteration on the bytes from [i] on. *)
Definition decode1 (c : Z) (p : bytes) : option (nat * Z) :=
  match lead c with
  | None => None
  | Some (cp, cont) =>
      match continuation p cont cp with
      | Some cp => if bad_cp cont cp then None else Some (cont, cp)
      | None => None
      end
  end.

Ltac byte_hyps :=
  repeat match goal with
  | H : bytes_ok (_ :: _) |- _ => apply Forall_cons in H as [? H]
  end; unfold byte_ok, in_width in *.

Definition is_cont (b : Z) : bool := (128 <=? b) && (b <? 192).

Lemma byte_at_ok p i : bytes_ok p -> byte_ok (byte_at p i).
Proof.
  intros Hp. unfold byte_at. destruct (Nat.lt_ge_cases i (length p)).
  - apply (proj1 (List.Forall_forall _ _) Hp). now apply nth_In.
  - rewrite nth_overflow by lia. unfold byte_ok, in_width; lia.
Qed.

Lemma tail_ok p : bytes_ok p -> bytes_ok (tail p).
Proof. destruct p; [done|]. intros H. now apply Forall_cons in H as [? ?]. Qed.

Lemma byte_at_tail p i : byte_at (tail p) i = byte_at p (S i).
Proof. destruct p; [now destruct i|reflexivity]. Qed.

Lemma continuation_1 p cp : bytes_ok p -> 0 <= cp < 2 ^ 26 ->
  continuation p 1 cp =
    if is_cont (byte_at p 0) then Some (cp * 64 + (byte_at p 0 - 128)) else None.
Proof. intros. rewrite continuation_step by auto using byte_at_ok. reflexivity. Qed.

Lemma continuation_2 p cp : bytes_ok p -> 0 <= cp < 2 ^ 19 ->
  continuation p 2 cp =
    if is_cont (byte_at p 0) && is_cont (byte_at p 1)
    then Some ((cp * 64 + (byte_at p 0 - 128)) * 64 + (byte_at p 1 - 128)) else None.
Proof.
  intros Hp Hcp. pose proof (byte_at_ok p 0 Hp) as Hb. rewrite continuation_step by (auto; lia).
  unfold is_cont at 1. destruct ((128 <=? _) && _) eqn:E; [|done]. zb. unfold byte_ok, in_width in Hb.
  rewrite continuation_1 by (auto using tail_ok; lia). now rewrite byte_at_tail.
Qed.

Lemma continuation_3 p cp : bytes_ok p -> 0 <= cp < 2 ^ 12 ->
  continuation p 3 cp =
    if is_cont (byte_at p 0) && (is_cont (byte_at p 1) && is_cont (byte_at p 2))
    then Some (((cp * 64 + (byte_at p 0 - 128)) * 64 + (byte_at p 1 - 128)) * 64
               + (byte_at p 2 - 128)) else None.
Proof.
  intros Hp Hcp. pose proof (byte_at_ok p 0 Hp) as Hb. rewrite continuation_step by (auto; lia).
  unfold is_cont at 1. destruct ((128 <=? _) && _) eqn:E; [|done]. zb. unfold byte_ok, in_width in Hb.
  rewrite continuation_2 by (auto using tail_ok; lia). now rewrite !byte_at_tail.
Qed.

Definition checked (cont : nat) (cp : Z) : option (nat * Z) :=
  if bad_cp cont cp then None else Some (cont, cp).

Lemma decode1_eq c p :
  byte_ok c -> bytes_ok p -> 0x80 <= c ->
  decode1 c p =
    let b1 := byte_at p 0 in let b2 := byte_at p 1 in let b3 := byte_at p 2 in
    if c <? 192 then None
    else if c <? 224 then
      if is_cont b1 then checked 1 ((c - 192) * 64 + (b1 - 128)) else None
    else if c <? 240 then
      if is_cont b1 && is_cont b2
      then checked 2 (((c - 224) * 64 + (b1 - 128)) * 64 + (b2 - 128)) else None
    else if c <? 248 then
      if is_cont b1 && (is_cont b2 && is_cont b3)
      then checked 3 ((((c - 240) * 64 + (b1 - 128)) * 64 + (b2 - 128)) * 64 + (b3 - 128)) else None
    else None.
Proof.
  intros Hc Hp Hge. unfold decode1. rewrite lead_spec by done. unfold byte_ok, in_width in Hc.
  destruct (c <? 192) eqn:?; [done|]. destruct (c <? 224) eqn:?.
  { zb. rewrite continuation_1 by (auto; lia). now destruct (is_cont _). }
  destruct (c <? 240) eqn:?.
  { zb. rewrite continuation_2 by (auto; lia). now destruct (is_cont _ && _). }
  destruct (c <? 248) eqn:?; [|done].
  zb. rewrite continuation_3 by (auto; lia). now destruct (is_cont _ && _).
Qed.

Lemma div64 a b : 0 <= b < 64 -> (a * 64 + b) / 64 = a /\ (a * 64 + b) mod 64 = b.
Proof. intros; Z.div_mod_to_equations; lia. Qed.

Lemma checked_inv n cp cont cp' :
  checked n cp = Some (cont, cp') -> cont = n /\ cp' = cp /\ bad_cp n cp = false.
Proof. unfold checked; intros; cmh. Qed.

Lemma encode_2 a b : 0 <= b < 64 -> 0x80 <= a * 64 + b < 0x800 ->
  encode (a * 64 + b) = [192 + a; 128 + b].
Proof.
  intros Hb Hr. unfold encode. repeat (case_match; zb; try lia).
  destruct (div64 a b Hb) as [-> ->]. done.
Qed.

Lemma encode_3 a b c : 0 <= b < 64 -> 0 <= c < 64 -> 0x800 <= (a * 64 + b) * 64 + c < 0x10000 ->
  encode ((a * 64 + b) * 64 + c) = [224 + a; 128 + b; 128 + c].
Proof.
  intros Hb Hc Hr. unfold encode. repeat (case_match; zb; try lia).
  change 4096 with (64 * 64). rewrite <- Z.div_div by lia.
  destruct (div64 (a * 64 + b) c Hc) as [-> ->]. destruct (div64 a b Hb) as [-> ->]. done.
Qed.

Lemma encode_4 a b c d : 0 <= b < 64 -> 0 <= c < 64 -> 0 <= d < 64 ->
  0x10000 <= ((a * 64 + b) * 64 + c) * 64 + d ->
  encode (((a * 64 + b) * 64 + c) * 64 + d) = [240 + a; 128 + b; 128 + c; 128 + d].
Proof.
  intros Hb Hc Hd Hr. unfold encode. repeat (case_match; zb; try lia).
  change 262144 with (64 * (64 * 64)). change 4096 with (64 * 64).
  rewrite <- !Z.div_div by lia.
  destruct (div64 ((a * 64 + b) * 64 + c) d Hd) as [-> ->].
  destruct (div64 (a * 64 + b) c Hc) as [-> ->]. destruct (div64 a b Hb) as [-> ->]. done.
Qed.

Lemma bad_cp_false n cp : bad_cp n cp = false ->
  (n = 1%nat -> 0x80 <= cp) /\ (n = 2%nat -> 0x800 <= cp) /\ (n = 3%nat -> 0x10000 <= cp) /\
  cp <= 0x10FFFF /\ ~ (0xD800 <= cp <= 0xDFFF).
Proof.
  unfold bad_cp; intros H. zb. destruct H as ((((H1 & H2) & H3) & H4) & H5). split_and!; try lia.
  all: intros ->; cbn in *; zb; naive_solver lia.
Qed.

Lemma decode1_sound c p cont cp :
  byte_ok c -> bytes_ok p -> 0x80 <= c -> decode1 c p = Some (cont, cp) -> (cont <= length p)%nat ->
  scalar cp /\ c :: p = encode cp ++ drop cont p.
Proof.
  intros Hc Hp Hge H Hlen. rewrite decode1_eq in H by done. cbv zeta in H.
  unfold byte_ok, in_width, is_cont in *.
  destruct (c <? 192) eqn:?; [done|].
  destruct (c <? 224) eqn:?; [|destruct (c <? 240) eqn:?; [|destruct (c <? 248) eqn:?; [|done]]].
  all: case_match; [|done]; apply checked_inv in H as (-> & -> & Hb); apply bad_cp_false in Hb as Hb'; zb;
       destruct Hb' as (B1 & B2 & B3 & B4 & B5).
  - destruct p as [|b1 p]; [cbn in Hlen; lia|]. cbn [byte_at List.nth drop] in *.
    specialize (B1 eq_refl). split; [unfold scalar; lia|].
    rewrite encode_2 by lia. cbn. repeat f_equal; lia.
  - destruct p as [|b1 [|b2 p]]; try (cbn in Hlen; lia). cbn [byte_at List.nth drop] in *.
    specialize (B2 eq_refl). split; [unfold scalar; lia|].
    rewrite encode_3 by lia. cbn. repeat f_equal; lia.
  - destruct p as [|b1 [|b2 [|b3 p]]]; try (cbn in Hlen; lia). cbn [byte_at List.nth drop] in *.
    specialize (B3 eq_refl). split; [unfold scalar; lia|].
    rewrite encode_4 by lia. cbn. repeat f_equal; lia.
Qed.

Lemma checked_ok n cp :
  scalar cp -> (n = 1%nat -> 0x80 <= cp) -> (n = 2%nat -> 0x800 <= cp) -> (n = 3%nat -> 0x10000 <= cp) ->
  checked n cp = Some (n, cp).
Proof.
  intros [Hs1 Hs2] H1 H2 H3. unfold checked, bad_cp. case_match; [|done]. exfalso.
  rewrite ?orb_true_iff, ?andb_true_iff, ?Nat.eqb_eq in *. zb. naive_solver lia.
Qed.

Lemma decode1_complete cp rest c p :
  scalar cp -> bytes_ok p -> byte_ok c -> 0x80 <= c -> c :: p = encode cp ++ rest ->
  exists cont, decode1 c p = Some (cont, cp) /\ (cont <= length p)%nat /\ drop cont p = rest.
Proof.
  intros Hs Hp Hc Hge E. pose proof Hs as [Hs1 Hs2]. rewrite decode1_eq by done. cbv zeta.
  unfold encode in E. unfold is_cont.
  destruct (cp <? 128) eqn:?; [injection E as <- <-; zb; lia|].
  destruct (cp <? 2048) eqn:?; [|destruct (cp <? 65536) eqn:?].
  - exists 1%nat. injection E as -> ->. cbn [byte_at List.nth drop app length]. zb.
    pose proof (Z.mod_pos_bound cp 64). assert (2 <= cp / 64 < 32) by (Z.div_mod_to_equations; lia).
    pose proof (Z.div_mod cp 64). repeat (case_match; zb; try lia).
    split_and!; try lia; try done. rewrite <- (checked_ok 1 cp) by (done || lia). f_equal. lia.
  - exists 2%nat. injection E as -> ->. cbn [byte_at List.nth drop app length]. zb.
    pose proof (Z.mod_pos_bound cp 64). pose proof (Z.mod_pos_bound (cp / 64) 64).
    assert (0 <= cp / 4096 < 16) by (Z.div_mod_to_equations; lia).
    assert (cp = (cp / 4096 * 64 + (cp / 64) mod 64) * 64 + cp mod 64) by (Z.div_mod_to_equations; lia).
    repeat (case_match; zb; try lia).
    split_and!; try lia; try done. rewrite <- (checked_ok 2 cp) by (done || lia). f_equal. lia.
  - exists 3%nat. injection E as -> ->. cbn [byte_at List.nth drop app length]. zb.
    pose proof (Z.mod_pos_bound cp 64). pose proof (Z.mod_pos_bound (cp / 64) 64).
    pose proof (Z.mod_pos_bound (cp / 4096) 64).
    assert (0 <= cp / 262144 < 5) by (Z.div_mod_to_equations; lia).
    assert (cp = ((cp / 262144 * 64 + (cp / 4096) mod 64) * 64 + (cp / 64) mod 64) * 64 + cp mod 64)
      by (Z.div_mod_to_equations; lia).
    repeat (case_match; zb; try lia).
    split_and!; try lia; try done. rewrite <- (checked_ok 3 cp) by (done || lia). f_equal. lia.
Qed.

(** [decode1] only looks at the continuation bytes it counts. *)
Lemma decode1_app c p q cont cp :
  decode1 c p = Some (cont, cp) -> (cont <= length p)%nat -> decode1 c (p ++ q) = Some (cont, cp).
Proof.
  intros H Hl. unfold decode1 in *. destruct (lead c) as [[cp0 n]|]; [|done].
  assert (n = cont) as -> by cmh.
  assert (forall n p cp, (n <= length p)%nat -> continuation (p ++ q) n cp = continuation p n cp) as Hc.
  { clear. induction n as [|n IH]; intros [|b p] cp Hl; cbn in *; try lia; try done.
    case_match; [done|]. apply IH. lia. }
  now rewrite Hc.
Qed.

Lemma well_formed_nil : well_formed [].
Proof. exists []. split; [constructor|reflexivity]. Qed.

Lemma well_formed_cons cp rest : scalar cp -> well_formed rest -> well_formed (encode cp ++ rest).
Proof. intros Hs (cps & Hc & ->). exists (cp :: cps). split; [by constructor|reflexivity]. Qed.

Lemma well_formed_inv c p : well_formed (c :: p) ->
  exists cp rest, scalar cp /\ c :: p = encode cp ++ rest /\ well_formed rest.
Proof.
  intros ([|cp cps] & Hs & E); [done|]. apply Forall_cons in Hs as [Hs Hc].
  exists cp, (concat (map encode cps)). split_and!; auto. by exists cps.
Qed.

Lemma encode_ascii_inv cp c p rest : 0 <= c < 0x80 -> scalar cp -> c :: p = encode cp ++ rest ->
  cp = c /\ rest = p.
Proof.
  intros Hc [Hs _] E. unfold encode in E.
  destruct (cp <? 128) eqn:?; [by injection E as -> ->|]. exfalso. zb.
  destruct (cp <? 2048); [|destruct (cp <? 65536)]; injection E as E _;
    Z.div_mod_to_equations; lia.
Qed.

(** The first byte after the text decides nothing, unless it could continue a
    sequence: the bounds test lets a sequence cut after its lead byte read it. *)
Definition tail_harmless (tl : bytes) : Prop := is_cont (byte_at tl 0) = false.

Lemma decode1_cut c p tl cont cp :
  byte_ok c -> 0x80 <= c -> bytes_ok (p ++ tl) -> tail_harmless tl ->
  decode1 c (p ++ tl) = Some (cont, cp) -> (cont <= length p)%nat.
Proof.
  intros Hc Hge Hp Ht H. rewrite decode1_eq in H by done. cbv zeta in H.
  assert (byte_at (p ++ tl) (length p) = byte_at tl 0) as Hat.
  { unfold byte_at. rewrite app_nth2 by lia. f_equal. lia. }
  unfold tail_harmless in Ht.
  assert (forall i, is_cont (byte_at (p ++ tl) i) = true -> i <> length p) as Hne.
  { intros i Hi ->. congruence. }
  assert (Hn0 := Hne 0%nat). assert (Hn1 := Hne 1%nat). assert (Hn2 := Hne 2%nat).
  destruct (c <? 192); [done|].
  destruct (c <? 224); [|destruct (c <? 240); [|destruct (c <? 248); [|done]]];
    match type of H with (if ?b then _ else _) = _ => destruct b eqn:E; [|done] end;
    apply checked_inv in H as (-> & _ & _); rewrite ?andb_true_iff in E; naive_solver lia.
Qed.

Lemma loop_correct s tl : bytes_ok (s ++ tl) -> tail_harmless tl ->
  forall fuel i, 0 <= i <= blen s -> (Z.to_nat (blen s - i) < fuel)%nat ->
  exists b, loop fuel (s ++ tl) (blen s) i = Some b /\
            (b = true <-> well_formed (drop (Z.to_nat i) s)).
Proof.
  intros Hok Ht. induction fuel as [|fuel IH]; intros i Hi Hf; [lia|]. cbn [loop].
  destruct (i <? blen s) eqn:Hlt; zb.
  2: { exists true. split; [done|]. replace (drop (Z.to_nat i) s) with (@nil Z).
       - split; auto using well_formed_nil.
       - symmetry; apply drop_ge. unfold blen in *; lia. }
  destruct (drop (Z.to_nat i) s) as [|c p] eqn:Ed.
  { apply (f_equal length) in Ed. rewrite length_drop in Ed. unfold blen in *; cbn in Ed; lia. }
  assert (drop (Z.to_nat i) (s ++ tl) = c :: p ++ tl) as Edt
    by (rewrite drop_app_le by (unfold blen in *; lia); by rewrite Ed).
  assert (byte_at (s ++ tl) (Z.to_nat i) = c) as ->.
  { unfold byte_at. rewrite <- (Nat.add_0_r (Z.to_nat i)), <- nth_skipn.
    change (skipn (Z.to_nat i) (s ++ tl)) with (drop (Z.to_nat i) (s ++ tl)). by rewrite Edt. }
  assert (drop (Z.to_nat (i + 1)) (s ++ tl) = p ++ tl) as Edt1.
  { replace (Z.to_nat (i + 1)) with (Z.to_nat i + 1)%nat by lia. by rewrite <- drop_drop, Edt. }
  assert (forall n, (n <= length p)%nat ->
            drop (Z.to_nat (i + Z.of_nat n + 1)) s = drop n p) as Edn.
  { intros n Hn. replace (Z.to_nat (i + Z.of_nat n + 1)) with (Z.to_nat i + S n)%nat by lia.
    by rewrite <- drop_drop, Ed. }
  assert (blen s - i = 1 + blen p) as Hlen.
  { rewrite <- (blen_drop i s) by lia. rewrite Ed. blen_solve. }
  assert (bytes_ok (c :: p ++ tl)) as Hcp by (rewrite <- Edt; auto with tm).
  pose proof Hcp as Hcp'. apply Forall_cons in Hcp' as [Hc Hp].
  assert (bytes_ok p) as Hp' by (apply Forall_app in Hp; tauto).
  pose proof Hc as Hc0. unfold byte_ok, in_width in Hc0.
  destruct (c <? 128) eqn:Ec; zb.
  { destruct (IH (i + 1)) as (b & Hb & Hw); [lia..|]. exists b. split; [done|].
    rewrite Hw. pose proof (Edn 0%nat ltac:(lia)) as E0.
    replace (i + Z.of_nat 0 + 1) with (i + 1) in E0 by lia. rewrite E0. cbn [drop].
    split; intros Hwf.
    - apply (well_formed_cons c) in Hwf; [|split; lia]. unfold encode in Hwf.
      now replace (c <? 128) with true in Hwf by (symmetry; zb; lia).
    - apply well_formed_inv in Hwf as (cp & rest & Hs & E & Hr).
      apply encode_ascii_inv in E as [-> ->]; [done|lia|done]. }
  assert (forall n cp, decode1 c (p ++ tl) = Some (n, cp) ->
            well_formed (c :: p) <-> well_formed (drop n p)) as Hstep.
  { intros n cp E. pose proof (decode1_cut _ _ _ _ _ Hc Ec Hp Ht E) as Hn. split; intros Hwf.
    - apply well_formed_inv in Hwf as (cp' & rest & Hs & E' & Hr).
      destruct (decode1_complete cp' rest c p) as (n' & D & Hn' & <-); auto.
      apply (decode1_app _ _ tl) in D; [|done]. rewrite E in D. by simplify_eq.
    - destruct (decode1_sound c (p ++ tl) n cp) as [Hs Hsnd]; auto; [rewrite length_app; lia|].
      rewrite drop_app_le in Hsnd by done. rewrite app_comm_cons, app_assoc in Hsnd.
      apply app_inv_tail in Hsnd. rewrite Hsnd. by apply well_formed_cons. }
  assert (decode1 c (p ++ tl) = None -> ~ well_formed (c :: p)) as Hnone.
  { intros E Hwf. apply well_formed_inv in Hwf as (cp' & rest & Hs & E' & Hr).
    destruct (decode1_complete cp' rest c p) as (n' & D & Hn' & _); auto.
    apply (decode1_app _ _ tl) in D; congruence. }
  rewrite Edt1. unfold decode1 in Hnone. pose proof (decode1_cut c p tl) as Hcut.
  unfold decode1 in Hstep, Hcut.
  destruct (lead c) as [[cp0 n]|]; [|exists false; naive_solver].
  destruct (continuation (p ++ tl) n cp0) as [cp|] eqn:Eco.
  2: { exists false. split; [by repeat case_match|naive_solver]. }
  destruct (bad_cp n cp) eqn:Eb.
  { exists false. split; [by repeat case_match|naive_solver]. }
  pose proof (Hcut n cp Hc Ec Hp Ht eq_refl) as Hn.
  repeat (case_match; zb; [unfold blen in *; lia|]).
  destruct (IH (i + Z.of_nat n + 1)) as (b & Hb & Hw); [unfold blen in *; lia..|].
  exists b. split; [done|]. rewrite Hw, (Edn n Hn). symmetry. by apply (Hstep n cp).
Qed.

(** The validator accepts exactly the well-formed UTF-8: the concatenations of
    the encodings of Unicode scalar values (no overlong forms, surrogates or values
    above U+10FFFF), and it always returns, provided the byte stored after the text
    is not itself a continuation byte (a C string ends with NUL). *)
Theorem utf8_valid_correct s tl :
  bytes_ok (s ++ tl) -> tail_harmless tl ->
  exists b, tm_utf8_valid (s ++ tl) (blen s) = Some b /\ (b = true <-> well_formed s).
Proof.
  intros Hok Ht. destruct (loop_correct s tl Hok Ht (S (Z.to_nat (blen s))) 0) as (b & Hb & Hw).
  - split; [lia|apply blen_nonneg].
  - lia.
  - exists b. by rewrite drop_0 in Hw.
Qed.

Lemma utf8_valid_correct_witness :
  exists b, tm_utf8_valid ([104; 195; 169] ++ [0]) (blen [104; 195; 169]) = Some b /\
            (b = true <-> well_formed [104; 195; 169]).
Proof.
  apply (utf8_valid_correct [104; 195; 169] [0]).
  - repeat constructor; lia.
  - reflexivity.
Defined.

(** Without that proviso the validator reads one byte past the end: the single
    byte 0xC3, a truncated sequence, is accepted as valid text of length 1 when the
    byte that happens to follow it in memory is a continuation byte, although no
    well-formed text is that byte. *)
Theorem utf8_valid_overread :
  tm_utf8_valid ([195] ++ [169]) 1 = Some true /\ ~ well_formed [195].
Proof.
  split; [reflexivity|]. intros Hwf.
  destruct (loop_correct [195] [0]) with (fuel := 2%nat) (i := 0) as (b & Hb & Hw).
  - repeat constructor; lia.
  - reflexivity.
  - unfold blen; cbn; lia.
  - unfold blen; cbn; lia.
  - apply Hw in Hwf. subst b. discriminate Hb.
Qed.

End Utf8.

(** ** Comparisons *)

Module Crypto.

(** [diff |= a[i] ^ b[i]] over the first [len] bytes. *)
Definition tm_ct_eq (a b : bytes) (len : nat) : bool :=
  fold_left (fun diff i => Z.lor diff (Z.lxor (byte_at a i) (byte_at b i))) (seq 0 len) 0 =? 0.

Lemma fold_lor_0 (f : nat -> Z) l d :
  fold_left (fun diff i => Z.lor diff (f i)) l d = 0 <-> d = 0 /\ forall i, In i l -> f i = 0.
Proof.
  revert d; induction l as [|i l IH]; intros d; cbn; [naive_solver|].
  rewrite IH, Z.lor_eq_0_iff. naive_solver.
Qed.

(** The constant-time comparison decides equality of the two buffers. *)
Theorem ct_eq_correct a b len :
  (len <= length a)%nat -> (len <= length b)%nat ->
  tm_ct_eq a b len = true <-> take len a = take len b.
Proof.
  intros Ha Hb. unfold tm_ct_eq. rewrite Z.eqb_eq, fold_lor_0.
  setoid_rewrite Z.lxor_eq_0_iff. setoid_rewrite in_seq. split.
  - intros [_ H]. apply nth_ext with 0 0; rewrite !length_take; [lia|].
    intros i Hi. specialize (H i ltac:(lia)). unfold byte_at in H.
    rewrite !nth_firstn by lia. replace (i <? len)%nat with true; [done|].
    symmetry; apply Nat.ltb_lt; lia.
  - intros H. split; [done|]. intros i Hi. unfold byte_at.
    rewrite <- (take_drop len a), <- (take_drop len b), H.
    rewrite !app_nth1 by (rewrite length_take; lia). done.
Qed.

Lemma ct_eq_correct_witness :
  tm_ct_eq [1; 2; 9] [1; 2; 7] 2 = true <-> take 2 [1; 2; 9] = take 2 [1; 2; 7].
Proof. apply ct_eq_correct; cbn; lia. Defined.

Definition hexval (c : Z) : Z :=
  if (48 <=? c) && (c <=? 57) then c - 48
  else if (97 <=? c) && (c <=? 102) then c - 97 + 10
  else if (65 <=? c) && (c <=? 70) then c - 65 + 10
  else -1.

(** The loop of [tm_ct_eq_hex]; a string of odd length reads its terminating NUL
    as the low digit, which is not a hex digit. *)
Fixpoint ct_hex_loop (a b : bytes) (diff : Z) : bool :=
  match a, b with
  | ah :: al :: a', bh :: bl :: b' =>
      if (hexval ah <? 0) || (hexval al <? 0) || (hexval bh <? 0) || (hexval bl <? 0) then false
      else ct_hex_loop a' b'
             (Z.lor diff (u8 (Z.lxor (Z.lor (Z.shiftl (hexval ah) 4) (hexval al))
                                     (Z.lor (Z.shiftl (hexval bh) 4) (hexval bl)))))
  | [ah], bh :: _ =>
      if (hexval ah <? 0) || (hexval 0 <? 0) || (hexval bh <? 0) then false else diff =? 0
  | _, _ => diff =? 0
  end.

Definition tm_ct_eq_hex (a b : bytes) : bool :=
  if negb (blen a =? blen b) then false else ct_hex_loop a b 0.

Lemma hexval_range c : -1 <= hexval c < 16.
Proof. unfold hexval; repeat (case_match; zb; try lia). Qed.

Lemma nibbles_eq a b c d : 0 <= a < 16 -> 0 <= b < 16 -> 0 <= c < 16 -> 0 <= d < 16 ->
  u8 (Z.lxor (Z.lor (Z.shiftl a 4) b) (Z.lor (Z.shiftl c 4) d)) = 0 <-> a = c /\ b = d.
Proof.
  intros. rewrite !lor_shiftl_add by lia. rewrite wrap_small.
  - rewrite Z.lxor_eq_0_iff. lia.
  - red. rewrite <- !lor_shiftl_add by lia. split.
    + apply Z.lxor_nonneg. rewrite !lor_shiftl_add by lia. lia.
    + destruct (Z.eq_dec (Z.lxor (Z.lor (Z.shiftl a 4) b) (Z.lor (Z.shiftl c 4) d)) 0) as [->|Hne]; [lia|].
      apply Z.log2_lt_pow2.
      * assert (0 <= Z.lxor (Z.lor (Z.shiftl a 4) b) (Z.lor (Z.shiftl c 4) d)); [|lia].
        apply Z.lxor_nonneg. rewrite !lor_shiftl_add by lia. lia.
      * eapply Z.le_lt_trans; [apply Z.log2_lxor; rewrite lor_shiftl_add by lia; lia|].
        rewrite !lor_shiftl_add by lia. apply Z.max_lub_lt;
          (destruct (Z.eq_dec (a * 2 ^ 4 + b) 0) as [E|E]; destruct (Z.eq_dec (c * 2 ^ 4 + d) 0) as [E'|E'];
           rewrite ?E, ?E'; try (cbn; lia); apply Z.log2_lt_pow2; lia).
Qed.

Definition hex_string (a : bytes) : Prop := Forall (fun c => 0 <= hexval c) a /\ Nat.Even (length a).

Lemma ct_hex_loop_spec a : forall b diff, length a = length b -> 0 <= diff ->
  ct_hex_loop a b diff = true <->
  diff = 0 /\ hex_string a /\ hex_string b /\ map hexval a = map hexval b.
Proof.
  induction a as [a IH] using (induction_ltof1 _ (@length Z)). unfold ltof in IH.
  intros b diff Hl Hd. destruct a as [|ah [|al a]].
  - destruct b; [|done]. cbn. rewrite Z.eqb_eq. unfold hex_string.
    split; [intros ->; split_and!; try done; now exists 0%nat|tauto].
  - destruct b as [|bh [|]]; try done. cbn.
    rewrite orb_true_r, orb_true_l.
    split; [done|]. intros (_ & (_ & [k Hk]) & _). cbn in Hk. lia.
  - destruct b as [|bh [|bl b]]; try done. cbn [ct_hex_loop].
    pose proof (hexval_range ah); pose proof (hexval_range al);
      pose proof (hexval_range bh); pose proof (hexval_range bl).
    assert (forall x y l, hex_string (x :: y :: l) <-> 0 <= hexval x /\ 0 <= hexval y /\ hex_string l) as Hh.
    { intros x y l. unfold hex_string. rewrite !Forall_cons. cbn [length].
      assert (Nat.Even (S (S (length l))) <-> Nat.Even (length l)) as -> by apply Nat.Even_succ_succ.
      tauto. }
    rewrite !Hh. cbn [map].
    case_match; zb.
    { split; [done|]. intros (_ & (? & ? & _) & (? & ? & _) & _). lia. }
    rewrite IH; [|cbn; lia|cbn in Hl; lia|].
    2: { apply Z.lor_nonneg. split; [done|]. apply wrap_range; lia. }
    rewrite Z.lor_eq_0_iff, nibbles_eq by lia. split.
    + intros ((-> & -> & ->) & ? & ? & ->). split_and!; auto; lia.
    + intros (-> & ? & ? & [= -> -> ->]). naive_solver.
Qed.

(** Comparing digests accepts exactly equal digests: two strings compare equal
    iff both consist of an even number of hex digits, have the same length and
    denote the same bytes (the case of a digit does not matter). *)
Theorem ct_eq_hex_correct a b :
  tm_ct_eq_hex a b = true <->
  length a = length b /\ hex_string a /\ hex_string b /\ map hexval a = map hexval b.
Proof.
  unfold tm_ct_eq_hex. case_match; zb.
  - split; [done|]. unfold blen in *. naive_solver lia.
  - assert (length a = length b) as Hl by (unfold blen in *; lia).
    rewrite ct_hex_loop_spec by (done || lia). tauto.
Qed.

(** OpenSSL's primitives, with what the callers rely on: a SHA-256 digest is 32
    bytes. *)
Class OpenSSL := {
  HMAC_SHA256 : bytes -> bytes -> bytes;
  SHA256 : bytes -> bytes;
  SHA256_len m : length (SHA256 m) = 32%nat;
  SHA256_ok m : bytes_ok (SHA256 m);
}.

Definition hexd (n : Z) : Z := if n <? 10 then 48 + n else 87 + n.

Section Digests.
Context `{OpenSSL}.

Definition tm_hmac_sha256 (key msg : bytes) : bytes := HMAC_SHA256 key msg.

Definition tm_sha256_hex (msg : bytes) : bytes :=
  concat (map (fun d => [hexd (Z.shiftr d 4); hexd (Z.land d 15)]) (SHA256 msg)).

(** What the broker stores and recomputes for a secret: the hex SHA-256 of its
    keyed HMAC. *)
Definition secret_digest (key secret : bytes) : bytes :=
  tm_sha256_hex (tm_hmac_sha256 key secret).

Definition lower_hex (c : Z) : Prop := 48 <= c <= 57 \/ 97 <= c <= 102.

Lemma hexd_lower n : 0 <= n < 16 -> lower_hex (hexd n) /\ hexval (hexd n) = n.
Proof. unfold hexd, hexval, lower_hex. intros; repeat (case_match; zb; try lia). Qed.

Lemma sha256_hex_shape msg :
  length (tm_sha256_hex msg) = 64%nat /\ Forall lower_hex (tm_sha256_hex msg).
Proof.
  unfold tm_sha256_hex. pose proof (SHA256_len msg) as Hl. pose proof (SHA256_ok msg) as Hok.
  assert (length (concat (map (fun d => [hexd (Z.shiftr d 4); hexd (Z.land d 15)]) (SHA256 msg)))
          = (2 * length (SHA256 msg))%nat /\
          Forall lower_hex (concat (map (fun d => [hexd (Z.shiftr d 4); hexd (Z.land d 15)]) (SHA256 msg))))
    as [-> ?]; [|rewrite Hl; split; [reflexivity|done]].
  clear Hl. induction Hok as [|d l Hd _ [IH1 IH2]]; [by split|].
  cbn [map concat app length]. split; [lia|].
  unfold byte_ok, in_width in Hd. constructor; [|constructor; [|done]].
  - apply hexd_lower. rewrite Z.shiftr_div_pow2 by lia. Z.div_mod_to_equations; lia.
  - apply hexd_lower. change 15 with (Z.ones 4). rewrite Z.land_ones by lia. Z.div_mod_to_equations; lia.
Qed.

Lemma lower_hex_inj a b : lower_hex a -> lower_hex b -> hexval a = hexval b -> a = b.
Proof. unfold lower_hex, hexval. intros ? ?; repeat (case_match; zb; try lia). Qed.

(** The digest of a presented secret matches a stored digest of the same form
    exactly when the two digests are the same string: the comparison that guards
    registration, data binding and peer authentication has no false accepts beyond
    collisions of the hash. *)
Theorem digest_match key s1 s2 :
  tm_ct_eq_hex (secret_digest key s1) (secret_digest key s2) = true <->
  secret_digest key s1 = secret_digest key s2.
Proof.
  unfold secret_digest. set (a := tm_sha256_hex _). set (b := tm_sha256_hex (tm_hmac_sha256 key s2)).
  destruct (sha256_hex_shape (tm_hmac_sha256 key s1)) as [La Ha].
  destruct (sha256_hex_shape (tm_hmac_sha256 key s2)) as [Lb Hb]. fold a in La, Ha. fold b in Lb, Hb.
  clearbody a b.
  unfold tm_ct_eq_hex. replace (blen a =? blen b) with true
    by (symmetry; unfold blen; zb; congruence). cbn [negb].
  rewrite ct_hex_loop_spec by (congruence || lia). split.
  - intros (_ & _ & _ & E). clear La Lb. revert b Hb E.
    induction Ha as [|x a Hx _ IH]; intros b Hb E; destruct Hb as [|y b Hy Hb]; try done.
    cbn in E. injection E as E1 E2. f_equal; [by apply lower_hex_inj|by apply IH].
  - intros <-. assert (hex_string a) as Hs; [|done]. split.
    + eapply Forall_impl; [exact Ha|]. intros c. unfold lower_hex, hexval.
      intros; repeat (case_match; zb; try lia).
    + rewrite La. now exists 32%nat.
Qed.

End Digests.

(** The alphabet of generated tokens. *)
Definition alphabet : bytes :=
  cstr "abcdefghijklmnopqrstuvwxyzABCDEFGHIJKLMNOPQRSTUVWXYZ0123456789".

(** [raw] is what [RAND_bytes] delivered, [None] when it failed. *)
Definition tm_rand_token (raw : option bytes) (len : nat) : bytes :=
  match len, raw with
  | O, _ => []
  | _, None => []
  | _, Some raw => map (fun i => byte_at alphabet (Z.to_nat (byte_at raw i mod 62))) (seq 0 len)
  end.

(** A generated token has the requested length and only letters and digits, so
    it never contains a NUL, a space or a quote; when the generator fails the
    token is empty. *)
Theorem rand_token_shape raw len :
  (length (tm_rand_token (Some raw) len) = len /\
   Forall (fun c => In c alphabet) (tm_rand_token (Some raw) len)) /\
  tm_rand_token None len = [].
Proof.
  split; [|now destruct len]. destruct len as [|len]; [by split|].
  unfold tm_rand_token. rewrite length_map, length_seq. split; [done|].
  apply List.Forall_forall. intros c Hc. apply in_map_iff in Hc as (i & <- & _).
  unfold byte_at at 1. apply nth_In. change (length alphabet) with 62%nat.
  pose proof (Z.mod_pos_bound (byte_at raw i) 62). lia.
Qed.

End Crypto.

(** ** Log lines *)

Module Log.

Inductive tm_log_level := TM_LOG_DEBUG | TM_LOG_INFO | TM_LOG_WARN | TM_LOG_ERROR.

Definition tm_log_level_name (lvl : tm_log_level) : bytes :=
  match lvl with
  | TM_LOG_DEBUG => cstr "debug"
  | TM_LOG_INFO => cstr "info"
  | TM_LOG_WARN => cstr "warning"
  | TM_LOG_ERROR => cstr "error"
  end.

(** [None] is the return value -1, which leaves [*out] unchanged. *)
Definition tm_log_level_parse (s : option bytes) : option tm_log_level :=
  match s with
  | None => None
  | Some s =>
      if streq s (cstr "debug") then Some TM_LOG_DEBUG
      else if streq s (cstr "info") then Some TM_LOG_INFO
      else if streq s (cstr "warn") || streq s (cstr "warning") then Some TM_LOG_WARN
      else if streq s (cstr "error") then Some TM_LOG_ERROR
      else None
  end.

Definition hex4 (c : Z) : bytes :=
  [48; 48; Crypto.hexd (Z.shiftr c 4); Crypto.hexd (Z.land c 15)].

(** One iteration's output. *)
Definition escape_char (c : Z) : bytes :=
  if c =? 34 then [92; 34]
  else if c =? 92 then [92; 92]
  else if c =? 10 then [92; 110]
  else if c =? 13 then [92; 114]
  else if c =? 9 then [92; 116]
  else if c <? 32 then [92; 117] ++ hex4 c
  else [c].

(** [json_escape(s, out, outlen)]: the bytes written before the final NUL. *)
Fixpoint escape_loop (s : bytes) (outlen : Z) (out : bytes) : bytes :=
  match s with
  | [] => out
  | c :: s' => if blen out + 6 <? outlen then escape_loop s' outlen (out ++ escape_char c) else out
  end.

Definition json_escape (s : bytes) (outlen : Z) : bytes := escape_loop s outlen [].

(** The reference: the characters of a JSON string body, [None] where the body is
    not one (a bare quote, a control character, an unknown escape). *)
Fixpoint json_body (fuel : nat) (s : bytes) : option bytes :=
  match fuel with
  | O => None
  | S fuel' =>
      match s with
      | [] => Some []
      | 92 :: 34 :: s' => cons 34 <$> json_body fuel' s'
      | 92 :: 92 :: s' => cons 92 <$> json_body fuel' s'
      | 92 :: 110 :: s' => cons 10 <$> json_body fuel' s'
      | 92 :: 114 :: s' => cons 13 <$> json_body fuel' s'
      | 92 :: 116 :: s' => cons 9 <$> json_body fuel' s'
      | 92 :: 117 :: a :: b :: c :: d :: s' =>
          if (Crypto.hexval a <? 0) || (Crypto.hexval b <? 0) ||
             (Crypto.hexval c <? 0) || (Crypto.hexval d <? 0) then None
          else cons (((Crypto.hexval a * 16 + Crypto.hexval b) * 16 + Crypto.hexval c) * 16
                     + Crypto.hexval d) <$> json_body fuel' s'
      | c :: s' => if (c <? 32) || (c =? 34) || (c =? 92) then None
                   else cons c <$> json_body fuel' s'
      end
  end.

Lemma escape_char_len c : 1 <= blen (escape_char c) <= 6.
Proof. unfold escape_char; repeat case_match; cbn; unfold blen; cbn; lia. Qed.

Lemma json_body_char c s fuel : byte_ok c ->
  json_body (S fuel) (escape_char c ++ s) = cons c <$> json_body fuel s.
Proof.
  intros Hc. unfold byte_ok, in_width in Hc. unfold escape_char.
  repeat (case_match; zb; subst; try reflexivity).
  - cbn [app hex4 json_body]. unfold hex4. cbn [app].
    destruct (Crypto.hexd_lower (Z.shiftr c 4)) as [_ Hv1].
    { rewrite Z.shiftr_div_pow2 by lia. Z.div_mod_to_equations; lia. }
    destruct (Crypto.hexd_lower (Z.land c 15)) as [_ Hv2].
    { change 15 with (Z.ones 4). rewrite Z.land_ones by lia. Z.div_mod_to_equations; lia. }
    cbn [json_body]. rewrite Hv1, Hv2. change (Crypto.hexval 48) with 0.
    assert (c = Z.shiftr c 4 * 16 + Z.land c 15) as E.
    { change 15 with (Z.ones 4). rewrite Z.land_ones, Z.shiftr_div_pow2 by lia.
      Z.div_mod_to_equations; lia. }
    assert (0 <= Z.shiftr c 4 /\ 0 <= Z.land c 15) as [? ?].
    { change 15 with (Z.ones 4). rewrite Z.land_ones, Z.shiftr_div_pow2 by lia.
      Z.div_mod_to_equations; lia. }
    case_match; zb; [lia|]. f_equal. f_equal. lia.
  - cbn [app json_body].
    destruct (Z.eq_dec c 92) as [->|N92]; [done|].
    assert ((c <? 32) || (c =? 34) || (c =? 92) = false) as -> by (zb; lia).
    destruct c as [|p|p]; try lia; try reflexivity.
    do 7 (destruct p as [p|p|]; try reflexivity; try lia).
Qed.

Lemma escape_loop_spec s : forall outlen out, 1 <= outlen -> blen out < outlen ->
  exists k, escape_loop s outlen out = out ++ concat (map escape_char (take k s)) /\
            blen (escape_loop s outlen out) < outlen /\
            (blen out + 6 * blen s < outlen -> k = length s).
Proof.
  induction s as [|c s IH]; intros outlen out H1 Ho; cbn [escape_loop].
  { exists 0%nat. cbn. rewrite app_nil_r. split_and!; auto. }
  pose proof (escape_char_len c). case_match; zb.
  - destruct (IH outlen (out ++ escape_char c)) as (k & E & Hl & Hk); [lia|autorewrite with blen; lia|].
    exists (S k). cbn [take map concat]. rewrite E, <- app_assoc. split_and!; auto.
    + rewrite E, <- app_assoc in Hl. done.
    + autorewrite with blen in *. cbn [length]. intros. rewrite Hk by lia. done.
  - exists 0%nat. cbn. rewrite app_nil_r. split_and!; auto. autorewrite with blen.
    pose proof (blen_nonneg s). lia.
Qed.

(** What is logged stays inside its JSON string.  For any bytes the escaped
    text fits the buffer with its NUL, and reading it back as the body of a JSON
    string gives a prefix of the input: no quote, backslash or control character
    ever ends the string early; the whole input comes back when the buffer has room
    for six bytes per character. *)
Theorem json_escape_roundtrip s outlen :
  bytes_ok s -> 1 <= outlen ->
  blen (json_escape s outlen) < outlen /\
  exists k, json_body (S (length s)) (json_escape s outlen) = Some (take k s) /\
            (6 * blen s < outlen -> take k s = s).
Proof.
  intros Hs Ho. destruct (escape_loop_spec s outlen [] Ho) as (k & E & Hl & Hk); [unfold blen; cbn; lia|].
  unfold json_escape. split; [done|]. exists k. rewrite E. cbn [app]. split.
  - clear E Hl Hk. revert k; induction Hs as [|c s Hc _ IH]; intros k; [by destruct k|].
    destruct k as [|k]; [done|]. cbn [take map concat length]. rewrite json_body_char by done.
    now rewrite IH.
  - intros H. rewrite Hk by (unfold blen at 1; cbn; lia). apply take_ge; lia.
Qed.

Lemma json_escape_roundtrip_witness :
  blen (json_escape [34; 7; 65] 64) < 64 /\
  exists k, json_body 4 (json_escape [34; 7; 65] 64) = Some (take k [34; 7; 65]) /\
            (6 * blen [34; 7; 65] < 64 -> take k [34; 7; 65] = [34; 7; 65]).
Proof. apply (json_escape_roundtrip [34; 7; 65] 64); [repeat constructor; lia|lia]. Defined.

End Log.
