(* ===== verification/Config.v ===== *)
(** * Configuration files

    The TOML-subset parser of src/common/src/config.c (Module Conf) and the
    broker's reading of it, [cfg_load] of src/broker/src/main.c with
    [tm_broker_cfg] of src/broker/src/broker.h (Module BrokerCfg).

    A C string is the list of its bytes without the final NUL.  A configuration is
    the list of its key/value cells, head first.  The text put in [errbuf] is kept
    as a value of [cfg_error]; the status is [TM_ERR] exactly when there is one. *)

From S2P Require Import Prelude.
From S2P Require Import Wire.
From S2P Require Import Text.

(** ** C library string functions the parser uses *)

Module CLib.

Fixpoint skip_while (p : Z -> bool) (s : bytes) : bytes :=
  match s with
  | [] => []
  | c :: s' => if p c then skip_while p s' else s
  end.

(** [strchr(s, c)] with [c <> 0]: what stands before and after its first occurrence. *)
Fixpoint strchr (s : bytes) (c : Z) : option (bytes * bytes) :=
  match s with
  | [] => None
  | x :: s' => if x =? c then Some ([], s')
               else match strchr s' c with
                    | Some (a, b) => Some (x :: a, b)
                    | None => None
                    end
  end.

(** [strrchr(s, c)]: the same for the last occurrence. *)
Fixpoint strrchr (s : bytes) (c : Z) : option (bytes * bytes) :=
  match s with
  | [] => None
  | x :: s' => match strrchr s' c with
               | Some (a, b) => Some (x :: a, b)
               | None => if x =? c then Some ([], s') else None
               end
  end.

(** Cutting a text at every newline. *)
Fixpoint split_nl (s : bytes) : bytes * list bytes :=
  match s with
  | [] => ([], [])
  | c :: s' => let '(l, ls) := split_nl s' in
               if c =? 10 then ([], l :: ls) else (c :: l, ls)
  end.

(** The tokens [strtok_r(.., "\n", ..)] delivers one after the other: it skips
    every run of delimiters, so no token is empty. *)
Definition strtok_nl (s : bytes) : list bytes :=
  let '(l, ls) := split_nl s in
  List.filter (fun t => 0 <? blen t) (l :: ls).

Definition isspace (c : Z) : bool := (c =? 32) || ((9 <=? c) && (c <=? 13)).
Definition isdigit (c : Z) : bool := (48 <=? c) && (c <=? 57).

Definition LLONG_MAX : Z := 2 ^ 63 - 1.
Definition LLONG_MIN : Z := - 2 ^ 63.
Definition clamp_ll (z : Z) : Z := Z.max LLONG_MIN (Z.min LLONG_MAX z).

(** The value of a run of digits, and the text after it. *)
Fixpoint digits (acc : Z) (s : bytes) : Z * bytes :=
  match s with
  | [] => (acc, [])
  | c :: s' => if isdigit c then digits (acc * 10 + (c - 48)) s' else (acc, s)
  end.

(** [strtoll(s, &end, 10)]; [None] when no digit was found ([end == s]).  The value
    saturates, as the C function does on overflow. *)
Definition strtoll (s : bytes) : option (Z * bytes) :=
  let s1 := skip_while isspace s in
  let '(neg, s2) := match s1 with
                    | 45 :: t => (true, t)
                    | 43 :: t => (false, t)
                    | _ => (false, s1)
                    end in
  match s2 with
  | c :: _ => if isdigit c
              then let '(n, rest) := digits 0 s2 in
                   Some (clamp_ll (if neg : bool then - n else n), rest)
              else None
  | [] => None
  end.

(** Decimal notation, the reference for [strtoll]. *)
Fixpoint dec_loop (fuel : nat) (n : Z) (acc : bytes) : bytes :=
  match fuel with
  | O => acc
  | S fuel' => if n <? 10 then (48 + n) :: acc
               else dec_loop fuel' (n / 10) ((48 + n mod 10) :: acc)
  end.

Definition dec_pos (n : Z) : bytes := dec_loop (S (Z.to_nat (Z.log2 n))) n [].
Definition dec (n : Z) : bytes := if n <? 0 then 45 :: dec_pos (- n) else dec_pos n.

Lemma strchr_app s c t : ~ In c s -> strchr (s ++ c :: t) c = Some (s, t).
Proof.
  induction s as [|x s IH]; cbn; intros H; [now rewrite Z.eqb_refl|].
  assert ((x =? c) = false) as -> by (zb; intuition congruence).
  now rewrite IH by tauto.
Qed.

Lemma split_nl_app l s : ~ In 10 l ->
  split_nl (l ++ 10 :: s) = (l, let '(a, b) := split_nl s in a :: b).
Proof.
  induction l as [|x l IH]; cbn [app split_nl In]; intros H.
  - destruct (split_nl s); reflexivity.
  - rewrite IH by tauto. destruct (split_nl s).
    assert ((x =? 10) = false) as -> by (zb; intuition congruence). reflexivity.
Qed.

Lemma strtok_nl_cons l s : l <> [] -> ~ In 10 l ->
  strtok_nl (l ++ 10 :: s) = l :: strtok_nl s.
Proof.
  intros Hl Hn. unfold strtok_nl. rewrite split_nl_app by done. destruct (split_nl s).
  cbn [List.filter]. destruct l; [done|]. rewrite blen_cons.
  pose proof (blen_nonneg l). now assert ((0 <? 1 + blen l) = true) as -> by (zb; lia).
Qed.

Lemma digits_dec_loop fuel : forall n tl,
  0 <= n -> n < 2 ^ Z.of_nat fuel -> digits 0 (dec_loop fuel n tl) = digits n tl.
Proof.
  induction fuel as [|fuel IH]; intros n tl H0 Hn.
  { cbn in Hn. now replace n with 0 by lia. }
  cbn [dec_loop]. rewrite Nat2Z.inj_succ, Z.pow_succ_r in Hn by lia. case_match; zb.
  - cbn [digits]. assert (isdigit (48 + n) = true) as -> by (unfold isdigit; zb; lia).
    f_equal. lia.
  - rewrite IH; [|apply Z.div_pos; lia|apply Z.div_lt_upper_bound; lia].
    pose proof (Z.mod_pos_bound n 10). cbn [digits].
    assert (isdigit (48 + n mod 10) = true) as -> by (unfold isdigit; zb; lia).
    f_equal. pose proof (Z.div_mod n 10). lia.
Qed.

Lemma dec_loop_head fuel : forall n tl, 0 <= n ->
  (exists c r, dec_loop (S fuel) n tl = c :: r /\ isdigit c = true).
Proof.
  assert (forall fuel n c r, 0 <= n -> isdigit c = true ->
    exists c' r', dec_loop fuel n (c :: r) = c' :: r' /\ isdigit c' = true) as Hg.
  { clear fuel; intros fuel; induction fuel as [|fuel IH]; intros n c r Hn Hc; cbn [dec_loop]; [eauto|].
    case_match; zb.
    - eexists _, _; split; [done|]. unfold isdigit; zb; lia.
    - apply IH; [apply Z.div_pos; lia|]. pose proof (Z.mod_pos_bound n 10). unfold isdigit; zb; lia. }
  intros n tl Hn. cbn [dec_loop]. case_match; zb.
  - eexists _, _; split; [done|]. unfold isdigit; zb; lia.
  - apply Hg; [apply Z.div_pos; lia|]. pose proof (Z.mod_pos_bound n 10). unfold isdigit; zb; lia.
Qed.

Lemma dec_pos_spec n : 0 <= n ->
  digits 0 (dec_pos n) = (n, []) /\
  exists c r, dec_pos n = c :: r /\ isdigit c = true.
Proof.
  intros Hn. unfold dec_pos. split; [|by apply dec_loop_head].
  rewrite digits_dec_loop; [done|done|].
  rewrite Nat2Z.inj_succ, Z2Nat.id by apply Z.log2_nonneg.
  destruct (Z.eq_dec n 0) as [->|]; [done|]. apply Z.log2_spec; lia.
Qed.

Lemma strtoll_dec n : strtoll (dec n) = Some (clamp_ll n, []).
Proof.
  unfold dec, strtoll. destruct (n <? 0) eqn:En; zb.
  - destruct (dec_pos_spec (- n)) as (Hd & c & r & E & Hc); [lia|].
    change (skip_while isspace (45 :: dec_pos (- n))) with (45 :: dec_pos (- n)).
    cbv iota beta. rewrite Hd, E, Hc, Z.opp_involutive. reflexivity.
  - destruct (dec_pos_spec n) as (Hd & c & r & E & Hc); [lia|].
    rewrite E in *. cbn [skip_while].
    unfold isdigit in Hc; zb. unfold isspace.
    assert ((c =? 32) || ((9 <=? c) && (c <=? 13)) = false) as -> by (zb; lia).
    assert (match c :: r with 45 :: t => (true, t) | 43 :: t => (false, t) | _ => (false, c :: r) end
            = (false, c :: r)) as ->.
    { destruct c as [|p|p]; try lia. do 6 (destruct p as [p|p|]; try lia; try reflexivity). }
    assert (isdigit c = true) as -> by (unfold isdigit; zb; lia). now rewrite Hd.
Qed.

End CLib.

(** ** The parser and its lookups *)

Module Conf.
Import CLib.

Definition tm_kv : Type := bytes * bytes.
Definition tm_config : Type := list tm_kv.

Definition tm_config_new : tm_config := [].

(** The messages of [errbuf], with their line number. *)
Inductive cfg_error :=
  | UnterminatedSection (lineno : Z)
  | ExpectedEquals (lineno : Z)
  | EmptyKey (lineno : Z)
  | CannotOpen (path : bytes).
#[global] Instance cfg_error_eq : EqDecision cfg_error.
Proof. solve_decision. Defined.

(** [snprintf(full, sizeof(full), ...)] *)
Definition full_key (section : option bytes) (key : bytes) : bytes :=
  match section with
  | Some (x :: s) => str_trunc 256 ((x :: s) ++ cstr "." ++ key)
  | _ => str_trunc 256 key
  end.

Fixpoint kv_replace (c : tm_config) (full value : bytes) : option tm_config :=
  match c with
  | [] => None
  | (k, v) :: c' => if streq k full then Some ((k, value) :: c')
                    else match kv_replace c' full value with
                         | Some c'' => Some ((k, v) :: c'')
                         | None => None
                         end
  end.

Definition config_set (c : tm_config) (section : option bytes) (key value : bytes) : tm_config :=
  let full := full_key section key in
  match kv_replace c full value with
  | Some c' => c'
  | None => (full, value) :: c
  end.

Definition is_blank (c : Z) : bool := (c =? 32) || (c =? 9).
Definition is_blank_cr (c : Z) : bool := (c =? 32) || (c =? 9) || (c =? 13).

Definition trim (s : bytes) : bytes :=
  rev (skip_while is_blank_cr (rev (skip_while is_blank s))).

Definition strip_quotes (v : bytes) : bytes :=
  let vl := blen v in
  if (2 <=? vl) &&
     (((byte_at v 0 =? 34) && (byte_at v (Z.to_nat (vl - 1)) =? 34)) ||
      ((byte_at v 0 =? 39) && (byte_at v (Z.to_nat (vl - 1)) =? 39)))
  then drop 1 (take (Z.to_nat (vl - 1)) v)
  else v.

(** The second component is the error of a -1 return. *)
Definition parse_line (c : tm_config) (line : bytes) (section : option bytes) (lineno : Z)
  : tm_config * option cfg_error :=
  let p := skip_while is_blank line in
  match p with
  | [] => (c, None)
  | x :: _ =>
      if x =? 35 then (c, None)
      else if x =? 91 then
        match strchr p 93 with
        | None => (c, Some (UnterminatedSection lineno))
        | Some _ => (c, None)
        end
      else match strchr p 61 with
           | None => (c, Some (ExpectedEquals lineno))
           | Some (key, rest) =>
               let key := trim key in
               let v := strip_quotes (trim rest) in
               if blen key =? 0 then (c, Some (EmptyKey lineno))
               else (config_set c section key v, None)
           end
  end.

Fixpoint parse_tokens (c : tm_config) (section : option bytes) (lineno : Z) (lines : list bytes)
  : tm_config * option cfg_error :=
  match lines with
  | [] => (c, None)
  | line :: lines' =>
      let lineno := lineno + 1 in
      let p := skip_while is_blank line in
      match p with
      | 91 :: body =>
          match strchr body 93 with
          | None => (c, Some (UnterminatedSection lineno))
          | Some (name, _) => parse_tokens c (Some name) lineno lines'
          end
      | _ =>
          match parse_line c line section lineno with
          | (c', Some e) => (c', Some e)
          | (c', None) => parse_tokens c' section lineno lines'
          end
      end
  end.

Definition config_parse_buf (c : tm_config) (text : bytes) : tm_config * option cfg_error :=
  parse_tokens c None 0 (strtok_nl text).

Definition tm_config_parse (c : tm_config) (text : bytes) : tm_config * option cfg_error :=
  config_parse_buf c text.

(** The read loop of [tm_config_load] on the chunks [fread] delivers: the bytes
    read so far and the capacity of [buf]. *)
Fixpoint load_loop (chunks : list bytes) (buf : bytes) (cap : Z) : bytes * Z :=
  match chunks with
  | [] => (buf, cap)
  | chunk :: chunks' =>
      let need := blen buf + blen chunk + 1 in
      let cap := if cap <? need
                 then grow (if cap =? 0 then 8192 else cap * 2) need
                 else cap in
      load_loop chunks' (buf ++ chunk) cap
  end.

(** [file] is what opening and reading [path] gives: [None] when [fopen] failed,
    else the chunks read.  The text ends at the first NUL. *)
Definition tm_config_load (c : tm_config) (path : bytes) (file : option (list bytes))
  : tm_config * option cfg_error :=
  match file with
  | None => (c, Some (CannotOpen path))
  | Some chunks => config_parse_buf c (strz (fst (load_loop chunks [] 0)))
  end.

Fixpoint config_find (c : tm_config) (key : bytes) : option bytes :=
  match c with
  | [] => None
  | (k, v) :: c' => if streq k key then Some v else config_find c' key
  end.

Definition tm_config_get_str (c : tm_config) (key : bytes) (def : option bytes)
  : bool * option bytes :=
  match config_find c key with
  | None => (false, def)
  | Some v => (true, Some v)
  end.

Definition tm_config_get_str_owned (c : tm_config) (key : bytes) (def : option bytes)
  : option bytes :=
  match config_find c key with Some v => Some v | None => def end.

Definition tm_config_get_int (c : tm_config) (key : bytes) (def : Z) : bool * Z :=
  match config_find c key with
  | None => (false, def)
  | Some v => match strtoll v with
              | Some (n, []) => (true, n)
              | _ => (false, def)
              end
  end.

Definition tm_config_get_bool (c : tm_config) (key : bytes) (def : bool) : bool * bool :=
  match config_find c key with
  | None => (false, def)
  | Some v =>
      if streq v (cstr "true") || streq v (cstr "yes") || streq v (cstr "on") || streq v (cstr "1")
      then (true, true)
      else if streq v (cstr "false") || streq v (cstr "no") || streq v (cstr "off") || streq v (cstr "0")
      then (true, false)
      else (false, def)
  end.

(** *** Lemmas *)

Lemma kv_replace_find c full v key :
  match kv_replace c full v with
  | Some c' => config_find c' key = (if streq full key then Some v else config_find c key)
  | None => config_find c full = None
  end.
Proof.
  induction c as [|[k w] c IH]; cbn; [done|].
  destruct (streq k full) eqn:E.
  - apply streq_true in E as ->. cbn. now destruct (streq full key).
  - destruct (kv_replace c full v) as [c'|]; cbn; [|done].
    rewrite IH. destruct (streq k key) eqn:E2; [|done].
    apply streq_true in E2 as ->. apply streq_false in E.
    destruct (streq full key) eqn:E3; [|done]. apply streq_true in E3. congruence.
Qed.

Lemma config_find_set c section k v key :
  config_find (config_set c section k v) key =
  if streq (full_key section k) key then Some v else config_find c key.
Proof.
  unfold config_set. pose proof (kv_replace_find c (full_key section k) v key) as H.
  destruct kv_replace; [done|]. reflexivity.
Qed.

(** *** A printer, the reference for the parser *)

Inductive cfg_line := Section_ (name : bytes) | Entry (key value : bytes).

Definition render_line (l : cfg_line) : bytes :=
  match l with
  | Section_ n => [91] ++ n ++ [93; 10]
  | Entry k v => k ++ [32; 61; 32; 34] ++ v ++ [34; 10]
  end.

Definition render (ls : list cfg_line) : bytes := concat (map render_line ls).

Definition line_wf (l : cfg_line) : Prop :=
  match l with
  | Section_ n => ~ In 93 n /\ ~ In 10 n
  | Entry k v =>
      (exists x k', k = x :: k' /\ ~ In x [32; 9; 35; 91]) /\ ~ In (List.last k 0) [32; 9; 13] /\
      ~ In 61 k /\ ~ In 10 k /\ ~ In 10 v
  end.

(** What the lines mean: the value last given to a full key, by section. *)
Fixpoint meaning (ls : list cfg_line) (section : option bytes) (f : bytes -> option bytes)
  : bytes -> option bytes :=
  match ls with
  | [] => f
  | Section_ n :: ls' => meaning ls' (Some n) f
  | Entry k v :: ls' =>
      meaning ls' section (fun key => if streq (full_key section k) key then Some v else f key)
  end.

Lemma meaning_ext ls : forall section f g, (forall k, f k = g k) ->
  forall k, meaning ls section f k = meaning ls section g k.
Proof.
  induction ls as [|[n|k v] ls IH]; intros section f g H; cbn; auto.
  apply IH. intros key. now rewrite H.
Qed.

Lemma skip_while_id p s : (forall x s', s = x :: s' -> p x = false) -> skip_while p s = s.
Proof. destruct s as [|x s]; [done|]. intros H. cbn. now rewrite (H x s). Qed.

Lemma trim_id k : (exists x k', k = x :: k' /\ is_blank x = false) ->
  is_blank_cr (List.last k 0) = false -> trim k = k.
Proof.
  intros (x & k' & -> & Hx) Hl. unfold trim.
  rewrite (skip_while_id is_blank (x :: k')) by (intros ? ? [= <- <-]; done).
  rewrite skip_while_id; [apply rev_involutive|].
  intros y s' E. assert (x :: k' = rev s' ++ [y]) as E'.
  { rewrite <- (rev_involutive (x :: k')), E. reflexivity. }
  rewrite E' in Hl. now rewrite List.last_last in Hl.
Qed.

Lemma is_blank_spec x : is_blank x = false <-> x <> 32 /\ x <> 9.
Proof. unfold is_blank. zb. tauto. Qed.
Lemma is_blank_cr_spec x : is_blank_cr x = false <-> x <> 32 /\ x <> 9 /\ x <> 13.
Proof. unfold is_blank_cr. zb. tauto. Qed.

Lemma strip_quotes_quoted v : strip_quotes ([34] ++ v ++ [34]) = v.
Proof.
  unfold strip_quotes. autorewrite with blen. pose proof (blen_nonneg v).
  assert ((2 <=? 1 + 0 + (blen v + (1 + 0))) = true) as -> by (zb; lia).
  assert (Z.to_nat (1 + 0 + (blen v + (1 + 0)) - 1) = S (length v)) as -> by (unfold blen; lia).
  unfold byte_at. cbn [app nth]. rewrite nth_middle. cbn [Z.eqb Pos.eqb andb orb].
  cbn [take drop skipn]. now rewrite take_app_length.
Qed.

Lemma parse_entry c k v section lineno lines : line_wf (Entry k v) ->
  parse_tokens c section lineno ((k ++ [32; 61; 32; 34] ++ v ++ [34]) :: lines) =
  parse_tokens (config_set c section k v) section (lineno + 1) lines.
Proof.
  intros ((x & k' & Ek & Hx) & Hlast & Heq & Hnl & Hv). cbn in Hx.
  assert (is_blank x = false) as Hb by (apply is_blank_spec; lia).
  set (line := k ++ _). assert (skip_while is_blank line = line) as Esk.
  { subst line k. cbn. now rewrite Hb. }
  assert (parse_line c line section (lineno + 1) = (config_set c section k v, None)) as Hp.
  { unfold parse_line. rewrite Esk. replace line with (x :: drop 1 line) at 1 by now subst line k.
    assert ((x =? 35) = false) as -> by (zb; lia). assert ((x =? 91) = false) as -> by (zb; lia).
    assert (strchr line 61 = Some (k ++ [32], [32; 34] ++ v ++ [34])) as ->.
    { replace line with ((k ++ [32]) ++ 61 :: [32; 34] ++ v ++ [34])
        by (subst line; now rewrite <- !app_assoc).
      apply strchr_app. rewrite in_app_iff. cbn. naive_solver lia. }
    assert (trim (k ++ [32]) = k) as ->.
    { unfold trim. rewrite (skip_while_id is_blank) by (subst k; intros ? ? [= <- <-]; done).
      rewrite rev_app_distr. cbn [rev app skip_while is_blank_cr]. cbn.
      rewrite <- (trim_id k) at 2.
      - unfold trim. rewrite (skip_while_id is_blank k); [done|].
        subst k; intros ? ? [= <- <-]; done.
      - eauto.
      - apply is_blank_cr_spec. cbn in Hlast. lia. }
    assert (trim ([32; 34] ++ v ++ [34]) = [34] ++ v ++ [34]) as ->.
    { transitivity (trim ([34] ++ v ++ [34])); [reflexivity|].
      apply trim_id; [eexists _, _; done|].
      rewrite app_assoc, List.last_last. done. }
    rewrite strip_quotes_quoted. rewrite Ek, blen_cons.
    pose proof (blen_nonneg k'). assert ((1 + blen k' =? 0) = false) as -> by (zb; lia). done. }
  cbn [parse_tokens]. rewrite Esk, Hp.
  replace line with (x :: drop 1 line) by now subst line k.
  destruct x as [|p|p]; try done.
  do 7 (destruct p as [p|p|]; try reflexivity). lia.
Qed.

Lemma parse_section c n section lineno lines : line_wf (Section_ n) ->
  parse_tokens c section lineno (([91] ++ n ++ [93]) :: lines) =
  parse_tokens c (Some n) (lineno + 1) lines.
Proof.
  intros [H1 _]. cbn [app parse_tokens skip_while]. change (is_blank 91) with false. cbv iota.
  now rewrite strchr_app.
Qed.

Lemma parse_render_gen ls : forall c section lineno rest,
  Forall line_wf ls ->
  exists c' section',
    parse_tokens c section lineno (strtok_nl (render ls ++ rest)) =
    parse_tokens c' section' (lineno + blen ls) (strtok_nl rest) /\
    forall key, config_find c' key = meaning ls section (config_find c) key.
Proof.
  induction ls as [|l ls IH]; intros c section lineno rest Hwf.
  { exists c, section. unfold render. cbn. now rewrite Z.add_0_r. }
  inversion Hwf as [|? ? Hl Hls]; subst. unfold render. cbn [map concat].
  fold (render ls). rewrite <- app_assoc. destruct l as [n|k v]; cbn [render_line].
  - replace (([91] ++ n ++ [93; 10]) ++ render ls ++ rest)
      with (([91] ++ n ++ [93]) ++ 10 :: render ls ++ rest) by (now rewrite <- !app_assoc).
    rewrite strtok_nl_cons; [|done|destruct Hl; rewrite !in_app_iff; cbn; naive_solver lia].
    rewrite parse_section by done.
    destruct (IH c (Some n) (lineno + 1) rest Hls) as (c' & s' & E & Hm).
    exists c', s'. rewrite E, blen_cons, Z.add_assoc. split; [done|]. exact Hm.
  - replace ((k ++ [32; 61; 32; 34] ++ v ++ [34; 10]) ++ render ls ++ rest)
      with ((k ++ [32; 61; 32; 34] ++ v ++ [34]) ++ 10 :: render ls ++ rest)
      by (now rewrite <- !app_assoc).
    rewrite strtok_nl_cons.
    2: { destruct k; done. }
    2: { destruct Hl as (_ & _ & _ & ? & ?). rewrite !in_app_iff. cbn. naive_solver lia. }
    rewrite parse_entry by done.
    destruct (IH (config_set c section k v) section (lineno + 1) rest Hls) as (c' & s' & E & Hm).
    exists c', s'. rewrite E, blen_cons, Z.add_assoc. split; [done|]. intros key.
    rewrite Hm. cbn [meaning]. apply meaning_ext. intros. apply config_find_set.
Qed.

(** Parsing what the printer writes gives back what was printed: the text of a
    well-formed list of sections and quoted entries parses without error, and a
    lookup then gives the value last assigned to that full key, or what was there
    before. *)
Theorem config_roundtrip c ls key :
  Forall line_wf ls ->
  snd (tm_config_parse c (render ls)) = None /\
  config_find (fst (tm_config_parse c (render ls))) key = meaning ls None (config_find c) key.
Proof.
  intros Hwf. destruct (parse_render_gen ls c None 0 [] Hwf) as (c' & s' & E & Hm).
  unfold tm_config_parse, config_parse_buf. rewrite app_nil_r in E. rewrite E. now split.
Qed.

Definition sample : list cfg_line :=
  [Section_ (cstr "broker"); Entry (cstr "control_port") (cstr "7000");
   Entry (cstr "log_level") (cstr " a = b "); Entry (cstr "control_port") (cstr "7001")].

Lemma config_roundtrip_witness :
  snd (tm_config_parse [] (render sample)) = None /\
  config_find (fst (tm_config_parse [] (render sample))) (cstr "broker.control_port") =
  meaning sample None (config_find []) (cstr "broker.control_port").
Proof.
  apply (config_roundtrip [] sample (cstr "broker.control_port")).
  repeat constructor; cbn; try lia; try (eexists _, _; split; [reflexivity|cbn; lia]).
Defined.

(** A text with a line that has no equals sign is refused at that line: the
    entries before it stay in effect and nothing after it is read. *)
Theorem parse_stops_at_error c ls bad rest key :
  Forall line_wf ls -> bad <> [] -> ~ In 61 bad -> ~ In 10 bad ->
  (forall x r, skip_while is_blank bad = x :: r -> x <> 35 /\ x <> 91) ->
  skip_while is_blank bad <> [] ->
  snd (tm_config_parse c (render ls ++ bad ++ 10 :: rest)) = Some (ExpectedEquals (blen ls + 1)) /\
  config_find (fst (tm_config_parse c (render ls ++ bad ++ 10 :: rest))) key =
  meaning ls None (config_find c) key.
Proof.
  intros Hwf Hb H61 H10 Hx Hne.
  destruct (parse_render_gen ls c None 0 (bad ++ 10 :: rest) Hwf) as (c' & s' & E & Hm).
  unfold tm_config_parse, config_parse_buf. rewrite E, strtok_nl_cons by done.
  cbn [parse_tokens]. destruct (skip_while is_blank bad) as [|x r] eqn:Es; [done|].
  destruct (Hx x r eq_refl) as [Hx1 Hx2].
  assert (strchr (x :: r) 61 = None) as Hs.
  { assert (~ In 61 (x :: r)) as Hni.
    { rewrite <- Es. clear -H61. induction bad as [|y bad IH]; [done|]. cbn [skip_while].
      case_match; [|done]. apply IH. cbn in H61; tauto. }
    revert Hni. generalize (x :: r). clear. induction l as [|y l IH]; [done|]. cbn. intros H.
    assert ((y =? 61) = false) as -> by (zb; intuition congruence). now rewrite IH by tauto. }
  assert (parse_line c' bad s' (0 + blen ls + 1) = (c', Some (ExpectedEquals (blen ls + 1)))) as Hp.
  { unfold parse_line. rewrite Es.
    assert ((x =? 35) = false) as -> by (zb; done). assert ((x =? 91) = false) as -> by (zb; done).
    rewrite Hs. now rewrite Z.add_0_l. }
  rewrite Hp. destruct x as [|p|p]; try (now split).
  do 7 (destruct p as [p|p|]; try (now split)).
Qed.

Lemma parse_stops_at_error_witness :
  snd (tm_config_parse [] (render sample ++ cstr "oops" ++ 10 :: [])) = Some (ExpectedEquals (blen sample + 1)) /\
  config_find (fst (tm_config_parse [] (render sample ++ cstr "oops" ++ 10 :: []))) (cstr "broker.log_level") =
  meaning sample None (config_find []) (cstr "broker.log_level").
Proof.
  apply (parse_stops_at_error [] sample (cstr "oops") [] (cstr "broker.log_level"));
    try (cbn; lia); try (intros x r [= <- <-]; lia); try done.
  repeat constructor; cbn; try lia; try (eexists _, _; split; [reflexivity|cbn; lia]).
Defined.

(** An integer setting is read back from its decimal notation, saturated at the
    limits of [long long]; any text that is not one number gives the default. *)
Theorem get_int_spec c key def :
  (forall n, config_find c key = Some (dec n) -> tm_config_get_int c key def = (true, clamp_ll n)) /\
  (config_find c key = None -> tm_config_get_int c key def = (false, def)) /\
  (forall v, config_find c key = Some v ->
     (strtoll v = None \/ exists n x r, strtoll v = Some (n, x :: r)) ->
     tm_config_get_int c key def = (false, def)).
Proof.
  unfold tm_config_get_int. split_and!.
  - intros n ->. now rewrite strtoll_dec.
  - now intros ->.
  - intros v -> [->|(n & x & r & ->)]; done.
Qed.

End Conf.

(** ** The broker's settings *)

Module BrokerCfg.
Import Conf Log.

Record tm_broker_cfg := Cfg {
  listen_host : bytes;
  control_port : Z;
  public_port_start : Z;
  public_port_end : Z;
  tls_cert : bytes;
  tls_key : bytes;
  hmac_key_file : bytes;
  broker_socket : bytes;
  log_level : bytes;
  log_level_parsed : tm_log_level;
  max_tunnels : Z;
  max_streams : Z;
  max_streams_per_tunnel : Z;
  max_pending_streams : Z;
  handshake_timeout_ms : Z;
  idle_timeout_ms : Z;
  heartbeat_interval_ms : Z;
  bind_timeout_ms : Z;
  shutdown_grace_ms : Z;
  udp_flow_idle_timeout_ms : Z;
  udp_max_flows : Z;
  udp_max_flows_per_tunnel : Z;
  udp_max_datagram_size : Z;
  udp_max_packets_per_tunnel : Z;
  udp_max_packets_per_source : Z;
  udp_flow_creation_rate : Z;
  udp_queue_packets : Z;
  connect_rate_per_ip : Z;
}.

(** [cfg_get_str] into an array of [outlen] bytes. *)
Definition cfg_get_str (c : tm_config) (k def : bytes) (outlen : Z) : bytes :=
  match tm_config_get_str_owned c k (Some def) with
  | Some v => str_trunc outlen v
  | None => []
  end.

Definition cfg_get_int (c : tm_config) (k : bytes) (def : Z) : Z :=
  snd (tm_config_get_int c k def).

(** [memset] leaves [log_level_parsed] at its first value when the name is unknown. *)
Definition cfg_load (c : tm_config) : tm_broker_cfg :=
  let lvl := cfg_get_str c (cstr "broker.log_level") (cstr "info") 16 in
  {| listen_host := cfg_get_str c (cstr "broker.listen_host") (cstr "0.0.0.0") 64;
     control_port := u16 (cfg_get_int c (cstr "broker.control_port") 7000);
     public_port_start := u16 (cfg_get_int c (cstr "broker.public_port_start") TM_PORT_START_DEFAULT);
     public_port_end := u16 (cfg_get_int c (cstr "broker.public_port_end") TM_PORT_END_DEFAULT);
     tls_cert := cfg_get_str c (cstr "broker.tls_cert") (cstr "/etc/tunnelmate/certs/broker.crt") 512;
     tls_key := cfg_get_str c (cstr "broker.tls_key") (cstr "/etc/tunnelmate/certs/broker.key") 512;
     hmac_key_file := cfg_get_str c (cstr "broker.hmac_key_file") (cstr "/etc/tunnelmate/hmac.key") 512;
     broker_socket := cfg_get_str c (cstr "broker.broker_socket") (cstr "/run/tunnelmate/broker.sock") 512;
     log_level := lvl;
     log_level_parsed := match tm_log_level_parse (Some lvl) with
                         | Some l => l
                         | None => TM_LOG_DEBUG
                         end;
     max_tunnels := cfg_get_int c (cstr "broker.max_tunnels") 256;
     max_streams := cfg_get_int c (cstr "broker.max_streams") 4096;
     max_streams_per_tunnel := cfg_get_int c (cstr "broker.max_streams_per_tunnel") 256;
     max_pending_streams := cfg_get_int c (cstr "broker.max_pending_streams") 256;
     handshake_timeout_ms := cfg_get_int c (cstr "broker.handshake_timeout_ms") 15000;
     idle_timeout_ms := cfg_get_int c (cstr "broker.idle_timeout_ms") 90000;
     heartbeat_interval_ms := cfg_get_int c (cstr "broker.heartbeat_interval_ms") 15000;
     bind_timeout_ms := cfg_get_int c (cstr "broker.bind_timeout_ms") 10000;
     shutdown_grace_ms := cfg_get_int c (cstr "broker.shutdown_grace_ms") 5000;
     udp_flow_idle_timeout_ms := cfg_get_int c (cstr "broker.udp_flow_idle_timeout_ms") 30000;
     udp_max_flows := cfg_get_int c (cstr "broker.udp_max_flows") 65536;
     udp_max_flows_per_tunnel := cfg_get_int c (cstr "broker.udp_max_flows_per_tunnel") 4096;
     udp_max_datagram_size := cfg_get_int c (cstr "broker.udp_max_datagram_size") TM_DEFAULT_DATAGRAM;
     udp_max_packets_per_tunnel := cfg_get_int c (cstr "broker.udp_max_packets_per_tunnel") 2000;
     udp_max_packets_per_source := cfg_get_int c (cstr "broker.udp_max_packets_per_source") 200;
     udp_flow_creation_rate := cfg_get_int c (cstr "broker.udp_flow_creation_rate") 50;
     udp_queue_packets := cfg_get_int c (cstr "broker.udp_queue_packets") 1024;
     connect_rate_per_ip := cfg_get_int c (cstr "broker.connect_rate_per_ip") 30 |}.

(** The check of [main] on the port range and the two slot arrays it allocates;
    [None] is the exit with status 1. *)
Definition main_ports (cfg : tm_broker_cfg) : option (list bool * list bool) :=
  if public_port_end cfg <? public_port_start cfg then None
  else let n := Z.to_nat (public_port_end cfg - public_port_start cfg + 1) in
       Some (replicate n false, replicate n false).

Lemma cfg_get_str_fits c k def outlen : 1 <= outlen -> blen (cfg_get_str c k def outlen) < outlen.
Proof.
  intros; unfold cfg_get_str, tm_config_get_str_owned. now destruct config_find; apply blen_str_trunc.
Qed.

(** Whatever the configuration file says, every string setting fits its array
    with its NUL and every port fits 16 bits; a start of the broker that gets past
    the range check has one slot per port of a non-empty range of at most 65536. *)
Theorem cfg_load_bounds c (cfg := cfg_load c) :
  (blen (listen_host cfg) < 64 /\ blen (tls_cert cfg) < 512 /\ blen (tls_key cfg) < 512 /\
   blen (hmac_key_file cfg) < 512 /\ blen (broker_socket cfg) < 512 /\ blen (log_level cfg) < 16) /\
  (in_width 16 (control_port cfg) /\ in_width 16 (public_port_start cfg) /\
   in_width 16 (public_port_end cfg)) /\
  match main_ports cfg with
  | None => public_port_end cfg < public_port_start cfg
  | Some (tcp, udp) =>
      blen tcp = public_port_end cfg - public_port_start cfg + 1 /\
      blen udp = blen tcp /\ 1 <= blen tcp <= 65536
  end.
Proof.
  assert (in_width 16 (public_port_start cfg) /\ in_width 16 (public_port_end cfg)) as [Hs He]
    by (split; apply wrap_range; lia).
  split_and!; try (apply cfg_get_str_fits; lia); try (apply wrap_range; lia); try done.
  unfold main_ports, in_width in *.
  destruct (_ <? _) eqn:E; apply Z.ltb_lt in E || apply Z.ltb_ge in E; [exact E|].
  unfold blen. rewrite length_replicate. lia.
Qed.

(** A port number from 0 to 65535 written in the file is the port used; a larger
    one is silently reduced modulo 65536 (65536 + 22 binds port 22). *)
Theorem cfg_load_port c n :
  config_find c (cstr "broker.control_port") = Some (CLib.dec n) ->
  control_port (cfg_load c) = CLib.clamp_ll n mod 65536.
Proof.
  intros H. cbn [control_port cfg_load]. unfold cfg_get_int, tm_config_get_int.
  rewrite H, CLib.strtoll_dec. reflexivity.
Qed.

Lemma cfg_load_port_witness :
  control_port (cfg_load [(cstr "broker.control_port", cstr "65558")]) = 22.
Proof.
  apply (cfg_load_port [(cstr "broker.control_port", cstr "65558")] 65558).
  vm_compute. reflexivity.
Defined.

End BrokerCfg.
