(* ===== verification/Net.v ===== *)
(** * Addresses

    src/common/src/net.c: the comparisons that identify a client (rate limiting by
    IP, flows and DTLS sessions by IP and port), and the printing of an address.
    [getaddrinfo] and [getnameinfo] are the system's; their results are arguments. *)

From S2P Require Import Prelude.
From S2P Require Import Wire.

Inductive sockaddr :=
  | AF_UNSPEC
  | AF_INET (sin_port s_addr : Z)
  | AF_INET6 (sin6_port : Z) (sin6_addr : bytes) (sin6_scope_id : Z)
  | AF_OTHER (family : Z) (data : bytes).
#[global] Instance sockaddr_eq : EqDecision sockaddr.
Proof. solve_decision. Defined.

(** The addresses are given as pointers; [None] is NULL.  [AF_OTHER] never carries
    the number of one of the other three families. *)
Definition tm_addr_eq_ip (a b : option sockaddr) : bool :=
  match a, b with
  | Some (AF_INET _ x), Some (AF_INET _ y) => x =? y
  | Some (AF_INET6 _ x _), Some (AF_INET6 _ y _) => bool_decide (x = y)
  | Some AF_UNSPEC, Some AF_UNSPEC => true
  | _, _ => false
  end.

Definition tm_addr_eq (a b : option sockaddr) : bool :=
  match a, b with
  | Some (AF_INET p x), Some (AF_INET q y) => (p =? q) && (x =? y)
  | Some (AF_INET6 p x _), Some (AF_INET6 q y _) => (p =? q) && bool_decide (x = y)
  | _, _ => false
  end.

(** [resolved] is the first address [getaddrinfo] returned, if any. *)
Definition tm_addr_parse (resolved : option sockaddr) : sum tm_status sockaddr :=
  match resolved with
  | None => inl TM_ERR_INVALID
  | Some sa => inr sa
  end.

(** [numeric] is the host and port text [getnameinfo] produced. *)
Definition tm_addr_str (sa : option sockaddr) (numeric : option (bytes * bytes)) : bytes :=
  match sa, numeric with
  | None, _ => cstr "unknown"
  | Some _, None => cstr "unknown"
  | Some _, Some (host, port) =>
      if existsb (Z.eqb 58) host
      then str_trunc 128 (cstr "[" ++ host ++ cstr "]:" ++ port)
      else str_trunc 128 (host ++ cstr ":" ++ port)
  end.

(** The source a limiter counts: what is left of an address without its port.
    Families the program does not know have no bucket. *)
Definition ip_bucket (a : sockaddr) : option (Z * bytes) :=
  match a with
  | AF_UNSPEC => Some (0, [])
  | AF_INET _ x => Some (2, [x])
  | AF_INET6 _ x _ => Some (10, x)
  | AF_OTHER _ _ => None
  end.

Lemma addr_eq_ip_bucket a b :
  tm_addr_eq_ip (Some a) (Some b) = true <-> ip_bucket a = ip_bucket b /\ ip_bucket a <> None.
Proof.
  destruct a, b; cbn; zb; try (split; [done|intros [? ?]; congruence]).
  - split; [intros ->; done|]. intros [[=] _]; done.
  - split; [intros ->; done|]. intros [[=] _]; done.
Qed.

(** [tm_addr_eq_ip] compares sources and nothing else: it accepts exactly the
    pairs with the same IP bucket, so that it is symmetric and transitive and all
    ports, scopes and unknown-peer connections of one source share one bucket; equal
    endpoints ([tm_addr_eq]) always share it, and differ from each other only in the
    IPv6 scope. *)
Theorem addr_eq_spec a b :
  (tm_addr_eq_ip (Some a) (Some b) = true <-> ip_bucket a = ip_bucket b /\ ip_bucket a <> None) /\
  (tm_addr_eq (Some a) (Some b) = true -> tm_addr_eq_ip (Some a) (Some b) = true) /\
  (tm_addr_eq (Some a) (Some b) = true <->
   (exists p x, a = AF_INET p x /\ b = AF_INET p x) \/
   (exists p x s s', a = AF_INET6 p x s /\ b = AF_INET6 p x s')).
Proof.
  split; [apply addr_eq_ip_bucket|]. split.
  - destruct a, b; cbn; zb; naive_solver.
  - destruct a, b; cbn; zb; naive_solver.
Qed.
