(* ===== verification/Io.v ===== *)
(** * Byte pumps

    src/common/src/io.c and include/tunnelmate/io.h.  Module Tcp is the raw TCP leg
    [tm_io_tcp]: its bounded write buffer, the single [uv_write] in flight, the FIN
    that follows the last byte, and the release of the object while a write is
    pending.  The owner's callbacks run in the middle of the leg's functions and may
    call back into the leg; they are the functions [low_cb], [error_cb], [read_cb]
    and [eof_cb], and what is proved holds for all callbacks that keep the leg's
    invariant.  The class [TmIo] is what a relay relies on of a leg, whatever its
    transport; Module TcpLeg shows that the TCP leg provides it.

    libuv is not part of the program: the results of future [uv_write] calls are
    read from the list [uv_results] (success when it is exhausted), and completions
    are calls of [tcp_write_done].  Fields below the line are ghosts: [sent] is what
    was handed to [uv_write], [accepted] what [tcp_write] took, [broken] is set once
    a write failed, [freed] once the object is released, [uaf] once a released
    object is read. *)

From S2P Require Import Prelude.
From S2P Require Import Wire.

Definition TM_IO_HIGH_WATER : Z := 256 * 1024.
Definition TM_IO_LOW_WATER : Z := 128 * 1024.
Definition UV_ECANCELED : Z := -125.
Definition UV_EOF : Z := -4095.

(** The callbacks a leg may run before a call returns. *)
Inductive upcall := UpLow | UpError.

(** ** The raw TCP leg *)

Module Tcp.

Record tm_io_tcp := Tcp {
  reading : bool;
  write_closed : bool;
  closed : bool;
  wb : bytes;                 (* wb[0 .. wb_len) *)
  wb_cap : Z;
  wb_off : Z;
  in_flight : Z;
  wreq_pending : bool;
  free_after_wreq : bool;
  above_low : bool;
  fin_sent : bool;
  queued_total : Z;
  (* ---- environment and ghosts *)
  read_armed : bool;
  uv_results : list Z;
  accepted : bytes;
  sent : bytes;
  broken : bool;
  freed : bool;
  uaf : bool;
  upcalls : list upcall;      (* callbacks recorded for the owner, see TcpLeg *)
}.
#[global] Instance eta_tcp : Eta tm_io_tcp :=
  settable! Tcp <reading; write_closed; closed; wb; wb_cap; wb_off; in_flight; wreq_pending;
    free_after_wreq; above_low; fin_sent; queued_total; read_armed; uv_results; accepted; sent;
    broken; freed; uaf; upcalls>.

Definition wb_len (t : tm_io_tcp) : Z := blen (wb t).

Definition tm_io_tcp_new (results : list Z) : tm_io_tcp :=
  Tcp false false false [] 0 0 0 false false false false 0 false results [] [] false false false [].

(** [uv_write] of the queued bytes from [wb_off] on. *)
Definition uv_write (t : tm_io_tcp) : Z * tm_io_tcp :=
  let r := List.hd 0 (uv_results t) in
  let t := t <| uv_results ::= List.tl |> in
  if r =? 0 then (0, t <| sent ::= fun s => s ++ drop (Z.to_nat (wb_off t)) (wb t) |>)
  else (r, t <| broken := true |>).

Definition tcp_fin (t : tm_io_tcp) : tm_io_tcp :=
  if fin_sent t then t else t <| fin_sent := true |>.

(** Reading a released object. *)
Definition dangling (t : tm_io_tcp) : tm_io_tcp := t <| uaf := true |>.

Section Callbacks.

Context (low_cb error_cb : tm_io_tcp -> tm_io_tcp).

Definition tcp_maybe_low (t : tm_io_tcp) : tm_io_tcp :=
  if wb_len t =? 0 then low_cb t else t.

(** [tcp_write_done] with the [tcp_pump] it ends with as an argument. *)
Definition write_done_with (pump : tm_io_tcp -> tm_io_tcp) (t : tm_io_tcp) (status : Z)
  : tm_io_tcp :=
  let t := t <| wreq_pending := false |> in
  let t := t <| wb_off := wb_off t + in_flight t |> in
  let t := t <| in_flight := 0 |> in
  let t := if wb_off t =? wb_len t then t <| wb := [] |> <| wb_off := 0 |> else t in
  if free_after_wreq t then t <| freed := true |>
  else if negb (status =? 0) && negb (status =? UV_ECANCELED) then
    let t := t <| broken := true |> in
    if negb (closed t) then error_cb t else t
  else pump (tcp_maybe_low t).

(** A failing [uv_write] completes at once and may pump again; every such round
    consumes one of [uv_results]. *)
Fixpoint tcp_pump_n (fuel : nat) (t : tm_io_tcp) : tm_io_tcp :=
  if freed t then dangling t
  else if wreq_pending t || closed t then t
  else if wb_off t =? wb_len t then
    let t := tcp_maybe_low (t <| wb := [] |> <| wb_off := 0 |>) in
    if freed t then dangling t
    else if write_closed t && (wb_len t =? 0) then tcp_fin t else t
  else if write_closed t && fin_sent t then t
  else
    let t := t <| in_flight := wb_len t - wb_off t |> in
    let '(r, t) := uv_write t in
    if r =? 0 then t <| wreq_pending := true |>
    else match fuel with
         | O => t
         | S fuel' => write_done_with (tcp_pump_n fuel') (t <| wreq_pending := true |>) r
         end.

Definition tcp_pump (t : tm_io_tcp) : tm_io_tcp := tcp_pump_n (length (uv_results t)) t.

Definition tcp_write_done (t : tm_io_tcp) (status : Z) : tm_io_tcp :=
  write_done_with tcp_pump t status.

Definition tcp_write (t : tm_io_tcp) (data : bytes) : tm_status * tm_io_tcp :=
  let len := blen data in
  if freed t then (TM_ERR, dangling t)
  else if closed t || write_closed t then (TM_ERR, t)
  else if TM_IO_HIGH_WATER <? wb_len t + len then (TM_ERR_BUSY, t <| above_low := true |>)
  else if (wb_cap t <? wb_len t + len) && wreq_pending t
  then (TM_ERR_BUSY, t <| above_low := true |>)
  else
    let t := if wb_cap t <? wb_len t + len then
               let t := if wb_off t =? 0 then t
                        else t <| wb := drop (Z.to_nat (wb_off t)) (wb t) |> <| wb_off := 0 |> in
               t <| wb_cap := grow (if wb_cap t =? 0 then 65536 else wb_cap t * 2) (wb_len t + len) |>
             else t in
    let t := t <| wb ::= fun b => b ++ data |> <| accepted ::= fun b => b ++ data |> in
    let t := t <| queued_total := u64 (queued_total t + len) |> in
    let t := if TM_IO_LOW_WATER <? wb_len t then t <| above_low := true |> else t in
    (TM_OK, tcp_pump t).

Definition tcp_shutdown_send (t : tm_io_tcp) : tm_io_tcp :=
  if freed t then dangling t
  else if closed t || write_closed t then t
  else
    let t := t <| write_closed := true |> in
    if wreq_pending t || negb (wb_len t =? 0) then t else tcp_fin t.

Definition tcp_read_cb (read_cb : bytes -> tm_io_tcp -> tm_io_tcp) (eof_cb : tm_io_tcp -> tm_io_tcp)
  (nread : Z) (data : bytes) (t : tm_io_tcp) : tm_io_tcp :=
  if 0 <? nread then read_cb data t
  else if nread =? UV_EOF then eof_cb t
  else if nread <? 0 then (if negb (closed t) then error_cb t else t)
  else t.

Definition tcp_start (t : tm_io_tcp) : tm_io_tcp :=
  if reading t then t else t <| reading := true |> <| read_armed := true |>.

Definition tcp_pause_read (t : tm_io_tcp) : tm_io_tcp :=
  if reading t && negb (closed t) then t <| read_armed := false |> else t.

Definition tcp_resume_read (t : tm_io_tcp) : tm_io_tcp :=
  if reading t && negb (closed t) then t <| read_armed := true |> else t.

Definition tcp_close (t : tm_io_tcp) : tm_io_tcp :=
  if freed t then dangling t
  else if closed t then t
  else
    let t := t <| closed := true |> in
    let t := if reading t then t <| read_armed := false |> else t in
    if wreq_pending t then t <| free_after_wreq := true |>
    else t <| freed := true |>.

Definition tcp_write_available (t : tm_io_tcp) : bool := wb_len t <? TM_IO_LOW_WATER.
Definition tcp_pending (t : tm_io_tcp) : Z := wb_len t - wb_off t.
Definition tcp_drained (t : tm_io_tcp) : bool :=
  negb (wreq_pending t) && (wb_len t - wb_off t =? 0).
Definition tcp_open (t : tm_io_tcp) : bool := negb (closed t).

(** *** The invariant *)

(** Queued and not yet handed to [uv_write]. *)
Definition unsent (t : tm_io_tcp) : bytes := drop (Z.to_nat (wb_off t + in_flight t)) (wb t).

Record core (t : tm_io_tcp) : Prop := {
  core_off : 0 <= wb_off t;
  core_fly : 0 <= in_flight t;
  core_end : wb_off t + in_flight t <= wb_len t;
  core_high : wb_len t <= TM_IO_HIGH_WATER;
  core_cap : wb_len t <= wb_cap t <= 2 * TM_IO_HIGH_WATER;
  core_idle : wreq_pending t = false -> in_flight t = 0;
  core_fifo : broken t = false -> accepted t = sent t ++ unsent t;
  core_fin : fin_sent t = true -> write_closed t = true /\ (broken t = false -> unsent t = []);
  core_total : queued_total t = u64 (blen (accepted t));
  core_closed : closed t = true -> wreq_pending t = true /\ free_after_wreq t = true;
  core_live : closed t = false -> free_after_wreq t = false;
}.

Definition inv (t : tm_io_tcp) : Prop := freed t = true \/ core t.

(** How a leg may change while its owner runs. *)
Record evolves (t t' : tm_io_tcp) : Prop := {
  ev_accepted : accepted t `prefix_of` accepted t';
  ev_closed : write_closed t = true -> write_closed t' = true /\ accepted t' = accepted t;
  ev_broken : broken t = true -> broken t' = true;
  ev_freed : freed t = true -> freed t' = true;
  ev_results : (length (uv_results t') <= length (uv_results t))%nat;
}.

(** Bytes that are queued have a write in flight, and a FIN that is owed is sent
    once nothing is queued: nothing waits for an event that will not come. *)
Definition moving (t : tm_io_tcp) : Prop :=
  freed t = true \/ closed t = true \/ broken t = true \/ wreq_pending t = true \/ wb t = [].
Definition settled (t : tm_io_tcp) : Prop :=
  freed t = true \/ closed t = true \/ broken t = true \/ wreq_pending t = true \/
  (wb t = [] /\ (write_closed t = true -> fin_sent t = true)).

(** What the callbacks have to keep. *)
Definition good_cb (cb : tm_io_tcp -> tm_io_tcp) : Prop :=
  forall t, freed t = false -> closed t = false -> core t ->
    inv (cb t) /\ evolves t (cb t) /\ (moving t -> moving (cb t)).

Context (Hlow : good_cb low_cb) (Herr : good_cb error_cb).

Lemma evolves_refl t : evolves t t.
Proof. constructor; auto. Qed.

Lemma evolves_trans t1 t2 t3 : evolves t1 t2 -> evolves t2 t3 -> evolves t1 t3.
Proof.
  intros [A1 B1 C1 D1 E1] [A2 B2 C2 D2 E2]. constructor; auto; [|intros H|lia].
  - by etrans.
  - destruct (B1 H) as [H' E]. destruct (B2 H') as [? ->]. done.
Qed.

(** Steps that only touch flags and positions. *)
Ltac evo := constructor; cbn; auto; try done; try lia.

Lemma evolves_dangling t : evolves t (dangling t).
Proof. evo. Qed.

Lemma maybe_low_ok t : freed t = false -> closed t = false -> core t ->
  inv (tcp_maybe_low t) /\ evolves t (tcp_maybe_low t) /\ (moving t -> moving (tcp_maybe_low t)).
Proof.
  intros Hf Hc Ht. unfold tcp_maybe_low. case_match; [by apply Hlow|].
  split_and!; [by right|apply evolves_refl|done].
Qed.

(** The bookkeeping at the head of [tcp_write_done]. *)
Definition complete (t : tm_io_tcp) : tm_io_tcp :=
  let t := t <| wreq_pending := false |> in
  let t := t <| wb_off := wb_off t + in_flight t |> in
  let t := t <| in_flight := 0 |> in
  if wb_off t =? wb_len t then t <| wb := [] |> <| wb_off := 0 |> else t.

Lemma write_done_unfold pump t status :
  write_done_with pump t status =
  let t := complete t in
  if free_after_wreq t then t <| freed := true |>
  else if negb (status =? 0) && negb (status =? UV_ECANCELED) then
    let t := t <| broken := true |> in
    if negb (closed t) then error_cb t else t
  else pump (tcp_maybe_low t).
Proof. reflexivity. Qed.

Lemma complete_ok t : core t -> closed t = false ->
  core (complete t) /\ evolves t (complete t) /\ unsent (complete t) = unsent t /\
  closed (complete t) = false /\ freed (complete t) = freed t /\
  wreq_pending (complete t) = false /\ uv_results (complete t) = uv_results t /\
  free_after_wreq (complete t) = false /\ write_closed (complete t) = write_closed t /\
  sent (complete t) = sent t /\ accepted (complete t) = accepted t /\ broken (complete t) = broken t.
Proof.
  intros H Hc. assert (unsent (complete t) = unsent t) as Hu.
  { unfold complete, unsent. cbn. case_match; cbn; zb.
    - symmetry. apply drop_ge. unfold wb_len, blen in *. cbn in *. lia.
    - f_equal. lia. }
  destruct H. pose proof (core_live0 Hc) as Hlv.
  assert (core (complete t)) as Hcore.
  { constructor; try (rewrite ?Hu; unfold complete; cbn; case_match; cbn; zb; auto; fail);
      unfold complete, wb_len in *; cbn in *; case_match; cbn in *; zb;
      rewrite ?(@blen_nil Z); pose proof (blen_nonneg (wb t)); auto; try lia; try congruence.
  }
  unfold complete in *; cbn in *; case_match; cbn in *; split_and!; auto; evo.
Qed.

Lemma complete_closed t : core t -> closed t = true -> free_after_wreq (complete t) = true.
Proof.
  intros H Hc. destruct (core_closed t H Hc) as [_ Hf].
  unfold complete; cbn; case_match; cbn; done.
Qed.

(** Handing the rest of the buffer to [uv_write]. *)
Lemma uv_write_ok t r t' : core t -> closed t = false -> wreq_pending t = false ->
  fin_sent t && write_closed t = false ->
  uv_write (t <| in_flight := wb_len t - wb_off t |>) = (r, t') ->
  core (t' <| wreq_pending := true |>) /\ evolves t (t' <| wreq_pending := true |>) /\
  closed t' = false /\ freed t' = freed t /\
  (r <> 0 -> (S (length (uv_results t')) = length (uv_results t))%nat /\ broken t' = true).
Proof.
  intros H Hc Hp Hfin. pose proof (core_idle t H Hp) as Hz.
  pose proof (core_off t H). pose proof (core_end t H).
  assert (Z.to_nat (wb_off t + (wb_len t - wb_off t)) = length (wb t)) as El
    by (unfold wb_len, blen; lia).
  unfold uv_write; cbn. destruct (_ =? 0) eqn:Er; intros [= <- <-]; cbn; zb.
  - split_and!; auto; [|evo; destruct (uv_results t); cbn; lia|intros []; done].
    destruct H; constructor; cbn; auto; try (unfold wb_len in *; cbn in *; lia); try done.
    + intros Hb. rewrite (core_fifo0 Hb). unfold unsent. cbn. rewrite Hz, Z.add_0_r, El.
      by rewrite drop_all, app_nil_r.
    + intros Hf. destruct (core_fin0 Hf) as [Hw _]. destruct Hfin; congruence.
    + congruence.
  - split_and!; auto; [|evo; destruct (uv_results t); cbn; lia|].
    + destruct H; constructor; cbn; auto; try (unfold wb_len in *; cbn in *; lia); try done.
      * intros Hf. destruct (core_fin0 Hf) as [Hw _]. done.
      * congruence.
    + intros _. split; [|done]. destruct (uv_results t); cbn in *; [done|lia].
Qed.

Lemma reset_ok t : core t -> wreq_pending t = false -> wb_off t = wb_len t ->
  core (t <| wb := [] |> <| wb_off := 0 |>) /\ evolves t (t <| wb := [] |> <| wb_off := 0 |>).
Proof.
  intros H Hp He. split; [|evo].
  assert (unsent t = []) as Hu.
  { unfold unsent. rewrite (core_idle t H Hp), He. apply drop_ge. unfold wb_len, blen; lia. }
  destruct H. pose proof (core_idle0 Hp) as Hz. unfold wb_len in *.
  pose proof (blen_nonneg (wb t)).
  constructor; unfold wb_len, unsent; cbn; rewrite ?drop_nil, ?(@blen_nil Z), ?Hz; auto; try lia.
  - intros Hb. rewrite (core_fifo0 Hb). now rewrite Hu.
  - intros Hf. destruct (core_fin0 Hf). auto.
Qed.

Lemma tcp_fin_ok t : core t -> write_closed t = true -> unsent t = [] ->
  core (tcp_fin t) /\ evolves t (tcp_fin t) /\ fin_sent (tcp_fin t) = true.
Proof.
  intros H Hw Hu. unfold tcp_fin. destruct (fin_sent t) eqn:Hf; [split_and!; auto using evolves_refl|].
  split_and!; [|evo|done]. destruct H; constructor; cbn; auto.
Qed.

(** One round of [tcp_write_done], for any continuation that keeps the invariant. *)
Lemma write_done_with_ok pump n t status :
  (forall t, (length (uv_results t) <= n)%nat -> inv t ->
     inv (pump t) /\ evolves t (pump t) /\ settled (pump t)) ->
  (length (uv_results t) <= n)%nat -> freed t = false -> core t ->
  inv (write_done_with pump t status) /\ evolves t (write_done_with pump t status) /\
  settled (write_done_with pump t status).
Proof.
  intros IH Hn Hf H. rewrite write_done_unfold. cbv zeta.
  destruct (closed t) eqn:Hc.
  { rewrite complete_closed by done. split_and!; [by left| |by left].
    unfold complete; cbn; case_match; evo. }
  destruct (complete_ok t H Hc) as (Hco & Hev & _ & Hc' & Hf' & Hp' & Hr' & Ha' & _).
  rewrite Ha', Hf in *.
  destruct (negb (status =? 0) && negb (status =? UV_ECANCELED)).
  - assert (core (complete t <| broken := true |>)) as Hb.
    { destruct Hco; constructor; cbn; auto; try done.
      intros Hx. destruct (core_fin0 Hx); done. }
    change (closed (complete t <| broken := true |>)) with (closed (complete t)). rewrite Hc'.
    cbn [negb]. destruct (Herr (complete t <| broken := true |>)) as (Hi & He & _); [done..|].
    split_and!; [done| |].
    + eapply evolves_trans; [exact Hev|]. eapply evolves_trans; [|exact He]. evo.
    + right; right; left. by apply (ev_broken _ _ He).
  - destruct (maybe_low_ok (complete t)) as (Hi & He & _); [done..|].
    destruct (IH (tcp_maybe_low (complete t))) as (Hi' & He' & Hs).
    { pose proof (ev_results _ _ He). rewrite Hr' in *. lia. }
    { done. }
    split_and!; [done| |done]. eapply evolves_trans; [exact Hev|]. by eapply evolves_trans.
Qed.

Lemma pump_n_ok fuel : forall t, (length (uv_results t) <= fuel)%nat -> inv t ->
  inv (tcp_pump_n fuel t) /\ evolves t (tcp_pump_n fuel t) /\ settled (tcp_pump_n fuel t).
Proof.
  induction fuel as [|fuel IH]; intros t Hfuel Hi; cbn [tcp_pump_n].
  all: destruct (freed t) eqn:Hf; [split_and!; [by left|apply evolves_dangling|by left]|].
  all: destruct Hi as [|H]; [congruence|].
  all: destruct (wreq_pending t) eqn:Hp; cbn [orb];
    [split_and!; [by right|apply evolves_refl|unfold settled; tauto]|].
  all: destruct (closed t) eqn:Hc; [destruct (core_closed t H Hc); congruence|].
  all: destruct (wb_off t =? wb_len t) eqn:Ee; zb.
  1,3: destruct (reset_ok t H Hp Ee) as [Hr Hre];
    destruct (maybe_low_ok (t <| wb := [] |> <| wb_off := 0 |>)) as (Hi1 & He1 & Hm); [done..|];
    set (t1 := tcp_maybe_low _) in *; pose proof (evolves_trans _ _ _ Hre He1) as He;
    destruct (freed t1) eqn:Hf1; [split_and!; [by left|
      eapply evolves_trans; [exact He|apply evolves_dangling]|by left]|];
    destruct Hi1 as [|Hc1]; [congruence|];
    assert (moving t1) as Hmv by (apply Hm; unfold moving; cbn; tauto);
    destruct (write_closed t1 && (wb_len t1 =? 0)) eqn:Ew; zb.
  1,3: destruct Ew as [Hw Hl];
    assert (wb t1 = []) as Hwb by (now apply blen_0_nil);
    destruct (tcp_fin_ok t1) as (? & ? & ?);
      [done|done|unfold unsent; rewrite Hwb; apply drop_nil|];
    split_and!; [by right|by eapply evolves_trans|
      unfold settled, tcp_fin in *; case_match; cbn; tauto].
  1,2: split_and!; [by right|done|];
    unfold settled; destruct Hmv as [?|[?|[?|[?|Hwb]]]]; try tauto;
    right; right; right; right; split; [done|]; intros Hw;
    exfalso; destruct Ew as [Ew|Ew]; [congruence|]; apply Ew; unfold wb_len; by rewrite Hwb.
  all: destruct (write_closed t && fin_sent t) eqn:Ew; zb.
  1,3: split_and!; [by right|apply evolves_refl|];
    destruct (broken t) eqn:Hb; [unfold settled; tauto|]; exfalso;
    destruct Ew as [_ Hfs]; destruct (core_fin t H Hfs) as [_ Hu];
    specialize (Hu Hb); unfold unsent in Hu; rewrite (core_idle t H Hp), Z.add_0_r in Hu;
    apply (f_equal length) in Hu; rewrite length_drop in Hu; cbn in Hu;
    pose proof (core_off t H); pose proof (core_end t H); rewrite (core_idle t H Hp) in *;
    unfold wb_len, blen in *; lia.
  all: destruct (uv_write (t <| in_flight := wb_len t - wb_off t |>)) as [r t'] eqn:Eu;
    destruct (uv_write_ok t r t' H Hc Hp) as (Hc1 & He1 & Hcl & Hfr & Hr);
    [rewrite andb_comm; by destruct (write_closed t), (fin_sent t); destruct Ew|exact Eu|];
    destruct (r =? 0) eqn:Er; zb;
    [split_and!; [by right|done|unfold settled; cbn; tauto]|];
    destruct (Hr Er) as [Hlen Hb].
  - lia.
  - destruct (write_done_with_ok (tcp_pump_n fuel) fuel (t' <| wreq_pending := true |>) r)
      as (A & B & C); [exact IH|cbn; lia|cbn; congruence|done|].
    split_and!; [done|by eapply evolves_trans|done].
Qed.

Lemma pump_ok t : inv t -> inv (tcp_pump t) /\ evolves t (tcp_pump t) /\ settled (tcp_pump t).
Proof. intros; now apply pump_n_ok. Qed.

(** The rounds of [tcp_pump] are bounded by the failures to come: more fuel changes
    nothing. *)
Lemma pump_n_fuel fuel : forall fuel' t, inv t ->
  (length (uv_results t) <= fuel)%nat -> (length (uv_results t) <= fuel')%nat ->
  tcp_pump_n fuel t = tcp_pump_n fuel' t.
Proof.
  assert (forall pump pump' n t r,
    (forall t, inv t -> (length (uv_results t) <= n)%nat -> pump t = pump' t) ->
    core t -> freed t = false -> (length (uv_results t) <= n)%nat ->
    write_done_with pump t r = write_done_with pump' t r) as Hwd.
  { intros pump pump' n t r Hpp H Hf Hn. rewrite !write_done_unfold. cbv zeta.
    destruct (closed t) eqn:Hc; [by rewrite complete_closed|].
    destruct (complete_ok t H Hc) as (Hco & _ & _ & Hc' & Hf' & Hp' & Hr' & Ha' & _).
    rewrite Ha'. case_match; [done|].
    destruct (maybe_low_ok (complete t)) as (Hi & He & _); [congruence|done..|].
    apply Hpp; [done|]. pose proof (ev_results _ _ He). rewrite Hr' in *. lia. }
  induction fuel as [|fuel IH]; intros [|fuel'] t Hi H1 H2; cbn [tcp_pump_n]; try done.
  all: destruct (freed t) eqn:Hf; [done|]; destruct Hi as [|H]; [congruence|].
  all: destruct (wreq_pending t) eqn:Hp; [done|]; destruct (closed t) eqn:Hc; [done|].
  all: cbn [orb]; destruct (wb_off t =? wb_len t); [done|].
  all: destruct (write_closed t && fin_sent t) eqn:Ew; [done|].
  all: destruct (uv_write (t <| in_flight := wb_len t - wb_off t |>)) as [r t'] eqn:Eu;
    destruct (uv_write_ok t r t' H Hc Hp) as (Hc1 & He1 & Hcl & Hfr & Hr);
    [rewrite andb_comm; done|exact Eu|];
    destruct (r =? 0) eqn:Er; zb; [done|]; destruct (Hr Er) as [Hlen Hb]; try lia.
  apply (Hwd _ _ (min fuel fuel')); [|done|cbn; congruence|cbn; lia].
  intros t2 Hi2 Hl2. apply IH; [done|lia..].
Qed.

(** *** The operations keep the invariant *)

Lemma grown_cap cap need : 0 <= cap < TM_IO_HIGH_WATER -> need <= TM_IO_HIGH_WATER ->
  need <= grow (if cap =? 0 then 65536 else cap * 2) need <= 2 * TM_IO_HIGH_WATER.
Proof.
  intros H1 H2. assert (1 <= if cap =? 0 then 65536 else cap * 2) as Hp by (case_match; zb; lia).
  unfold TM_IO_HIGH_WATER in *. split; [apply grow_fits; [done|lia]|].
  pose proof (grow_bound _ need Hp) as [_ Hb]. etrans; [exact Hb|]. case_match; zb; lia.
Qed.

(** Making room: the queue is compacted and the buffer grown, only when no write is
    in flight. *)
Definition make_room (t : tm_io_tcp) (len : Z) : tm_io_tcp :=
  if wb_cap t <? wb_len t + len then
    let t := if wb_off t =? 0 then t
             else t <| wb := drop (Z.to_nat (wb_off t)) (wb t) |> <| wb_off := 0 |> in
    t <| wb_cap := grow (if wb_cap t =? 0 then 65536 else wb_cap t * 2) (wb_len t + len) |>
  else t.

Lemma make_room_ok t len : core t -> 0 <= len -> wb_len t + len <= TM_IO_HIGH_WATER ->
  (wb_cap t <? wb_len t + len) && wreq_pending t = false ->
  core (make_room t len) /\ wb_len (make_room t len) + len <= Z.min TM_IO_HIGH_WATER (wb_cap (make_room t len)) /\
  evolves t (make_room t len) /\ accepted (make_room t len) = accepted t /\
  closed (make_room t len) = closed t /\ write_closed (make_room t len) = write_closed t /\
  freed (make_room t len) = freed t /\ wreq_pending (make_room t len) = wreq_pending t /\
  (wreq_pending t = true -> make_room t len = t).
Proof.
  intros H Hlen Hhi Eb. unfold make_room.
  destruct (wb_cap t <? wb_len t + len) eqn:Ecap; zb;
    [|split_and!; auto using evolves_refl; lia].
  destruct Eb as [|Hp]; [congruence|]. pose proof (core_idle t H Hp) as Hz.
  pose proof (blen_nonneg (wb t)). pose proof H as [].
  destruct (wb_off t =? 0) eqn:E0; zb; unfold wb_len in *; cbn.
  - destruct (grown_cap (wb_cap t) (blen (wb t) + len)) as [G1 G2]; [lia..|].
    split_and!; auto; try lia; try (evo; fail); try congruence.
    constructor; unfold wb_len, unsent in *; cbn; auto; try lia.
  - assert (blen (drop (Z.to_nat (wb_off t)) (wb t)) = blen (wb t) - wb_off t) as Ed
      by (apply blen_drop; lia).
    destruct (grown_cap (wb_cap t) (blen (drop (Z.to_nat (wb_off t)) (wb t)) + len)) as [G1 G2]; [lia..|].
    split_and!; auto; try lia; try (evo; fail); try congruence.
    assert (unsent t = drop (Z.to_nat (wb_off t)) (wb t)) as Hu
      by (unfold unsent; now rewrite Hz, Z.add_0_r).
    constructor; unfold wb_len in *; cbn; auto; try lia; unfold unsent at 1; cbn; rewrite Hz; cbn;
      rewrite drop_0, <- ?Hu; auto.
Qed.

Lemma append_ok t data : core t ->
  wb_len t + blen data <= Z.min TM_IO_HIGH_WATER (wb_cap t) -> write_closed t = false ->
  core (t <| wb ::= fun b => b ++ data |> <| accepted ::= fun b => b ++ data |>
          <| queued_total := u64 (queued_total t + blen data) |>).
Proof.
  intros H Hl Hw. pose proof (blen_nonneg data). destruct H.
  assert (forall n, 0 <= n <= blen (wb t) ->
    drop (Z.to_nat n) (wb t ++ data) = drop (Z.to_nat n) (wb t) ++ data) as Hd.
  { intros n Hn. apply drop_app_le. unfold blen in *; lia. }
  constructor; unfold wb_len, unsent in *; cbn; rewrite ?blen_app; auto; try lia.
  - intros Hb. rewrite (core_fifo0 Hb), <- app_assoc, Hd by lia. done.
  - intros Hf. destruct (core_fin0 Hf); congruence.
  - rewrite core_total0. unfold wrap. now rewrite Zplus_mod_idemp_l.
Qed.

Lemma tcp_write_ok t data : inv t -> settled t ->
  inv (snd (tcp_write t data)) /\ evolves t (snd (tcp_write t data)) /\
  settled (snd (tcp_write t data)) /\
  (fst (tcp_write t data) = TM_OK -> accepted t ++ data `prefix_of` accepted (snd (tcp_write t data))).
Proof.
  intros Hi Hs. unfold tcp_write.
  destruct (freed t) eqn:Hf; [split_and!; [by left|apply evolves_dangling|by left|done]|].
  destruct Hi as [|H]; [congruence|].
  assert (core (t <| above_low := true |>)) as Hal by (destruct H; constructor; cbn; auto).
  destruct (closed t) eqn:Hc; [split_and!; [by right|apply evolves_refl|done|done]|].
  destruct (write_closed t) eqn:Hw; [split_and!; [by right|apply evolves_refl|done|done]|].
  cbn [orb]. destruct (TM_IO_HIGH_WATER <? wb_len t + blen data) eqn:Eh;
    [split_and!; [by right|evo|exact Hs|done]|].
  destruct (_ && wreq_pending t) eqn:Eb; [split_and!; [by right|evo|exact Hs|done]|].
  fold (make_room t (blen data)). apply Z.ltb_ge in Eh.
  destruct (make_room_ok t (blen data) H (blen_nonneg _) Eh Eb)
    as (H1 & Hl1 & Hev & Ha1 & Hc1 & Hw1 & Hf1 & _ & _).
  set (t1 := make_room t (blen data)) in *. cbn [fst snd].
  pose proof (append_ok t1 data H1 Hl1 ltac:(congruence)) as H2.
  set (t2 := t1 <| wb ::= _ |> <| accepted ::= _ |> <| queued_total := _ |>) in *.
  set (t3 := if TM_IO_LOW_WATER <? _ then _ else _).
  assert (core t3 /\ accepted t3 = accepted t ++ data /\ evolves t t3) as (H3 & Ha3 & Hev3).
  { assert (evolves t t2) as He2.
    { eapply evolves_trans; [exact Hev|]. evo; [by apply prefix_app_r|congruence]. }
    subst t3. case_match; cbn; split_and!; auto; try (rewrite <- Ha1; reflexivity).
    - destruct H2; constructor; cbn; auto.
    - eapply evolves_trans; [exact He2|evo]. }
  destruct (pump_ok t3 (or_intror H3)) as (Hi3 & He3 & Hs3).
  split_and!; [done|by eapply evolves_trans|done|].
  intros _. rewrite <- Ha3. apply (ev_accepted _ _ He3).
Qed.

Lemma tcp_write_done_ok t status : freed t = false -> core t ->
  inv (tcp_write_done t status) /\ evolves t (tcp_write_done t status) /\
  settled (tcp_write_done t status).
Proof.
  intros Hf H. apply (write_done_with_ok tcp_pump (length (uv_results t))); auto.
  intros t' _ Hi. by apply pump_ok.
Qed.

Lemma tcp_shutdown_send_ok t : inv t -> settled t ->
  inv (tcp_shutdown_send t) /\ evolves t (tcp_shutdown_send t) /\ settled (tcp_shutdown_send t).
Proof.
  intros Hi Hs. unfold tcp_shutdown_send.
  destruct (freed t) eqn:Hf; [split_and!; [by left|apply evolves_dangling|by left]|].
  destruct Hi as [|H]; [congruence|].
  destruct (closed t) eqn:Hc; [split_and!; [by right|apply evolves_refl|done]|].
  destruct (write_closed t) eqn:Hw; [split_and!; [by right|apply evolves_refl|done]|]. cbn [orb].
  assert (core (t <| write_closed := true |>) /\ evolves t (t <| write_closed := true |>)) as [H1 He1].
  { split; [|evo; congruence]. destruct H; constructor; cbn; auto.
    intros Hx. destruct (core_fin0 Hx); auto. }
  cbv zeta. set (t1 := t <| write_closed := true |>) in *.
  change (wreq_pending t1) with (wreq_pending t). change (wb_len t1) with (wb_len t).
  destruct (wreq_pending t) eqn:Hp; cbn [orb].
  { split_and!; [by right|done|]. right; right; right; left. exact Hp. }
  destruct (wb_len t =? 0) eqn:El; cbn [negb]; zb.
  - apply blen_0_nil in El.
    destruct (tcp_fin_ok t1 H1 eq_refl) as (? & ? & ?).
    { unfold unsent. change (wb t1) with (wb t). rewrite El. apply drop_nil. }
    split_and!; [by right|by eapply evolves_trans|]. right; right; right; right.
    split; [|done]. unfold tcp_fin. case_match; exact El.
  - split_and!; [by right|done|].
    destruct Hs as [?|[?|[?|[?|[Hwb _]]]]]; try congruence.
    + right; right; left; done.
    + unfold wb_len in El. rewrite Hwb in El. done.
Qed.

(** *** Runs *)

(** The calls of the owner and the completions of libuv, in any order.  The owner
    makes no call after [tcp_close]; a write completes once. *)
Inductive tcp_step : tm_io_tcp -> tm_io_tcp -> Prop :=
  | StepWrite t data : closed t = false -> freed t = false -> tcp_step t (snd (tcp_write t data))
  | StepShutdown t : closed t = false -> freed t = false -> tcp_step t (tcp_shutdown_send t)
  | StepDone t status : wreq_pending t = true -> freed t = false -> tcp_step t (tcp_write_done t status)
  | StepStart t : closed t = false -> freed t = false -> tcp_step t (tcp_start t)
  | StepPause t : closed t = false -> freed t = false -> tcp_step t (tcp_pause_read t)
  | StepResume t : closed t = false -> freed t = false -> tcp_step t (tcp_resume_read t)
  | StepClose t : closed t = false -> freed t = false -> tcp_step t (tcp_close t).

Definition tcp_run : tm_io_tcp -> tm_io_tcp -> Prop := rtc tcp_step.

Lemma tcp_step_ok t t' : tcp_step t t' -> inv t -> settled t ->
  inv t' /\ evolves t t' /\ settled t'.
Proof.
  intros Hst Hi Hs. destruct Hst as [t data Hc Hf|t Hc Hf|t st Hp Hf|t Hc Hf|t Hc Hf|t Hc Hf|t Hc Hf].
  - destruct (tcp_write_ok t data Hi Hs) as (? & ? & ? & _). done.
  - by apply tcp_shutdown_send_ok.
  - destruct Hi as [|H]; [congruence|]. by apply tcp_write_done_ok.
  - destruct Hi as [|H]; [congruence|]. unfold tcp_start. case_match; [split_and!; [by right|apply evolves_refl|done]|].
    split_and!; [right; destruct H; constructor; cbn; auto|evo|exact Hs].
  - destruct Hi as [|H]; [congruence|]. unfold tcp_pause_read. case_match; [|split_and!; [by right|apply evolves_refl|done]].
    split_and!; [right; destruct H; constructor; cbn; auto|evo|exact Hs].
  - destruct Hi as [|H]; [congruence|]. unfold tcp_resume_read. case_match; [|split_and!; [by right|apply evolves_refl|done]].
    split_and!; [right; destruct H; constructor; cbn; auto|evo|exact Hs].
  - destruct Hi as [|H]; [congruence|]. unfold tcp_close. rewrite Hf, Hc. cbn.
    destruct (reading t), (wreq_pending t) eqn:Hp; cbn; rewrite ?Hp; cbn;
      (split_and!; [|evo|unfold settled; cbn; tauto]);
      first [by left | right; destruct H; constructor; cbn; auto; congruence].
Qed.

Lemma tcp_run_ok t t' : tcp_run t t' -> inv t -> settled t ->
  inv t' /\ evolves t t' /\ settled t'.
Proof.
  induction 1 as [t|t1 t2 t3 Hst _ IH]; intros Hi Hs; [auto using evolves_refl|].
  destruct (tcp_step_ok _ _ Hst Hi Hs) as (Hi' & He & Hs').
  destruct (IH Hi' Hs') as (? & ? & ?). split_and!; auto. by eapply evolves_trans.
Qed.

End Callbacks.

Lemma new_ok results : inv (tm_io_tcp_new results) /\ settled (tm_io_tcp_new results).
Proof.
  split; [|unfold settled; cbn; tauto]. right.
  constructor; unfold wb_len, unsent, TM_IO_HIGH_WATER; cbn; auto; try done.
Qed.

(** C32: the TCP leg is a bounded byte queue that keeps order.  After any sequence of
    writes, half-closes, completions, pauses and closes, with any owner callbacks
    that keep the leg's invariant: what was handed to the socket followed by what is
    still queued is exactly what [tcp_write] accepted, in order and each byte once;
    the FIN has been sent only when every accepted byte was handed over before it,
    and a byte is never accepted after the half-close; the queue holds at most
    256 KiB and its buffer at most 512 KiB. *)
Theorem tcp_leg_fifo low_cb error_cb results t :
  good_cb low_cb -> good_cb error_cb ->
  tcp_run low_cb error_cb (tm_io_tcp_new results) t ->
  freed t = false -> broken t = false ->
  accepted t = sent t ++ unsent t /\
  (fin_sent t = true -> write_closed t = true /\ sent t = accepted t) /\
  wb_len t <= TM_IO_HIGH_WATER /\ wb_cap t <= 2 * TM_IO_HIGH_WATER.
Proof.
  intros Hl He Hr Hf Hb. destruct (new_ok results) as [Hi0 Hs0].
  destruct (tcp_run_ok low_cb error_cb Hl He _ _ Hr Hi0 Hs0) as ([|H] & _ & _); [congruence|].
  destruct H. split_and!; auto; [|lia]. intros Hx. destruct (core_fin0 Hx) as [? Hu].
  split; [done|]. rewrite (core_fifo0 Hb), (Hu Hb). now rewrite app_nil_r.
Qed.

Lemma good_id : good_cb (fun t => t).
Proof. intros t Hf Hc H. split_and!; [by right|apply evolves_refl|done]. Qed.

Definition sample_run : tm_io_tcp :=
  tcp_shutdown_send (snd (tcp_write (fun t => t) (fun t => t) (tm_io_tcp_new []) [1; 2; 3])).

Lemma tcp_leg_fifo_witness :
  let t := sample_run in
  accepted t = sent t ++ unsent t /\
  (fin_sent t = true -> write_closed t = true /\ sent t = accepted t) /\
  wb_len t <= TM_IO_HIGH_WATER /\ wb_cap t <= 2 * TM_IO_HIGH_WATER.
Proof.
  apply (tcp_leg_fifo (fun t => t) (fun t => t) [] sample_run);
    [apply good_id..| |reflexivity|reflexivity].
  unfold sample_run. eapply rtc_l; [apply (StepWrite _ _ _ [1; 2; 3]); reflexivity|]. eapply rtc_l; [apply StepShutdown; reflexivity|].
  apply rtc_refl.
Defined.

(** Completing the writes in flight, at most [n] of them. *)
Fixpoint complete_writes (n : nat) (t : tm_io_tcp) : tm_io_tcp :=
  match n with
  | O => t
  | S n' => if wreq_pending t then complete_writes n' (tcp_write_done (fun t => t) (fun t => t) t 0) else t
  end.

(** A half-closed leg on which nothing has failed and nothing will. *)
Definition draining (t : tm_io_tcp) : Prop :=
  core t /\ freed t = false /\ closed t = false /\ broken t = false /\ write_closed t = true /\
  uv_results t = [] /\ settled t.

Lemma draining_done t (t' := tcp_write_done (fun t => t) (fun t => t) t 0) :
  draining t -> wreq_pending t = true ->
  draining t' /\ accepted t' = accepted t /\ (wreq_pending t' = true -> unsent t' = [] /\ unsent t <> []).
Proof.
  intros (H & Hf & Hc & Hb & Hw & Hr & Hs) Hp.
  destruct (tcp_write_done_ok _ _ good_id good_id t 0 Hf H) as (Hi & He & Hs').
  destruct (complete_ok t H Hc) as (H1 & _ & Hu & Hc1 & Hf1 & Hp1 & Hr1 & _ & Hw1 & _ & Ha1 & Hb1).
  assert (t' = tcp_pump_n (fun t => t) (fun t => t) 0 (complete t)) as Et.
  { subst t'. unfold tcp_write_done. rewrite write_done_unfold. cbv zeta.
    rewrite (core_live _ H1 Hc1). cbn [Z.eqb negb andb]. unfold tcp_maybe_low, tcp_pump.
    destruct (wb_len _ =? 0); rewrite Hr1, Hr; reflexivity. }
  rewrite Hf in Hf1. rewrite Hw in Hw1. rewrite Hr in Hr1. rewrite Hb in Hb1.
  fold t' in Hi, Hs'. rewrite Et in Hi, Hs' |- *. clear He t' Et. set (u := complete t) in *.
  revert Hi Hs'. cbn [tcp_pump_n]. rewrite Hf1, Hp1, Hc1. cbn [orb].
  destruct (wb_off u =? wb_len u) eqn:Eo.
  - unfold tcp_maybe_low. change (wb_len (u <| wb := [] |> <| wb_off := 0 |>) =? 0) with true.
    cbv iota. change (freed (u <| wb := [] |> <| wb_off := 0 |>)) with (freed u).
    change (write_closed (u <| wb := [] |> <| wb_off := 0 |>)) with (write_closed u).
    rewrite Hf1, Hw1. change (wb_len (u <| wb := [] |> <| wb_off := 0 |>) =? 0) with true.
    cbn [andb]. intros Hi Hs'.
    set (v := tcp_fin _) in *.
    assert (freed v = false /\ closed v = false /\ broken v = false /\ write_closed v = true /\
            uv_results v = [] /\ accepted v = accepted t /\ wreq_pending v = false)
      as (? & ? & ? & ? & ? & ? & ?).
    { subst v. unfold tcp_fin. cbn. destruct (fin_sent u); cbn; split_and!; congruence. }
    refine (conj _ (conj _ _)); [|done|congruence].
    destruct Hi as [|Hi]; [congruence|]. unfold draining; auto 10.
  - destruct (write_closed u && fin_sent u) eqn:Ew.
    { exfalso. apply andb_true_iff in Ew as [_ Efin]. destruct (core_fin u H1 Efin) as [_ Hu'].
      assert (unsent u = []) as E by (apply Hu'; congruence).
      apply Z.eqb_neq in Eo. unfold unsent in E. rewrite (core_idle u H1 Hp1), Z.add_0_r in E.
      apply (f_equal length) in E. rewrite length_drop in E. cbn in E.
      pose proof (core_off u H1). pose proof (core_end u H1). pose proof (core_idle u H1 Hp1).
      unfold wb_len, blen in *. lia. }
    unfold uv_write. change (uv_results (u <| in_flight := wb_len u - wb_off u |>)) with (uv_results u).
    rewrite Hr1. cbn [List.hd Z.eqb]. intros Hi Hs'. set (v := _ <| wreq_pending := true |>) in *.
    assert (freed v = false /\ closed v = false /\ broken v = false /\ write_closed v = true /\
            uv_results v = [] /\ accepted v = accepted t)
      as (? & ? & ? & ? & ? & ?).
    { subst v. cbn. split_and!; try congruence. now rewrite Hr1. }
    refine (conj _ (conj _ _)); [destruct Hi as [|Hi]; [congruence|]; unfold draining; auto 10|done|].
    intros _. split.
    + subst v. unfold unsent. cbn. apply drop_ge. unfold wb_len, blen. lia.
    + rewrite <- Hu. unfold unsent. rewrite (core_idle u H1 Hp1), Z.add_0_r. intros E.
      apply Z.eqb_neq in Eo. apply (f_equal length) in E. rewrite length_drop in E. cbn in E.
      pose proof (core_off u H1). pose proof (core_end u H1). pose proof (core_idle u H1 Hp1).
      unfold wb_len, blen in *. lia.
Qed.

Lemma draining_idle t : draining t -> wreq_pending t = false ->
  sent t = accepted t /\ fin_sent t = true.
Proof.
  intros (H & Hf & Hc & Hb & Hw & Hr & Hs) Hp.
  destruct Hs as [?|[?|[?|[?|[Hwb Hfin]]]]]; try congruence. split; [|auto].
  rewrite (core_fifo t H Hb). unfold unsent. rewrite Hwb, drop_nil. now rewrite app_nil_r.
Qed.

(** Nothing is left behind.  In any reachable state of a leg that was half-closed
    and has had no failure, two successful completions at most deliver every
    accepted byte to the socket and then send the FIN. *)
Theorem tcp_leg_drains low_cb error_cb t :
  good_cb low_cb -> good_cb error_cb ->
  tcp_run low_cb error_cb (tm_io_tcp_new []) t ->
  freed t = false -> closed t = false -> broken t = false -> write_closed t = true ->
  let t' := complete_writes 2 t in
  sent t' = accepted t /\ fin_sent t' = true /\ wreq_pending t' = false.
Proof.
  intros Hl He Hr Hf Hc Hb Hw. destruct (new_ok []) as [Hi0 Hs0].
  destruct (tcp_run_ok low_cb error_cb Hl He _ _ Hr Hi0 Hs0) as ([|H] & Hev & Hs); [congruence|].
  pose proof (ev_results _ _ Hev) as Hres. cbn in Hres.
  assert (uv_results t = []) as Hu by (destruct (uv_results t); [done|cbn in Hres; lia]).
  assert (draining t) as Hd by (unfold draining; auto 10). cbn zeta. cbn [complete_writes].
  destruct (wreq_pending t) eqn:Hp; [|destruct (draining_idle t Hd Hp); auto].
  destruct (draining_done t Hd Hp) as (Hd1 & Ha1 & Hn1).
  set (t1 := tcp_write_done _ _ t 0) in *.
  destruct (wreq_pending t1) eqn:Hp1.
  - destruct (draining_done t1 Hd1 Hp1) as (Hd2 & Ha2 & Hn2).
    set (t2 := tcp_write_done _ _ t1 0) in *. destruct (wreq_pending t2) eqn:Hp2.
    + destruct (Hn1 eq_refl), (Hn2 eq_refl). done.
    + destruct (draining_idle t2 Hd2 Hp2). split_and!; congruence.
  - destruct (draining_idle t1 Hd1 Hp1). split_and!; congruence.
Qed.

Lemma tcp_leg_drains_witness :
  let t' := complete_writes 2 sample_run in
  sent t' = accepted sample_run /\ fin_sent t' = true /\ wreq_pending t' = false.
Proof.
  apply (tcp_leg_drains (fun t => t) (fun t => t) sample_run);
    [apply good_id..| |reflexivity|reflexivity|reflexivity|reflexivity].
  unfold sample_run. eapply rtc_l; [apply (StepWrite _ _ _ [1; 2; 3]); reflexivity|].
  eapply rtc_l; [apply StepShutdown; reflexivity|]. apply rtc_refl.
Defined.

(** The status of a write says what happened to the bytes.  [TM_OK]: they are
    queued behind everything accepted before.  [TM_ERR_BUSY]: nothing is queued, and
    the queue was full or its buffer could not move because a write was in flight.
    [TM_ERR]: the leg was closed or half-closed.  While a write is in flight its
    buffer keeps its place and its first bytes. *)
Theorem tcp_write_spec low_cb error_cb t data :
  good_cb low_cb -> good_cb error_cb -> core t -> freed t = false -> settled t ->
  match tcp_write low_cb error_cb t data with
  | (TM_OK, t') =>
      accepted t ++ data `prefix_of` accepted t' /\
      closed t = false /\ write_closed t = false /\
      (wreq_pending t = true -> wb t' = wb t ++ data /\ wb_cap t' = wb_cap t /\ wb_off t' = wb_off t)
  | (TM_ERR_BUSY, t') =>
      t' = t <| above_low := true |> /\
      (TM_IO_HIGH_WATER < wb_len t + blen data \/
       (wreq_pending t = true /\ wb_cap t < wb_len t + blen data))
  | (TM_ERR, t') => t' = t /\ (closed t = true \/ write_closed t = true)
  | _ => False
  end.
Proof.
  intros Hl He H Hf Hs. destruct (tcp_write_ok low_cb error_cb Hl He t data (or_intror H) Hs)
    as (_ & _ & _ & Hacc).
  unfold tcp_write in *. rewrite Hf in *.
  destruct (closed t) eqn:Hc; [cbn; auto|]. destruct (write_closed t) eqn:Hw; [cbn; auto|].
  cbn [orb] in *.
  destruct (TM_IO_HIGH_WATER <? wb_len t + blen data) eqn:Eh; [apply Z.ltb_lt in Eh; auto|].
  destruct (_ && wreq_pending t) eqn:Eb; [zb; destruct Eb; auto|].
  fold (make_room t (blen data)) in *. apply Z.ltb_ge in Eh. split_and!; auto.
  intros Hp. destruct (make_room_ok t (blen data) H (blen_nonneg _) Eh Eb)
    as (_ & _ & _ & _ & _ & _ & _ & _ & ->); [|done].
  set (u := if TM_IO_LOW_WATER <? _ then _ else _).
  assert (freed u = false /\ wreq_pending u = true /\ wb u = wb t ++ data /\ wb_cap u = wb_cap t /\
          wb_off u = wb_off t) as (Hf' & Hp' & ? & ? & ?).
  { subst u. match goal with |- context [if ?c then _ else _] => destruct c end;
    cbn; split_and!; auto. }
  unfold tcp_pump. destruct (length (uv_results u)); cbn [tcp_pump_n]; rewrite Hf', Hp'; auto.
Qed.

Lemma tcp_write_spec_witness :
  match tcp_write (fun t => t) (fun t => t) (tm_io_tcp_new []) [7] with
  | (TM_OK, t') => [7] `prefix_of` accepted t' /\ false = false /\ false = false /\
      (false = true -> wb t' = [7] /\ wb_cap t' = 0 /\ wb_off t' = 0)
  | _ => False
  end.
Proof.
  destruct (new_ok []) as [[Hc|Hc] Hs]; [discriminate Hc|].
  exact (tcp_write_spec (fun t => t) (fun t => t) (tm_io_tcp_new []) [7] good_id good_id Hc eq_refl Hs).
Defined.

(** An owner that closes the leg from its low-water callback makes
    [tcp_write_done] read the released object: the callback runs between the
    completion and the final [tcp_pump].  Here the leg is idle but for one write in
    flight, the state in which [stream_maybe_close] closes a relay. *)
Theorem tcp_write_done_use_after_free :
  let t := snd (tcp_write (fun t => t) (fun t => t) (tm_io_tcp_new []) [1; 2; 3]) in
  let t' := tcp_write_done tcp_close (fun t => t) t 0 in
  inv t /\ freed t = false /\ freed t' = true /\ uaf t' = true.
Proof.
  split_and!; [|reflexivity..].
  destruct (new_ok []) as [Hi Hs].
  destruct (tcp_write_ok (fun t => t) (fun t => t) good_id good_id _ [1; 2; 3] Hi Hs) as (? & _). done.
Qed.

End Tcp.

(** ** What a relay relies on of a leg *)

(** A leg of any transport.  [io_write] and [io_shutdown_send] give the callbacks
    that ran inside the call, in order; the owner's handlers are applied to them by
    the relay.  [io_log] is everything the leg has accepted; [io_moves] is what the
    transport may do between two calls of the owner. *)
Class TmIo (io : Type) := {
  io_start : io -> io;
  io_write : io -> bytes -> tm_status * list upcall * io;
  io_shutdown_send : io -> list upcall * io;
  io_pause_read : io -> io;
  io_resume_read : io -> io;
  io_drained : io -> bool;
  io_write_total : io -> Z;
  io_log : io -> bytes;
  io_shut : io -> bool;
  io_paused : io -> bool;
  io_ok : io -> Prop;
  io_fresh : io -> Prop;
  io_moves : io -> io -> Prop;

  io_fresh_law i : io_fresh i ->
    io_ok (io_start i) /\ io_log (io_start i) = [] /\ io_shut (io_start i) = false /\
    io_paused (io_start i) = false;
  io_start_law i : io_ok i ->
    io_log (io_start i) = io_log i /\ io_shut (io_start i) = io_shut i /\
    io_ok (io_start i) /\ io_paused (io_start i) = io_paused i;

  io_write_law i d : io_ok i ->
    match io_write i d with
    | (TM_OK, _, i') => io_log i' = io_log i ++ d /\ io_shut i = false
    | (_, ups, i') => io_log i' = io_log i /\ ups = []
    end /\
    io_ok (snd (io_write i d)) /\ io_shut (snd (io_write i d)) = io_shut i /\
    io_paused (snd (io_write i d)) = io_paused i;
  io_shutdown_law i : io_ok i ->
    io_log (snd (io_shutdown_send i)) = io_log i /\ io_shut (snd (io_shutdown_send i)) = true /\
    io_ok (snd (io_shutdown_send i)) /\ io_paused (snd (io_shutdown_send i)) = io_paused i;
  io_pause_law i : io_ok i ->
    io_log (io_pause_read i) = io_log i /\ io_shut (io_pause_read i) = io_shut i /\
    io_ok (io_pause_read i) /\ io_paused (io_pause_read i) = true;
  io_resume_law i : io_ok i ->
    io_log (io_resume_read i) = io_log i /\ io_shut (io_resume_read i) = io_shut i /\
    io_ok (io_resume_read i) /\ io_paused (io_resume_read i) = false;
  io_moves_law i i' : io_moves i i' -> io_ok i ->
    io_log i' = io_log i /\ io_shut i' = io_shut i /\ io_ok i' /\ io_paused i' = io_paused i;
}.

(** ** The TCP leg behind that interface *)

Module TcpLeg.
Import Tcp.

(** Callbacks that are noted, and run by the owner when the call returns. *)
Definition note_low (t : tm_io_tcp) : tm_io_tcp := t <| upcalls ::= fun l => l ++ [UpLow] |>.
Definition note_error (t : tm_io_tcp) : tm_io_tcp := t <| upcalls ::= fun l => l ++ [UpError] |>.

Lemma good_note u : good_cb (fun t => t <| upcalls ::= fun l => l ++ [u] |>).
Proof.
  intros t Hf Hc H. split_and!; [right; destruct H; constructor; cbn; auto| |done].
  constructor; cbn; auto.
Qed.

(** What a pump with such callbacks leaves alone. *)
Record same (t t' : tm_io_tcp) : Prop := {
  same_accepted : accepted t' = accepted t;
  same_closed : closed t' = closed t;
  same_free : free_after_wreq t' = free_after_wreq t;
  same_freed : freed t' = freed t;
  same_wclosed : write_closed t' = write_closed t;
  same_reading : reading t' = reading t;
  same_armed : read_armed t' = read_armed t;
}.

Lemma same_trans a b c : same a b -> same b c -> same a c.
Proof. intros [] []; constructor; congruence. Qed.

Lemma same_note u t : same t (t <| upcalls ::= fun l => l ++ [u] |>).
Proof. constructor; reflexivity. Qed.

Lemma same_low t : same t (tcp_maybe_low note_low t).
Proof. unfold tcp_maybe_low. case_match; [apply same_note|constructor; done]. Qed.

Lemma same_complete t : same t (complete t).
Proof. unfold complete. cbn. case_match; constructor; reflexivity. Qed.

Lemma same_pump fuel : forall t, freed t = false -> free_after_wreq t = false ->
  same t (tcp_pump_n note_low note_error fuel t).
Proof.
  assert (forall pump t r, freed t = false -> free_after_wreq t = false ->
    (forall t, freed t = false -> free_after_wreq t = false -> same t (pump t)) ->
    same t (write_done_with note_low note_error pump t r)) as Hwd.
  { intros pump t r Hf Ha IH. rewrite write_done_unfold. cbv zeta.
    pose proof (same_complete t) as Hc. rewrite (same_free _ _ Hc), Ha.
    case_match.
    - case_match; eapply same_trans; try exact Hc; constructor; reflexivity.
    - eapply same_trans; [exact Hc|]. eapply same_trans; [apply same_low|].
      pose proof (same_trans _ _ _ Hc (same_low (complete t))) as Hs.
      apply IH; [rewrite (same_freed _ _ Hs)|rewrite (same_free _ _ Hs)]; done. }
  induction fuel as [|fuel IH]; intros t Hf Ha; cbn [tcp_pump_n]; rewrite Hf.
  all: destruct (wreq_pending t || closed t); [constructor; done|].
  all: destruct (wb_off t =? wb_len t).
  1,3: pose proof (same_low (t <| wb := [] |> <| wb_off := 0 |>)) as Hs;
    rewrite (same_freed _ _ Hs); change (freed (t <| wb := [] |> <| wb_off := 0 |>)) with (freed t);
    rewrite Hf; eapply same_trans with (t <| wb := [] |> <| wb_off := 0 |>);
    [constructor; done|]; eapply same_trans; [exact Hs|];
    case_match; [unfold tcp_fin; case_match|]; constructor; done.
  all: destruct (write_closed t && fin_sent t); [constructor; done|].
  all: destruct (uv_write (t <| in_flight := wb_len t - wb_off t |>)) as [r t'] eqn:Eu;
    assert (same t t') as Hs by (revert Eu; unfold uv_write; cbn; case_match; intros [= <- <-];
      constructor; reflexivity);
    destruct (r =? 0); [eapply same_trans; [exact Hs|constructor; done]|].
  - done.
  - eapply same_trans with (t' <| wreq_pending := true |>).
    { eapply same_trans; [exact Hs|constructor; done]. }
    apply Hwd; [exact (eq_trans (same_freed _ _ Hs) Hf)|exact (eq_trans (same_free _ _ Hs) Ha)|done].
Qed.

(** An open leg in a stable state. *)
Definition leg_ok (t : tm_io_tcp) : Prop :=
  core t /\ freed t = false /\ closed t = false /\ settled t /\ reading t = true.

Definition leg_write (t : tm_io_tcp) (d : bytes) : tm_status * list upcall * tm_io_tcp :=
  let '(st, t') := tcp_write note_low note_error (t <| upcalls := [] |>) d in
  (st, upcalls t', t').

Definition leg_shutdown (t : tm_io_tcp) : list upcall * tm_io_tcp := ([], tcp_shutdown_send t).

(** Completions, with the callbacks they ran noted. *)
Definition leg_moves (t t' : tm_io_tcp) : Prop :=
  exists status, wreq_pending t = true /\ t' = tcp_write_done note_low note_error t status.

Lemma tcp_write_cases t data : freed t = false -> closed t = false ->
  (tcp_write note_low note_error t data = (TM_ERR, t) /\ write_closed t = true) \/
  tcp_write note_low note_error t data = (TM_ERR_BUSY, t <| above_low := true |>) \/
  (write_closed t = false /\
   exists u, tcp_write note_low note_error t data = (TM_OK, tcp_pump note_low note_error u) /\
             same (t <| accepted := accepted t ++ data |>) u).
Proof.
  intros Hf Hc. unfold tcp_write. rewrite Hf, Hc. cbn [orb].
  destruct (write_closed t) eqn:Hw; [auto|].
  case_match; [auto|]. destruct (_ && wreq_pending t); [auto|]. right; right. split; [done|].
  fold (make_room t (blen data)). eexists; split; [reflexivity|].
  assert (same t (make_room t (blen data))) as [].
  { unfold make_room. cbn. repeat case_match; constructor; done. }
  cbn. repeat case_match; constructor; cbn; congruence.
Qed.

Definition leg_paused (t : tm_io_tcp) : bool := negb (read_armed t).

Lemma leg_write_law t d : leg_ok t ->
  match leg_write t d with
  | (TM_OK, _, t') => accepted t' = accepted t ++ d /\ write_closed t = false
  | (_, ups, t') => accepted t' = accepted t /\ ups = []
  end /\ leg_ok (snd (leg_write t d)) /\ write_closed (snd (leg_write t d)) = write_closed t /\
  leg_paused (snd (leg_write t d)) = leg_paused t.
Proof.
  intros (H & Hf & Hc & Hs & Hrd). unfold leg_write.
  set (u := t <| upcalls := [] |>).
  assert (core u) as Hu by (destruct H; constructor; cbn; auto).
  destruct (tcp_write_ok note_low note_error (good_note UpLow) (good_note UpError) u d (or_intror Hu) Hs)
    as (Hi & _ & Hs' & _).
  destruct (tcp_write_cases u d Hf Hc) as [[E Hw]|[E|[Hw (v & E & Hv)]]]; rewrite E in *; cbn [fst snd] in *.
  - split; [by split|]. split; [|by split]. unfold leg_ok; auto.
  - split; [by split|]. split; [|by split]. destruct Hi as [Hi|Hi]; [cbn in Hi; congruence|].
    unfold leg_ok; auto.
  - assert (same (u <| accepted := accepted t ++ d |>) (tcp_pump note_low note_error v)) as [].
    { eapply same_trans; [exact Hv|]. apply same_pump.
      - exact (eq_trans (same_freed _ _ Hv) Hf).
      - exact (eq_trans (same_free _ _ Hv) (core_live _ H Hc)). }
    cbn in *. destruct Hi as [Hi|Hi]; [congruence|].
    unfold leg_ok, leg_paused. rewrite same_armed0. split_and!; auto; congruence.
Qed.

Lemma leg_shutdown_law t : leg_ok t ->
  accepted (snd (leg_shutdown t)) = accepted t /\ write_closed (snd (leg_shutdown t)) = true /\
  leg_ok (snd (leg_shutdown t)) /\ leg_paused (snd (leg_shutdown t)) = leg_paused t.
Proof.
  intros (H & Hf & Hc & Hs & Hrd). unfold leg_shutdown. cbn [snd].
  destruct (tcp_shutdown_send_ok t (or_intror H) Hs) as (Hi & _ & Hs').
  assert (same (t <| write_closed := true |>) (tcp_shutdown_send t)) as [].
  { unfold tcp_shutdown_send. rewrite Hf, Hc. cbn [orb].
    destruct (write_closed t) eqn:Hw; [constructor; cbn; congruence|].
    cbv zeta. destruct (_ || _); [constructor; done|]. unfold tcp_fin. case_match; constructor; done. }
  cbn in *. unfold leg_ok, leg_paused. rewrite same_armed0.
  destruct Hi as [Hi|Hi]; [congruence|]. split_and!; auto; congruence.
Qed.

Lemma leg_moves_law t t' : leg_moves t t' -> leg_ok t ->
  accepted t' = accepted t /\ write_closed t' = write_closed t /\ leg_ok t' /\ leg_paused t' = leg_paused t.
Proof.
  intros (status & Hp & ->) (H & Hf & Hc & Hs & Hrd).
  destruct (tcp_write_done_ok note_low note_error (good_note UpLow) (good_note UpError) t status Hf H)
    as (Hi & _ & Hs').
  assert (same t (tcp_write_done note_low note_error t status)) as [].
  { pose proof (core_live _ H Hc) as Ha. pose proof (same_complete t) as Hcs.
    unfold tcp_write_done. rewrite write_done_unfold. cbv zeta. rewrite (same_free _ _ Hcs), Ha.
    eapply same_trans; [exact Hcs|]. case_match; [case_match; constructor; reflexivity|].
    eapply same_trans; [apply same_low|].
    pose proof (same_trans _ _ _ Hcs (same_low (complete t))) as Hs1.
    apply same_pump; [rewrite (same_freed _ _ Hs1)|rewrite (same_free _ _ Hs1)]; done. }
  unfold leg_ok, leg_paused. rewrite same_armed0.
  destruct Hi as [Hi|Hi]; [congruence|]. split_and!; auto; congruence.
Qed.

Lemma leg_read_law t (b : bool) : leg_ok t ->
  let t' := t <| read_armed := b |> in
  accepted t' = accepted t /\ write_closed t' = write_closed t /\ leg_ok t' /\ leg_paused t' = negb b.
Proof.
  intros (H & Hf & Hc & Hs & Hrd). split_and!; try done. unfold leg_ok.
  split_and!; try done. destruct H; constructor; cbn; auto.
Qed.

Lemma leg_resume t : leg_ok t -> tcp_resume_read t = t <| read_armed := true |>.
Proof. intros (_ & _ & Hc & _ & Hr). unfold tcp_resume_read. by rewrite Hr, Hc. Qed.
Lemma leg_pause t : leg_ok t -> tcp_pause_read t = t <| read_armed := false |>.
Proof. intros (_ & _ & Hc & _ & Hr). unfold tcp_pause_read. by rewrite Hr, Hc. Qed.

(** A leg just made. *)
Definition leg_fresh (t : tm_io_tcp) : Prop := exists results, t = tm_io_tcp_new results.

Lemma leg_new_ok results : leg_ok (tcp_start (tm_io_tcp_new results)).
Proof.
  destruct (new_ok results) as [[Hi|Hi] Hs]; [done|]. unfold leg_ok. split_and!; done.
Qed.

#[global] Instance tcp_leg : TmIo tm_io_tcp.
Proof.
  refine {| io_start := tcp_start; io_write := leg_write; io_shutdown_send := leg_shutdown;
            io_pause_read := tcp_pause_read; io_resume_read := tcp_resume_read;
            io_drained := tcp_drained; io_write_total := queued_total;
            io_log := accepted; io_shut := write_closed; io_paused := leg_paused;
            io_ok := leg_ok; io_fresh := leg_fresh; io_moves := leg_moves |}.
  - intros t [results ->]. split; [apply leg_new_ok|done].
  - intros t (H & Hf & Hc & Hs & Hr). unfold tcp_start. rewrite Hr. unfold leg_ok. auto 10.
  - apply leg_write_law.
  - apply leg_shutdown_law.
  - intros t H. rewrite leg_pause by done. by apply leg_read_law.
  - intros t H. rewrite leg_resume by done. by apply leg_read_law.
  - apply leg_moves_law.
Defined.

End TcpLeg.
