(* ===== verification/Tls.v ===== *)
(** * TLS legs

    src/common/src/tls.c (the stream part) and the [ssl_*] adapters of
    src/common/src/io.c.  A [tm_ssl_stream] drives one OpenSSL connection over two
    memory BIOs: plaintext waits in the queue [pq] until [SSL_write] takes it, the
    records OpenSSL produces are read from the write BIO and handed to libuv one
    chunk at a time, and received bytes are put in the read BIO and read back with
    [SSL_read].

    OpenSSL is the class [TLS].  The owner's callbacks run in the middle of the
    functions and may call back into the stream; they are the functions [low_cb],
    [error_cb], [handshake_cb], [eof_cb] and [read_cb], and what is proved holds for
    all callbacks that keep the stream's invariant.  Module TlsLeg shows that the
    stream is a leg in the sense of [TmIo]. *)

From S2P Require Import Prelude.
From S2P Require Import Wire.
From S2P Require Import Io.

Module Tls.

(** ** OpenSSL *)

Inductive ssl_error :=
  SSL_ERROR_NONE | SSL_ERROR_WANT_READ | SSL_ERROR_WANT_WRITE | SSL_ERROR_ZERO_RETURN | SSL_ERROR_OTHER.

Definition ssl_want (e : ssl_error) : bool :=
  match e with SSL_ERROR_WANT_READ | SSL_ERROR_WANT_WRITE => true | _ => false end.

(** One connection with its two BIOs.  [SSL_read] gives its result and, when that is
    positive, the bytes; [BIO_read] gives no byte when its result is not positive.
    [plaintext], [wire], [output] and [unread] only observe: the application bytes
    [SSL_write] has taken, the protocol bytes produced so far, those of them still in
    the write BIO, and a bound on how many times [SSL_read] can still succeed. *)
Class TLS := {
  SSL : Type;
  SSL_write : SSL -> bytes -> Z * SSL;
  SSL_read : SSL -> Z * bytes * SSL;
  SSL_accept : SSL -> Z * SSL;
  SSL_connect : SSL -> Z * SSL;
  SSL_shutdown : SSL -> SSL;
  SSL_get_error : SSL -> Z -> ssl_error;
  SSL_is_init_finished : SSL -> bool;
  BIO_write : SSL -> bytes -> SSL;
  BIO_read : SSL -> Z -> bytes * SSL;
  DTLSv1_get_timeout : SSL -> option (Z * Z);
  DTLSv1_handle_timeout : SSL -> SSL;

  plaintext : SSL -> bytes;
  wire : SSL -> bytes;
  output : SSL -> bytes;
  unread : SSL -> nat;

  (** Everything but [BIO_read] only appends to what was produced. *)
  emits (x y : SSL) : Prop := exists c, wire y = wire x ++ c /\ output y = output x ++ c;
  write_law x d : emits x (SSL_write x d).2 /\
    plaintext (SSL_write x d).2 = plaintext x ++ take (Z.to_nat (SSL_write x d).1) d /\
    (SSL_write x d).1 <= blen d /\ (unread (SSL_write x d).2 <= unread x)%nat;
  read_law x : emits x (SSL_read x).2 /\ plaintext (SSL_read x).2 = plaintext x /\
    (unread (SSL_read x).2 <= unread x)%nat /\
    (0 < (SSL_read x).1.1 -> (unread (SSL_read x).2 < unread x)%nat);
  accept_law x : emits x (SSL_accept x).2 /\ plaintext (SSL_accept x).2 = plaintext x;
  connect_law x : emits x (SSL_connect x).2 /\ plaintext (SSL_connect x).2 = plaintext x;
  shutdown_law x : emits x (SSL_shutdown x) /\ plaintext (SSL_shutdown x) = plaintext x /\
    (unread (SSL_shutdown x) <= unread x)%nat;
  timeout_law x : emits x (DTLSv1_handle_timeout x) /\
    plaintext (DTLSv1_handle_timeout x) = plaintext x;
  bio_write_law x d : emits x (BIO_write x d) /\ plaintext (BIO_write x d) = plaintext x;
  bio_read_law x n : output x = (BIO_read x n).1 ++ output (BIO_read x n).2 /\
    wire (BIO_read x n).2 = wire x /\ plaintext (BIO_read x n).2 = plaintext x /\
    (unread (BIO_read x n).2 <= unread x)%nat;
}.

Definition TM_SSL_WBUF_SIZE : Z := 65536.
Definition TM_PQ_HIGH : Z := 256 * 1024.
Definition TM_PQ_LOW : Z := 128 * 1024.

Inductive ss_state := TM_SS_STATE_HANDSHAKE | TM_SS_STATE_OPEN | TM_SS_STATE_CLOSED.

#[export] Instance ss_state_eq_dec : EqDecision ss_state.
Proof. solve_decision. Defined.

Definition is_closed (st : ss_state) : bool :=
  match st with TM_SS_STATE_CLOSED => true | _ => false end.
Definition is_open (st : ss_state) : bool :=
  match st with TM_SS_STATE_OPEN => true | _ => false end.
Definition is_handshake (st : ss_state) : bool :=
  match st with TM_SS_STATE_HANDSHAKE => true | _ => false end.

Section Stream.
Context `{TLS}.

(** [pq] holds the bytes [pq[0 .. pq_len)].  [cbs] is false once the read, EOF and
    error callbacks are NULL, [hs_cb] once the handshake callback is.  [timer] is the
    time the DTLS timer is set to.  The fields below the line are the state of the
    socket, the results of the coming sends, and ghosts: what [tm_ssl_stream_write]
    accepted, what was handed to the socket, whether a send failed, whether
    [SSL_shutdown] was called, the arguments of an [SSL_write] that has to be
    repeated, a violation of OpenSSL's rules for [SSL_write], and the life of the
    object. *)
Record tm_ssl_stream := Stream {
  ssl : SSL;
  is_dtls : bool;
  is_server : bool;
  cbs : bool;
  hs_cb : bool;
  state : ss_state;
  read_started : bool;
  close_sent : bool;
  write_pq_total : Z;
  shutdown_pending : bool;
  inflight : bool;
  pq : bytes;
  pq_cap : Z;
  pq_off : Z;
  ssl_retry_len : Z;
  last_err : tm_status;
  above_low : bool;
  read_paused : bool;
  pumping_read : bool;
  free_pending : bool;
  freeing : bool;
  timer : option Z;
  (* ---- *)
  armed : bool;
  uv_results : list Z;
  accepted : bytes;
  sent : bytes;
  broken : bool;
  notified : bool;
  retry : option bytes;
  misuse : bool;
  freed : bool;
  uaf : bool;
  upcalls : list upcall;
}.
#[global] Instance eta_stream : Eta tm_ssl_stream :=
  settable! Stream <ssl; is_dtls; is_server; cbs; hs_cb; state; read_started; close_sent;
    write_pq_total; shutdown_pending; inflight; pq; pq_cap; pq_off; ssl_retry_len; last_err;
    above_low; read_paused; pumping_read; free_pending; freeing; timer; armed; uv_results;
    accepted; sent; broken; notified; retry; misuse; freed; uaf; upcalls>.

Definition pq_len (s : tm_ssl_stream) : Z := blen (pq s).

Definition stream_new (dtls server : bool) (x : SSL) (results : list Z) : tm_ssl_stream :=
  Stream x dtls server true true TM_SS_STATE_HANDSHAKE false false 0 false false [] 0 0 0 TM_OK
    false false false false false None false results [] [] false false None false false false [].

Definition tm_ssl_stream_new (server : bool) (x : SSL) (results : list Z) : tm_ssl_stream :=
  stream_new false server x results.
Definition tm_dtls_stream_new (server : bool) (x : SSL) (results : list Z) : tm_ssl_stream :=
  stream_new true server x results.

(** Reading a released object. *)
Definition dangling (s : tm_ssl_stream) : tm_ssl_stream := s <| uaf := true |>.

(** [uv_write], or [uv_udp_send] for DTLS. *)
Definition uv_send (s : tm_ssl_stream) (chunk : bytes) : Z * tm_ssl_stream :=
  let r := List.hd 0 (uv_results s) in
  let s := s <| uv_results ::= List.tl |> in
  if r =? 0 then (0, s <| sent ::= fun l => l ++ chunk |>) else (r, s <| broken := true |>).

(** [SSL_write], with its rules noted: a call that has to be repeated is repeated with
    the same bytes, and nothing is written after [SSL_shutdown]. *)
Definition ssl_write_call (s : tm_ssl_stream) (d : bytes) : Z * tm_ssl_stream :=
  let ok := match retry s with None => true | Some d' => bool_decide (d' = d) end && negb (notified s) in
  let '(w, x) := SSL_write (ssl s) d in
  let again := negb (0 <? w) && ssl_want (SSL_get_error x w) in
  (w, s <| ssl := x |> <| misuse := misuse s || negb ok |>
        <| retry := if again then Some d else None |>).

Definition free_stream_memory (s : tm_ssl_stream) : tm_ssl_stream := s <| freed := true |>.
Definition dtls_timer_closed (s : tm_ssl_stream) : tm_ssl_stream := free_stream_memory s.

(** A DTLS stream is released by the close callback of its timer. *)
Definition do_free (s : tm_ssl_stream) : tm_ssl_stream :=
  if freeing s then s
  else
    let s := s <| freeing := true |> in
    if is_dtls s then s <| timer := None |> else free_stream_memory s.

Section Callbacks.

Context (low_cb error_cb handshake_cb eof_cb : tm_ssl_stream -> tm_ssl_stream).
Context (read_cb : bytes -> tm_ssl_stream -> tm_ssl_stream).

Definition finish_close (s : tm_ssl_stream) : tm_ssl_stream :=
  if is_closed (state s) then s
  else
    let s := s <| state := TM_SS_STATE_CLOSED |> in
    if cbs s then error_cb (s <| cbs := false |>) else s.

Definition fail (e : tm_status) (s : tm_ssl_stream) : tm_ssl_stream :=
  finish_close (s <| last_err := e |>).

(** *** The write path *)

Definition write_len (s : tm_ssl_stream) : Z :=
  let available := pq_len s - pq_off s in
  if negb (ssl_retry_len s =? 0) then ssl_retry_len s
  else if available <? 16384 then available else 16384.

(** The [SSL_write] of the head of the queue. *)
Definition write_head (s : tm_ssl_stream) : Z * tm_ssl_stream :=
  ssl_write_call s (take (Z.to_nat (write_len s)) (drop (Z.to_nat (pq_off s)) (pq s))).

Definition take_head (w : Z) (s : tm_ssl_stream) : tm_ssl_stream :=
  s <| ssl_retry_len := 0 |> <| pq_off := pq_off s + w |>.

Definition reset_empty (s : tm_ssl_stream) : tm_ssl_stream :=
  if pq_off s =? pq_len s then s <| pq := [] |> <| pq_off := 0 |> else s.

(** The loop of [pump_write]; [None] when the fuel runs out. *)
Fixpoint pump_write_n (fuel : nat) (s : tm_ssl_stream) : option tm_ssl_stream :=
  match fuel with
  | O => None
  | S fuel' =>
      let '(chunk, x) := BIO_read (ssl s) TM_SSL_WBUF_SIZE in
      let s := s <| ssl := x |> in
      if 0 <? blen chunk then
        let '(r, s) := uv_send s chunk in
        if negb (r =? 0) then Some (fail TM_ERR_IO s) else Some (s <| inflight := true |>)
      else if pq_off s =? pq_len s then
        let s := s <| pq := [] |> <| pq_off := 0 |> in
        if above_low s then Some (low_cb (s <| above_low := false |>)) else Some s
      else
        let len := write_len s in
        let '(w, s) := write_head s in
        if 0 <? w then pump_write_n fuel' (reset_empty (take_head w s))
        else match SSL_get_error (ssl s) w with
             | SSL_ERROR_WANT_WRITE | SSL_ERROR_WANT_READ => Some (s <| ssl_retry_len := len |>)
             | SSL_ERROR_ZERO_RETURN => Some (fail TM_ERR_EOF s)
             | _ => Some (fail TM_ERR_TLS s)
             end
  end.

(** Every round but the last consumes a byte of the queue. *)
Definition pump_write (s : tm_ssl_stream) : tm_ssl_stream :=
  if freed s then dangling s
  else if is_closed (state s) || inflight s then s
  else default s (pump_write_n (S (length (pq s))) s).

Fixpoint try_shutdown_n (fuel : nat) (s : tm_ssl_stream) : option tm_ssl_stream :=
  if (pq_off s <? pq_len s) && is_open (state s) then
    match fuel with
    | O => None
    | S fuel' =>
        let len := write_len s in
        let '(w, s) := write_head s in
        if 0 <? w then try_shutdown_n fuel' (take_head w s)
        else match SSL_get_error (ssl s) w with
             | SSL_ERROR_WANT_WRITE | SSL_ERROR_WANT_READ =>
                 Some (pump_write (s <| ssl_retry_len := len |>))
             | SSL_ERROR_ZERO_RETURN => Some (fail TM_ERR_EOF s)
             | _ => Some (fail TM_ERR_TLS s)
             end
    end
  else if negb (is_open (state s)) then Some s
  else
    let s := s <| pq := [] |> <| pq_off := 0 |> <| ssl_retry_len := 0 |>
               <| shutdown_pending := false |> in
    Some (pump_write (s <| ssl := SSL_shutdown (ssl s) |> <| notified := true |>)).

Definition tls_try_shutdown (s : tm_ssl_stream) : tm_ssl_stream :=
  default s (try_shutdown_n (length (pq s)) s).

Definition on_write_done (s : tm_ssl_stream) (status : Z) : tm_ssl_stream :=
  let s := s <| inflight := false |> in
  if is_closed (state s) then do_free s
  else if (status <? 0) && negb (status =? UV_ECANCELED) then fail TM_ERR_IO (s <| broken := true |>)
  else
    let s := pump_write s in
    if freed s then dangling s
    else if shutdown_pending s && is_open (state s) then tls_try_shutdown s else s.

Definition tm_ssl_stream_write_available (s : tm_ssl_stream) : bool := pq_len s <? TM_PQ_HIGH.
Definition tm_ssl_stream_pending (s : tm_ssl_stream) : Z := pq_len s - pq_off s.
Definition tm_ssl_stream_write_total (s : tm_ssl_stream) : Z := write_pq_total s.
Definition tm_ssl_stream_drained (s : tm_ssl_stream) : bool :=
  (pq_off s =? pq_len s) && negb (inflight s).

Definition make_room (len : Z) (s : tm_ssl_stream) : tm_ssl_stream :=
  if pq_cap s <? pq_len s + len then
    let ncap := grow (if pq_cap s =? 0 then 16384 else pq_cap s * 2) (pq_len s + len) in
    let s := if pq_off s =? 0 then s
             else s <| pq := drop (Z.to_nat (pq_off s)) (pq s) |> <| pq_off := 0 |> in
    s <| pq_cap := ncap |>
  else s.

Definition tm_ssl_stream_write (s : tm_ssl_stream) (data : bytes) : tm_status * tm_ssl_stream :=
  let len := blen data in
  if freed s then (TM_ERR, dangling s)
  else if negb (is_open (state s)) || close_sent s then (TM_ERR, s)
  else if TM_PQ_HIGH <? pq_len s + len then (TM_ERR_BUSY, s <| above_low := true |>)
  else
    let s := if TM_PQ_LOW <? pq_len s + len then s <| above_low := true |> else s in
    let s := s <| write_pq_total := u64 (write_pq_total s + len) |> in
    let s := make_room len s in
    let s := s <| pq ::= fun q => q ++ data |> <| accepted ::= fun a => a ++ data |> in
    (TM_OK, pump_write s).

Definition tm_ssl_stream_shutdown_send (s : tm_ssl_stream) : tm_ssl_stream :=
  if freed s then dangling s
  else if negb (is_open (state s)) || close_sent s then s
  else tls_try_shutdown (s <| close_sent := true |> <| shutdown_pending := true |>).

(** *** The read path *)

Definition promote_open (s : tm_ssl_stream) : tm_ssl_stream :=
  let s := s <| state := TM_SS_STATE_OPEN |> in
  let s := if is_dtls s then s <| timer := None |> else s in
  if hs_cb s then handshake_cb s else s.

(** The promotion of a stream whose handshake ended inside [SSL_read]; the flag is
    false when the owner closed the stream meanwhile. *)
Definition promote_if_done (s : tm_ssl_stream) : bool * tm_ssl_stream :=
  if is_handshake (state s) && SSL_is_init_finished (ssl s) then
    let s := promote_open s in (negb (is_closed (state s)), s)
  else (true, s).

Definition at_eof (s : tm_ssl_stream) : tm_ssl_stream := if cbs s then eof_cb s else s.

Fixpoint pump_read_n (fuel : nat) (s : tm_ssl_stream) : option tm_ssl_stream :=
  if read_paused s then Some s
  else
    let '(n, d, x) := SSL_read (ssl s) in
    let s := s <| ssl := x |> in
    if 0 <? n then
      match fuel with
      | O => None
      | S fuel' =>
          let '(go, s) := promote_if_done s in
          if negb go then Some s
          else pump_read_n fuel' (if cbs s then read_cb d s else s)
      end
    else if n =? 0 then
      if is_handshake (state s) then Some (fail TM_ERR_EOF s) else Some (at_eof s)
    else match SSL_get_error (ssl s) n with
         | SSL_ERROR_WANT_READ =>
             if is_handshake (state s) then
               let '(go, s) := promote_if_done s in
               if go then Some (pump_write s) else Some s
             else Some s
         | SSL_ERROR_WANT_WRITE => Some (pump_write s)
         | SSL_ERROR_ZERO_RETURN => Some (at_eof s)
         | _ => Some (fail TM_ERR_TLS s)
         end.

Definition pump_read_impl (s : tm_ssl_stream) : tm_ssl_stream :=
  if is_closed (state s) then s else default s (pump_read_n (unread (ssl s)) s).

Definition pump_read (s : tm_ssl_stream) : tm_ssl_stream :=
  if pumping_read s then s
  else
    let s := pump_read_impl (s <| pumping_read := true |>) in
    if freed s then dangling s
    else
      let s := s <| pumping_read := false |> in
      if free_pending s && negb (inflight s) then do_free s else s.

(** [on_read] of a TCP socket; [on_udp_recv] differs only in that a datagram socket
    has no end of file. *)
Definition received (nread : Z) (data : bytes) (s : tm_ssl_stream) : tm_ssl_stream :=
  if 0 <? nread then pump_read (s <| ssl := BIO_write (ssl s) data |>)
  else if nread <? 0 then fail TM_ERR_IO s
  else s.

Definition on_read (nread : Z) (data : bytes) (s : tm_ssl_stream) : tm_ssl_stream :=
  if nread =? UV_EOF then at_eof s else received nread data s.

Definition on_udp_recv (nread : Z) (data : bytes) (s : tm_ssl_stream) : tm_ssl_stream :=
  received nread data s.

(** *** The handshake *)

Definition timeout_ms (tv : Z * Z) : Z :=
  let ms := u64 (tv.1 * 1000 + tv.2 / 1000) in if ms =? 0 then 1 else ms.

Definition dtls_timer_cb (s : tm_ssl_stream) : tm_ssl_stream :=
  if is_closed (state s) then s
  else match DTLSv1_get_timeout (ssl s) with
       | Some tv =>
           let s := if (tv.1 =? 0) && (tv.2 =? 0)
                    then pump_write (s <| ssl := DTLSv1_handle_timeout (ssl s) |>) else s in
           if freed s then dangling s
           else if is_closed (state s) then s else s <| timer := Some (timeout_ms tv) |>
       | None =>
           if negb (SSL_is_init_finished (ssl s)) then s <| timer := Some 500 |>
           else s <| timer := None |>
       end.

Definition handshake_result (s : tm_ssl_stream) (r : Z) : tm_ssl_stream :=
  if r =? 1 then
    if SSL_is_init_finished (ssl s) then promote_open s else pump_write s
  else if ssl_want (SSL_get_error (ssl s) r) then
    let s := pump_write s in
    if freed s then dangling s
    else if is_dtls s then
      s <| timer := Some (from_option timeout_ms 500 (DTLSv1_get_timeout (ssl s))) |>
    else s
  else fail TM_ERR_TLS s.

Definition tm_ssl_stream_handshake (s : tm_ssl_stream) : tm_ssl_stream :=
  let '(r, x) := if is_server s then SSL_accept (ssl s) else SSL_connect (ssl s) in
  handshake_result (s <| ssl := x |>) r.

Definition tm_ssl_stream_start (s : tm_ssl_stream) : tm_ssl_stream :=
  if read_started s then s else s <| read_started := true |> <| armed := true |>.

Definition tm_ssl_stream_pause_read (s : tm_ssl_stream) : tm_ssl_stream :=
  let s := s <| read_paused := true |> in
  if negb (read_started s) || is_closed (state s) then s else s <| armed := false |>.

(** [tm_ssl_stream_resume_read] up to the [pump_read] it may end with: the flag says
    whether it does. *)
Definition resume_flags (s : tm_ssl_stream) : bool * tm_ssl_stream :=
  if negb (read_paused s) then (false, s)
  else
    let s := s <| read_paused := false |> in
    if negb (read_started s) || is_closed (state s) then (false, s)
    else (true, s <| armed := true |>).

Definition tm_ssl_stream_resume_read (s : tm_ssl_stream) : tm_ssl_stream :=
  let '(go, s) := resume_flags s in if go then pump_read s else s.

Definition tm_ssl_stream_close (s : tm_ssl_stream) : tm_ssl_stream :=
  if freed s then dangling s
  else if is_closed (state s) then s
  else
    let s := s <| state := TM_SS_STATE_CLOSED |> <| cbs := false |> <| hs_cb := false |> in
    let s := if read_started s then s <| armed := false |> else s in
    if inflight s || pumping_read s then s <| free_pending := true |> else do_free s.

(** *** The invariant *)

(** Plaintext that waits for [SSL_write]. *)
Definition unsent (s : tm_ssl_stream) : bytes := drop (Z.to_nat (pq_off s)) (pq s).

(** [retry] and [ssl_retry_len] agree, and describe the head of the queue. *)
Definition retry_ok (s : tm_ssl_stream) : Prop :=
  match retry s with
  | None => ssl_retry_len s = 0
  | Some d => 0 < ssl_retry_len s <= blen (unsent s) /\ d = take (Z.to_nat (ssl_retry_len s)) (unsent s)
  end.

Record core (s : tm_ssl_stream) : Prop := {
  core_off : 0 <= pq_off s <= pq_len s;
  core_high : pq_len s <= TM_PQ_HIGH;
  core_cap : pq_len s <= pq_cap s <= 2 * TM_PQ_HIGH;
  core_fifo : accepted s = plaintext (ssl s) ++ unsent s;
  core_wire : broken s = false -> wire (ssl s) = sent s ++ output (ssl s);
  core_total : write_pq_total s = u64 (blen (accepted s));
  core_retry : is_closed (state s) = false -> retry_ok s;
  core_hs : is_handshake (state s) = true -> accepted s = [] /\ close_sent s = false;
  core_pend : shutdown_pending s = true -> close_sent s = true;
  core_notify : notified s = true -> close_sent s = true /\ unsent s = [];
  core_rules : misuse s = false;
}.

Definition inv (s : tm_ssl_stream) : Prop := freed s = true \/ core s.

(** How a stream may change while its owner runs. *)
Record evolves (s s' : tm_ssl_stream) : Prop := {
  ev_accepted : accepted s `prefix_of` accepted s';
  ev_shut : close_sent s = true -> close_sent s' = true /\ accepted s' = accepted s;
  ev_closed : is_closed (state s) = true -> is_closed (state s') = true;
  ev_broken : broken s = true -> broken s' = true;
  ev_freed : freed s = true -> freed s' = true;
  ev_pump : pumping_read s' = pumping_read s;
  ev_alive : pumping_read s = true -> freed s' = freed s;
  ev_unread : (unread (ssl s') <= unread (ssl s))%nat;
}.

(** What the callbacks have to keep. *)
Definition good_cb (cb : tm_ssl_stream -> tm_ssl_stream) : Prop :=
  forall s, freed s = false -> core s -> inv (cb s) /\ evolves s (cb s).

Context (Hlow : good_cb low_cb) (Herr : good_cb error_cb) (Hhs : good_cb handshake_cb)
        (Heof : good_cb eof_cb) (Hread : forall d, good_cb (read_cb d)).

Lemma tls_evolves_refl s : evolves s s.
Proof. constructor; auto. Qed.

Lemma tls_evolves_trans s1 s2 s3 : evolves s1 s2 -> evolves s2 s3 -> evolves s1 s3.
Proof.
  intros [A1 B1 C1 D1 E1 F1 G1 K1] [A2 B2 C2 D2 E2 F2 G2 K2]. constructor; auto.
  - by etrans.
  - intros H1. destruct (B1 H1) as [H2 ?]. destruct (B2 H2). split; congruence.
  - congruence.
  - intros H1. rewrite G2, G1; congruence.
  - lia.
Qed.

(** A state reached in one call: it keeps the invariant and evolves. *)
Definition reach (s s' : tm_ssl_stream) : Prop := inv s' /\ evolves s s'.

Lemma reach_trans s1 s2 s3 : evolves s1 s2 -> reach s2 s3 -> reach s1 s3.
Proof. intros ? [? ?]; split; [done|]. by eapply tls_evolves_trans. Qed.

(** Fields that neither the invariant nor the evolution mention may change freely. *)
Ltac evo := constructor; cbn; auto; try done; try lia.
Ltac same_core H := destruct H; constructor; cbn; auto; try done.

Lemma reach_dangling s : core s -> reach s (dangling s).
Proof. intros Hc. split; [right; same_core Hc|evo]. Qed.

(** What the write path does itself: it moves bytes and may close the stream, and
    leaves the rest alone. *)
Record internal (s s' : tm_ssl_stream) : Prop := {
  in_accepted : accepted s' = accepted s;
  in_shut : close_sent s' = close_sent s;
  in_state : state s' = state s \/ state s' = TM_SS_STATE_CLOSED;
  in_broken : broken s = true -> broken s' = true;
  in_freed : freed s' = freed s;
  in_uaf : uaf s' = uaf s;
  in_pump : pumping_read s' = pumping_read s;
  in_pending : free_pending s' = free_pending s;
  in_paused : read_paused s' = read_paused s;
  in_started : read_started s' = read_started s;
  in_upcalls : upcalls s' = upcalls s;
  in_unread : (unread (ssl s') <= unread (ssl s))%nat;
}.

Lemma internal_refl s : internal s s.
Proof. constructor; auto. Qed.

Lemma internal_trans s1 s2 s3 : internal s1 s2 -> internal s2 s3 -> internal s1 s3.
Proof.
  intros [] []. constructor; try congruence; auto; [|lia].
  destruct in_state1 as [E|E]; [rewrite E; done|by right].
Qed.

Lemma internal_evolves s s' : internal s s' -> evolves s s'.
Proof.
  intros []. constructor; try congruence; auto.
  - by rewrite in_accepted0.
  - intros E. by rewrite in_shut0, in_accepted0.
  - intros E. by destruct in_state0 as [-> | ->].
Qed.

(** What an event of the loop keeps. *)
Definition kept (s s' : tm_ssl_stream) : Prop := inv s' /\ pumping_read s' = pumping_read s.

Lemma reach_kept s s' : reach s s' -> kept s s'.
Proof. intros [? He]. split; [done|]. apply He. Qed.

(** A callback is the last thing the write path does. *)
Inductive tail (s : tm_ssl_stream) : tm_ssl_stream -> Prop :=
  | tail_in u : internal s u -> core u -> tail s u
  | tail_low u : internal s u -> core u -> tail s (low_cb u)
  | tail_err u : internal s u -> core u -> tail s (error_cb u).

Lemma tail_trans s u s' : internal s u -> tail u s' -> tail s s'.
Proof. intros Hi []; [apply tail_in|apply tail_low|apply tail_err]; try done; by eapply internal_trans. Qed.

Lemma tail_reach s s' : freed s = false -> tail s s' -> reach s s'.
Proof.
  intros Hf [u Hi Hc|u Hi Hc|u Hi Hc].
  - split; [by right|by apply internal_evolves].
  - apply reach_trans with u; [by apply internal_evolves|]. apply Hlow; [|done]. by rewrite (in_freed _ _ Hi).
  - apply reach_trans with u; [by apply internal_evolves|]. apply Herr; [|done]. by rewrite (in_freed _ _ Hi).
Qed.

(** The invariant of the stream once it is closed: what a failing call leaves. *)
Definition core_shut (s : tm_ssl_stream) : Prop := core (s <| state := TM_SS_STATE_CLOSED |>).

Lemma core_core_shut s : core s -> core_shut s.
Proof. intros Hc. unfold core_shut. same_core Hc. Qed.

Lemma finish_close_tail s : is_closed (state s) = false -> core_shut s -> tail s (finish_close s).
Proof.
  intros E Hc. unfold finish_close. rewrite E. cbv zeta.
  change (cbs (s <| state := TM_SS_STATE_CLOSED |>)) with (cbs s).
  destruct (cbs s); [apply tail_err|apply tail_in]; [evo|same_core Hc|evo|done].
Qed.

Lemma fail_tail e s : is_closed (state s) = false -> core_shut s -> tail s (fail e s).
Proof.
  intros E Hc. unfold fail. apply tail_trans with (s <| last_err := e |>); [evo|].
  apply finish_close_tail; [done|same_core Hc].
Qed.

Lemma fail_any_tail e s : core s -> tail s (fail e s).
Proof.
  intros Hc. destruct (is_closed (state s)) eqn:E.
  - unfold fail, finish_close. change (state (s <| last_err := e |>)) with (state s).
    rewrite E. apply tail_in; [evo|same_core Hc].
  - apply fail_tail; [done|by apply core_core_shut].
Qed.

(** **** One [SSL_write] *)

Lemma unsent_len s : core s -> blen (unsent s) = pq_len s - pq_off s.
Proof. intros [[? ?] _ _ _ _ _ _ _ _ _ _]. unfold unsent, pq_len in *. rewrite blen_drop by lia. lia. Qed.

Lemma write_len_range s : core s -> is_closed (state s) = false -> pq_off s < pq_len s ->
  0 < write_len s <= blen (unsent s).
Proof.
  intros Hc Hs Hlt. pose proof (unsent_len s Hc) as Hl. pose proof (core_retry s Hc Hs) as Hr.
  unfold write_len, retry_ok in *. destruct (retry s); cms; lia.
Qed.

Lemma write_head_eq s : core s -> is_closed (state s) = false -> pq_off s < pq_len s ->
  let d := take (Z.to_nat (write_len s)) (unsent s) in
  let r := SSL_write (ssl s) d in
  write_head s =
  (r.1, s <| ssl := r.2 |> <| misuse := false |>
          <| retry := if negb (0 <? r.1) && ssl_want (SSL_get_error r.2 r.1) then Some d else None |>).
Proof.
  intros Hc Hs Hlt d r. pose proof (unsent_len s Hc) as Hl. pose proof (core_retry s Hc Hs) as Hr.
  unfold write_head. fold (unsent s). fold d. unfold ssl_write_call. fold r.
  destruct r as [w x]. cbn [fst snd]. f_equal.
  assert (notified s = false) as Hn.
  { destruct (notified s) eqn:En; [|done]. destruct (core_notify _ Hc En) as [_ E].
    rewrite E, blen_nil in Hl. lia. }
  assert (match retry s with None => true | Some d' => bool_decide (d' = d) end = true) as ->.
  { unfold retry_ok in Hr. destruct (retry s) as [d'|]; [|done]. apply bool_decide_eq_true.
    destruct Hr as [? ->]. unfold d, write_len. by destruct (Z.eqb_spec (ssl_retry_len s) 0); [lia|]. }
  rewrite Hn, (core_rules _ Hc). done.
Qed.

Lemma emits_wire x y sn : emits x y -> wire x = sn ++ output x -> wire y = sn ++ output y.
Proof. intros (c & -> & ->) ->. by rewrite app_assoc. Qed.

Section Head.
Context (s : tm_ssl_stream) (Hf : freed s = false) (Hc : core s) (Hs : is_closed (state s) = false)
        (Hlt : pq_off s < pq_len s).

Notation d := (take (Z.to_nat (write_len s)) (unsent s)).
Notation w := (write_head s).1.
Notation s' := (write_head s).2.

Lemma head_frame : internal s s' /\ state s' = state s /\ pq s' = pq s /\ pq_off s' = pq_off s.
Proof.
  rewrite write_head_eq by done. cbn [fst snd].
  destruct (write_law (ssl s) d) as (_ & _ & _ & ?). split_and!; try done; evo.
Qed.

Lemma head_len : w <= blen d /\ blen d = write_len s.
Proof.
  pose proof (write_len_range s Hc Hs Hlt). rewrite write_head_eq by done. cbn [fst snd].
  destruct (write_law (ssl s) d) as (_ & _ & ? & _). split; [done|].
  rewrite blen_take by lia. lia.
Qed.

Lemma unsent_take_head n : 0 <= n -> unsent (take_head n s') = drop (Z.to_nat n) (unsent s).
Proof.
  intros Hn. pose proof (core_off _ Hc). unfold unsent, take_head. rewrite write_head_eq by done. cbn.
  rewrite drop_drop. f_equal. lia.
Qed.

Lemma head_taken : 0 < w -> core (take_head w s').
Proof.
  intros Hw. pose proof head_len as [Hle Hd]. pose proof (write_len_range s Hc Hs Hlt) as Hr.
  pose proof (unsent_len s Hc) as Hl. pose proof (unsent_take_head w ltac:(lia)) as Hu.
  revert Hw Hle Hu. rewrite write_head_eq by done. cbn [fst snd].
  destruct (write_law (ssl s) d) as (He & Hp & _ & _).
  set (r := SSL_write (ssl s) d) in *. intros Hw Hle Hu.
  assert (negb (0 <? r.1) = false) as E by (zb; lia). rewrite E in *. cbn [andb] in *.
  pose proof Hc as []. constructor; try (cbn; auto; lia).
  - change (pq_len (take_head _ _)) with (pq_len s). cbn. lia.
  - rewrite Hu. cbn. rewrite Hp, core_fifo0. rewrite <- app_assoc. f_equal.
    rewrite <- (take_drop (Z.to_nat r.1) (unsent s)) at 1. f_equal.
    rewrite take_take. f_equal. lia.
  - cbn. intros Hb. eapply emits_wire; eauto.
  - cbn. intros Hn. destruct (core_notify0 Hn) as [_ E0]. rewrite E0, blen_nil in Hl. lia.
Qed.

Lemma core_head_ssl : w <= 0 -> core_shut s'.
Proof.
  rewrite write_head_eq by done. cbn [fst snd]. destruct (write_law (ssl s) d) as (He & Hp & _ & _).
  set (r := SSL_write (ssl s) d) in *. intros Hw.
  unfold core_shut. same_core Hc.
  - change (unsent _) with (unsent s). rewrite Hp. replace (Z.to_nat r.1) with O by lia.
    by rewrite take_0, app_nil_r.
  - intros Hb. eapply emits_wire; eauto.
Qed.

Lemma head_wants : w <= 0 -> ssl_want (SSL_get_error (ssl s') w) = true ->
  core (s' <| ssl_retry_len := write_len s |>).
Proof.
  intros Hw He. pose proof (core_head_ssl Hw) as Hk. pose proof (write_len_range s Hc Hs Hlt) as Hr.
  revert Hw He Hk. rewrite write_head_eq by done. cbn [fst snd].
  set (r := SSL_write (ssl s) d). intros Hw He Hk.
  cbn in He. rewrite He in *. assert (negb (0 <? r.1) = true) as E by (zb; lia). rewrite E in *.
  cbn [andb] in *. pose proof Hc as Hc0. same_core Hk.
  all: destruct Hc0; cbn in *; auto.
Qed.

End Head.

(** **** The pump *)

(** Reading the write BIO. *)
Lemma bio_read_internal s n : internal s (s <| ssl := (BIO_read (ssl s) n).2 |>).
Proof. destruct (bio_read_law (ssl s) n) as (_ & _ & _ & ?). evo. Qed.

Lemma bio_read_empty s n : core s -> (BIO_read (ssl s) n).1 = [] ->
  core (s <| ssl := (BIO_read (ssl s) n).2 |>).
Proof.
  intros Hc E. destruct (bio_read_law (ssl s) n) as (Ho & Hw & Hp & _). rewrite E in Ho. cbn in Ho.
  same_core Hc.
  - change (unsent _) with (unsent s). by rewrite Hp.
  - intros Hb. rewrite Hw, <- Ho. auto.
Qed.

Lemma uv_send_spec s n :
  let chunk := (BIO_read (ssl s) n).1 in
  let r := uv_send (s <| ssl := (BIO_read (ssl s) n).2 |>) chunk in
  core s -> internal s r.2 /\ core r.2 /\ state r.2 = state s.
Proof.
  intros chunk r Hc. destruct (bio_read_law (ssl s) n) as (Ho & Hw & Hp & Hu). fold chunk in Ho.
  subst r. unfold uv_send. cbn.
  destruct (List.hd 0 (uv_results s) =? 0); cbn [fst snd]; split_and!; try done; try (by evo).
  all: same_core Hc.
  - change (unsent _) with (unsent s). by rewrite Hp.
  - intros Hb. rewrite Hw, core_wire0, Ho, <- app_assoc; done.
  - change (unsent _) with (unsent s). by rewrite Hp.
Qed.

Lemma core_emptied s : core s -> pq_off s = pq_len s -> core (s <| pq := [] |> <| pq_off := 0 |>).
Proof.
  intros Hc E. assert (unsent s = []) as Hu.
  { unfold unsent. apply drop_ge. unfold pq_len, blen in E. lia. }
  destruct Hc. constructor; try done.
  - change (pq_len _) with 0. cbn. lia.
  - change (unsent _) with (@nil Z). by rewrite Hu in core_fifo0.
  - intros Hs. specialize (core_retry0 Hs). unfold retry_ok in *. cbn. rewrite Hu in core_retry0.
    revert core_retry0. destruct (retry s); [|done]. intros [Hx _]. unfold blen in Hx. cbn in Hx. lia.
  - intros Hn. by destruct (core_notify0 Hn).
Qed.

Lemma reset_empty_core s : core s -> core (reset_empty s) /\ internal s (reset_empty s) /\
  state (reset_empty s) = state s /\ unsent (reset_empty s) = unsent s.
Proof.
  intros Hc. unfold reset_empty. destruct (Z.eqb_spec (pq_off s) (pq_len s)) as [E|E].
  - split_and!; [by apply core_emptied|evo|done|]. change (unsent (s <| pq := [] |> <| pq_off := 0 |>)) with (@nil Z).
    unfold unsent. symmetry. apply drop_ge. unfold pq_len, blen in E. lia.
  - split_and!; [done|apply internal_refl|done|done].
Qed.

Lemma take_head_internal n s : internal s (take_head n s).
Proof. evo. Qed.

Lemma pump_write_n_tail fuel : forall s, core s -> is_closed (state s) = false ->
  (length (unsent s) < fuel)%nat -> exists s', pump_write_n fuel s = Some s' /\ tail s s'.
Proof.
  induction fuel as [|fuel IH]; intros s Hc Hs Hfu; [lia|]. cbn [pump_write_n].
  pose proof (bio_read_internal s TM_SSL_WBUF_SIZE) as Hb.
  pose proof (uv_send_spec s TM_SSL_WBUF_SIZE Hc) as Hsend. pose proof (bio_read_empty s TM_SSL_WBUF_SIZE Hc) as He.
  destruct (BIO_read (ssl s) TM_SSL_WBUF_SIZE) as [chunk x]. cbn [fst snd] in *.
  destruct (0 <? blen chunk) eqn:Ec.
  { destruct (uv_send _ chunk) as [r v]. cbn [snd] in Hsend. destruct Hsend as (Hi & Hv & Est).
    destruct (negb (r =? 0)); eexists; (split; [reflexivity|]).
    - apply tail_trans with v; [done|]. apply fail_tail; [by rewrite Est|by apply core_core_shut].
    - apply tail_in; [eapply internal_trans; [exact Hi|]; evo|same_core Hv]. }
  assert (chunk = []) as -> by (destruct chunk; [done|]; zb; rewrite blen_cons in Ec; pose proof (blen_nonneg chunk); lia).
  specialize (He eq_refl). set (v := s <| ssl := x |>) in *.
  assert (is_closed (state v) = false) as Hsv by done.
  assert (unsent v = unsent s) as Huv by done. clearbody v.
  destruct (Z.eqb_spec (pq_off v) (pq_len v)) as [E|E].
  { pose proof (core_emptied v He E) as He'. set (v' := v <| pq := [] |> <| pq_off := 0 |>) in *.
    assert (internal s v') as Hi by (eapply internal_trans; [exact Hb|evo]).
    destruct (above_low v'); eexists; (split; [reflexivity|]); [|by apply tail_in].
    apply tail_low; [eapply internal_trans; [exact Hi|evo]|same_core He']. }
  assert (pq_off v < pq_len v) as Hlt by (pose proof (core_off _ He); lia).
  pose proof (head_frame v He Hsv Hlt) as (Hh & Hst & _).
  pose proof (head_taken v He Hsv Hlt) as Ht. pose proof (core_head_ssl v He Hsv Hlt) as Hk.
  pose proof (head_wants v He Hsv Hlt) as Hw. pose proof (unsent_take_head v He Hsv Hlt) as Hun.
  pose proof (head_len v He Hsv Hlt) as [Hle Hd]. pose proof (write_len_range v He Hsv Hlt) as Hrg.
  destruct (write_head v) as [w u]. cbn [fst snd] in *.
  assert (internal s u) as Hi by (by eapply internal_trans).
  destruct (0 <? w) eqn:Ew; zb.
  { destruct (reset_empty_core _ (Ht Ew)) as (Hc' & Hi' & Hst' & Hu').
    destruct (IH (reset_empty (take_head w u))) as (s' & -> & Htl).
    - done.
    - rewrite Hst'. change (state (take_head w u)) with (state u). by rewrite Hst.
    - rewrite Hu', Hun, Huv, length_drop by lia. rewrite Huv in *. unfold blen in *. lia.
    - eexists; split; [reflexivity|]. eapply tail_trans; [|exact Htl].
      eapply internal_trans; [exact Hi|]. eapply internal_trans; [apply take_head_internal|exact Hi']. }
  assert (is_closed (state u) = false) as Hsu by by rewrite Hst.
  destruct (SSL_get_error (ssl u) w) eqn:Eer; eexists; (split; [reflexivity|]).
  1,4,5: eapply tail_trans; [exact Hi|]; apply fail_tail; auto.
  all: apply tail_in; [eapply internal_trans; [exact Hi|]; evo|apply Hw; [done|by rewrite ?Eer]].
Qed.

Lemma pump_write_tail s : freed s = false -> core s -> tail s (pump_write s).
Proof.
  intros Hf Hc. unfold pump_write. rewrite Hf.
  destruct (is_closed (state s) || inflight s) eqn:E; [apply tail_in; [apply internal_refl|done]|].
  zb. destruct E as [Es _].
  destruct (pump_write_n_tail (S (length (pq s))) s Hc Es) as (s' & -> & Ht); [|done].
  unfold unsent. rewrite length_drop. lia.
Qed.

Lemma pump_write_reach s : inv s -> reach s (pump_write s).
Proof.
  intros Hi. destruct (freed s) eqn:Hf.
  - unfold pump_write. rewrite Hf. split; [by left|evo].
  - destruct Hi as [?|Hc]; [congruence|]. apply tail_reach; [done|by apply pump_write_tail].
Qed.

(** **** The end of the stream *)

Lemma retry_none s : core s -> is_closed (state s) = false -> unsent s = [] -> retry s = None.
Proof.
  intros Hc Hs E. pose proof (core_retry s Hc Hs) as Hr. unfold retry_ok in Hr. rewrite E in Hr.
  revert Hr. destruct (retry s); [|done]. intros [Hx _]. unfold blen in Hx. cbn in Hx. lia.
Qed.

(** The state in which the close_notify is sent. *)
Definition notify (s : tm_ssl_stream) : tm_ssl_stream :=
  s <| pq := [] |> <| pq_off := 0 |> <| ssl_retry_len := 0 |> <| shutdown_pending := false |>
    <| ssl := SSL_shutdown (ssl s) |> <| notified := true |>.

Lemma notify_core s : core s -> close_sent s = true -> is_closed (state s) = false ->
  pq_off s = pq_len s -> core (notify s) /\ internal s (notify s).
Proof.
  intros Hc Hcl Hs E. pose proof (core_emptied s Hc E) as H1.
  pose proof (retry_none _ H1 Hs eq_refl) as Hr.
  destruct (shutdown_law (ssl s)) as (He & Hp & Hu).
  split; [|unfold notify; evo]. destruct s; cbn in *. destruct H1; cbn in *.
  constructor; cbn; auto.
  - by rewrite Hp.
  - intros Hb. eapply emits_wire; eauto.
  - intros _. unfold retry_ok. cbn. by rewrite Hr.
Qed.

Lemma try_shutdown_n_tail fuel : forall s, freed s = false -> core s -> close_sent s = true ->
  (length (unsent s) <= fuel)%nat -> exists s', try_shutdown_n fuel s = Some s' /\ tail s s'.
Proof.
  assert (forall s, freed s = false -> core s -> close_sent s = true ->
    (pq_off s <? pq_len s) && is_open (state s) = false ->
    exists s', (if negb (is_open (state s)) then Some s else Some (pump_write (notify s))) = Some s' /\
      tail s s') as Hend.
  { intros s Hf Hc Hcl E. destruct (is_open (state s)) eqn:Eo; eexists; (split; [reflexivity|]).
    - destruct (notify_core s) as [Hn Hi]; [done|done|by destruct (state s)| |].
      + rewrite andb_true_r in E. zb. pose proof (core_off _ Hc). lia.
      + eapply tail_trans; [exact Hi|]. by apply pump_write_tail.
    - apply tail_in; [apply internal_refl|done]. }
  induction fuel as [|fuel IH]; intros s Hf Hc Hcl Hfu; cbn [try_shutdown_n];
    (destruct ((pq_off s <? pq_len s) && is_open (state s)) eqn:E; [|by apply Hend]).
  { zb. destruct E as [E _]. pose proof (unsent_len s Hc). unfold blen in *. lia. }
  apply andb_true_iff in E as [Hlt Ho]. apply Z.ltb_lt in Hlt.
  assert (is_closed (state s) = false) as Hs by (by destruct (state s)).
  pose proof (head_frame s Hc Hs Hlt) as (Hh & Hst & _).
  pose proof (head_taken s Hc Hs Hlt) as Ht. pose proof (core_head_ssl s Hc Hs Hlt) as Hk.
  pose proof (head_wants s Hc Hs Hlt) as Hw. pose proof (unsent_take_head s Hc Hs Hlt) as Hun.
  pose proof (head_len s Hc Hs Hlt) as [Hle Hd]. pose proof (write_len_range s Hc Hs Hlt) as Hrg.
  destruct (write_head s) as [w u]. cbn [fst snd] in *.
  destruct (0 <? w) eqn:Ew; zb.
  { destruct (IH (take_head w u)) as (s' & -> & Htl).
    - change (freed (take_head w u)) with (freed u). by rewrite (in_freed _ _ Hh).
    - by apply Ht.
    - change (close_sent (take_head w u)) with (close_sent u). by rewrite (in_shut _ _ Hh).
    - rewrite Hun, length_drop by lia. unfold blen in *. lia.
    - eexists; split; [reflexivity|]. eapply tail_trans; [|exact Htl].
      eapply internal_trans; [exact Hh|apply take_head_internal]. }
  assert (is_closed (state u) = false) as Hsu by by rewrite Hst.
  destruct (SSL_get_error (ssl u) w) eqn:Eer; eexists; (split; [reflexivity|]).
  1,4,5: eapply tail_trans; [exact Hh|]; apply fail_tail; auto.
  all: apply tail_trans with (u <| ssl_retry_len := write_len s |>);
    [eapply internal_trans; [exact Hh|]; evo|].
  all: apply pump_write_tail; [by rewrite <- Hf, <- (in_freed _ _ Hh)|apply Hw; [done|by rewrite ?Eer]].
Qed.

Lemma try_shutdown_tail s : freed s = false -> core s -> close_sent s = true ->
  tail s (tls_try_shutdown s).
Proof.
  intros Hf Hc Hcl. unfold tls_try_shutdown.
  destruct (try_shutdown_n_tail (length (pq s)) s) as (s' & -> & Ht); try done.
  unfold unsent. rewrite length_drop. lia.
Qed.

Lemma make_room_core len s : core s -> 0 <= len -> pq_len s + len <= TM_PQ_HIGH ->
  core (make_room len s) /\ internal s (make_room len s) /\ unsent (make_room len s) = unsent s /\
  pq_len (make_room len s) + len <= pq_cap (make_room len s) /\
  pq_len (make_room len s) <= pq_len s /\ state (make_room len s) = state s.
Proof.
  intros Hc Hl Hh. pose proof (core_off _ Hc) as Ho. pose proof (core_cap _ Hc) as Hcp.
  pose proof (unsent_len s Hc) as Hu. unfold make_room.
  destruct (pq_cap s <? pq_len s + len) eqn:E; zb;
    [|split_and!; [done|apply internal_refl|done|lia|lia|done]].
  pose proof (grow_bound (if pq_cap s =? 0 then 16384 else pq_cap s * 2) (pq_len s + len)
    ltac:(cm; lia)) as Hg.
  pose proof (grow_fits (if pq_cap s =? 0 then 16384 else pq_cap s * 2) (pq_len s + len)
    ltac:(cm; lia) ltac:(unfold TM_PQ_HIGH in *; lia)) as Hg'.
  set (g := grow _ _) in *.
  assert (g <= 2 * TM_PQ_HIGH) as Hg2 by (destruct (pq_cap s =? 0); unfold TM_PQ_HIGH in *; lia).
  clearbody g. destruct (Z.eqb_spec (pq_off s) 0) as [E0|E0].
  - assert (pq_len (s <| pq_cap := g |>) = pq_len s) as Hpl by done.
    split_and!; [|evo|done|rewrite Hpl; cbn; lia|rewrite Hpl; lia|done].
    destruct Hc; constructor; try done. rewrite Hpl. cbn. lia.
  - set (s' := s <| pq := _ |> <| pq_off := 0 |> <| pq_cap := g |>).
    assert (pq_len s' = pq_len s - pq_off s) as Hpl by (unfold s', pq_len; cbn; by rewrite blen_drop).
    assert (unsent s' = unsent s) as Hus by done.
    split_and!; [|evo|done|rewrite Hpl; cbn; lia|rewrite Hpl; lia|done].
    destruct Hc; constructor; try done; rewrite Hpl; cbn; lia.
Qed.

Lemma make_room_total len n s :
  make_room len (s <| write_pq_total := n |>) = (make_room len s) <| write_pq_total := n |> /\
  write_pq_total (make_room len s) = write_pq_total s.
Proof.
  destruct s. unfold make_room, pq_len. cbn. split; repeat case_match; reflexivity.
Qed.

Lemma append_core s data : core s -> is_open (state s) = true -> close_sent s = false ->
  pq_len s + blen data <= pq_cap s -> pq_len s + blen data <= TM_PQ_HIGH ->
  core (s <| write_pq_total := u64 (write_pq_total s + blen data) |>
          <| pq ::= fun q => q ++ data |> <| accepted ::= fun a => a ++ data |>).
Proof.
  intros Hc Ho Hcl Hcap Hh. pose proof (blen_nonneg data) as Hd.
  assert (drop (Z.to_nat (pq_off s)) (pq s ++ data) = unsent s ++ data) as Hu.
  { unfold unsent. apply drop_app_le. pose proof (core_off _ Hc). unfold pq_len, blen in *. lia. }
  destruct s; unfold retry_ok, unsent, pq_len in *; cbn in *.
  destruct Hc; unfold retry_ok, unsent, pq_len in *; cbn in *.
  constructor; unfold retry_ok, unsent, pq_len; cbn; rewrite ?blen_app, ?Hu; auto; try lia.
  - by rewrite core_fifo0, <- app_assoc.
  - rewrite core_total0. unfold wrap. by rewrite Zplus_mod_idemp_l.
  - intros Hs. specialize (core_retry0 Hs). destruct retry0; [|done]. destruct core_retry0 as [? E].
    split; [rewrite blen_app; lia|]. rewrite E. symmetry. apply take_app_le. unfold blen in *. lia.
  - intros E. by destruct state0.
  - intros Hn. destruct (core_notify0 Hn). congruence.
Qed.

(** What a write does: refused, asked to wait, or queued and pumped. *)
Lemma write_cases s data : freed s = false -> core s ->
  (negb (is_open (state s)) || close_sent s = true /\ tm_ssl_stream_write s data = (TM_ERR, s)) \/
  (is_open (state s) = true /\ close_sent s = false /\
   tm_ssl_stream_write s data = (TM_ERR_BUSY, s <| above_low := true |>)) \/
  (is_open (state s) = true /\ close_sent s = false /\ exists u,
   tm_ssl_stream_write s data = (TM_OK, pump_write u) /\ core u /\ freed u = false /\
   internal (s <| accepted := accepted s ++ data |>) u).
Proof.
  intros Hf Hc. unfold tm_ssl_stream_write. rewrite Hf.
  destruct (negb (is_open (state s)) || close_sent s) eqn:E; [by left|]. right.
  zb. destruct E as [Eo Ecl].
  destruct (TM_PQ_HIGH <? pq_len s + blen data) eqn:Eh; zb; [by left|]. right. split; [done|]. split; [done|].
  eexists. split; [reflexivity|].
  set (s1 := if TM_PQ_LOW <? pq_len s + blen data then s <| above_low := true |> else s).
  assert (core s1 /\ pq_len s1 = pq_len s /\ internal s s1 /\ state s1 = state s /\
    write_pq_total s1 = write_pq_total s) as (Hc1 & Hp1 & Hi1 & Hs1 & Hw1).
  { unfold s1. case_match; split_and!; try done; [same_core Hc|evo|apply internal_refl]. }
  clearbody s1. rewrite <- Hp1 in Eh.
  pose proof (make_room_core (blen data) s1 Hc1 (blen_nonneg data) Eh)
    as (Hc2 & Hi2 & Hu2 & Hcap2 & Hle2 & Hs2).
  destruct (make_room_total (blen data) (u64 (write_pq_total s1 + blen data)) s1) as [-> Ht].
  rewrite <- Ht. set (u := make_room (blen data) s1) in *. clearbody u.
  pose proof (internal_trans _ _ _ Hi1 Hi2) as Hi.
  split; [apply append_core; [done|by rewrite Hs2, Hs1|by rewrite (in_shut _ _ Hi)|done|lia]|split].
  - cbn. by rewrite (in_freed _ _ Hi).
  - destruct Hi. constructor; cbn; auto. by rewrite in_accepted0.
Qed.

Lemma write_reach s data : inv s -> reach s (tm_ssl_stream_write s data).2.
Proof.
  intros Hi. destruct (freed s) eqn:Hf.
  { unfold tm_ssl_stream_write. rewrite Hf. split; [by left|evo]. }
  destruct Hi as [?|Hc]; [congruence|].
  destruct (write_cases s data Hf Hc) as [[_ ->]|[(_ & _ & ->)|(_ & Hcl & u & -> & Hu & Hfu & Hi)]].
  - split; [by right|apply tls_evolves_refl].
  - split; [right; same_core Hc|evo].
  - cbn [snd]. eapply reach_trans; [|apply pump_write_reach; by right].
    eapply tls_evolves_trans; [|by apply internal_evolves]. constructor; cbn; auto; [|congruence].
    by apply prefix_app_r.
Qed.

Lemma shutdown_send_tail s : freed s = false -> core s ->
  (negb (is_open (state s)) || close_sent s = true /\ tm_ssl_stream_shutdown_send s = s) \/
  (is_open (state s) = true /\ close_sent s = false /\
   tail (s <| close_sent := true |>) (tm_ssl_stream_shutdown_send s)).
Proof.
  intros Hf Hc. unfold tm_ssl_stream_shutdown_send. rewrite Hf.
  destruct (negb (is_open (state s)) || close_sent s) eqn:E; [by left|]. right.
  zb. destruct E as [Eo Ecl]. split; [done|]. split; [done|].
  eapply tail_trans; [|apply try_shutdown_tail; [done| |done]]; [evo|].
  same_core Hc.
  - intros E. destruct (core_hs0 E). by destruct (state s).
  - intros E. by destruct (core_notify0 E).
Qed.

Lemma shutdown_send_reach s : inv s -> reach s (tm_ssl_stream_shutdown_send s).
Proof.
  intros Hi. destruct (freed s) eqn:Hf.
  { unfold tm_ssl_stream_shutdown_send. rewrite Hf. split; [by left|evo]. }
  destruct Hi as [?|Hc]; [congruence|].
  destruct (shutdown_send_tail s Hf Hc) as [[_ ->]|(_ & _ & Ht)].
  - split; [by right|apply tls_evolves_refl].
  - apply reach_trans with (s <| close_sent := true |>); [evo|by apply tail_reach].
Qed.

Lemma do_free_reach s : inv s -> pumping_read s = false -> reach s (do_free s).
Proof.
  intros Hi Hp. unfold do_free. destruct (freeing s); [split; [done|apply tls_evolves_refl]|]. cbv zeta.
  destruct (is_dtls _); (split; [|evo; rewrite Hp; done]).
  - destruct Hi as [Hi|Hi]; [by left|right; same_core Hi].
  - by left.
Qed.

Lemma on_write_done_reach s status : freed s = false -> core s -> pumping_read s = false ->
  reach s (on_write_done s status).
Proof.
  intros Hf Hc Hp. unfold on_write_done. set (u := s <| inflight := false |>).
  assert (core u) as Hu by same_core Hc. assert (evolves s u) as Hev by evo.
  assert (freed u = false) as Hfu by done. assert (pumping_read u = false) as Hpu by done. clearbody u.
  eapply reach_trans; [exact Hev|]. destruct (is_closed (state u)); [apply do_free_reach; [by right|done]|].
  destruct (_ && _).
  { apply reach_trans with (u <| broken := true |>); [evo|]. apply tail_reach; [done|].
    apply fail_any_tail. same_core Hu. }
  cbv zeta. destruct (pump_write_reach u (or_intror Hu)) as [Hi He]. set (v := pump_write u) in *. clearbody v.
  eapply reach_trans; [exact He|]. destruct (freed v) eqn:Hfv.
  { destruct Hi as [?|Hi]; split; try (by left); evo. }
  destruct Hi as [?|Hi]; [congruence|].
  destruct (shutdown_pending v && _) eqn:E; [|split; [by right|apply tls_evolves_refl]].
  zb. destruct E as [E _]. apply tail_reach; [done|]. apply try_shutdown_tail; [done|done|].
  by apply (core_pend _ Hi).
Qed.

(** **** The read path *)

Lemma core_ssl s x : core s -> emits (ssl s) x -> plaintext x = plaintext (ssl s) ->
  core (s <| ssl := x |>).
Proof.
  intros Hc He Hp. same_core Hc.
  - change (unsent _) with (unsent s). by rewrite Hp.
  - intros Hb. eapply emits_wire; eauto.
Qed.

Lemma promote_open_reach s : freed s = false -> core s -> state s = TM_SS_STATE_HANDSHAKE ->
  reach s (promote_open s).
Proof.
  intros Hf Hc Hs. unfold promote_open.
  set (u := s <| state := TM_SS_STATE_OPEN |>).
  assert (core u) as Hu by (same_core Hc; intros _; apply core_retry0; by rewrite Hs).
  assert (evolves s u) as He by (evo; rewrite Hs; done).
  assert (freed u = false) as Hfu by done. clearbody u. cbv zeta.
  eapply reach_trans; [exact He|].
  set (v := if is_dtls u then u <| timer := None |> else u).
  assert (core v /\ evolves u v /\ freed v = false) as (Hv & Hev & Hfv).
  { unfold v. case_match; (split_and!; [same_core Hu|evo|done]). }
  clearbody v. eapply reach_trans; [exact Hev|]. destruct (hs_cb v); [by apply Hhs|].
  split; [by right|apply tls_evolves_refl].
Qed.

Lemma promote_if_done_reach s : freed s = false -> core s -> reach s (promote_if_done s).2.
Proof.
  intros Hf Hc. unfold promote_if_done. destruct (_ && _) eqn:E; [|split; [by right|apply tls_evolves_refl]].
  cbn [snd]. zb. destruct E as [E _]. apply promote_open_reach; [done|done|by destruct (state s)].
Qed.

Lemma at_eof_reach s : freed s = false -> core s -> reach s (at_eof s).
Proof.
  intros Hf Hc. unfold at_eof. destruct (cbs s); [by apply Heof|]. split; [by right|apply tls_evolves_refl].
Qed.

Lemma reach_pumping s s' : freed s = false -> pumping_read s = true -> reach s s' ->
  freed s' = false /\ core s' /\ pumping_read s' = true.
Proof.
  intros Hf Hp [[Hi|Hi] He]; pose proof (ev_pump _ _ He); pose proof (ev_alive _ _ He Hp);
    split_and!; congruence || done.
Qed.

Lemma pump_read_n_reach fuel : forall s, freed s = false -> core s -> pumping_read s = true ->
  (unread (ssl s) <= fuel)%nat -> exists s', pump_read_n fuel s = Some s' /\ reach s s'.
Proof.
  induction fuel as [|fuel IH]; intros s Hf Hc Hp Hfu; cbn [pump_read_n].
  all: destruct (read_paused s); [eexists; split; [reflexivity|split; [by right|apply tls_evolves_refl]]|].
  all: pose proof (read_law (ssl s)) as (He & Hpl & Hun & Hdec); destruct (SSL_read (ssl s)) as [[n d] x];
    cbn [fst snd] in *; pose proof (core_ssl s x Hc He Hpl) as Hu; set (u := s <| ssl := x |>) in *;
    assert (evolves s u) as Hev by evo; assert (freed u = false) as Hfv by done;
    assert (pumping_read u = true) as Hpu by done; assert (ssl u = x) as Hx by done; clearbody u.
  all: destruct (0 <? n) eqn:En; zb.
  1: specialize (Hdec En); lia.
  2: { pose proof (promote_if_done_reach u Hfv Hu) as Hr. destruct (promote_if_done u) as [go v]. cbn [snd] in Hr.
    destruct (reach_pumping _ _ Hfv Hpu Hr) as (Hf2 & Hc2 & Hp2).
    pose proof (tls_evolves_trans _ _ _ Hev (proj2 Hr)) as Hev2. pose proof (ev_unread _ _ (proj2 Hr)) as Hle2.
    destruct (negb go); [eexists; split; [reflexivity|]; split; [by right|done]|].
    set (w := if cbs v then read_cb d v else v).
    assert (reach v w) as Hrw by (unfold w; case_match; [by apply Hread|split; [by right|apply tls_evolves_refl]]).
    clearbody w. destruct (reach_pumping _ _ Hf2 Hp2 Hrw) as (Hf3 & Hc3 & Hp3).
    pose proof (ev_unread _ _ (proj2 Hrw)) as Hle3.
    destruct (IH w Hf3 Hc3 Hp3) as (s' & E & Hr'); [rewrite Hx in Hle2; specialize (Hdec En); lia|].
    exists s'. split; [exact E|].
    eapply reach_trans; [|exact Hr']. eapply tls_evolves_trans; [exact Hev2|exact (proj2 Hrw)]. }
  all: destruct (n =? 0).
  1,3: destruct (is_handshake (state u)); eexists; (split; [reflexivity|]);
    (eapply reach_trans; [exact Hev|]); [apply tail_reach; [done|by apply fail_any_tail]|by apply at_eof_reach].
  all: destruct (SSL_get_error (ssl u) n).
  2,7: destruct (is_handshake (state u));
    [|eexists; split; [reflexivity|]; split; [by right|done]];
    pose proof (promote_if_done_reach u Hfv Hu) as Hr; destruct (promote_if_done u) as [go v]; cbn [snd] in Hr;
    destruct go; eexists; (split; [reflexivity|]); (eapply reach_trans; [exact Hev|]); [|done];
    (eapply reach_trans; [exact (proj2 Hr)|]); apply pump_write_reach; exact (proj1 Hr).
  all: eexists; split; [reflexivity|]; eapply reach_trans; [exact Hev|].
  2,6: apply pump_write_reach; by right.
  2,5: by apply at_eof_reach.
  all: apply tail_reach; [done|by apply fail_any_tail].
Qed.

Lemma pump_read_reach s : freed s = false -> core s -> reach s (pump_read s).
Proof.
  intros Hf Hc. unfold pump_read. destruct (pumping_read s) eqn:Hp; [split; [by right|apply tls_evolves_refl]|].
  set (u := s <| pumping_read := true |>). assert (core u) as Hu by same_core Hc.
  assert (reach u (pump_read_impl u)) as Hr.
  { unfold pump_read_impl. destruct (is_closed (state u)); [split; [by right|apply tls_evolves_refl]|].
    destruct (pump_read_n_reach (unread (ssl u)) u Hf Hu eq_refl (le_n _)) as (s' & -> & ?). done. }
  assert (freed u = false /\ pumping_read u = true /\ accepted u = accepted s /\ close_sent u = close_sent s /\
    state u = state s /\ broken u = broken s /\ ssl u = ssl s) as (Hfu & Hpu & E1 & E2 & E3 & E4 & E5) by done.
  clearbody u. cbv zeta.
  destruct (reach_pumping _ _ Hfu Hpu Hr) as (Hf2 & Hc2 & Hp2). destruct Hr as [_ Hr].
  set (v := pump_read_impl u) in *. clearbody v. rewrite Hf2.
  apply reach_trans with (v <| pumping_read := false |>).
  { destruct Hr. constructor; cbn; rewrite <- ?E1, <- ?E2, <- ?E3, <- ?E4, <- ?E5; auto; congruence. }
  assert (core (v <| pumping_read := false |>)) as Hv by same_core Hc2.
  destruct (_ && _); [apply do_free_reach; [by right|done]|split; [by right|apply tls_evolves_refl]].
Qed.

Lemma tail_kept s s' : freed s = false -> tail s s' -> kept s s'.
Proof. intros. by apply reach_kept, tail_reach. Qed.

Lemma kept_same s : core s -> kept s s.
Proof. intros. split; [by right|done]. Qed.

Lemma received_ok nread data s : freed s = false -> core s -> kept s (received nread data s).
Proof.
  intros Hf Hc. unfold received. destruct (bio_write_law (ssl s) data) as [He Hp].
  destruct (0 <? nread).
  { pose proof (core_ssl s _ Hc He Hp) as Hu. set (u := s <| ssl := BIO_write (ssl s) data |>) in *.
    destruct (pump_read_reach u Hf Hu) as [? Hr].
    split; [done|]. apply (ev_pump _ _ Hr). }
  destruct (nread <? 0); [apply tail_kept; [done|by apply fail_any_tail]|by apply kept_same].
Qed.

Lemma on_read_ok nread data s : freed s = false -> core s -> kept s (on_read nread data s).
Proof.
  intros Hf Hc. unfold on_read.
  destruct (nread =? UV_EOF); [by apply reach_kept, at_eof_reach|by apply received_ok].
Qed.

Lemma dtls_timer_cb_ok s : freed s = false -> core s -> kept s (dtls_timer_cb s).
Proof.
  intros Hf Hc. unfold dtls_timer_cb. destruct (is_closed (state s)); [by apply kept_same|].
  destruct (DTLSv1_get_timeout (ssl s)) as [tv|].
  - set (u := if (tv.1 =? 0) && (tv.2 =? 0) then _ else s).
    assert (kept s u) as [Hu Hp].
    { unfold u. destruct (_ && _); [|by apply kept_same].
      destruct (timeout_law (ssl s)) as [He Ht].
      destruct (pump_write_reach _ (or_intror (core_ssl s _ Hc He Ht))) as [? Hr].
      split; [done|]. apply (ev_pump _ _ Hr). }
    clearbody u. cbv zeta. destruct (freed u) eqn:Efu; [split; [by left|done]|]. destruct (is_closed (state u)); [done|].
    split; [|done]. destruct Hu as [?|Hu]; [by left|right; same_core Hu].
  - case_match; (split; [right; same_core Hc|done]).
Qed.

Lemma tls_handshake_ok s : freed s = false -> core s -> state s = TM_SS_STATE_HANDSHAKE ->
  kept s (tm_ssl_stream_handshake s).
Proof.
  intros Hf Hc Hs. unfold tm_ssl_stream_handshake.
  set (q := if is_server s then SSL_accept (ssl s) else SSL_connect (ssl s)).
  assert (core (s <| ssl := q.2 |>)) as Hu.
  { unfold q. destruct (is_server s); apply core_ssl; try done; apply accept_law || apply connect_law. }
  destruct q as [r x]. cbn [snd] in Hu. unfold handshake_result.
  set (u := s <| ssl := x |>) in *. assert (freed u = false) as Hfu by done.
  assert (state u = TM_SS_STATE_HANDSHAKE) as Hsu by done.
  assert (pumping_read u = pumping_read s) as Hpu by done. clearbody u. unfold kept. rewrite <- Hpu.
  destruct (r =? 1).
  { apply reach_kept. destruct (SSL_is_init_finished (ssl u)); [by apply promote_open_reach|].
    apply pump_write_reach. by right. }
  destruct (ssl_want _); [|apply tail_kept; [done|by apply fail_any_tail]].
  destruct (pump_write_reach u (or_intror Hu)) as [Hi Hr]. cbv zeta. pose proof (ev_pump _ _ Hr) as Hp.
  set (w := pump_write u) in *. clearbody w. destruct (freed w) eqn:Efr; [split; [by left|done]|].
  destruct (is_dtls w); [|split; [destruct Hi as [?|Hi]; [congruence|by right]|done]]. split; [|done]. destruct Hi as [?|Hi]; [by left|right; same_core Hi].
Qed.

Lemma tls_start_ok s : core s -> kept s (tm_ssl_stream_start s).
Proof.
  intros Hc. unfold tm_ssl_stream_start. case_match; [by apply kept_same|]. split; [right; same_core Hc|done].
Qed.

Lemma pause_ok s : core s -> kept s (tm_ssl_stream_pause_read s).
Proof.
  intros Hc. unfold tm_ssl_stream_pause_read. case_match; (split; [right; same_core Hc|done]).
Qed.

Lemma tls_resume_ok s : freed s = false -> core s -> kept s (tm_ssl_stream_resume_read s).
Proof.
  intros Hf Hc. unfold tm_ssl_stream_resume_read.
  assert (core (resume_flags s).2 /\ freed (resume_flags s).2 = false /\
    pumping_read (resume_flags s).2 = pumping_read s) as (Hu & Hfu & Hp).
  { unfold resume_flags. repeat case_match; cbn [snd]; split_and!; try done; same_core Hc. }
  destruct (resume_flags s) as [[] u]; cbn [snd] in *; unfold kept; rewrite <- Hp;
    [by apply reach_kept, pump_read_reach|by apply kept_same].
Qed.

Lemma close_ok s : inv s -> reach s (tm_ssl_stream_close s).
Proof.
  intros Hi. unfold tm_ssl_stream_close. destruct (freed s) eqn:Hf; [split; [by left|evo]|].
  destruct Hi as [?|Hc]; [congruence|].
  destruct (is_closed (state s)); [split; [by right|apply tls_evolves_refl]|].
  set (u := s <| state := TM_SS_STATE_CLOSED |> <| cbs := false |> <| hs_cb := false |>).
  set (v := if read_started u then u <| armed := false |> else u).
  assert (core v /\ evolves s v /\ freed v = false /\ inflight v = inflight s /\
    pumping_read v = pumping_read s) as (Hv & He & Hfv & Ev & Ep).
  { unfold v. case_match; split_and!; try done; try (by same_core Hc); evo. }
  clearbody v. cbv zeta. fold u. rewrite Ev, Ep. eapply reach_trans; [exact He|].
  destruct (inflight s || pumping_read s) eqn:E; [split; [right; same_core Hv|evo]|].
  zb. apply do_free_reach; [by right|]. rewrite Ep. apply E.
Qed.

(** *** The life of a stream *)

(** The calls of the owner and the events of the loop, between which no callback is
    running. *)
Inductive tls_step : tm_ssl_stream -> tm_ssl_stream -> Prop :=
  | step_start s : freed s = false -> tls_step s (tm_ssl_stream_start s)
  | step_handshake s : freed s = false -> state s = TM_SS_STATE_HANDSHAKE ->
      tls_step s (tm_ssl_stream_handshake s)
  | step_write s data : freed s = false -> tls_step s (tm_ssl_stream_write s data).2
  | step_shutdown s : freed s = false -> tls_step s (tm_ssl_stream_shutdown_send s)
  | step_pause s : freed s = false -> tls_step s (tm_ssl_stream_pause_read s)
  | step_resume s : freed s = false -> tls_step s (tm_ssl_stream_resume_read s)
  | step_close s : freed s = false -> tls_step s (tm_ssl_stream_close s)
  | step_done s status : freed s = false -> inflight s = true -> tls_step s (on_write_done s status)
  | step_read s nread data : freed s = false -> armed s = true -> tls_step s (on_read nread data s)
  | step_udp s nread data : freed s = false -> armed s = true -> tls_step s (on_udp_recv nread data s)
  | step_timer s : freed s = false -> timer s <> None -> tls_step s (dtls_timer_cb s)
  | step_timer_closed s : freed s = false -> freeing s = true -> tls_step s (dtls_timer_closed s).

Definition tls_run : tm_ssl_stream -> tm_ssl_stream -> Prop := rtc tls_step.

Lemma tls_step_kept s s' : tls_step s s' -> core s -> pumping_read s = false -> kept s s'.
Proof.
  intros Hst Hc Hp. destruct Hst.
  - by apply tls_start_ok.
  - by apply tls_handshake_ok.
  - apply reach_kept, write_reach. by right.
  - apply reach_kept, shutdown_send_reach. by right.
  - by apply pause_ok.
  - by apply tls_resume_ok.
  - apply reach_kept, close_ok. by right.
  - by apply reach_kept, on_write_done_reach.
  - by apply on_read_ok.
  - by apply received_ok.
  - by apply dtls_timer_cb_ok.
  - split; [by left|done].
Qed.

Lemma new_core dtls server x results : plaintext x = [] -> wire x = output x ->
  core (stream_new dtls server x results).
Proof.
  intros Hp Hw. constructor; try done.
  - cbn. by rewrite Hp.
Qed.

Lemma tls_run_ok s s' : tls_run s s' -> inv s -> pumping_read s = false -> inv s' /\ pumping_read s' = false.
Proof.
  induction 1 as [|s u s' Hst _ IH]; [done|]. intros Hi Hp.
  assert (freed s = false) as Hf by (by destruct Hst).
  destruct Hi as [?|Hc]; [congruence|].
  destruct (tls_step_kept _ _ Hst Hc Hp). apply IH; congruence || done.
Qed.

(** C7: A TLS stream, through any calls of its owner and any events, delivers what it
    accepted, in order.  While the object lives, the accepted bytes are those
    [SSL_write] took followed by those still queued (a drained stream has none); what OpenSSL produced is what
    the socket was given followed by the content of the write BIO, as long as no send
    failed; the close_notify comes after the last accepted byte; at most 256 KiB are
    queued; and OpenSSL's rules for [SSL_write] are kept: a call that has to be
    repeated is repeated with the same bytes, and none comes after the shutdown. *)
Theorem tls_fifo dtls server x results s :
  plaintext x = [] -> wire x = output x ->
  tls_run (stream_new dtls server x results) s -> freed s = false ->
  accepted s = plaintext (ssl s) ++ unsent s /\
  (broken s = false -> wire (ssl s) = sent s ++ output (ssl s)) /\
  (notified s = true -> accepted s = plaintext (ssl s) /\ close_sent s = true) /\
  (tm_ssl_stream_drained s = true -> accepted s = plaintext (ssl s)) /\
  blen (unsent s) <= TM_PQ_HIGH /\ pq_cap s <= 2 * TM_PQ_HIGH /\
  write_pq_total s = u64 (blen (accepted s)) /\ misuse s = false.
Proof.
  intros Hp Hw Hr Hf.
  destruct (tls_run_ok _ _ Hr (or_intror (new_core dtls server x results Hp Hw)) eq_refl) as [[?|Hc] _];
    [congruence|].
  pose proof (unsent_len s Hc) as Hl. pose proof Hc as []. split_and!; try done; try lia.
  - intros Hn. destruct (core_notify0 Hn) as [? E]. by rewrite core_fifo0, E, app_nil_r.
  - unfold tm_ssl_stream_drained. intros Hd. zb. destruct Hd as [Hd _].
    assert (unsent s = []) as E by (apply length_zero_iff_nil; unfold blen in Hl; lia).
    by rewrite core_fifo0, E, app_nil_r.
Qed.

End Callbacks.
(** A failing send tells the owner, which closes the stream from its error callback:
    the stream is closed already, so [tm_ssl_stream_close] returns at once.  No write
    is in flight any more, and the object is neither released nor marked for it. *)
Lemma send_error_leaks lo s status :
  freed s = false -> is_closed (state s) = false -> cbs s = true -> freeing s = false ->
  free_pending s = false -> status < 0 -> status <> UV_ECANCELED ->
  let s' := on_write_done lo tm_ssl_stream_close s status in
  freed s' = false /\ freeing s' = false /\ free_pending s' = false /\ inflight s' = false /\
  state s' = TM_SS_STATE_CLOSED /\ tm_ssl_stream_close s' = s'.
Proof.
  intros Hf Hs Hcb Hfr Hfp Hst Hne. unfold on_write_done.
  change (state (s <| inflight := false |>)) with (state s). rewrite Hs.
  assert ((status <? 0) && negb (status =? UV_ECANCELED) = true) as -> by (zb; done).
  unfold fail, finish_close. cbn. rewrite Hs, Hcb. unfold tm_ssl_stream_close. cbn. rewrite Hf. cbn.
  done.
Qed.

End Stream.
End Tls.

(** ** TLS as a leg *)

Module TlsLeg.
Import Tls.

Section Leg.
Context `{TLS}.

(** [struct tm_io_ssl]; [io_asked] is a ghost: the owner asked for the half-close. *)
Record tm_io_ssl := IoSsl { io_ssl : tm_ssl_stream; io_closed : bool; io_asked : bool }.
#[global] Instance eta_io_ssl : Eta tm_io_ssl := settable! IoSsl <io_ssl; io_closed; io_asked>.

(** The callbacks [ssl_low_cb] and [ssl_error_cb], noted: the owner runs them when the
    call returns. *)
Definition ssl_low_cb (s : tm_ssl_stream) : tm_ssl_stream := s <| upcalls ::= fun l => l ++ [UpLow] |>.
Definition ssl_error_cb (s : tm_ssl_stream) : tm_ssl_stream := s <| upcalls ::= fun l => l ++ [UpError] |>.

Definition ssl_start (t : tm_io_ssl) : tm_io_ssl := t <| io_ssl ::= tm_ssl_stream_start |>.

Definition ssl_write (t : tm_io_ssl) (data : bytes) : tm_status * list upcall * tm_io_ssl :=
  if io_closed t then (TM_ERR, [], t)
  else
    let '(st, s) := tm_ssl_stream_write ssl_low_cb ssl_error_cb (io_ssl t <| upcalls := [] |>) data in
    (st, upcalls s, t <| io_ssl := s |>).

Definition ssl_shutdown_send (t : tm_io_ssl) : list upcall * tm_io_ssl :=
  let s := tm_ssl_stream_shutdown_send ssl_low_cb ssl_error_cb (io_ssl t <| upcalls := [] |>) in
  (upcalls s, t <| io_ssl := s |> <| io_asked := true |>).

Definition ssl_pause_read (t : tm_io_ssl) : tm_io_ssl := t <| io_ssl ::= tm_ssl_stream_pause_read |>.
(** The data [pump_read] finds buffered are the next reads of the leg. *)
Definition ssl_resume_read (t : tm_io_ssl) : tm_io_ssl := t <| io_ssl ::= fun s => (resume_flags s).2 |>.

Definition ssl_write_available (t : tm_io_ssl) : bool := tm_ssl_stream_write_available (io_ssl t).
Definition ssl_pending (t : tm_io_ssl) : Z := tm_ssl_stream_pending (io_ssl t).
Definition ssl_drained (t : tm_io_ssl) : bool := tm_ssl_stream_drained (io_ssl t).
Definition ssl_open (t : tm_io_ssl) : bool := negb (io_closed t).
Definition ssl_close (t : tm_io_ssl) : tm_io_ssl :=
  if io_closed t then t else t <| io_closed := true |> <| io_ssl ::= tm_ssl_stream_close |>.

Lemma tls_good_note u : good_cb (fun s => s <| upcalls ::= fun l => l ++ [u] |>).
Proof.
  intros s Hf Hc. split; [right; destruct Hc; constructor; cbn; auto|constructor; cbn; auto].
Qed.

Definition skip (d : bytes) (s : tm_ssl_stream) : tm_ssl_stream := s.
Definition skip_eof (s : tm_ssl_stream) : tm_ssl_stream := s.

Lemma good_skip : good_cb skip_eof.
Proof. intros s Hf Hc. split; [by right|constructor; auto]. Qed.

(** What the stream leaves alone when its callbacks are only noted. *)
Record calm (s s' : tm_ssl_stream) : Prop := {
  calm_accepted : accepted s' = accepted s;
  calm_shut : close_sent s' = close_sent s;
  calm_state : state s' = state s \/ state s' = TM_SS_STATE_CLOSED;
  calm_freed : freed s' = freed s;
  calm_pump : pumping_read s' = pumping_read s;
  calm_pending : free_pending s' = free_pending s;
  calm_paused : read_paused s' = read_paused s;
  calm_started : read_started s' = read_started s;
}.

Lemma calm_refl s : calm s s.
Proof. constructor; auto. Qed.

Lemma tls_calm_trans s1 s2 s3 : calm s1 s2 -> calm s2 s3 -> calm s1 s3.
Proof.
  intros [] []. constructor; try congruence. destruct calm_state1 as [E|E]; [rewrite E; done|by right].
Qed.

Lemma tail_calm s s' : tail ssl_low_cb ssl_error_cb s s' -> calm s s' /\ core s'.
Proof.
  intros [u Hi Hc|u Hi Hc|u Hi Hc]; destruct Hi; (split; [constructor; cbn; congruence || auto|]);
    try done; destruct Hc; constructor; cbn; auto.
Qed.

(** An open leg, its handshake done; its stream may have failed. *)
Record leg_ok (t : tm_io_ssl) : Prop := {
  leg_core : core (io_ssl t);
  leg_live : freed (io_ssl t) = false;
  leg_done : is_handshake (state (io_ssl t)) = false;
  leg_idle : pumping_read (io_ssl t) = false;
  leg_free : free_pending (io_ssl t) = false;
  leg_started : read_started (io_ssl t) = true;
  leg_open : io_closed t = false;
  leg_asked : io_asked t = true -> close_sent (io_ssl t) = true \/ is_closed (state (io_ssl t)) = true;
}.

Definition leg_log (t : tm_io_ssl) : bytes := accepted (io_ssl t).
Definition leg_paused (t : tm_io_ssl) : bool := read_paused (io_ssl t).

Lemma leg_calm t s b : leg_ok t -> calm (io_ssl t) s -> core s ->
  (b = true -> io_asked t = true \/ close_sent s = true \/ is_closed (state s) = true) ->
  leg_ok (t <| io_ssl := s |> <| io_asked := b |>).
Proof.
  intros [] [] Hc Hb. constructor; cbn; try congruence; try done.
  - destruct calm_state0 as [-> | ->]; done.
  - intros E. destruct (Hb E) as [Ha|Ha]; [|done]. destruct (leg_asked0 Ha) as [Hx|Hx]; [left; congruence|right].
    by destruct calm_state0 as [-> | ->].
Qed.

Lemma ssl_write_law t d : leg_ok t ->
  match ssl_write t d with
  | (TM_OK, _, t') => leg_log t' = leg_log t ++ d /\ io_asked t = false
  | (_, ups, t') => leg_log t' = leg_log t /\ ups = []
  end /\
  leg_ok (ssl_write t d).2 /\ io_asked (ssl_write t d).2 = io_asked t /\
  leg_paused (ssl_write t d).2 = leg_paused t.
Proof.
  intros Hok. pose proof Hok as []. unfold ssl_write. rewrite leg_open0.
  set (u := io_ssl t <| upcalls := [] |>).
  assert (core u) as Hu by (destruct leg_core0; constructor; cbn; auto).
  assert (calm (io_ssl t) u) as Hcu by (constructor; auto).
  assert (upcalls u = [] /\ state u = state (io_ssl t) /\ close_sent u = close_sent (io_ssl t) /\
    accepted u = accepted (io_ssl t) /\ freed u = false) as (Eu & Es & Ecl & Ea & Ef) by done. clearbody u.
  destruct (write_cases ssl_low_cb ssl_error_cb u d Ef Hu)
    as [[_ ->]|[(_ & _ & ->)|(Ho & Hcl & v & -> & Hv & Hfv & Hi)]].
  - cbn [snd]. split; [split; done|]. split; [|split; [done|]].
    + by apply (leg_calm t u (io_asked t)); auto.
    + apply Hcu.
  - cbn [snd]. split; [split; done|]. split; [|split; [done|]].
    + apply (leg_calm t (u <| above_low := true |>) (io_asked t)); auto.
      * eapply tls_calm_trans; [exact Hcu|constructor; auto].
      * destruct Hu; constructor; cbn; auto.
    + apply Hcu.
  - cbn [snd].
    destruct (tail_calm _ _ (pump_write_tail ssl_low_cb ssl_error_cb v Hfv Hv)) as [Hp Hcp].
    set (w := pump_write ssl_low_cb ssl_error_cb v) in *. clearbody w.
    assert (accepted w = accepted (io_ssl t) ++ d) as Hacc.
    { rewrite (calm_accepted _ _ Hp), (in_accepted _ _ Hi). cbn. by rewrite Ea. }
    assert (close_sent w = close_sent (io_ssl t)) as Hcs.
    { rewrite (calm_shut _ _ Hp), (in_shut _ _ Hi). done. }
    split; [split; [done|]|split; [|split; [done|]]].
    + destruct (io_asked t) eqn:E; [|done]. destruct (leg_asked0 eq_refl) as [Hx|Hx]; [congruence|].
      rewrite <- Es in Hx. by destruct (state u).
    + destruct Hp, Hi, Hcu. cbn in *. constructor; cbn; try congruence; try done.
      * destruct calm_state0 as [-> | ->]; [|done]. destruct in_state0 as [-> | ->]; [|done]. by rewrite Es.
      * intros E. destruct (leg_asked0 E) as [Hx|Hx]; [congruence|]. rewrite <- Es in Hx.
        right. by destruct (state u).
    + unfold leg_paused. cbn. destruct Hp, Hi, Hcu. cbn in *. congruence.
Qed.

Lemma ssl_shutdown_law t : leg_ok t ->
  leg_log (ssl_shutdown_send t).2 = leg_log t /\ io_asked (ssl_shutdown_send t).2 = true /\
  leg_ok (ssl_shutdown_send t).2 /\ leg_paused (ssl_shutdown_send t).2 = leg_paused t.
Proof.
  intros Hok. pose proof Hok as []. unfold ssl_shutdown_send. cbn [snd].
  set (u := io_ssl t <| upcalls := [] |>).
  assert (core u) as Hu by (destruct leg_core0; constructor; cbn; auto).
  assert (calm (io_ssl t) u) as Hcu by (constructor; auto).
  assert (freed u = false /\ is_handshake (state u) = false) as [Ef Eh] by done. clearbody u.
  destruct (shutdown_send_tail ssl_low_cb ssl_error_cb u Ef Hu) as [[E ->]|(Ho & Hcl & Ht)].
  - split_and!; try apply Hcu; try done. apply leg_calm; try done. intros _. right.
    destruct (state u), (close_sent u); auto; done.
  - apply tail_calm in Ht as [Ht Hc]. set (v := tm_ssl_stream_shutdown_send _ _ u) in *. clearbody v.
    destruct Ht, Hcu. cbn in *. split_and!; try done; [unfold leg_log; cbn; congruence| |unfold leg_paused; cbn; congruence].
    constructor; cbn; try congruence; try done.
    + destruct calm_state0 as [-> | ->]; done.
    + by left.
Qed.

Lemma leg_flags t s : leg_ok t -> core s -> accepted s = accepted (io_ssl t) ->
  close_sent s = close_sent (io_ssl t) -> state s = state (io_ssl t) -> freed s = false ->
  pumping_read s = false -> free_pending s = false -> read_started s = true ->
  leg_ok (t <| io_ssl := s |>) /\ leg_log (t <| io_ssl := s |>) = leg_log t.
Proof.
  intros [] Hc Ea Ecl Es Hf Hp Hfp Hr. split; [|done]. constructor; cbn; try done; by rewrite ?Es, ?Ecl.
Qed.

Lemma ssl_pause_law t : leg_ok t ->
  leg_log (ssl_pause_read t) = leg_log t /\ io_asked (ssl_pause_read t) = io_asked t /\
  leg_ok (ssl_pause_read t) /\ leg_paused (ssl_pause_read t) = true.
Proof.
  intros Hok. pose proof Hok as []. unfold ssl_pause_read, tm_ssl_stream_pause_read. cbn.
  rewrite leg_started0. cbn. destruct (is_closed _); split_and!; try done;
    apply leg_flags; try done; destruct leg_core0; constructor; cbn; auto.
Qed.

Lemma ssl_resume_law t : leg_ok t ->
  leg_log (ssl_resume_read t) = leg_log t /\ io_asked (ssl_resume_read t) = io_asked t /\
  leg_ok (ssl_resume_read t) /\ leg_paused (ssl_resume_read t) = false.
Proof.
  intros Hok. pose proof Hok as []. unfold ssl_resume_read, resume_flags. cbn.
  destruct (read_paused (io_ssl t)) eqn:Ep; cbn.
  - rewrite leg_started0. cbn. destruct (is_closed _); cbn; split_and!; try done;
      apply leg_flags; try done; destruct leg_core0; constructor; cbn; auto.
  - destruct t. done.
Qed.

(** *** What the transport does by itself *)

(** The read loop of a stream whose callbacks are only noted. *)
Lemma pump_read_n_calm fuel : forall s, freed s = false -> core s -> pumping_read s = true ->
  is_handshake (state s) = false ->
  from_option (fun s' => calm s s' /\ core s') True
    (pump_read_n ssl_low_cb ssl_error_cb skip_eof skip_eof skip fuel s).
Proof.
  assert (forall e s, core s -> calm s (fail ssl_error_cb e s) /\ core (fail ssl_error_cb e s)) as Hfail.
  { intros e s Hc. apply tail_calm, fail_any_tail; apply tls_good_note || done. }
  assert (forall s, freed s = false -> core s ->
    calm s (pump_write ssl_low_cb ssl_error_cb s) /\ core (pump_write ssl_low_cb ssl_error_cb s)) as Hpump.
  { intros s Hf Hc. by apply tail_calm, pump_write_tail. }
  induction fuel as [|fuel IH]; intros s Hf Hc Hp Hh; cbn [pump_read_n].
  all: destruct (read_paused s); [by split; [apply calm_refl|]|].
  all: pose proof (read_law (ssl s)) as (He & Hpl & _); destruct (SSL_read (ssl s)) as [[n d] x];
    cbn [fst snd] in *; pose proof (core_ssl s x Hc He Hpl) as Hu; set (u := s <| ssl := x |>) in *;
    assert (calm s u) as Hsu by (constructor; auto);
    assert (freed u = false /\ pumping_read u = true /\ state u = state s) as (Hfu & Hpu & Esu) by done; clearbody u.
  all: destruct (0 <? n); [try done|].
  2: { assert (promote_if_done skip_eof u = (true, u)) as -> by (unfold promote_if_done; by rewrite Esu, Hh).
    cbn [negb].
    assert ((if cbs u then skip d u else u) = u) as -> by by destruct (cbs u).
    specialize (IH u Hfu Hu Hpu ltac:(by rewrite Esu)).
    destruct (pump_read_n _ _ _ _ _ _ u); [|done]. cbn in *. destruct IH. split; [by eapply tls_calm_trans|done]. }
  all: rewrite ?Esu, ?Hh; destruct (n =? 0); cbn [from_option];
    [unfold at_eof, skip_eof; destruct (cbs u); split; done|].
  all: destruct (SSL_get_error (ssl u) n); cbn [from_option];
    try (split; done); try (unfold at_eof, skip_eof; destruct (cbs u); split; done).
  all: try (destruct (Hfail TM_ERR_TLS u Hu); split; [by eapply tls_calm_trans|done]).
  all: destruct (Hpump u Hfu Hu); split; [by eapply tls_calm_trans|done].
Qed.

Definition leg_complete (s : tm_ssl_stream) (status : Z) : tm_ssl_stream :=
  on_write_done ssl_low_cb ssl_error_cb s status.
Definition leg_read (s : tm_ssl_stream) (nread : Z) (data : bytes) : tm_ssl_stream :=
  on_read ssl_low_cb ssl_error_cb skip_eof skip_eof skip nread data s.

(** Completions of sends and reads from the socket; the bytes read are the reads of
    the leg. *)
Inductive leg_moves (t : tm_io_ssl) : tm_io_ssl -> Prop :=
  | move_done status : inflight (io_ssl t) = true -> is_closed (state (io_ssl t)) = false ->
      leg_moves t (t <| io_ssl := leg_complete (io_ssl t) status |>)
  | move_read nread data : armed (io_ssl t) = true ->
      leg_moves t (t <| io_ssl := leg_read (io_ssl t) nread data |>).

Lemma leg_complete_calm s status : freed s = false -> core s -> is_closed (state s) = false ->
  calm s (leg_complete s status) /\ core (leg_complete s status).
Proof.
  intros Hf Hc Hs. unfold leg_complete, on_write_done. set (u := s <| inflight := false |>).
  assert (core u) as Hu by (destruct Hc; constructor; cbn; auto).
  assert (calm s u) as Hsu by (constructor; auto).
  assert (freed u = false /\ is_closed (state u) = false) as [Hfu Hs'] by done. clearbody u. rewrite Hs'.
  destruct (_ && _).
  { destruct (tail_calm (u <| broken := true |>) (fail ssl_error_cb TM_ERR_IO (u <| broken := true |>))) as [Ht ?].
    - apply fail_any_tail; try apply tls_good_note. destruct Hu; constructor; cbn; auto. done.
    - split; [|done]. eapply tls_calm_trans; [exact Hsu|]. eapply tls_calm_trans; [|exact Ht]. constructor; auto. }
  destruct (tail_calm _ _ (pump_write_tail ssl_low_cb ssl_error_cb u Hfu Hu)) as [Hp Hcp]. cbv zeta.
  set (v := pump_write _ _ u) in *. clearbody v. pose proof (calm_freed _ _ Hp) as Hfv. rewrite Hfv, Hfu.
  pose proof (tls_calm_trans _ _ _ Hsu Hp) as Hsv.
  destruct (shutdown_pending v && _) eqn:E; [|done]. zb. destruct E as [E _].
  destruct (tail_calm _ _ (try_shutdown_tail ssl_low_cb ssl_error_cb v ltac:(congruence) Hcp (core_pend _ Hcp E))).
  split; [by eapply tls_calm_trans|done].
Qed.

Lemma leg_read_calm s nread data : freed s = false -> core s -> is_handshake (state s) = false ->
  pumping_read s = false -> free_pending s = false ->
  calm s (leg_read s nread data) /\ core (leg_read s nread data).
Proof.
  intros Hf Hc Hh Hp Hfp. unfold leg_read, on_read, at_eof, skip_eof at 1.
  destruct (nread =? UV_EOF); [destruct (cbs s); split; done || apply calm_refl|]. unfold received.
  destruct (0 <? nread); [|destruct (nread <? 0); [|split; [apply calm_refl|done]]].
  2: { apply tail_calm, fail_any_tail; apply tls_good_note || done. }
  destruct (bio_write_law (ssl s) data) as [He Hpl]. pose proof (core_ssl s _ Hc He Hpl) as Hu.
  set (u := s <| ssl := BIO_write (ssl s) data |>) in *. assert (calm s u) as Hsu by (constructor; auto).
  assert (freed u = false /\ is_handshake (state u) = false /\ pumping_read u = false /\ free_pending u = false)
    as (Hfu & Hhu & Hpu & Hfpu) by done. clearbody u. unfold pump_read. rewrite Hpu.
  set (v := u <| pumping_read := true |>). assert (core v) as Hv by (destruct Hu; constructor; cbn; auto).
  assert (calm v (pump_read_impl ssl_low_cb ssl_error_cb skip_eof skip_eof skip v) /\
    core (pump_read_impl ssl_low_cb ssl_error_cb skip_eof skip_eof skip v)) as [Hw Hcw].
  { unfold pump_read_impl. destruct (is_closed (state v)); [by split; [apply calm_refl|]|].
    pose proof (pump_read_n_calm (unread (ssl v)) v Hfu Hv eq_refl Hhu) as Hx.
    destruct (pump_read_n _ _ _ _ _ _ v); cbn in *; [done|]. split; [apply calm_refl|done]. }
  cbv zeta. set (w := pump_read_impl _ _ _ _ _ v) in *. clearbody w.
  pose proof (calm_freed _ _ Hw) as E1. pose proof (calm_pending _ _ Hw) as E2. cbn in E1, E2.
  rewrite E1, Hfu. cbn. rewrite E2, Hfpu. cbn [andb].
  split; [|destruct Hcw; constructor; cbn; auto].
  destruct Hsu, Hw. cbn in *. constructor; cbn; try congruence. destruct calm_state1 as [-> | ->]; auto.
Qed.

Lemma ssl_moves_law t t' : leg_moves t t' -> leg_ok t ->
  leg_log t' = leg_log t /\ io_asked t' = io_asked t /\ leg_ok t' /\ leg_paused t' = leg_paused t.
Proof.
  intros Hm Hok. pose proof Hok as [].
  assert (exists s, t' = t <| io_ssl := s |> /\ calm (io_ssl t) s /\ core s) as (s & -> & Hs & Hc).
  { destruct Hm; eexists; (split; [reflexivity|]); [by apply leg_complete_calm|by apply leg_read_calm]. }
  split_and!; [apply Hs|done| |apply Hs]. by apply (leg_calm t s (io_asked t)); auto.
Qed.

(** A leg that has just finished its handshake. *)
Definition leg_fresh (t : tm_io_ssl) : Prop :=
  leg_ok (ssl_start t) /\ leg_log t = [] /\ io_asked t = false /\ leg_paused t = false.

#[global] Instance tls_leg : TmIo tm_io_ssl.
Proof.
  refine {| io_start := ssl_start; io_write := ssl_write; io_shutdown_send := ssl_shutdown_send;
            io_pause_read := ssl_pause_read; io_resume_read := ssl_resume_read;
            io_drained := ssl_drained; io_write_total := fun t => tm_ssl_stream_write_total (io_ssl t);
            io_log := leg_log; io_shut := io_asked; io_paused := leg_paused;
            io_ok := leg_ok; io_fresh := leg_fresh; io_moves := leg_moves |}.
  - intros t (Hok & Hl & Ha & Hp). split; [done|]. revert Hl Hp.
    unfold leg_log, leg_paused, ssl_start, tm_ssl_stream_start. cbn. destruct (read_started _); done.
  - intros t Hok. pose proof Hok as []. unfold ssl_start, tm_ssl_stream_start. cbn. rewrite leg_started0.
    by destruct t.
  - apply ssl_write_law.
  - apply ssl_shutdown_law.
  - apply ssl_pause_law.
  - apply ssl_resume_law.
  - apply ssl_moves_law.
Defined.

End Leg.
End TlsLeg.

(** ** Legs of both transports *)

Module Dispatch.
Import Tls TlsLeg.

Section Ops.
Context `{TLS}.

(** [tm_io] with its [kind]; the functions below are the table [ops] behind
    [io_ops]. *)
Inductive tm_io := TM_IO_KIND_TCP (t : Tcp.tm_io_tcp) | TM_IO_KIND_SSL (t : tm_io_ssl).

Definition tm_io_start (i : tm_io) : tm_io :=
  match i with
  | TM_IO_KIND_TCP t => TM_IO_KIND_TCP (io_start t)
  | TM_IO_KIND_SSL t => TM_IO_KIND_SSL (io_start t)
  end.

Definition tm_io_write (i : tm_io) (data : bytes) : tm_status * list upcall * tm_io :=
  match i with
  | TM_IO_KIND_TCP t => let '(st, ups, t) := io_write t data in (st, ups, TM_IO_KIND_TCP t)
  | TM_IO_KIND_SSL t => let '(st, ups, t) := io_write t data in (st, ups, TM_IO_KIND_SSL t)
  end.

Definition tm_io_shutdown_send (i : tm_io) : list upcall * tm_io :=
  match i with
  | TM_IO_KIND_TCP t => let '(ups, t) := io_shutdown_send t in (ups, TM_IO_KIND_TCP t)
  | TM_IO_KIND_SSL t => let '(ups, t) := io_shutdown_send t in (ups, TM_IO_KIND_SSL t)
  end.

Definition tm_io_pause_read (i : tm_io) : tm_io :=
  match i with
  | TM_IO_KIND_TCP t => TM_IO_KIND_TCP (io_pause_read t)
  | TM_IO_KIND_SSL t => TM_IO_KIND_SSL (io_pause_read t)
  end.

Definition tm_io_resume_read (i : tm_io) : tm_io :=
  match i with
  | TM_IO_KIND_TCP t => TM_IO_KIND_TCP (io_resume_read t)
  | TM_IO_KIND_SSL t => TM_IO_KIND_SSL (io_resume_read t)
  end.

Definition tm_io_drained (i : tm_io) : bool :=
  match i with TM_IO_KIND_TCP t => io_drained t | TM_IO_KIND_SSL t => io_drained t end.
Definition tm_io_write_total (i : tm_io) : Z :=
  match i with TM_IO_KIND_TCP t => io_write_total t | TM_IO_KIND_SSL t => io_write_total t end.
Definition tm_io_is_tls (i : tm_io) : bool :=
  match i with TM_IO_KIND_TCP _ => false | TM_IO_KIND_SSL _ => true end.

Definition any_log (i : tm_io) : bytes :=
  match i with TM_IO_KIND_TCP t => io_log t | TM_IO_KIND_SSL t => io_log t end.
Definition any_shut (i : tm_io) : bool :=
  match i with TM_IO_KIND_TCP t => io_shut t | TM_IO_KIND_SSL t => io_shut t end.
Definition any_paused (i : tm_io) : bool :=
  match i with TM_IO_KIND_TCP t => io_paused t | TM_IO_KIND_SSL t => io_paused t end.
Definition any_ok (i : tm_io) : Prop :=
  match i with TM_IO_KIND_TCP t => io_ok t | TM_IO_KIND_SSL t => io_ok t end.
Definition any_fresh (i : tm_io) : Prop :=
  match i with TM_IO_KIND_TCP t => io_fresh t | TM_IO_KIND_SSL t => io_fresh t end.
Definition any_moves (i i' : tm_io) : Prop :=
  match i, i' with
  | TM_IO_KIND_TCP t, TM_IO_KIND_TCP t' => io_moves t t'
  | TM_IO_KIND_SSL t, TM_IO_KIND_SSL t' => io_moves t t'
  | _, _ => False
  end.

(** What holds for every leg holds for every mixture of raw and TLS legs. *)
#[global] Instance any_leg : TmIo tm_io.
Proof.
  refine {| io_start := tm_io_start; io_write := tm_io_write; io_shutdown_send := tm_io_shutdown_send;
            io_pause_read := tm_io_pause_read; io_resume_read := tm_io_resume_read;
            io_drained := tm_io_drained; io_write_total := tm_io_write_total;
            io_log := any_log; io_shut := any_shut; io_paused := any_paused;
            io_ok := any_ok; io_fresh := any_fresh; io_moves := any_moves |}.
  - intros [t|t]; apply io_fresh_law.
  - intros [t|t]; apply io_start_law.
  - intros [t|t] d Hok; pose proof (io_write_law t d Hok) as Hl; unfold tm_io_write;
      destruct (io_write t d) as [[st ups] t']; destruct st; exact Hl.
  - intros [t|t] Hok; pose proof (io_shutdown_law t Hok) as Hl; unfold tm_io_shutdown_send;
      destruct (io_shutdown_send t) as [ups t']; exact Hl.
  - intros [t|t]; apply io_pause_law.
  - intros [t|t]; apply io_resume_law.
  - intros [t|t] [t'|t'] Hm; try done; by apply io_moves_law.
Defined.

End Ops.
End Dispatch.

(** ** A concrete engine *)

Module TlsSample.
Import Tls.

(** A connection that encrypts nothing: a record is its length and its bytes.  The
    first [e_busy] writes have to be repeated. *)
Record engine := Engine {
  e_plain : bytes; e_wire : bytes; e_out : bytes; e_in : list bytes; e_busy : nat; e_done : bool;
}.

Definition emit (c : bytes) (x : engine) : engine :=
  Engine (e_plain x) (e_wire x ++ c) (e_out x ++ c) (e_in x) (e_busy x) (e_done x).
Definition engine_write (x : engine) (d : bytes) : Z * engine :=
  match e_busy x with
  | S n => (-1, Engine (e_plain x) (e_wire x) (e_out x) (e_in x) n (e_done x))
  | O => (blen d, emit (blen d :: d) (Engine (e_plain x ++ d) (e_wire x) (e_out x) (e_in x) 0 (e_done x)))
  end.
Definition engine_read (x : engine) : Z * bytes * engine :=
  match e_in x with
  | [] => (-1, [], x)
  | d :: r => (blen d, d, Engine (e_plain x) (e_wire x) (e_out x) r (e_busy x) (e_done x))
  end.
Definition engine_hello (x : engine) : Z * engine :=
  (1, emit [22] (Engine (e_plain x) (e_wire x) (e_out x) (e_in x) (e_busy x) true)).
Definition engine_recv (x : engine) (d : bytes) : engine :=
  Engine (e_plain x) (e_wire x) (e_out x) (e_in x ++ [d]) (e_busy x) (e_done x).
Definition engine_send (x : engine) (n : Z) : bytes * engine :=
  (take (Z.to_nat n) (e_out x),
   Engine (e_plain x) (e_wire x) (drop (Z.to_nat n) (e_out x)) (e_in x) (e_busy x) (e_done x)).

#[export] Instance sample_tls : TLS.
Proof.
  refine {| SSL := engine; SSL_write := engine_write; SSL_read := engine_read;
            SSL_accept := engine_hello; SSL_connect := engine_hello; SSL_shutdown := emit [21];
            SSL_get_error := fun _ _ => SSL_ERROR_WANT_READ; SSL_is_init_finished := e_done;
            BIO_write := engine_recv; BIO_read := engine_send;
            DTLSv1_get_timeout := fun _ => None; DTLSv1_handle_timeout := fun x => x;
            plaintext := e_plain; wire := e_wire; output := e_out; unread := fun x => length (e_in x) |}.
  - intros x d. unfold engine_write. destruct (e_busy x); cbn.
    + split_and!; [eexists; split; reflexivity| |done|done]. f_equal. symmetry. apply take_ge. unfold blen. lia.
    + split_and!; [exists []; by rewrite !app_nil_r|by rewrite app_nil_r|pose proof (blen_nonneg d); lia|done].
  - intros x. unfold engine_read. destruct (e_in x) as [|d r] eqn:E; cbn; rewrite ?E; cbn;
      (split_and!; [exists []; by rewrite !app_nil_r|done|lia|lia]).
  - intros x. cbn. split; [by exists [22]|done].
  - intros x. cbn. split; [by exists [22]|done].
  - intros x. cbn. split_and!; [by exists [21]|done|done].
  - intros x. split; [exists []; by rewrite !app_nil_r|done].
  - intros x d. cbn. split; [exists []; by rewrite !app_nil_r|done].
  - intros x n. cbn. split_and!; try done. by rewrite take_drop.
Defined.

Definition fresh : engine := Engine [] [] [] [] 1 false.
Definition same (s : tm_ssl_stream) : tm_ssl_stream := s.

Lemma good_same : good_cb same.
Proof. intros s Hf Hc. split; [by right|constructor; auto]. Qed.

(** A client that shakes hands, writes twice (the first [SSL_write] has to be
    repeated), and ends the stream. *)
Definition opened : tm_ssl_stream :=
  tm_ssl_stream_handshake same same same (tm_ssl_stream_start (tm_ssl_stream_new false fresh [])).
Definition queued : tm_ssl_stream := (tm_ssl_stream_write same same opened [1; 2; 3]).2.
Definition ended : tm_ssl_stream :=
  tm_ssl_stream_shutdown_send same same (on_write_done same same queued 0).

Lemma ended_run : tls_run same same same same (fun _ => same) (stream_new false false fresh []) ended.
Proof.
  unfold ended, queued, opened, tm_ssl_stream_new.
  eapply rtc_l; [by apply step_start|]. eapply rtc_l; [by apply step_handshake|].
  eapply rtc_l; [by apply (step_write _ _ _ _ _ _ [1; 2; 3])|].
  eapply rtc_l; [by apply (step_done _ _ _ _ _ _ 0)|]. apply rtc_once. by apply step_shutdown.
Qed.

(** The close_notify, 21, follows the record of the three bytes. *)
Lemma ended_sent : sent ended = [22; 3; 1; 2; 3; 21] /\ notified ended = true.
Proof. split; reflexivity. Qed.

Lemma tls_fifo_witness :
  accepted ended = plaintext (ssl ended) ++ unsent ended /\ misuse ended = false.
Proof.
  pose proof (tls_fifo same same same same (fun _ => same) good_same good_same good_same good_same
    (fun _ => good_same) false false fresh [] ended eq_refl eq_refl ended_run eq_refl) as (H & _ & _ & _ & _ & _ & _ & H').
  exact (conj H H').
Defined.

(** An owner that closes the stream from its low-water callback makes
    [on_write_done] read the released object: [pump_write] runs the callback when the
    queue is empty, [tm_ssl_stream_close] releases the object because no write is in
    flight, and [on_write_done] goes on to test [shutdown_pending].  Here three bytes
    are accepted, a second write is refused as too long, which asks for the callback,
    and the two sends that carry the three bytes complete. *)
Theorem tls_write_done_use_after_free :
  let new := tm_ssl_stream_new false (Engine [] [] [] [] 0 false) [] in
  let s0 := tm_ssl_stream_handshake same same same (tm_ssl_stream_start new) in
  let s1 := (tm_ssl_stream_write tm_ssl_stream_close same s0 [1; 2; 3]).2 in
  let s2 := (tm_ssl_stream_write tm_ssl_stream_close same s1 (replicate 262144 0)).2 in
  let s3 := on_write_done tm_ssl_stream_close same s2 0 in
  let s4 := on_write_done tm_ssl_stream_close same s3 0 in
  freed s3 = false /\ inflight s3 = true /\ sent s3 = [22; 3; 1; 2; 3] /\ freed s4 = true /\ uaf s4 = true.
Proof. vm_compute. done. Qed.

End TlsSample.
