(* ===== verification/Relay.v ===== *)
(** * The stream relay

    src/broker/src/relay.c over legs of any transport (class [TmIo]).  A stream
    pairs the consumer leg A with the agent leg B.  The fields of [struct tm_stream]
    are grouped by direction: the record [dir] toward leg X holds

      leg = io_x, pend = pend_x (with pend_x_len its length), pend_cap = pend_x_cap,
      flushing = flushing_x, and of the other leg Y, which feeds it,
      src_eof = y_eof, src_fin = y_fin, src_paused = y_paused.

    The callbacks of the two legs differ only by exchanging A and B, except for
    reading, and are one definition each, used twice.  [up] is what runs when a leg
    calls back before its call returns; the recursion is tied in [upcall_n].  The
    cells of the tunnel and of the broker that a stream reaches through [st->tun]
    are the record [shared].

    Ghosts: [src_in] what the source has delivered, [base] what the leg had accepted
    when it was attached, [lost] that a flush threw bytes away, [uaf] that memory is
    used after it was released, [stuck] that the fuel of the model ran out. *)

From S2P Require Import Prelude.
From S2P Require Import Wire.
From S2P Require Import Io.

Inductive side := A | B.
#[global] Instance side_eq : EqDecision side.
Proof. solve_decision. Defined.

Definition other (s : side) : side := match s with A => B | B => A end.

Lemma other_other s : other (other s) = s.
Proof. by destruct s. Qed.

Section Relay.
Context {io : Type} `{TmIo io}.

Record dir := Dir {
  leg : option io;
  pend : bytes;
  pend_cap : Z;
  flushing : bool;
  src_eof : bool;
  src_fin : bool;
  src_paused : bool;
  src_in : bytes;
  base : bytes;
  lost : bool;
}.
#[global] Instance eta_dir : Eta dir :=
  settable! Dir <leg; pend; pend_cap; flushing; src_eof; src_fin; src_paused; src_in; base; lost>.

(** The counters of the tunnel and of the broker. *)
Record shared := Shared {
  tun_rx_bytes : Z;
  tun_tx_bytes : Z;
  rx_bytes_total : Z;
  tx_bytes_total : Z;
  streams_active : Z;
  stream_count : Z;
  stream_errors : Z;
}.
#[global] Instance eta_shared : Eta shared :=
  settable! Shared <tun_rx_bytes; tun_tx_bytes; rx_bytes_total; tx_bytes_total; streams_active;
    stream_count; stream_errors>.

(** A socket handle: absent, open or closing. *)
Inductive sock := NoSock | Open | Closing.

Record tm_stream := Stream {
  id : Z;
  to_a : dir;
  to_b : dir;
  sock_a : sock;
  sock_b : sock;
  timer_on : bool;          (* bind_timer runs *)
  timer_closing : bool;
  bound : bool;
  closing : bool;
  start_ms : Z;
  up_bytes : Z;
  down_bytes : Z;
  preq : bytes;
  preq_cap : Z;
  linked : bool;            (* member of tun->streams *)
  sh : shared;
  uaf : bool;
  stuck : bool;
}.
#[global] Instance eta_stream : Eta tm_stream :=
  settable! Stream <id; to_a; to_b; sock_a; sock_b; timer_on; timer_closing; bound; closing;
    start_ms; up_bytes; down_bytes; preq; preq_cap; linked; sh; uaf; stuck>.

Definition get (s : side) (r : tm_stream) : dir := match s with A => to_a r | B => to_b r end.
Definition mod_ (s : side) (f : dir -> dir) (r : tm_stream) : tm_stream :=
  match s with A => r <| to_a ::= f |> | B => r <| to_b ::= f |> end.

(** ** Closing *)

Definition uv_close_sock (k : sock) : sock := match k with Open => Closing | k => k end.

Definition stream_unlink (r : tm_stream) : tm_stream :=
  r <| linked := false |>
    <| sh ::= fun c => c <| streams_active ::= fun n => if 0 <? n then n - 1 else n |>
                         <| stream_count ::= fun n => n - 1 |> |>.

Definition tm_stream_close (r : tm_stream) : tm_stream :=
  if closing r then r
  else
    let r := r <| closing := true |> <| timer_on := false |> in
    let r := mod_ A (fun d => d <| leg := None |>) r in
    let r := mod_ B (fun d => d <| leg := None |>) r in
    let r := r <| sock_a ::= uv_close_sock |> <| sock_b ::= uv_close_sock |> in
    let r := stream_unlink r in
    let r := r <| sh ::= fun c => c <| stream_errors ::= fun n => u64 (n + 1) |> |> in
    r <| timer_closing := true |>.

(** [io && !tm_io_drained(io)] *)
Definition undrained (l : option io) : bool :=
  match l with Some i => negb (io_drained i) | None => false end.

Definition stream_maybe_close (r : tm_stream) : tm_stream :=
  if closing r || negb (src_eof (to_b r)) || negb (src_eof (to_a r)) then r
  else if undrained (leg (to_a r)) then r
  else if undrained (leg (to_b r)) then r
  else if negb (blen (pend (to_a r)) =? 0) || negb (blen (pend (to_b r)) =? 0) ||
          negb (blen (preq r) =? 0) then r
  else tm_stream_close r.

(** ** Calls on a leg, with the callbacks they run *)

Section Up.
Context (up : side -> upcall -> tm_stream -> tm_stream).

(** A leg the owner has closed calls back no more. *)
Definition run_up (s : side) (us : list upcall) (r : tm_stream) : tm_stream :=
  fold_left (fun r u => match leg (get s r) with Some _ => up s u r | None => r end) us r.

Definition leg_write (s : side) (data : bytes) (r : tm_stream) : tm_status * tm_stream :=
  match leg (get s r) with
  | None => (TM_ERR, r)
  | Some i => let '(st, us, i') := io_write i data in
              (st, run_up s us (mod_ s (fun d => d <| leg := Some i' |>) r))
  end.

Definition leg_shutdown (s : side) (r : tm_stream) : tm_stream :=
  match leg (get s r) with
  | None => r
  | Some i => let '(us, i') := io_shutdown_send i in
              run_up s us (mod_ s (fun d => d <| leg := Some i' |>) r)
  end.

Definition leg_pause (s : side) (r : tm_stream) : tm_stream :=
  mod_ s (fun d => d <| leg ::= fmap io_pause_read |>) r.
Definition leg_resume (s : side) (r : tm_stream) : tm_stream :=
  mod_ s (fun d => d <| leg ::= fmap io_resume_read |>) r.

(** [flush_pend] holds the leg it was given; the leg is gone when a callback closed
    it under the loop.  An accepted piece leaves at least one byte less, so that one
    round per queued byte is enough. *)
Fixpoint flush_loop (fuel : nat) (s : side) (r : tm_stream) : tm_stream :=
  match fuel with
  | O => r <| stuck := true |>
  | S fuel' =>
      let p := pend (get s r) in
      if blen p =? 0 then r
      else match leg (get s r) with
      | None => r <| uaf := true |>
      | Some _ =>
        let n := Z.to_nat (if blen p <? 65536 then blen p else 65536) in
        match leg_write s (take n p) r with
        | (TM_ERR_BUSY, r) => r
        | (TM_OK, r) =>
            if closing r then r <| uaf := true |>
            else
              let r := mod_ s (fun d => d <| pend ::= drop n |>) r in
              let r := if blen (pend (get s r)) =? 0 then mod_ s (fun d => d <| pend_cap := 0 |>) r
                       else r in
              flush_loop fuel' s r
        | (_, r) => mod_ s (fun d => d <| pend := [] |> <| pend_cap := 0 |> <| lost := true |>) r
        end
      end
  end.

Definition flush_pend (s : side) (r : tm_stream) : tm_stream :=
  if flushing (get s r) then r
  else
    let r := mod_ s (fun d => d <| flushing := true |>) r in
    let r := flush_loop (S (length (pend (get s r)))) s r in
    mod_ s (fun d => d <| flushing := false |>) r.

(** ** Callbacks common to the two legs *)

(** The tail of [relay_a_eof] and [relay_a_error] ([s] = B) and of their twins
    ([s] = A): the source of direction [s] has ended. *)
Definition source_ended (s : side) (r : tm_stream) : tm_stream :=
  match leg (get s r) with
  | None => stream_maybe_close r
  | Some _ =>
      let r := flush_pend s r in
      if negb (blen (pend (get s r)) =? 0) then stream_maybe_close r
      else
        let r := mod_ s (fun d => d <| src_fin := true |>) r in
        let r := leg_shutdown s r in
        stream_maybe_close r
  end.

Definition relay_eof (s : side) (r : tm_stream) : tm_stream :=
  if closing r then r
  else source_ended (other s) (mod_ (other s) (fun d => d <| src_eof := true |>) r).

Definition relay_error (s : side) (r : tm_stream) : tm_stream :=
  if closing r then r
  else
    let r := mod_ s (fun d => d <| leg := None |>) r in
    source_ended (other s) (mod_ (other s) (fun d => d <| src_eof := true |>) r).

Definition relay_low (s : side) (r : tm_stream) : tm_stream :=
  if closing r then r
  else match leg (get s r) with
  | None => stream_maybe_close r
  | Some _ =>
      let r := flush_pend s r in
      if negb (blen (pend (get s r)) =? 0) then stream_maybe_close r
      else
        let r := if src_eof (get s r) && negb (src_fin (get s r))
                 then leg_shutdown s (mod_ s (fun d => d <| src_fin := true |>) r)
                 else r in
        let r := if src_paused (get s r) && bool_decide (is_Some (leg (get (other s) r)))
                 then leg_resume (other s) (mod_ s (fun d => d <| src_paused := false |>) r)
                 else r in
        stream_maybe_close r
  end.

(** ** Reading *)

(** Queue [data] behind what already waits for leg [s], and stop its source. *)
Definition queue_pend (s : side) (data : bytes) (r : tm_stream) : tm_stream :=
  let d := get s r in
  let need := blen (pend d) + blen data in
  let cap := if pend_cap d <? need
             then grow (if pend_cap d =? 0 then 16384 else pend_cap d * 2) need
             else pend_cap d in
  let r := mod_ s (fun d => d <| pend ::= fun p => p ++ data |> <| pend_cap := cap |>) r in
  mod_ s (fun d => d <| src_paused := true |>) (leg_pause (other s) r).

(** Forward [data] to leg [s]: never past bytes that already wait. *)
Definition forward (s : side) (data : bytes) (r : tm_stream) : tm_stream :=
  let '(st, r) := if negb (blen (pend (get s r)) =? 0) then (TM_ERR_BUSY, r)
                  else leg_write s data r in
  match st with
  | TM_ERR_BUSY => queue_pend s data r
  | TM_OK => r
  | _ => tm_stream_close r
  end.

(** Queue [data] for a leg that is not there yet, and stop its source at the
    high-water mark. *)
Definition queue_preq (data : bytes) (r : tm_stream) : tm_stream :=
  let need := blen (preq r) + blen data in
  let cap := if preq_cap r <? need
             then grow (if preq_cap r =? 0 then 16384 else preq_cap r * 2) need
             else preq_cap r in
  let r := r <| preq ::= fun p => p ++ data |> <| preq_cap := cap |> in
  if TM_IO_HIGH_WATER <=? blen (preq r)
  then mod_ B (fun d => d <| src_paused := true |>) (leg_pause A r)
  else r.

Definition relay_a_read (data : bytes) (r : tm_stream) : tm_stream :=
  if closing r then r
  else
    let len := blen data in
    let r := r <| sh ::= fun c => c <| tun_rx_bytes ::= fun n => u64 (n + len) |>
                                    <| rx_bytes_total ::= fun n => u64 (n + len) |> |>
               <| up_bytes ::= fun n => u64 (n + len) |> in
    let r := mod_ B (fun d => d <| src_in ::= fun b => b ++ data |>) r in
    match leg (to_b r) with
    | None =>
        if src_eof (to_a r) then tm_stream_close r
        else if TM_IO_HIGH_WATER + 65536 <? blen (preq r) + len then tm_stream_close r
        else queue_preq data r
    | Some _ => forward B data r
    end.

Definition relay_b_read (data : bytes) (r : tm_stream) : tm_stream :=
  if closing r then r
  else
    let len := blen data in
    let r := r <| sh ::= fun c => c <| tun_tx_bytes ::= fun n => u64 (n + len) |>
                                    <| tx_bytes_total ::= fun n => u64 (n + len) |> |>
               <| down_bytes ::= fun n => u64 (n + len) |> in
    let r := mod_ A (fun d => d <| src_in ::= fun b => b ++ data |>) r in
    match leg (to_a r) with
    | None => tm_stream_close r
    | Some _ => forward A data r
    end.

(** ** Starting *)

(** [raw] is the TCP leg made on [sock_a] when there is no consumer leg yet. *)
Definition tm_stream_relay_start (raw : io) (r : tm_stream) : tm_stream :=
  if bound r then r
  else
    let r := r <| bound := true |> <| timer_on := false |> in
    let r := match leg (to_a r) with
             | None => mod_ A (fun d => d <| leg := Some (io_start raw) |> <| base := [] |>) r
             | Some _ => r
             end in
    let r := mod_ B (fun d => d <| leg ::= fmap io_start |>) r in
    let r := if negb (blen (preq r) =? 0) then
               let r := mod_ B (fun d => d <| pend := preq r |> <| pend_cap := preq_cap r |>) r in
               let r := r <| preq := [] |> <| preq_cap := 0 |> in
               flush_pend B r
             else r in
    if negb (blen (pend (to_b r)) =? 0)
    then mod_ B (fun d => d <| src_paused := true |>) (leg_pause A r)
    else if src_paused (to_b r)
    then leg_resume A (mod_ B (fun d => d <| src_paused := false |>) r)
    else r.

Definition tm_stream_relay_attach_agent (raw : io) (agent : io) (r : tm_stream) : tm_stream :=
  if closing r || bound r then r
  else
    let r := mod_ B (fun d => d <| leg := Some agent |> <| base := io_log agent |>) r in
    let r := r <| sock_b := Open |> in
    tm_stream_relay_start raw r.

End Up.

(** The handlers a leg calls back, to a depth of [n] nested callbacks. *)
Fixpoint upcall_n (n : nat) (s : side) (u : upcall) (r : tm_stream) : tm_stream :=
  match n with
  | O => r <| stuck := true |>
  | S n' => match u with
            | UpLow => relay_low (upcall_n n') s r
            | UpError => relay_error (upcall_n n') s r
            end
  end.

Definition relay_depth : nat := 10.
Abbreviation up := (upcall_n relay_depth).

(** ** The functions of relay.c *)

Definition relay_a_eof (r : tm_stream) : tm_stream := relay_eof up A r.
Definition relay_b_eof (r : tm_stream) : tm_stream := relay_eof up B r.
Definition relay_a_error (r : tm_stream) : tm_stream := relay_error up A r.
Definition relay_b_error (r : tm_stream) : tm_stream := relay_error up B r.
Definition relay_a_low (r : tm_stream) : tm_stream := relay_low up A r.
Definition relay_b_low (r : tm_stream) : tm_stream := relay_low up B r.

Definition tm_stream_ingest (data : bytes) (r : tm_stream) : tm_stream :=
  if closing r || (blen data =? 0) then r else relay_b_read up data r.

Definition tm_stream_ingest_a (data : bytes) (r : tm_stream) : tm_stream :=
  if closing r || (blen data =? 0) then r else relay_a_read up data r.

Definition stream_bind_timer_cb (r : tm_stream) : tm_stream :=
  if bound r then r else tm_stream_close r.

(** ** The invariant *)

Lemma get_mod s f r : get s (mod_ s f r) = f (get s r).
Proof. by destruct s. Qed.
Lemma get_mod_other s f r : get (other s) (mod_ s f r) = get (other s) r.
Proof. by destruct s. Qed.
Lemma get_mod_other' s f r : get s (mod_ (other s) f r) = get s r.
Proof. by destruct s. Qed.
Lemma closing_mod s f r : closing (mod_ s f r) = closing r.
Proof. by destruct s. Qed.
Lemma bound_mod s f r : bound (mod_ s f r) = bound r.
Proof. by destruct s. Qed.
Lemma preq_mod s f r : preq (mod_ s f r) = preq r.
Proof. by destruct s. Qed.
Hint Rewrite get_mod get_mod_other get_mod_other' closing_mod bound_mod preq_mod other_other : rl.

Lemma side_cases (P : side -> Prop) s : P s -> P (other s) -> forall t, P t.
Proof. by destruct s; intros ? ? []. Qed.

(** Prove a fact of both directions: of [s] first, then of the other. *)
Ltac by_side s :=
  match goal with |- forall t : side, @?P t => refine (side_cases P s _ _); cbv beta end.

(** The most a direction queues: the pre-bind queue. *)
Definition PEND_MAX : Z := TM_IO_HIGH_WATER + 65536.

Definition fifo (d : dir) : Prop :=
  forall i, leg d = Some i -> lost d = false -> io_log i ++ pend d = base d ++ src_in d.

(** One direction; [src] is the leg that feeds it. *)
Record dir_ok (d : dir) (src : option io) : Prop := {
  di_ok i : leg d = Some i -> io_ok i;
  di_fifo : flushing d = false -> fifo d;
  di_fin : src_fin d = true -> src_eof d = true /\ pend d = [];
  di_paused : flushing d = false -> pend d <> [] -> src_paused d = true;
  di_pleg i : src_paused d = true -> src = Some i -> io_paused i = true;
}.

Record live (r : tm_stream) : Prop := {
  li_dir s : dir_ok (get s r) (leg (get (other s) r));
  li_bound : bound r = true -> preq r = [];
  li_pre : bound r = false ->
    leg (to_b r) = None /\ pend (to_b r) = [] /\ src_fin (to_b r) = false /\
    flushing (to_b r) = false /\ preq r = src_in (to_b r) /\
    pend (to_a r) = [] /\ src_in (to_a r) = [] /\ blen (preq r) <= PEND_MAX /\
    src_paused (to_a r) = false;
  li_gone : bound r = true -> leg (to_b r) = None -> src_eof (to_a r) = true;
}.

Definition inv (r : tm_stream) : Prop :=
  (closing r = true /\ forall s, leg (get s r) = None) \/ live r.

Definition leg_kept (l l' : option io) : Prop :=
  l' = None \/ exists i i', l = Some i /\ l' = Some i' /\ io_log i' = io_log i.

Lemma leg_kept_refl l : leg_kept l l.
Proof. destruct l as [i|]; [right; eauto|by left]. Qed.
Lemma leg_kept_trans a b c : leg_kept a b -> leg_kept b c -> leg_kept a c.
Proof.
  intros H1 [->|(i & i' & -> & -> & E)]; [by left|].
  destruct H1 as [[=]|(j & j' & -> & [= <-] & E')]. right. exists j, i'. split_and!; congruence.
Qed.

(** A direction whose queue is being flushed, seen across a nested callback. *)
Record busy (r r' : tm_stream) (d d' : dir) : Prop := {
  bu_closing : closing r' = closing r;
  bu_pend : pend d' = pend d;
  bu_lost : lost d' = lost d;
  bu_paused : src_paused d' = src_paused d;
  bu_fin : src_fin d' = src_fin d;
  bu_leg : leg_kept (leg d) (leg d');
}.

(** What a callback that runs inside a call may change; [x] is a direction about
    which nothing is claimed. *)
Record nested (x : option side) (r r' : tm_stream) : Prop := {
  ne_inv : inv r';
  ne_bound : bound r' = bound r;
  ne_preq : preq r' = preq r;
  ne_flush t : flushing (get t r') = flushing (get t r);
  ne_in t : src_in (get t r') = src_in (get t r);
  ne_base t : leg (get t r') <> None -> base (get t r') = base (get t r);
  ne_leg t : leg (get t r) = None -> leg (get t r') = None;
  ne_eof t : src_eof (get t r) = true -> src_eof (get t r') = true;
  ne_len t : (length (pend (get t r')) <= length (pend (get t r)))%nat;
  ne_busy t : x <> Some t -> flushing (get t r) = true -> pend (get t r) <> [] ->
              busy r r' (get t r) (get t r');
}.

Lemma nested_refl x r : inv r -> nested x r r.
Proof. intros; constructor; auto; intros; constructor; auto using leg_kept_refl. Qed.

Lemma nested_trans x r1 r2 r3 : nested x r1 r2 -> nested x r2 r3 -> nested x r1 r3.
Proof.
  intros [A1 A2 A3 A4 A5 A6 A7 A8 A10 A9] [B1 B2 B3 B4 B5 B6 B7 B8 B10 B9]. constructor; [done|congruence|congruence|..];
    intros t.
  - by rewrite B4, A4.
  - by rewrite B5, A5.
  - intros Hn. rewrite B6, A6; auto.
  - auto.
  - auto.
  - by rewrite B10.
  - intros Hx Hf Hp. destruct (A9 t Hx Hf Hp) as [C1 C2 C3 C4 C5 C6].
    destruct (B9 t Hx) as [D1 D2 D3 D4 D5 D6]; [by rewrite A4|by rewrite C2|].
    constructor; try congruence. by eapply leg_kept_trans.
Qed.

Lemma ne_empty x r r' t : nested x r r' -> pend (get t r) = [] -> pend (get t r') = [].
Proof.
  intros Hn E. pose proof (ne_len _ _ _ Hn t) as Hl. rewrite E in Hl. cbn in Hl.
  destruct (pend (get t r')); [done|cbn in Hl; lia].
Qed.

Lemma nested_weaken x r r' : nested None r r' -> nested x r r'.
Proof. intros [A1 A2 A3 A4 A5 A6 A7 A8 A10 A9]; constructor; auto. Qed.

(** *** Steps that touch one direction *)

(** What a change of direction [s] has to satisfy to keep the invariant. *)
Lemma live_mod s f r : live r ->
  dir_ok (f (get s r)) (leg (get (other s) r)) ->
  dir_ok (get (other s) r) (leg (f (get s r))) ->
  (bound r = false -> leg (f (get B r)) = None \/ s = A) ->
  (bound r = false -> pend (f (get s r)) = pend (get s r) /\ src_in (f (get s r)) = src_in (get s r) /\
     (s = A \/ flushing (f (get s r)) = flushing (get s r) /\
                src_fin (f (get s r)) = src_fin (get s r)) /\
     (src_paused (f (get s r)) = true -> s = B \/ src_paused (get s r) = true)) ->
  (leg (f (get s r)) = None -> leg (get s r) = None \/ src_eof (get (other s) r) = true) ->
  (src_eof (get s r) = true -> src_eof (f (get s r)) = true) ->
  live (mod_ s f r).
Proof.
  intros Hl H1 H2 H3 H4 H5 H6. constructor; autorewrite with rl.
  - by_side s; autorewrite with rl; auto.
  - apply (li_bound r Hl).
  - intros Hb. destruct (li_pre r Hl Hb) as (? & ? & ? & ? & ? & ? & ? & ? & ?).
    destruct (H4 Hb) as (E1 & E2 & E3 & E4). specialize (H3 Hb).
    destruct s; cbn in *; split_and!; try congruence; try done; try (by destruct H3);
      try (destruct E3 as [?|[? ?]]; congruence).
    apply not_true_is_false. intros E. destruct (E4 E); congruence.
  - intros Hb Hn. pose proof (li_gone r Hl Hb) as Hg. destruct s; cbn in *; [auto|].
    destruct (H5 Hn); auto.
Qed.

Lemma nested_mod s f r : live r -> live (mod_ s f r) ->
  flushing (f (get s r)) = flushing (get s r) -> src_in (f (get s r)) = src_in (get s r) ->
  (leg (f (get s r)) <> None -> base (f (get s r)) = base (get s r)) ->
  (leg (get s r) = None -> leg (f (get s r)) = None) ->
  (src_eof (get s r) = true -> src_eof (f (get s r)) = true) ->
  (length (pend (f (get s r))) <= length (pend (get s r)))%nat ->
  (flushing (get s r) = true -> pend (get s r) <> [] ->
     pend (f (get s r)) = pend (get s r) /\ lost (f (get s r)) = lost (get s r) /\
     src_paused (f (get s r)) = src_paused (get s r) /\ src_fin (f (get s r)) = src_fin (get s r) /\
     leg_kept (leg (get s r)) (leg (f (get s r)))) ->
  nested None r (mod_ s f r).
Proof.
  intros Hl Hi H1 H2 H3 H4 H5 H7 H6.
  constructor; autorewrite with rl; auto; [by right|..];
    by_side s; autorewrite with rl; auto.
  - intros _ Hf Hp. destruct (H6 Hf Hp) as (? & ? & ? & ? & ?). constructor; autorewrite with rl; auto.
  - intros _ Hf Hp. constructor; autorewrite with rl; auto using leg_kept_refl.
Qed.

Lemma get_close s r : closing r = false ->
  let d := get s (tm_stream_close r) in
  leg d = None /\ pend d = pend (get s r) /\ flushing d = flushing (get s r) /\
  src_in d = src_in (get s r) /\ base d = base (get s r) /\ src_eof d = src_eof (get s r).
Proof. intros Hc. unfold tm_stream_close. rewrite Hc. destruct s; cbn; auto 10. Qed.

Lemma close_closing r : closing (tm_stream_close r) = true.
Proof. unfold tm_stream_close. case_match; [done|]. reflexivity. Qed.

Lemma inv_close r : inv r -> inv (tm_stream_close r).
Proof.
  intros Hi. destruct (closing r) eqn:Hc; [unfold tm_stream_close; by rewrite Hc|].
  left. split; [apply close_closing|]. intros s. by destruct (get_close s r Hc).
Qed.

Lemma nested_close r : inv r -> (forall t, pend (get t r) = []) -> nested None r (tm_stream_close r).
Proof.
  intros Hi Hp. destruct (closing r) eqn:Hc.
  { unfold tm_stream_close. rewrite Hc. by apply nested_refl. }
  constructor.
  - by apply inv_close.
  - unfold tm_stream_close. rewrite Hc. reflexivity.
  - unfold tm_stream_close. rewrite Hc. reflexivity.
  - intros t. by destruct (get_close t r Hc) as (? & ? & ? & ? & ? & ?).
  - intros t. by destruct (get_close t r Hc) as (? & ? & ? & ? & ? & ?).
  - intros t. by destruct (get_close t r Hc) as (? & ? & ? & ? & ? & ?).
  - intros t. by destruct (get_close t r Hc) as (? & ? & ? & ? & ? & ?).
  - intros t. by destruct (get_close t r Hc) as (? & ? & ? & ? & ? & ->).
  - intros t. destruct (get_close t r Hc) as (? & -> & ? & ? & ? & ?). done.
  - intros t _ _ Hn. by destruct (Hn (Hp t)).
Qed.

Lemma nested_maybe_close r : inv r -> nested None r (stream_maybe_close r).
Proof.
  intros Hi. unfold stream_maybe_close.
  repeat (case_match; [by apply nested_refl|]).
  apply nested_close; [done|]. zb. intros []; apply blen_0_nil; cbn; tauto.
Qed.

Lemma set_leg_ok s i i' r : live r -> leg (get s r) = Some i ->
  io_ok i' -> io_paused i' = io_paused i ->
  (flushing (get s r) = false -> lost (get s r) = false ->
     io_log i' ++ pend (get s r) = base (get s r) ++ src_in (get s r)) ->
  live (mod_ s (fun d => d <| leg := Some i' |>) r).
Proof.
  intros Hl El Hok Hpa Hlog. apply live_mod; auto 8; try done.
  - destruct (li_dir r Hl s) as [d1 d2 d3 d4 d5]. constructor; cbn; auto.
    + congruence.
    + intros Hf j [= <-] Hlo. auto.
  - destruct (li_dir r Hl (other s)) as [d1 d2 d3 d4 d5]. rewrite other_other in *.
    constructor; cbn; auto. intros j Hp [= <-]. rewrite Hpa. auto.
  - intros Hb. destruct (li_pre r Hl Hb) as (En & _). destruct s; [by right|cbn in El; congruence].
Qed.

(** Steps that touch neither direction. *)
Lemma nested_flags r r' : inv r -> (forall s, get s r' = get s r) -> bound r' = bound r ->
  preq r' = preq r -> closing r' = closing r -> nested None r r' /\ (live r -> live r').
Proof.
  intros Hi Hg Hb Hp Hc.
  assert (live r -> live r') as Hl.
  { intros [Hd H1 H2 H3]. pose proof (Hg A) as Ga. pose proof (Hg B) as Gb. cbn in Ga, Gb. constructor.
    - intros t. rewrite !Hg. apply Hd.
    - rewrite Hb, Hp. done.
    - rewrite Hb, Hp, Ga, Gb. done.
    - rewrite Hb, Ga, Gb. done. }
  split; [|done]. constructor; auto.
  - destruct Hi as [[Hi1 Hi2]|Hi]; [left; split; [congruence|intros t; by rewrite Hg]|right; auto].
  - intros t; by rewrite Hg.
  - intros t; by rewrite Hg.
  - intros t; by rewrite Hg.
  - intros t; by rewrite Hg.
  - intros t; by rewrite Hg.
  - intros t; by rewrite Hg.
  - intros t _ Hf Hn. rewrite Hg. constructor; auto using leg_kept_refl.
Qed.

(** The source of direction [s] has delivered [data]. *)
Abbreviation fed s data r := (mod_ s (fun d => d <| src_in ::= fun b => b ++ data |>) r).

(** *** Callbacks *)

Section UpOk.
Context (up : side -> upcall -> tm_stream -> tm_stream)
        (Hup : forall s u r, inv r -> nested None r (up s u r)).

Lemma run_up_ok s us : forall r, inv r -> nested None r (run_up up s us r).
Proof.
  induction us as [|u us IH]; intros r Hi; [by apply nested_refl|]. cbn.
  destruct (leg (get s r)); [|by apply IH].
  pose proof (Hup s u r Hi) as Hn. eapply nested_trans; [exact Hn|]. apply IH, (ne_inv _ _ _ Hn).
Qed.

Lemma leg_shutdown_ok s r : live r -> closing r = false -> nested None r (leg_shutdown up s r).
Proof.
  intros Hl Hc. unfold leg_shutdown.
  destruct (leg (get s r)) as [i|] eqn:El; [|apply nested_refl; by right].
  pose proof (li_dir r Hl s) as Hd. pose proof (di_ok _ _ Hd i El) as Hok.
  destruct (io_shutdown_law i Hok) as (L1 & L2 & L3 & L4).
  destruct (io_shutdown_send i) as [us i']. cbn [fst snd] in *.
  assert (live (mod_ s (fun d => d <| leg := Some i' |>) r)) as Hl'.
  { apply (set_leg_ok s i); auto. intros Hf Hlo. rewrite L1. by apply (di_fifo _ _ Hd Hf). }
  eapply nested_trans; [|apply run_up_ok; by right].
  apply nested_mod; auto; cbn; try congruence.
  intros _ _. split_and!; auto. right. exists i, i'. auto.
Qed.

(** Writing the head of a queue that is being flushed: the queue itself is as
    before, whatever the callbacks did. *)
Lemma flush_write_ok s c r st r' : live r -> closing r = false ->
  flushing (get s r) = true -> pend (get s r) <> [] -> leg (get s r) <> None ->
  leg_write up s c r = (st, r') ->
  nested (Some s) r r' /\ live r' /\ closing r' = false /\
  pend (get s r') = pend (get s r) /\ lost (get s r') = lost (get s r) /\
  src_paused (get s r') = src_paused (get s r) /\
  forall i', leg (get s r') = Some i' ->
    exists i, leg (get s r) = Some i /\
      io_log i' = io_log i ++ (if decide (st = TM_OK) then c else []).
Proof.
  intros Hl Hc Hf Hp Hle. unfold leg_write. destruct (leg (get s r)) as [i|] eqn:El; [|done].
  pose proof (di_ok _ _ (li_dir r Hl s) i El) as Hok.
  pose proof (io_write_law i c Hok) as (L1 & L2 & L3 & L4).
  destruct (io_write i c) as [[st0 us] i1]. cbn [fst snd] in *. intros [= -> <-].
  assert (io_log i1 = io_log i ++ (if decide (st = TM_OK) then c else [])) as Elog.
  { destruct st; cbn; destruct L1 as [-> ?]; by rewrite ?app_nil_r. }
  set (r1 := mod_ s (fun d => d <| leg := Some i1 |>) r).
  assert (live r1) as Hl1 by (apply (set_leg_ok s i); auto; congruence).
  assert (nested (Some s) r r1) as Hn1.
  { subst r1. constructor; autorewrite with rl; auto; [by right|..];
      by_side s; autorewrite with rl; cbn; auto; try done; try congruence.
    intros _ ? ?. constructor; autorewrite with rl; auto using leg_kept_refl. }
  pose proof (run_up_ok s us r1 (or_intror Hl1)) as Hn2.
  destruct (ne_busy _ _ _ Hn2 s) as [C1 C2 C3 C4 C5 C6].
  { done. } { subst r1. by autorewrite with rl. } { subst r1. by autorewrite with rl. }
  subst r1. autorewrite with rl in *. cbn in *. rewrite Hc in C1.
  split_and!; auto.
  - eapply nested_trans; [exact Hn1|]. by apply nested_weaken.
  - destruct (ne_inv _ _ _ Hn2) as [[? _]|]; [congruence|done].
  - intros i' Ei'. destruct C6 as [C6|(j & j' & [= <-] & Ej & Elj)]; [congruence|].
    exists i. split; [done|]. rewrite Ej in Ei'. injection Ei' as <-. congruence.
Qed.

(** Changing only the queue of a direction that is being flushed. *)
Lemma set_pend_ok s (f : dir -> dir) r : live r -> closing r = false ->
  flushing (get s r) = true ->
  (forall d, leg (f d) = leg d /\ flushing (f d) = flushing d /\ src_eof (f d) = src_eof d /\
     src_fin (f d) = src_fin d /\ src_paused (f d) = src_paused d /\ src_in (f d) = src_in d /\
     base (f d) = base d) ->
  pend (f (get s r)) `suffix_of` pend (get s r) ->
  live (mod_ s f r) /\ nested (Some s) r (mod_ s f r).
Proof.
  intros Hl Hc Hf Hs Hp. destruct (Hs (get s r)) as (E1 & E2 & E3 & E4 & E5 & E6 & E7).
  assert (live (mod_ s f r)) as Hl'.
  { apply live_mod; auto 8; try done; try congruence.
    - destruct (li_dir r Hl s) as [d1 d2 d3 d4 d5]. constructor; rewrite ?E1, ?E2, ?E3, ?E4, ?E5; auto; try congruence.
      + intros Hfin. destruct (d3 Hfin) as [? Hn]. split; [done|]. rewrite Hn in Hp.
        by apply suffix_nil_inv in Hp.
    - rewrite E1. destruct (li_dir r Hl (other s)). rewrite other_other in *. by constructor.
    - intros Hb. destruct (li_pre r Hl Hb) as (? & _ & _ & Hfb & _).
      destruct s; [by right|cbn in Hf; congruence].
    - intros Hb. destruct (li_pre r Hl Hb) as (_ & _ & _ & Hfb & _ & Hpa & _).
      destruct s; cbn in *; [|congruence]. rewrite Hpa in Hp |- *. apply suffix_nil_inv in Hp.
      rewrite Hp. split_and!; auto. rewrite E5; auto.
    - rewrite E1. auto. }
  split; [done|]. constructor; autorewrite with rl; auto; [by right|..];
    by_side s; autorewrite with rl; auto; try congruence.
  - by apply suffix_length.
  - intros _ ? ?. constructor; autorewrite with rl; auto using leg_kept_refl.
Qed.

Lemma flush_loop_ok fuel s : forall r, live r -> closing r = false ->
  flushing (get s r) = true -> fifo (get s r) ->
  let r' := flush_loop up fuel s r in
  nested (Some s) r r' /\ live r' /\ closing r' = false /\ fifo (get s r') /\
  src_paused (get s r') = src_paused (get s r) /\
  (pend (get s r) = [] -> pend (get s r') = []).
Proof.
  induction fuel as [|fuel IH]; intros r Hl Hc Hf Hq; cbn [flush_loop]; cbv zeta.
  { destruct (nested_flags r (r <| stuck := true |>)) as [Hn Hl']; try done; [by right|].
    split_and!; try (by destruct s); [by apply nested_weaken|by apply Hl']. }
  destruct (blen (pend (get s r)) =? 0) eqn:Ep.
  { split_and!; auto. apply nested_refl. by right. }
  apply Z.eqb_neq in Ep.
  assert (pend (get s r) <> []) as Hpn by (intros E; by rewrite E in Ep).
  destruct (leg (get s r)) as [i0|] eqn:El.
  2: { destruct (nested_flags r (r <| uaf := true |>)) as [Hn Hl']; try done; [by right|].
       split_and!; try (by destruct s); [by apply nested_weaken|by apply Hl']. }
  set (p := pend (get s r)) in *. set (n := Z.to_nat _).
  destruct (leg_write up s (take n p) r) as [st r1] eqn:Ew.
  destruct (flush_write_ok s (take n p) r st r1 Hl Hc Hf Hpn) as (Hn & Hl1 & Hc1 & Hp1 & Hlo1 & Hpa1 & Hlog);
    [congruence|done|].
  assert (flushing (get s r1) = true) as Hf1 by (by rewrite (ne_flush _ _ _ Hn)).
  assert (forall d, leg d = leg (get s r1) -> base d = base (get s r1) -> src_in d = src_in (get s r1) ->
    lost d = lost (get s r1) -> (if decide (st = TM_OK) then take n p else []) ++ pend d = p -> fifo d) as Hfifo.
  { intros d E1 E2 E3 E4 E5 i' Ei' Hlo. rewrite E1 in Ei'. destruct (Hlog i' Ei') as (i & Ei & ->).
    rewrite <- app_assoc, E5, E2, E3, (ne_in _ _ _ Hn), (ne_base _ _ _ Hn) by congruence.
    apply Hq; [done|congruence]. }
  destruct st.
  all: try (set (f := fun d => d <| pend := [] |> <| pend_cap := 0 |> <| lost := true |>);
    destruct (set_pend_ok s f r1 Hl1 Hc1 Hf1) as [Hl2 Hn2];
      [intros d; cbn; auto 10|cbn; apply suffix_nil|];
    split_and!; autorewrite with rl; auto;
      [by eapply nested_trans|intros j; cbn; congruence]).
  - (* accepted *)
    rewrite Hc1.
    destruct (set_pend_ok s (fun d => d <| pend ::= drop n |>) r1 Hl1 Hc1 Hf1) as [Hl2 Hn2];
      [intros d; cbn; auto 10|cbn; apply suffix_drop|].
    set (r2 := mod_ s (fun d => d <| pend ::= drop n |>) r1) in *.
    assert (closing r2 = false) as Hc2 by (subst r2; by autorewrite with rl).
    assert (flushing (get s r2) = true) as Hf2 by (subst r2; by autorewrite with rl).
    assert (fifo (get s r2)) as Hq2.
    { apply Hfifo; subst r2; autorewrite with rl; try done. cbn. rewrite Hp1. apply take_drop. }
    set (r3 := if blen _ =? 0 then _ else r2).
    assert (nested (Some s) r2 r3 /\ live r3 /\ closing r3 = false /\ flushing (get s r3) = true /\
            fifo (get s r3) /\ src_paused (get s r3) = src_paused (get s r2) /\
            pend (get s r3) = pend (get s r2)) as (Hn3 & Hl3 & Hc3 & Hf3 & Hq3 & Hpa3 & Hp3).
    { subst r3. destruct (blen (pend (get s r2)) =? 0).
      - destruct (set_pend_ok s (fun d => d <| pend_cap := 0 |>) r2 Hl2 Hc2 Hf2) as [Hl3 Hn3];
          [intros d; cbn; auto 10|done|].
        autorewrite with rl. split_and!; auto.
      - split_and!; auto. apply nested_refl. by right. }
    destruct (IH r3 Hl3 Hc3 Hf3 Hq3) as (Hn4 & Hl4 & Hc4 & Hq4 & Hpa4 & Hp4).
    split_and!; auto.
    + eapply nested_trans; [exact Hn|]. eapply nested_trans; [exact Hn2|]. by eapply nested_trans.
    + rewrite Hpa4, Hpa3. subst r2. autorewrite with rl. cbn. done.
    + done.
  - (* busy *)
    split_and!; auto; congruence.
Qed.

(** Raising and lowering the flag around the loop. *)
Lemma set_flushing_ok s b r : live r -> closing r = false ->
  (b = false -> fifo (get s r) /\ (pend (get s r) <> [] -> src_paused (get s r) = true)) ->
  (bound r = false -> s = A) ->
  live (mod_ s (fun d => d <| flushing := b |>) r).
Proof.
  intros Hl Hc Hb Hbd. apply live_mod; auto 8; try done.
  - destruct (li_dir r Hl s) as [d1 d2 d3 d4 d5]. constructor; cbn; auto.
    + intros ->. destruct (Hb eq_refl) as [Hq _]. exact Hq.
    + intros ->. by destruct (Hb eq_refl).
  - destruct (li_dir r Hl (other s)). rewrite other_other in *. by constructor.
Qed.

Lemma flush_pend_ok s r : live r -> closing r = false -> leg (get s r) <> None ->
  nested None r (flush_pend up s r) /\ live (flush_pend up s r) /\
  closing (flush_pend up s r) = false.
Proof.
  intros Hl Hc Hle. unfold flush_pend. destruct (flushing (get s r)) eqn:Hf.
  { split_and!; auto. apply nested_refl. by right. }
  cbv zeta. pose proof (li_dir r Hl s) as Hd.
  assert (bound r = false -> s = A) as Hbd.
  { intros Hb. destruct (li_pre r Hl Hb) as (E & _). destruct s; [done|]. cbn in Hle. congruence. }
  set (r1 := mod_ s (fun d => d <| flushing := true |>) r).
  assert (live r1) as Hl1 by (apply set_flushing_ok; auto; done).
  assert (closing r1 = false) as Hc1 by (subst r1; by autorewrite with rl).
  assert (fifo (get s r1)) as Hq1 by (subst r1; autorewrite with rl; exact (di_fifo _ _ Hd Hf)).
  destruct (flush_loop_ok (S (length (pend (get s r1)))) s r1 Hl1 Hc1) as (Hn & Hl2 & Hc2 & Hq2 & Hpa & Hp);
    [subst r1; by autorewrite with rl|done|].
  set (r2 := flush_loop up _ s r1) in *.
  assert (src_paused (get s r2) = src_paused (get s r) /\ (pend (get s r) = [] -> pend (get s r2) = []))
    as [Hpa' Hp'] by (subst r1; autorewrite with rl in *; auto).
  assert (bound r2 = bound r) as Hb2 by (rewrite (ne_bound _ _ _ Hn); subst r1; by autorewrite with rl).
  assert (live (mod_ s (fun d => d <| flushing := false |>) r2)) as Hl3.
  { apply set_flushing_ok; auto; [|by rewrite Hb2]. intros _. split; [done|]. intros Hne.
    rewrite Hpa'. apply (di_paused _ _ Hd Hf). intros E. by apply Hne, Hp'. }
  split_and!; [|done|by autorewrite with rl].
  clearbody r2. destruct Hn as [N1 N2 N3 N4 N5 N6 N7 N8 N10 N9]. subst r1.
  constructor; autorewrite with rl in *; auto; [by right|..]; by_side s; autorewrite with rl in *; cbn; auto.
  - rewrite N4. by autorewrite with rl.
  - rewrite N5. by autorewrite with rl.
  - rewrite N5. by autorewrite with rl.
  - intros Hx. rewrite N6 by done. by autorewrite with rl.
  - intros Hx. rewrite N6 by done. by autorewrite with rl.
  - intros Hx. apply N7. by autorewrite with rl.
  - intros Hx. apply N7. by autorewrite with rl.
  - intros Hx. apply N8. by autorewrite with rl.
  - intros Hx. apply N8. by autorewrite with rl.
  - etrans; [apply N10|]. by autorewrite with rl.
  - etrans; [apply N10|]. by autorewrite with rl.
  - congruence.
  - intros _ Hf' Hp''. destruct (N9 (other s)) as [C1 C2 C3 C4 C5 C6]; autorewrite with rl; auto.
    { destruct s; done. } autorewrite with rl in *.
    constructor; autorewrite with rl; auto.
Qed.

Lemma shut_ok s r : live r -> closing r = false -> pend (get s r) = [] ->
  src_eof (get s r) = true -> (bound r = false -> s = A) ->
  nested None r (leg_shutdown up s (mod_ s (fun d => d <| src_fin := true |>) r)).
Proof.
  intros Hl Hc Hp He Hbd. set (r1 := mod_ s _ r).
  assert (live r1) as Hl1.
  { apply live_mod; auto 8; try done.
    - destruct (li_dir r Hl s). constructor; cbn; auto.
    - destruct (li_dir r Hl (other s)). rewrite other_other in *. by constructor. }
  assert (nested None r r1) as Hn by (apply nested_mod; cbn; auto; congruence).
  eapply nested_trans; [exact Hn|].
  apply leg_shutdown_ok; [done|by subst r1; autorewrite with rl..].
Qed.

Lemma leg_bound s r : live r -> leg (get s r) <> None -> bound r = false -> s = A.
Proof. intros Hl Hle Hb. destruct (li_pre r Hl Hb) as (E & _). destruct s; [done|cbn in Hle; congruence]. Qed.

Lemma source_ended_ok s r : live r -> closing r = false -> src_eof (get s r) = true ->
  nested None r (source_ended up s r).
Proof.
  intros Hl Hc He. unfold source_ended.
  destruct (leg (get s r)) as [i|] eqn:El; [|apply nested_maybe_close; by right].
  destruct (flush_pend_ok s r Hl Hc) as (Hn & Hl1 & Hc1); [congruence|].
  cbv zeta. set (r1 := flush_pend up s r) in *.
  destruct (negb (blen (pend (get s r1)) =? 0)) eqn:Ep.
  { eapply nested_trans; [exact Hn|]. apply nested_maybe_close. by right. }
  apply negb_false_iff, Z.eqb_eq, blen_0_nil in Ep.
  assert (nested None r1 (leg_shutdown up s (mod_ s (fun d => d <| src_fin := true |>) r1))) as Hn2.
  { apply shut_ok; auto; [by apply (ne_eof _ _ _ Hn)|]. rewrite (ne_bound _ _ _ Hn).
    apply leg_bound; [done|congruence]. }
  eapply nested_trans; [exact Hn|]. eapply nested_trans; [exact Hn2|].
  apply nested_maybe_close, (ne_inv _ _ _ Hn2).
Qed.

Lemma set_eof_ok s r : live r -> closing r = false ->
  live (mod_ s (fun d => d <| src_eof := true |>) r) /\
  nested None r (mod_ s (fun d => d <| src_eof := true |>) r).
Proof.
  intros Hl Hc. assert (live (mod_ s (fun d => d <| src_eof := true |>) r)) as Hl1.
  { apply live_mod; auto 8; try done.
    - destruct (li_dir r Hl s). constructor; cbn; auto. intros Hf. by destruct (di_fin0 Hf).
    - destruct (li_dir r Hl (other s)). rewrite other_other in *. by constructor.
    - intros Hb. destruct (li_pre r Hl Hb) as (? & _). by left. }
  split; [done|]. apply nested_mod; cbn; auto. intros; split_and!; auto using leg_kept_refl.
Qed.

Lemma drop_leg_ok s r : live r -> src_eof (get (other s) r) = true ->
  live (mod_ s (fun d => d <| leg := None |>) r) /\
  nested None r (mod_ s (fun d => d <| leg := None |>) r).
Proof.
  intros Hl He. assert (live (mod_ s (fun d => d <| leg := None |>) r)) as Hl1.
  { apply live_mod; auto 8; try done.
    - destruct (li_dir r Hl s). constructor; cbn; auto; [done|]. intros _ i [=].
    - destruct (li_dir r Hl (other s)). rewrite other_other in *. constructor; cbn; auto. done. }
  split; [done|]. apply nested_mod; cbn; auto; try done. intros; split_and!; auto. by left.
Qed.

Lemma mod_comm s f g r : mod_ (other s) f (mod_ s g r) = mod_ s g (mod_ (other s) f r).
Proof. by destruct s. Qed.
Lemma mod_mod s f g r : mod_ s f (mod_ s g r) = mod_ s (fun d => f (g d)) r.
Proof. by destruct s. Qed.

Lemma relay_eof_ok s r : inv r -> nested None r (relay_eof up s r).
Proof.
  intros Hi. unfold relay_eof. destruct (closing r) eqn:Hc; [by apply nested_refl|].
  destruct Hi as [[? _]|Hl]; [congruence|]. destruct (set_eof_ok (other s) r Hl Hc) as [Hl1 Hn].
  eapply nested_trans; [exact Hn|]. apply source_ended_ok; autorewrite with rl; auto.
Qed.

Lemma relay_error_ok s r : inv r -> nested None r (relay_error up s r).
Proof.
  intros Hi. unfold relay_error. destruct (closing r) eqn:Hc; [by apply nested_refl|].
  destruct Hi as [[? _]|Hl]; [congruence|]. cbv zeta. rewrite mod_comm.
  destruct (set_eof_ok (other s) r Hl Hc) as [Hl1 Hn1].
  set (r1 := mod_ (other s) _ r) in *.
  destruct (drop_leg_ok s r1 Hl1) as [Hl2 Hn2]; [subst r1; by autorewrite with rl|].
  eapply nested_trans; [exact Hn1|]. eapply nested_trans; [exact Hn2|].
  apply source_ended_ok; subst r1; autorewrite with rl; auto.
Qed.

(** Pausing, resuming or starting a leg. *)
Lemma map_leg_ok s g r : live r ->
  (forall i, io_ok i -> io_log (g i) = io_log i /\ io_ok (g i)) ->
  (forall i, io_ok i -> src_paused (get (other s) r) = true -> io_paused i = true ->
     io_paused (g i) = true) ->
  live (mod_ s (fun d => d <| leg ::= fmap g |>) r) /\
  nested None r (mod_ s (fun d => d <| leg ::= fmap g |>) r).
Proof.
  intros Hl Hg Hpa.
  assert (live (mod_ s (fun d => d <| leg ::= fmap g |>) r)) as Hl1.
  { apply live_mod; auto 8; try done.
    - destruct (li_dir r Hl s) as [d1 d2 d3 d4 d5]. constructor; cbn; auto.
      + intros i' Ei. apply fmap_Some in Ei as (i & Ei & ->). by apply Hg, d1.
      + intros Hf i' Ei Hlo. cbn in Ei. apply fmap_Some in Ei as (i & Ei & ->).
        destruct (Hg i (d1 i Ei)) as [-> _]. by apply d2.
    - pose proof (li_dir r Hl s) as Hs.
      destruct (li_dir r Hl (other s)) as [d1 d2 d3 d4 d5]. rewrite other_other in *.
      constructor; cbn; auto. intros i' Hp Ei. apply fmap_Some in Ei as (i & Ei & ->).
      apply Hpa; auto. by apply (di_ok _ _ Hs).
    - intros Hb. destruct (li_pre r Hl Hb) as (E & _). left. cbn. by rewrite E.
    - cbn. intros E. apply fmap_None in E. auto. }
  split; [done|]. apply nested_mod; cbn; auto.
  - by intros ->.
  - intros Hf Hp. split_and!; auto. destruct (leg (get s r)) as [i|] eqn:El; [|by left].
    right. exists i, (g i). split_and!; auto. apply Hg. by apply (di_ok _ _ (li_dir r Hl s)).
Qed.

(** Letting the source of direction [s] go on. *)
Lemma resume_ok s r : live r -> pend (get s r) = [] ->
  nested None r (leg_resume (other s) (mod_ s (fun d => d <| src_paused := false |>) r)).
Proof.
  intros Hl Hp. set (r1 := mod_ s _ r).
  assert (live r1) as Hl1.
  { apply live_mod; auto 8; try done.
    - destruct (li_dir r Hl s). constructor; cbn; auto; congruence.
    - destruct (li_dir r Hl (other s)). rewrite other_other in *. by constructor.
    - intros Hb. left. by destruct (li_pre r Hl Hb).
    - intros Hb. cbn. split_and!; auto. done. }
  assert (nested None r r1) as Hn by (apply nested_mod; cbn; auto; congruence).
  eapply nested_trans; [exact Hn|]. unfold leg_resume.
  apply map_leg_ok; auto.
  - intros i Hok. destruct (io_resume_law i Hok) as (? & ? & ? & ?). auto.
  - intros i Hok. subst r1. autorewrite with rl. done.
Qed.

Lemma relay_low_ok s r : inv r -> nested None r (relay_low up s r).
Proof.
  intros Hi. unfold relay_low. destruct (closing r) eqn:Hc; [by apply nested_refl|].
  destruct Hi as [[? _]|Hl]; [congruence|].
  destruct (leg (get s r)) as [i|] eqn:El; [|apply nested_maybe_close; by right].
  destruct (flush_pend_ok s r Hl Hc) as (Hn & Hl1 & Hc1); [congruence|].
  assert (bound r = false -> s = A) as Hbd by (apply leg_bound; [done|congruence]).
  rewrite <- (ne_bound _ _ _ Hn) in Hbd.
  cbv zeta. set (r1 := flush_pend up s r) in *. clearbody r1.
  eapply nested_trans; [exact Hn|]. clear Hn Hl Hc El r.
  destruct (negb (blen (pend (get s r1)) =? 0)) eqn:Ep; [apply nested_maybe_close; by right|].
  apply negb_false_iff, Z.eqb_eq, blen_0_nil in Ep.
  set (r2 := if src_eof _ && _ then _ else r1).
  assert (nested None r1 r2) as Hn2.
  { subst r2. destruct (src_eof (get s r1)) eqn:He; cbn [andb]; [|apply nested_refl; by right].
    case_match; [by apply shut_ok|apply nested_refl; by right]. }
  (* the queue is still empty: nothing but reading fills it *)
  assert (pend (get s r2) = []) as Ep2.
  { by apply (ne_empty _ _ _ _ Hn2). }
  clearbody r2. eapply nested_trans; [exact Hn2|]. pose proof (ne_inv _ _ _ Hn2) as Hi2.
  set (r3 := if src_paused _ && _ then _ else r2).
  assert (nested None r2 r3) as Hn3.
  { subst r3. destruct (src_paused _ && _) eqn:E; [|by apply nested_refl]. apply andb_true_iff in E as [_ E].
    apply bool_decide_eq_true in E. destruct Hi2 as [[_ Hn']|Hl2].
    { rewrite Hn' in E. by destruct E. }
    by apply resume_ok. }
  eapply nested_trans; [exact Hn3|]. apply nested_maybe_close, (ne_inv _ _ _ Hn3).
Qed.

(** *** Reading *)

Lemma inv_close' r : closing r = false -> inv (tm_stream_close r).
Proof.
  intros Hc. left. split; [apply close_closing|]. intros s. by destruct (get_close s r Hc).
Qed.

Lemma flushing_close t r : flushing (get t (tm_stream_close r)) = flushing (get t r).
Proof.
  destruct (closing r) eqn:Hc; [unfold tm_stream_close; by rewrite Hc|].
  by destruct (get_close t r Hc) as (_ & _ & -> & _).
Qed.

(** What an event outside any callback leaves behind; [n] more bytes may wait for
    leg [x]. *)
Record calm (x : side) (n : Z) (r r' : tm_stream) : Prop := {
  ca_inv : inv r';
  ca_flush t : flushing (get t r') = flushing (get t r);
  ca_len t : blen (pend (get t r')) <= blen (pend (get t r)) + (if decide (t = x) then n else 0);
}.

Lemma calm_nested x n r r' : 0 <= n -> nested None r r' -> calm x n r r'.
Proof.
  intros Hn [A1 A2 A3 A4 A5 A6 A7 A8 A10 A9]. constructor; auto.
  intros t. specialize (A10 t). unfold blen. case_decide; lia.
Qed.

Lemma calm_trans x n r1 r2 r3 : calm x n r1 r2 -> nested None r2 r3 -> calm x n r1 r3.
Proof.
  intros [A1 A2 A3] [B1 B2 B3 B4 B5 B6 B7 B8 B10 B9]. constructor; auto.
  - intros t. by rewrite B4, A2.
  - intros t. specialize (A3 t). specialize (B10 t). unfold blen in *. lia.
Qed.

Lemma calm_close x n r0 r : 0 <= n -> closing r = false ->
  (forall t, flushing (get t r) = flushing (get t r0)) ->
  (forall t, pend (get t r) = pend (get t r0)) -> calm x n r0 (tm_stream_close r).
Proof.
  intros Hn Hc Hf Hp. constructor.
  - by apply inv_close'.
  - intros t. by rewrite flushing_close, Hf.
  - intros t. destruct (get_close t r Hc) as (_ & -> & _). rewrite Hp. case_decide; lia.
Qed.

Lemma queue_pend_ok s data r : live r -> flushing (get s r) = false ->
  src_eof (get s r) = false -> bound r = true ->
  calm s (blen data) r (queue_pend s data (fed s data r)).
Proof.
  intros Hl Hf He Hbd. assert (bound r = false -> False) as Hnb by congruence. unfold queue_pend, leg_pause. cbv zeta.
  set (cap := if pend_cap _ <? _ then _ else _). clearbody cap.
  set (F := fun d : dir => d <| src_in ::= fun b => b ++ data |> <| pend ::= fun p => p ++ data |>
                             <| pend_cap := cap |> <| src_paused := true |>).
  set (r1 := mod_ (other s) (fun d => d <| leg ::= fmap io_pause_read |>) r).
  match goal with |- calm _ _ _ ?x => assert (x = mod_ s F r1) as -> by (by destruct s) end.
  destruct (map_leg_ok (other s) io_pause_read r Hl) as [Hl1 Hn1].
  { intros i Hok. destruct (io_pause_law i Hok) as (? & ? & ? & ?). auto. }
  { intros i Hok _ _. by destruct (io_pause_law i Hok) as (? & ? & ? & ?). }
  fold r1 in Hl1, Hn1.
  assert (get s r1 = get s r) as Eg by (subst r1; by autorewrite with rl).
  pose proof (li_dir r1 Hl1 s) as Hd. rewrite Eg in Hd.
  assert (src_fin (get s r) = false) as Hfin.
  { destruct (src_fin (get s r)) eqn:E; [|done]. destruct (di_fin _ _ Hd E). congruence. }
  assert (forall i, leg (get (other s) r1) = Some i -> io_paused i = true) as Hpl.
  { subst r1. autorewrite with rl. cbn. intros i Ei. apply fmap_Some in Ei as (j & Ej & ->).
    destruct (io_pause_law j) as (? & ? & ? & ?); [by apply (di_ok _ _ (li_dir r Hl (other s)))|done]. }
  assert (live (mod_ s F r1)) as Hl2.
  { apply live_mod; rewrite ?Eg; cbn; auto 8; try done.
    - destruct Hd as [d1 d2 d3 d4 d5]. constructor; cbn; auto; [|congruence].
      intros _ i Ei Hlo. cbn in *. rewrite app_assoc, (d2 Hf i Ei Hlo). by rewrite app_assoc.
    - destruct (li_dir r1 Hl1 (other s)). rewrite other_other, Eg in *. by constructor.
    - subst r1. rewrite bound_mod. tauto.
    - subst r1. rewrite bound_mod. tauto. }
  constructor.
  - by right.
  - by_side s; autorewrite with rl; rewrite ?Eg; [done|]. subst r1. by autorewrite with rl.
  - by_side s; autorewrite with rl; rewrite ?Eg; cbn; rewrite ?blen_app; pose proof (blen_nonneg data);
      [case_decide; [lia|congruence]|].
    subst r1. autorewrite with rl. cbn. case_decide; lia.
Qed.

(** The whole of [data] was accepted and nothing waits. *)
Lemma accepted_ok s i i1 data r : live r -> leg (get s r) = Some i -> flushing (get s r) = false ->
  pend (get s r) = [] -> src_fin (get s r) = false -> bound r = true ->
  io_log i1 = io_log i ++ data -> io_ok i1 -> io_paused i1 = io_paused i ->
  live (mod_ s (fun d => d <| leg := Some i1 |>) (fed s data r)).
Proof.
  intros Hl El Hf Ep Hfin Hb L1 L2 L4. rewrite mod_mod. pose proof (li_dir r Hl s) as Hd.
  apply live_mod; cbn; auto 8; try done; try congruence.
  - destruct Hd as [d1 d2 d3 d4 d5]. constructor; cbn; auto; [congruence|].
    intros _ j [= <-] Hlo. cbn. rewrite L1, Ep, app_nil_r.
    pose proof (d2 Hf i El Hlo) as E. rewrite Ep, app_nil_r in E. by rewrite E, app_assoc.
  - destruct (li_dir r Hl (other s)) as [d1 d2 d3 d4 d5]. rewrite other_other in *.
    constructor; cbn; auto. intros j Hp [= <-]. rewrite L4. auto.
Qed.

Lemma forward_ok s data r : live r -> closing r = false -> flushing (get s r) = false ->
  src_eof (get s r) = false -> bound r = true -> leg (get s r) <> None ->
  calm s (blen data) r (forward up s data (fed s data r)).
Proof.
  intros Hl Hc Hf He Hb Hle. unfold forward. autorewrite with rl. cbn.
  pose proof (blen_nonneg data) as Hdn.
  destruct (blen (pend (get s r)) =? 0) eqn:Ep; cbn [negb]; [|by apply queue_pend_ok].
  apply Z.eqb_eq, blen_0_nil in Ep. unfold leg_write. autorewrite with rl. cbn.
  destruct (leg (get s r)) as [i|] eqn:El; [|done].
  pose proof (li_dir r Hl s) as Hd. pose proof (di_ok _ _ Hd i El) as Hok.
  pose proof (io_write_law i data Hok) as (L1 & L2 & L3 & L4).
  destruct (io_write i data) as [[st us] i1]. cbn [fst snd] in *.
  assert (src_fin (get s r) = false) as Hfin.
  { destruct (src_fin (get s r)) eqn:E; [|done]. destruct (di_fin _ _ Hd E). congruence. }
  destruct st; try (destruct L1 as [L1 ->]; cbn [run_up fold_left]).
  2-7,9-12: apply calm_close; [done|by autorewrite with rl|..]; by_side s; by autorewrite with rl.
  - (* accepted *)
    destruct L1 as [L1 L1'].
    set (r1 := mod_ s (fun d => d <| leg := Some i1 |>) (fed s data r)).
    assert (live r1) as Hl1 by (by apply (accepted_ok s i)).
    apply (calm_trans _ _ _ r1); [|apply run_up_ok; by right].
    constructor; [by right|..]; by_side s; subst r1; autorewrite with rl; cbn; auto; case_decide; lia.
  - (* queue full *)
    set (r1 := mod_ s (fun d => d <| leg := Some i1 |>) r).
    match goal with |- calm _ _ _ (queue_pend s data ?x) =>
      assert (x = fed s data r1) as -> by (by destruct s) end.
    assert (live r1) as Hl1.
    { apply (set_leg_ok s i); auto. intros _ Hlo. rewrite L1. by apply (di_fifo _ _ Hd Hf). }
    destruct (queue_pend_ok s data r1) as [Q1 Q2 Q3]; subst r1; autorewrite with rl; auto.
    constructor; [done|..]; by_side s.
    + rewrite Q2. by autorewrite with rl.
    + rewrite Q2. by autorewrite with rl.
    + etrans; [apply Q3|]. by autorewrite with rl.
    + etrans; [apply Q3|]. by autorewrite with rl.
Qed.

End UpOk.

Lemma upcall_n_ok n : forall s u r, inv r -> nested None r (upcall_n n s u r).
Proof.
  induction n as [|n IH]; intros s u r Hi; cbn [upcall_n].
  - by destruct (nested_flags r (r <| stuck := true |>) Hi).
  - destruct u; [by apply relay_low_ok|by apply relay_error_ok].
Qed.

Lemma live_bound r : live r -> leg (to_b r) <> None -> bound r = true.
Proof.
  intros Hl Hle. destruct (bound r) eqn:Hb; [done|]. by destruct (li_pre r Hl Hb).
Qed.

Lemma queue_preq_ok data r : live r -> bound r = false -> src_eof (to_b r) = false ->
  blen (preq r) + blen data <= PEND_MAX -> calm B (blen data) r (queue_preq data (fed B data r)).
Proof.
  intros Hl1 Hb He1 Esz. pose proof (blen_nonneg data) as Hdn.
  destruct (li_pre r Hl1 Hb) as (P1 & P2 & P3 & P4 & P5 & P6 & P7 & P8 & P9).
  unfold queue_preq. change (preq (fed B data r)) with (preq r). cbv zeta.
  set (cap := if preq_cap _ <? _ then _ else _). clearbody cap.
  set (r2 := fed B data r <| preq ::= fun p => p ++ data |> <| preq_cap := cap |>).
  assert (live r2) as Hl2.
  { constructor.
    - intros []; cbn.
      + destruct (li_dir r Hl1 A) as [d1 d2 d3 d4 d5]. constructor; cbn in *; auto.
      + destruct (li_dir r Hl1 B) as [d1 d2 d3 d4 d5]. constructor; cbn in *; auto.
        intros _ i Ei. cbn in Ei. congruence.
    - cbn. congruence.
    - cbn. intros _. rewrite blen_app. split_and!; auto. by rewrite P5.
    - cbn. congruence. }
  assert (calm B (blen data) r r2) as Hcal.
  { constructor; [by right|by intros []|intros []; cbn; case_decide; lia]. }
  destruct (TM_IO_HIGH_WATER <=? _); [|exact Hcal].
  set (r3 := mod_ A (fun d => d <| leg ::= fmap io_pause_read |>) r2).
  change (leg_pause A r2) with r3.
  destruct (map_leg_ok A io_pause_read r2 Hl2) as [Hl3 Hn3].
  { intros i Hok. destruct (io_pause_law i Hok) as (? & ? & ? & ?). auto. }
  { intros i Hok _ _. by destruct (io_pause_law i Hok) as (? & ? & ? & ?). }
  fold r3 in Hl3, Hn3. pose proof (calm_trans _ _ _ _ _ Hcal Hn3) as [Q1 Q2 Q3].
  constructor; [|by intros []; rewrite <- Q2|intros []; [apply (Q3 A)|apply (Q3 B)]].
  right. apply live_mod; cbn; auto 8.
  - destruct (li_dir r3 Hl3 B) as [d1 d2 d3 d4 d5]. constructor; cbn in *; auto.
    intros i _ Ei. apply fmap_Some in Ei as (j & Ej & ->).
    destruct (io_pause_law j) as (? & ? & ? & ?); [by apply (di_ok _ _ (li_dir r2 Hl2 A))|done].
  - destruct (li_dir r3 Hl3 A) as [d1 d2 d3 d4 d5]. by constructor.
Qed.

Lemma relay_b_read_ok data r : inv r -> flushing (to_a r) = false -> src_eof (to_a r) = false ->
  leg (to_b r) <> None -> calm A (blen data) r (relay_b_read up data r).
Proof.
  intros Hi Hf He Hle. unfold relay_b_read. pose proof (blen_nonneg data).
  destruct (closing r) eqn:Hc; [by apply calm_nested, nested_refl|].
  destruct Hi as [[? _]|Hl]; [congruence|]. cbv zeta.
  set (r1 := r <| sh ::= _ |> <| down_bytes ::= _ |>).
  destruct (nested_flags r r1) as [Hn Hl1]; [by right|by intros []|done|done|done|]. specialize (Hl1 Hl).
  assert (forall r', calm A (blen data) r1 r' -> calm A (blen data) r r') as Hcal
    by (intros r' [Q1 Q2 Q3]; constructor; [exact Q1|intros []; [apply (Q2 A)|apply (Q2 B)]|
        intros []; [apply (Q3 A)|apply (Q3 B)]]).
  apply Hcal. destruct (leg (to_a _)) eqn:El.
  - apply (forward_ok up (upcall_n_ok _) A); auto; [by apply (live_bound r)|cbn in *; congruence].
  - apply calm_close; [done|done|by intros []|by intros []].
Qed.

Lemma relay_a_read_ok data r : inv r -> flushing (to_b r) = false -> src_eof (to_b r) = false ->
  calm B (blen data) r (relay_a_read up data r).
Proof.
  intros Hi Hf He. unfold relay_a_read. pose proof (blen_nonneg data) as Hdn.
  destruct (closing r) eqn:Hc; [by apply calm_nested, nested_refl|].
  destruct Hi as [[? _]|Hl]; [congruence|]. cbv zeta.
  set (r1 := r <| sh ::= _ |> <| up_bytes ::= _ |>).
  destruct (nested_flags r r1) as [Hn Hl1]; [by right|by intros []|done|done|done|]. specialize (Hl1 Hl).
  assert (forall r', calm B (blen data) r1 r' -> calm B (blen data) r r') as Hcal
    by (intros r' [Q1 Q2 Q3]; constructor; [exact Q1|intros []; [apply (Q2 A)|apply (Q2 B)]|
        intros []; [apply (Q3 A)|apply (Q3 B)]]).
  apply Hcal. clear Hcal.
  assert (closing r1 = false /\ flushing (to_b r1) = false /\ src_eof (to_b r1) = false) as (Hc1 & Hf1 & He1)
    by (by subst r1).
  clearbody r1. clear r Hl Hc Hf He Hn. rename r1 into r.
  change (leg (to_b (fed B data r))) with (leg (to_b r)).
  destruct (leg (to_b r)) eqn:El.
  { apply (forward_ok up (upcall_n_ok _) B); auto; [apply (live_bound r); [done|congruence]|cbn; congruence]. }
  change (src_eof (to_a (fed B data r))) with (src_eof (to_a r)).
  destruct (src_eof (to_a r)) eqn:Ea; [apply calm_close; [done|done|by intros []|by intros []]|].
  change (preq (fed B data r)) with (preq r).
  destruct (_ <? blen (preq r) + blen data) eqn:Esz; [apply calm_close; [done|done|by intros []|by intros []]|].
  apply Z.ltb_ge in Esz.
  assert (bound r = false) as Hb.
  { destruct (bound r) eqn:Hb; [|done]. pose proof (li_gone r Hl1 Hb El). congruence. }
  by apply queue_preq_ok.
Qed.

(** *** Binding the agent leg *)

(** The state in which the queue of the time before the bind is flushed. *)
Definition bound_with (raw agent : io) (flag : bool) (r : tm_stream) : tm_stream :=
  let r := mod_ A (fun d => match leg d with
                            | None => d <| leg := Some (io_start raw) |> <| base := [] |>
                            | Some _ => d end) r in
  let r := mod_ B (fun d => d <| leg := Some (io_start agent) |> <| base := io_log agent |>
                              <| pend := preq r |> <| flushing := flag |>) r in
  r <| bound := true |> <| preq := [] |>.

Lemma bound_with_ok raw agent flag r : live r -> bound r = false -> io_fresh raw -> io_ok agent ->
  (leg (to_a r) = None -> src_paused (to_b r) = false) -> (flag = true \/ preq r = []) ->
  live (bound_with raw agent flag r) /\ fifo (to_b (bound_with raw agent flag r)).
Proof.
  intros Hl Hb Hraw Hag Hg Hfl.
  destruct (li_pre r Hl Hb) as (P1 & P2 & P3 & P4 & P5 & P6 & P7 & P8 & P9).
  destruct (io_fresh_law raw Hraw) as (F1 & F2 & F3 & F4).
  destruct (io_start_law agent Hag) as (S1 & S2 & S3 & S4).
  assert (fifo (to_b (bound_with raw agent flag r))) as Hq.
  { intros i [= <-] _. cbn. by rewrite S1, P5. }
  split; [|done]. constructor.
  - intros []; cbn.
    + destruct (li_dir r Hl A) as [d1 d2 d3 d4 d5]. cbn in *.
      destruct (leg (to_a r)) as [ia|] eqn:Ea; constructor; cbn; auto.
      * rewrite Ea. auto.
      * rewrite P9. done.
      * by intros i [= <-].
      * intros _ i [= <-] _. cbn. by rewrite F2, P6, P7.
      * rewrite P9. done.
    + destruct (li_dir r Hl B) as [d1 d2 d3 d4 d5]. cbn in *. constructor; cbn; auto.
      * by intros i [= <-].
      * rewrite P3. done.
      * intros Hff Hne. destruct Hfl as [?|Hfl]; [congruence|]. by rewrite Hfl in Hne.
      * intros i Hp Ei. destruct (leg (to_a r)) as [ia|] eqn:Ea.
        -- rewrite Ea in Ei. eauto.
        -- rewrite (Hg eq_refl) in Hp. done.
  - done.
  - done.
  - done.
Qed.

(** The end of [tm_stream_relay_start]. *)
Definition start_end (r : tm_stream) : tm_stream :=
  if negb (blen (pend (to_b r)) =? 0)
  then mod_ B (fun d => d <| src_paused := true |>) (leg_pause A r)
  else if src_paused (to_b r)
  then leg_resume A (mod_ B (fun d => d <| src_paused := false |>) r)
  else r.

(** Fields no invariant speaks of. *)
Definition dress (cap : Z) (r0 r : tm_stream) : tm_stream :=
  mod_ B (fun d => d <| pend_cap := cap |>)
    (r <| sock_b := Open |> <| timer_on := false |> <| preq_cap := if blen (preq r0) =? 0 then preq_cap r0 else 0 |>).

Opaque flush_loop upcall_n.
Lemma attach_unfold raw agent r : closing r = false -> bound r = false ->
  pend (to_b r) = [] -> flushing (to_b r) = false ->
  tm_stream_relay_attach_agent up raw agent r =
  start_end (if negb (blen (preq r) =? 0)
             then mod_ B (fun d => d <| flushing := false |>)
                    (flush_loop up (S (length (preq r))) B (dress (preq_cap r) r (bound_with raw agent true r)))
             else dress (pend_cap (to_b r)) r (bound_with raw agent false r)).
Proof.
  intros Hc Hb Hp Hf. destruct r as [id [la pa pca fa ea fia paa ia ba loa] [lb pb pcb fb eb fib pab ib bb lob]
    sa sb ton tcl bo cl sm ub db pq pqc lk shx ua stk]. cbn in *. subst.
  unfold tm_stream_relay_attach_agent, tm_stream_relay_start, dress, bound_with, flush_pend, start_end.
  destruct pq as [|q pq]; destruct la; reflexivity.
Qed.
Transparent flush_loop upcall_n.

Lemma start_end_empty r : live r -> pend (to_b r) = [] -> nested None r (start_end r).
Proof.
  intros Hl Hp. unfold start_end. rewrite Hp. cbn [blen length Z.of_nat Z.eqb negb].
  destruct (src_paused (to_b r)); [by apply (resume_ok B)|apply nested_refl; by right].
Qed.

Lemma start_end_full r : live r -> pend (to_b r) <> [] -> fifo (to_b r) -> bound r = true ->
  let r' := start_end (mod_ B (fun d => d <| flushing := false |>) r) in
  live r' /\ (forall t, pend (get t r') = pend (get t r)) /\
  flushing (to_b r') = false /\ flushing (to_a r') = flushing (to_a r).
Proof.
  intros Hl Hp Hq Hb. cbv zeta. unfold start_end. cbn [mod_ to_b].
  change (pend (to_b _)) with (pend (to_b r)).
  assert ((blen (pend (to_b r)) =? 0) = false) as -> by (apply Z.eqb_neq; by rewrite blen_0_nil).
  cbn [negb]. set (r1 := mod_ A (fun d => d <| leg ::= fmap io_pause_read |>) r).
  destruct (map_leg_ok A io_pause_read r Hl) as [Hl1 Hn1].
  { intros i Hok. destruct (io_pause_law i Hok) as (? & ? & ? & ?). auto. }
  { intros i Hok _ _. by destruct (io_pause_law i Hok) as (? & ? & ? & ?). }
  fold r1 in Hl1, Hn1.
  assert (live (mod_ B (fun d => d <| flushing := false |> <| src_paused := true |>) r1)) as Hl2.
  { apply live_mod; cbn; auto 8; try congruence.
    - destruct (li_dir r1 Hl1 B) as [d1 d2 d3 d4 d5]. constructor; cbn in *; auto.
      intros i _ Ei. apply fmap_Some in Ei as (j & Ej & ->).
      destruct (io_pause_law j) as (? & ? & ? & ?); [by apply (di_ok _ _ (li_dir r Hl A))|done].
    - destruct (li_dir r1 Hl1 A) as [d1 d2 d3 d4 d5]. by constructor. }
  split_and!; [exact Hl2|by intros []|done|done].
Qed.

(** Flushing the queue of the time before the bind, with any callbacks that respect
    the invariant. *)
Lemma start_flush_ok (up : side -> upcall -> tm_stream -> tm_stream) fuel r :
  (forall s u r, inv r -> nested None r (up s u r)) ->
  live r -> closing r = false -> flushing (to_b r) = true -> fifo (to_b r) -> bound r = true ->
  let r' := start_end (mod_ B (fun d => d <| flushing := false |>) (flush_loop up fuel B r)) in
  live r' /\ closing r' = false /\ bound r' = true /\ flushing (to_b r') = false /\ flushing (to_a r') = flushing (to_a r) /\
  (forall t, src_eof (get t r) = true -> src_eof (get t r') = true) /\
  forall t, (length (pend (get t r')) <= length (pend (get t r)))%nat.
Proof.
  intros Hup Hl Hc Hf Hq Hb. cbv zeta.
  destruct (flush_loop_ok up Hup fuel B r Hl Hc Hf Hq) as (Hn & Hl3 & Hc3 & Hq3 & _).
  set (r3 := flush_loop up _ B r) in *. clearbody r3.
  destruct Hn as [N1 N2 N3 N4 N5 N6 N7 N8 N10 N9].
  assert (bound r3 = true) as Hb3 by congruence.
  assert (forall x, closing (start_end x) = closing x /\ forall t, src_eof (get t (start_end x)) = src_eof (get t x)) as Hse.
  { intros x. unfold start_end. repeat case_match; (split; [done|by intros []]). }
  split; [|split; [by rewrite (proj1 (Hse _))|split; [|split_and!]]].
  - destruct (decide (pend (to_b r3) = [])) as [E|E]; [|by apply (start_end_full r3 Hl3 E Hq3 Hb3)].
    assert (live (mod_ B (fun d => d <| flushing := false |>) r3)) as Hl4.
    { apply set_flushing_ok; [done|done| |congruence]. intros _. split; [done|]. cbn. congruence. }
    destruct (ne_inv _ _ _ (start_end_empty _ Hl4 E)) as [[Hx _]|Hx]; [|done].
    rewrite (proj1 (Hse _)) in Hx. cbn in Hx. congruence.
  - assert (forall x, bound (start_end x) = bound x) as -> by (intros x; unfold start_end; by repeat case_match). done.
  - assert (forall x, flushing (to_b (start_end x)) = flushing (to_b x)) as -> by (intros x; unfold start_end; by repeat case_match). done.
  - assert (forall x, flushing (to_a (start_end x)) = flushing (to_a x)) as -> by (intros x; unfold start_end; by repeat case_match).
    exact (N4 A).
  - intros t He. rewrite (proj2 (Hse _)). apply N8 in He. by destruct t.
  - intros t. assert (forall x, pend (get t (start_end x)) = pend (get t x)) as ->
      by (intros x; unfold start_end; destruct t; by repeat case_match).
    specialize (N10 t). by destruct t.
Qed.

Lemma attach_ok raw agent r : inv r -> (forall t, flushing (get t r) = false) ->
  io_fresh raw -> io_ok agent -> (leg (to_a r) = None -> src_paused (to_b r) = false) ->
  calm B PEND_MAX r (tm_stream_relay_attach_agent up raw agent r).
Proof.
  intros Hi Hfl Hraw Hag Hg.
  assert (0 <= PEND_MAX) as HP by (unfold PEND_MAX, TM_IO_HIGH_WATER; lia).
  destruct (closing r) eqn:Hc; [unfold tm_stream_relay_attach_agent; rewrite Hc; by apply calm_nested, nested_refl|].
  destruct (bound r) eqn:Hb; [unfold tm_stream_relay_attach_agent; rewrite Hb, orb_true_r; by apply calm_nested, nested_refl|].
  destruct Hi as [[? _]|Hl]; [congruence|].
  destruct (li_pre r Hl Hb) as (P1 & P2 & P3 & P4 & P5 & P6 & P7 & P8 & P9).
  rewrite attach_unfold by done.
  destruct (blen (preq r) =? 0) eqn:Eq; cbn [negb].
  - apply Z.eqb_eq, blen_0_nil in Eq.
    destruct (bound_with_ok raw agent false r) as [Hl1 _]; auto.
    set (r1 := bound_with raw agent false r) in *. set (r2 := dress _ _ r1).
    assert (live r2) as Hl2.
    { destruct Hl1 as [Hd H1 H2 H3]. constructor; [|exact H1|exact H2|exact H3].
      intros []; [destruct (Hd A) as [d1 d2 d3 d4 d5]|destruct (Hd B) as [d1 d2 d3 d4 d5]]; by constructor. }
    assert (pend (to_b r2) = []) as Ep by (by subst r2 r1; cbn).
    assert (pend (to_a r2) = [] /\ forall t, flushing (get t r2) = false) as [Epa Hfl2].
    { pose proof (Hfl A) as HA. subst r2 r1. cbn in *.
      destruct (leg (to_a r)); (split; [done|by intros []]). }
    clearbody r2. clear r1 Hl1.
    pose proof (start_end_empty r2 Hl2 Ep) as [N1 N2 N3 N4 N5 N6 N7 N8 N10 N9].
    constructor; [done|..].
    + intros t. by rewrite N4, Hfl, Hfl2.
    + intros t. specialize (N10 t). unfold blen. destruct t; cbn in *; rewrite ?Ep, ?Epa in N10; cbn in N10;
        case_decide; lia.
  - apply Z.eqb_neq in Eq. destruct (bound_with_ok raw agent true r) as [Hl1 Hq1]; auto.
    set (r1 := bound_with raw agent true r) in *. set (r2 := dress _ _ r1).
    assert (live r2) as Hl2.
    { destruct Hl1 as [Hd H1 H2 H3]. constructor; [|exact H1|exact H2|exact H3].
      intros []; [destruct (Hd A) as [d1 d2 d3 d4 d5]|destruct (Hd B) as [d1 d2 d3 d4 d5]]; by constructor. }
    assert (flushing (to_a r2) = false /\ pend (to_a r2) = [] /\ pend (to_b r2) = preq r /\ bound r2 = true)
      as (G1 & G2 & G3 & G4).
    { subst r2 r1. cbn. pose proof (Hfl A) as HA. cbn in HA.
      destruct (leg (to_a r)); cbn; auto. }
    destruct (start_flush_ok up (S (length (preq r))) r2 (upcall_n_ok _) Hl2) as (L1 & L2 & L3 & L4 & L5 & L6 & L7); try done.
    constructor; [by right|..].
    + intros t. rewrite Hfl. destruct t; [exact (eq_trans L5 G1)|exact L4].
    + intros t. specialize (L7 t). unfold blen in *.
      assert (length (pend (get t r2)) = if decide (t = B) then length (preq r) else 0)%nat as E2
        by (destruct t; cbn [get]; by rewrite ?G2, ?G3).
      rewrite E2 in L7. clear -L7 P8. case_decide; lia.
Qed.

(** *** Depth of the callbacks *)

(** What is left for a nested callback to do: close a leg, raise a flag, send a FIN. *)
Definition dir_todo (d : dir) : nat :=
  ((if leg d then 2 else 0) + (if flushing d then 0 else 1) + (if src_fin d then 0 else 1))%nat.
Definition todo (r : tm_stream) : nat := (dir_todo (to_a r) + dir_todo (to_b r))%nat.

Lemma todo_mod s f r : (todo (mod_ s f r) + dir_todo (get s r) = todo r + dir_todo (f (get s r)))%nat.
Proof. unfold todo. destruct s; cbn [mod_ get upd to_a to_b]; cbn; lia. Qed.

Lemma todo_bound r : (todo r <= 8)%nat.
Proof. unfold todo, dir_todo. repeat case_match; lia. Qed.

(** [r'] is still within the fuel, with no more left to do than [r]. *)
Definition fine (r r' : tm_stream) : Prop :=
  stuck r' = stuck r /\ (todo r' <= todo r)%nat.

Lemma fine_trans r1 r2 r3 : fine r1 r2 -> fine r2 r3 -> fine r1 r3.
Proof. unfold fine. intros [? ?] [? ?]. split; [congruence|lia]. Qed.

Lemma fine_mod s f r : (dir_todo (f (get s r)) <= dir_todo (get s r))%nat -> fine r (mod_ s f r).
Proof. intros Hd. pose proof (todo_mod s f r). split; [by destruct s|lia]. Qed.

Lemma fine_close r : fine r (tm_stream_close r).
Proof.
  unfold tm_stream_close. case_match; [by split|]. split; [done|].
  unfold todo, dir_todo. cbn. repeat case_match; lia.
Qed.

Lemma fine_maybe_close r : fine r (stream_maybe_close r).
Proof. unfold stream_maybe_close. repeat (case_match; [by split|]). apply fine_close. Qed.

Section Fuel.
Context (up : side -> upcall -> tm_stream -> tm_stream) (n : nat)
        (Hup : forall s u r, inv r -> nested None r (up s u r))
        (Hn : forall s u r, inv r -> leg (get s r) <> None -> (todo r < n)%nat -> fine r (up s u r)).

Lemma run_up_fine s us : forall r, inv r -> (todo r < n)%nat -> fine r (run_up up s us r).
Proof.
  induction us as [|u us IH]; intros r Hi Ht; [by split|]. cbn.
  destruct (leg (get s r)) eqn:El; [|by apply IH].
  assert (fine r (up s u r)) as Hf by (apply Hn; [done|congruence|done]).
  eapply fine_trans; [exact Hf|]. apply IH; [apply (ne_inv _ _ _ (Hup s u r Hi))|].
  destruct Hf. lia.
Qed.

Lemma leg_shutdown_fine s r : live r -> closing r = false -> (todo r < n)%nat ->
  fine r (leg_shutdown up s r).
Proof.
  intros Hl Hc Ht. unfold leg_shutdown. destruct (leg (get s r)) as [i|] eqn:El; [|by split].
  pose proof (li_dir r Hl s) as Hd. destruct (io_shutdown_law i (di_ok _ _ Hd i El)) as (L1 & L2 & L3 & L4).
  destruct (io_shutdown_send i) as [us i']. cbn [fst snd] in *. set (r1 := mod_ s _ r).
  assert (fine r r1) as Hf by (apply fine_mod; unfold dir_todo; rewrite El; cbn; lia).
  eapply fine_trans; [exact Hf|]. apply run_up_fine; [|destruct Hf; lia].
  right. apply (set_leg_ok s i); auto. intros Hff Hlo. rewrite L1. by apply (di_fifo _ _ Hd Hff).
Qed.

Lemma leg_write_fine s c r : live r -> closing r = false -> flushing (get s r) = true ->
  (todo r < n)%nat -> fine r (snd (leg_write up s c r)).
Proof.
  intros Hl Hc Hf Ht. unfold leg_write. destruct (leg (get s r)) as [i|] eqn:El; [|by split].
  pose proof (io_write_law i c (di_ok _ _ (li_dir r Hl s) i El)) as (_ & L2 & _ & L4).
  destruct (io_write i c) as [[st us] i1]. cbn [fst snd] in *. set (r1 := mod_ s _ r).
  assert (fine r r1) as Hf1 by (apply fine_mod; unfold dir_todo; rewrite El; cbn; lia).
  eapply fine_trans; [exact Hf1|]. apply run_up_fine; [|destruct Hf1; lia].
  right. apply (set_leg_ok s i); auto. congruence.
Qed.

Lemma flush_loop_fine fuel s : forall r, live r -> closing r = false ->
  flushing (get s r) = true -> (length (pend (get s r)) < fuel)%nat -> (todo r < n)%nat ->
  fine r (flush_loop up fuel s r).
Proof.
  induction fuel as [|fuel IH]; intros r Hl Hc Hf Hlen Ht; [lia|]. cbn [flush_loop].
  destruct (blen (pend (get s r)) =? 0) eqn:Ep; [by split|]. apply Z.eqb_neq in Ep.
  assert (pend (get s r) <> []) as Hpn by (intros E; by rewrite E in Ep).
  destruct (leg (get s r)) as [i0|] eqn:El; [|by split].
  set (p := pend (get s r)) in *. set (k := Z.to_nat _).
  assert (1 <= k)%nat as Hk by (subst k; unfold blen in *; case_match; lia).
  clearbody k. pose proof (leg_write_fine s (take k p) r Hl Hc Hf Ht) as Hw.
  destruct (leg_write up s (take k p) r) as [st r1] eqn:Ew. cbn [snd] in Hw.
  destruct (flush_write_ok up Hup s (take k p) r st r1 Hl Hc Hf Hpn)
    as (Hne & Hl1 & Hc1 & Hp1 & _); [congruence|done|].
  assert (flushing (get s r1) = true) as Hf1 by (by rewrite (ne_flush _ _ _ Hne)).
  destruct st; try exact Hw;
    try (eapply fine_trans; [exact Hw|]; apply fine_mod; unfold dir_todo; cbn; lia).
  rewrite Hc1. eapply fine_trans; [exact Hw|].
  destruct (set_pend_ok s (fun d => d <| pend ::= drop k |>) r1 Hl1 Hc1 Hf1) as [Hl2 _];
    [intros d; cbn; auto 10|cbn; apply suffix_drop|].
  set (r2 := mod_ s (fun d => d <| pend ::= drop k |>) r1) in *.
  assert (fine r1 r2) as Hf2 by (apply fine_mod; unfold dir_todo; cbn; lia).
  assert (closing r2 = false /\ flushing (get s r2) = true /\ pend (get s r2) = drop k p) as (Hc2 & Hfl2 & Hp2)
    by (subst r2; autorewrite with rl; cbn; by rewrite Hp1).
  clearbody r2. eapply fine_trans; [exact Hf2|].
  set (r3 := if blen (pend (get s r2)) =? 0 then _ else r2).
  assert (fine r2 r3 /\ live r3 /\ closing r3 = false /\ flushing (get s r3) = true /\
          pend (get s r3) = pend (get s r2)) as (Hf3 & Hl3 & Hc3 & Hfl3 & Hp3).
  { subst r3. destruct (blen _ =? 0); [|by split_and!].
    destruct (set_pend_ok s (fun d => d <| pend_cap := 0 |>) r2 Hl2 Hc2 Hfl2) as [Hl3 _];
      [intros d; cbn; auto 10|done|].
    autorewrite with rl. split_and!; auto. apply fine_mod; unfold dir_todo; cbn; lia. }
  eapply fine_trans; [exact Hf3|]. apply IH; auto.
  - rewrite Hp3, Hp2, length_drop. assert (length p <> 0)%nat by (unfold blen in Ep; lia). lia.
  - destruct Hw, Hf2, Hf3. lia.
Qed.

Lemma flush_pend_fine s r : live r -> closing r = false -> leg (get s r) <> None ->
  (todo r <= n)%nat -> fine r (flush_pend up s r).
Proof.
  intros Hl Hc Hle Ht. unfold flush_pend. destruct (flushing (get s r)) eqn:Hf; [by split|]. cbv zeta.
  set (r1 := mod_ s (fun d => d <| flushing := true |>) r).
  assert (S (todo r1) = todo r /\ stuck r1 = stuck r) as [Ht1 Hs1].
  { split; [|by destruct s]. pose proof (todo_mod s (fun d => d <| flushing := true |>) r) as E. fold r1 in E.
    unfold dir_todo in E at 1 2. cbn in E. rewrite Hf in E. lia. }
  assert (live r1) as Hl1.
  { apply set_flushing_ok; auto; [done|]. intros Hb. by apply (leg_bound s r). }
  assert (closing r1 = false /\ flushing (get s r1) = true) as [Hc1 Hf1] by (subst r1; by autorewrite with rl).
  destruct (flush_loop_fine (S (length (pend (get s r1)))) s r1 Hl1 Hc1 Hf1) as [Hs2 Ht2]; [lia|lia|].
  set (r2 := flush_loop up _ s r1) in *. clearbody r2.
  pose proof (todo_mod s (fun d => d <| flushing := false |>) r2) as E.
  set (r3 := mod_ s (fun d => d <| flushing := false |>) r2) in *.
  assert (stuck r3 = stuck r2) as Hs3 by (by subst r3; destruct s).
  clearbody r3. unfold dir_todo in E. cbn in E.
  split; [congruence|]. destruct (leg (get s r2)), (flushing (get s r2)), (src_fin (get s r2)); lia.
Qed.

Lemma source_ended_fine s r : live r -> closing r = false -> src_eof (get s r) = true ->
  (todo r < n)%nat -> fine r (source_ended up s r).
Proof.
  intros Hl Hc He Ht. unfold source_ended. destruct (leg (get s r)) eqn:El; [|apply fine_maybe_close].
  destruct (flush_pend_ok up Hup s r Hl Hc) as (Hne & Hl1 & Hc1); [congruence|].
  assert (fine r (flush_pend up s r)) as Hf by (apply flush_pend_fine; auto; [congruence|lia]).
  cbv zeta. set (r1 := flush_pend up s r) in *.
  assert (bound r1 = false -> s = A) as Hbd.
  { rewrite (ne_bound _ _ _ Hne). apply leg_bound; [done|congruence]. }
  assert (src_eof (get s r1) = true) as He1 by (by apply (ne_eof _ _ _ Hne)).
  clearbody r1. eapply fine_trans; [exact Hf|].
  destruct (blen (pend (get s r1)) =? 0) eqn:Ep; cbn [negb]; [|apply fine_maybe_close].
  apply Z.eqb_eq, blen_0_nil in Ep.
  set (r2 := mod_ s (fun d => d <| src_fin := true |>) r1).
  assert (fine r1 r2) as Hf2 by (apply fine_mod; unfold dir_todo; cbn; repeat case_match; lia).
  assert (live r2) as Hl2.
  { apply live_mod; auto 8; try done.
    - destruct (li_dir r1 Hl1 s). constructor; cbn; auto.
    - destruct (li_dir r1 Hl1 (other s)). rewrite other_other in *. by constructor. }
  eapply fine_trans; [exact Hf2|]. eapply fine_trans; [|apply fine_maybe_close].
  apply leg_shutdown_fine; [done|subst r2; by autorewrite with rl|destruct Hf, Hf2; lia].
Qed.

Lemma forward_fine s data r : live r -> closing r = false -> flushing (get s r) = false ->
  src_eof (get s r) = false -> bound r = true -> (todo r < n)%nat ->
  fine r (forward up s data (fed s data r)).
Proof.
  intros Hl Hc Hf He Hb Ht. unfold forward.
  assert (forall r0, fine r0 (queue_pend s data r0)) as Hq.
  { intros r0. unfold queue_pend. cbv zeta. set (cap := if _ <? _ then _ else _).
    eapply fine_trans; [|apply fine_mod; unfold dir_todo; cbn; lia].
    eapply fine_trans; apply fine_mod; [unfold dir_todo; cbn; lia|].
    autorewrite with rl. unfold dir_todo. cbn. destruct (leg (get (other s) r0)); cbn; lia. }
  assert (fine r (fed s data r)) as Hfed by (apply fine_mod; unfold dir_todo; cbn; lia).
  autorewrite with rl. change (pend (get s r <| src_in ::= _ |>)) with (pend (get s r)).
  destruct (blen (pend (get s r)) =? 0) eqn:Ep; cbn [negb]; [|by eapply fine_trans].
  apply Z.eqb_eq, blen_0_nil in Ep. unfold leg_write. autorewrite with rl.
  change (leg (get s r <| src_in ::= _ |>)) with (leg (get s r)).
  destruct (leg (get s r)) as [i|] eqn:El; [|eapply fine_trans; [exact Hfed|apply fine_close]].
  pose proof (li_dir r Hl s) as Hd.
  pose proof (io_write_law i data (di_ok _ _ Hd i El)) as (L1 & L2 & L3 & L4).
  destruct (io_write i data) as [[st us] i1]. cbn [fst snd] in *.
  set (r1 := mod_ s (fun d => d <| leg := Some i1 |>) (fed s data r)).
  assert (fine r r1) as Hf1.
  { eapply fine_trans; [exact Hfed|]. apply fine_mod. autorewrite with rl. unfold dir_todo. cbn.
    rewrite El. lia. }
  destruct st; try (destruct L1 as [L1 ->]; cbn [run_up fold_left]).
  2-7,9-12: eapply fine_trans; [exact Hf1|apply fine_close].
  - destruct L1 as [L1 _]. eapply fine_trans; [exact Hf1|]. apply run_up_fine; [|destruct Hf1; lia].
    right. apply (accepted_ok s i); auto.
    destruct (src_fin (get s r)) eqn:E; [|done]. destruct (di_fin _ _ Hd E). congruence.
  - by eapply fine_trans.
Qed.

Lemma relay_eof_fine s r : inv r -> (todo r < n)%nat -> fine r (relay_eof up s r).
Proof.
  intros Hi Ht. unfold relay_eof. destruct (closing r) eqn:Hc; [by split|].
  destruct Hi as [[? _]|Hl]; [congruence|]. destruct (set_eof_ok (other s) r Hl Hc) as [Hl1 _].
  set (r1 := mod_ (other s) _ r) in *.
  assert (fine r r1) as Hf by (apply fine_mod; unfold dir_todo; cbn; lia).
  eapply fine_trans; [exact Hf|]. destruct Hf.
  apply source_ended_fine; subst r1; autorewrite with rl; auto; lia.
Qed.

Lemma relay_error_fine s r : inv r ->
  (todo r < n)%nat \/ (leg (get s r) <> None /\ (todo r <= n)%nat) -> fine r (relay_error up s r).
Proof.
  intros Hi Ht. unfold relay_error. destruct (closing r) eqn:Hc; [by split|].
  destruct Hi as [[? _]|Hl]; [congruence|]. cbv zeta. rewrite mod_comm.
  destruct (set_eof_ok (other s) r Hl Hc) as [Hl1 _].
  set (r1 := mod_ (other s) _ r) in *.
  assert (fine r r1) as Hf by (apply fine_mod; unfold dir_todo; cbn; lia).
  assert (get s r1 = get s r) as Eg by (subst r1; by autorewrite with rl).
  destruct (drop_leg_ok s r1 Hl1) as [Hl2 _]; [subst r1; by autorewrite with rl|].
  pose proof (todo_mod s (fun d => d <| leg := None |>) r1) as E.
  set (r2 := mod_ s (fun d => d <| leg := None |>) r1) in *.
  assert (fine r1 r2) as Hf2.
  { split; [by subst r2; destruct s|]. clearbody r2. unfold dir_todo in E. cbn in E. case_match; lia. }
  assert (todo r2 < n)%nat as Ht2.
  { destruct Hf, Hf2. destruct Ht as [?|[Hle ?]]; [lia|]. unfold dir_todo in E. rewrite Eg in E. cbn in E.
    destruct (leg (get s r)); [lia|done]. }
  eapply fine_trans; [exact Hf|]. eapply fine_trans; [exact Hf2|].
  apply source_ended_fine; auto; subst r2 r1; by autorewrite with rl.
Qed.

Lemma relay_low_fine s r : inv r -> (todo r <= n)%nat -> fine r (relay_low up s r).
Proof.
  intros Hi Ht. unfold relay_low. destruct (closing r) eqn:Hc; [by split|].
  destruct Hi as [[? _]|Hl]; [congruence|].
  destruct (leg (get s r)) eqn:El; [|apply fine_maybe_close].
  destruct (flush_pend_ok up Hup s r Hl Hc) as (Hne & Hl1 & Hc1); [congruence|].
  assert (fine r (flush_pend up s r)) as Hf by (apply flush_pend_fine; auto; congruence).
  assert (bound r = false -> s = A) as Hbd by (apply leg_bound; [done|congruence]).
  rewrite <- (ne_bound _ _ _ Hne) in Hbd.
  cbv zeta. set (r1 := flush_pend up s r) in *. clearbody r1.
  eapply fine_trans; [exact Hf|]. destruct Hf as [_ Ht1].
  destruct (blen (pend (get s r1)) =? 0) eqn:Ep; cbn [negb]; [|apply fine_maybe_close].
  apply Z.eqb_eq, blen_0_nil in Ep.
  set (r2 := if src_eof _ && _ then _ else r1).
  assert (fine r1 r2) as Hf2.
  { subst r2. destruct (src_eof (get s r1)) eqn:He; cbn [andb]; [|by split].
    destruct (src_fin (get s r1)) eqn:Hfin; cbn [negb]; [by split|].
    pose proof (todo_mod s (fun d => d <| src_fin := true |>) r1) as E.
    set (r2 := mod_ s (fun d => d <| src_fin := true |>) r1) in *.
    assert (live r2 /\ closing r2 = false /\ stuck r2 = stuck r1) as (Hl2 & Hc2 & Hs2).
    { split_and!; [|subst r2; by autorewrite with rl|by subst r2; destruct s].
      apply live_mod; auto 8; try done.
      - destruct (li_dir r1 Hl1 s). constructor; cbn; auto.
      - destruct (li_dir r1 Hl1 (other s)). rewrite other_other in *. by constructor. }
    clearbody r2. unfold dir_todo in E. cbn in E. rewrite Hfin in E.
    eapply fine_trans; [|apply leg_shutdown_fine]; auto; [split; [done|]|]; case_match; lia. }
  clearbody r2. eapply fine_trans; [exact Hf2|]. eapply fine_trans; [|apply fine_maybe_close].
  destruct (src_paused _ && _); [|by split].
  eapply fine_trans; apply fine_mod; [unfold dir_todo; cbn; lia|].
  autorewrite with rl. unfold dir_todo. cbn. destruct (leg (get (other s) r2)); cbn; lia.
Qed.

End Fuel.

Lemma upcall_n_fine n : forall s u r, inv r -> leg (get s r) <> None -> (todo r < n)%nat ->
  fine r (upcall_n n s u r).
Proof.
  induction n as [|n IH]; intros s u r Hi Hle Ht; [lia|]. cbn [upcall_n]. destruct u.
  - apply relay_low_fine with (n := n); auto; [apply upcall_n_ok|lia].
  - apply relay_error_fine with (n := n); auto; [apply upcall_n_ok|right; split; [done|lia]].
Qed.

Lemma deep_enough r : (todo r < relay_depth)%nat.
Proof. pose proof (todo_bound r). unfold relay_depth. lia. Qed.

(** ** Runs of a stream *)

(** The events of a stream, in any order: data, end and failure of either leg, its
    low-water mark, work of the transports, the bind of the agent leg, the bind
    timeout, and a close from outside.  A leg delivers nothing after its end.  With
    [obey] a leg that is paused delivers nothing either, and no chunk is larger than
    the largest buffer a reader hands over; with [unended] the agent leg that binds
    has not been told to end (in the program only a relay tells a leg to end).  The
    consumer leg is there, or has not been made yet, when the agent binds. *)
Inductive relay_step (obey unended : bool) : tm_stream -> tm_stream -> Prop :=
  | RsReadA data r : src_eof (to_b r) = false ->
      (obey = true -> blen data <= PEND_MAX /\
         forall i, leg (to_a r) = Some i -> io_paused i = false) ->
      (obey = true -> leg (to_a r) <> None) ->
      relay_step obey unended r (relay_a_read up data r)
  | RsReadB data r : src_eof (to_a r) = false -> leg (to_b r) <> None ->
      (obey = true -> blen data <= PEND_MAX /\
         forall i, leg (to_b r) = Some i -> io_paused i = false) ->
      relay_step obey unended r (relay_b_read up data r)
  | RsEofA r : relay_step obey unended r (relay_a_eof r)
  | RsEofB r : relay_step obey unended r (relay_b_eof r)
  | RsErrorA r : relay_step obey unended r (relay_a_error r)
  | RsErrorB r : relay_step obey unended r (relay_b_error r)
  | RsLowA r : relay_step obey unended r (relay_a_low r)
  | RsLowB r : relay_step obey unended r (relay_b_low r)
  | RsMove s i i' r : leg (get s r) = Some i -> io_moves i i' ->
      relay_step obey unended r (mod_ s (fun d => d <| leg := Some i' |>) r)
  | RsAttach raw agent r : io_fresh raw -> io_ok agent ->
      (unended = true -> io_shut agent = false) ->
      (leg (to_a r) = None -> src_paused (to_b r) = false) ->
      relay_step obey unended r (tm_stream_relay_attach_agent up raw agent r)
  | RsTimer r : relay_step obey unended r (stream_bind_timer_cb r)
  | RsClose r : relay_step obey unended r (tm_stream_close r).

Definition relay_run (obey : bool) : tm_stream -> tm_stream -> Prop := rtc (relay_step obey false).
Definition unended_run : tm_stream -> tm_stream -> Prop := rtc (relay_step false true).

(** Between two events. *)
Record quiet (r : tm_stream) : Prop := {
  qu_inv : inv r;
  qu_flush t : flushing (get t r) = false;
  qu_stuck : stuck r = false;
}.

Lemma quiet_calm x n r r' : quiet r -> calm x n r r' -> stuck r' = stuck r -> quiet r'.
Proof.
  intros [Q1 Q2 Q3] [C1 C2 C3] Hs. constructor; [done| |congruence]. intros t. by rewrite C2.
Qed.

Lemma attach_stuck raw agent r : quiet r -> io_fresh raw -> io_ok agent ->
  (leg (to_a r) = None -> src_paused (to_b r) = false) ->
  stuck (tm_stream_relay_attach_agent up raw agent r) = stuck r.
Proof.
  intros [Hi Hfl Hst] Hraw Hag Hg.
  destruct (closing r) eqn:Hc; [unfold tm_stream_relay_attach_agent; by rewrite Hc|].
  destruct (bound r) eqn:Hb; [unfold tm_stream_relay_attach_agent; by rewrite Hb, orb_true_r|].
  destruct Hi as [[? _]|Hl]; [congruence|].
  destruct (li_pre r Hl Hb) as (P1 & P2 & P3 & P4 & P5 & P6 & P7 & P8 & P9).
  rewrite attach_unfold by done.
  assert (forall x, stuck (start_end x) = stuck x) as Hse.
  { intros x. unfold start_end. by repeat case_match. }
  rewrite Hse. destruct (blen (preq r) =? 0) eqn:Eq; cbn [negb]; [done|].
  destruct (bound_with_ok raw agent true r) as [Hl1 Hq1]; auto.
  set (r1 := bound_with raw agent true r) in *. set (r2 := dress _ _ r1).
  assert (live r2) as Hl2.
  { destruct Hl1 as [Hd H1 H2 H3]. constructor; [|exact H1|exact H2|exact H3].
    intros []; [destruct (Hd A) as [d1 d2 d3 d4 d5]|destruct (Hd B) as [d1 d2 d3 d4 d5]]; by constructor. }
  destruct (flush_loop_fine up relay_depth (upcall_n_ok _) (upcall_n_fine _)
    (S (length (preq r))) B r2 Hl2 Hc) as [Hs _].
  { done. } { cbn. lia. } { apply deep_enough. }
  change (stuck (flush_loop up (S (length (preq r))) B r2) = stuck r). by rewrite Hs.
Qed.

Lemma read_stuck data r : quiet r ->
  (src_eof (to_b r) = false -> stuck (relay_a_read up data r) = stuck r) /\
  (src_eof (to_a r) = false -> leg (to_b r) <> None -> stuck (relay_b_read up data r) = stuck r).
Proof.
  intros [Hi Hfl Hst]. split.
  - intros He. unfold relay_a_read. destruct (closing r) eqn:Hc; [done|]. cbv zeta.
    destruct Hi as [[? _]|Hl]; [congruence|].
    set (r1 := r <| sh ::= _ |> <| up_bytes ::= _ |>).
    destruct (nested_flags r r1) as [_ Hl1]; [by right|by intros []|done|done|done|].
    assert (forall x, stuck (tm_stream_close x) = stuck x) as Hcl by (intros x; apply fine_close).
    change (leg (to_b (fed B data r1))) with (leg (to_b r)).
    destruct (leg (to_b r)) eqn:El.
    + destruct (forward_fine up relay_depth (upcall_n_ok _) (upcall_n_fine _) B data r1) as [-> _]; auto;
        [exact (Hfl B)|apply (live_bound r); [done|congruence]|apply deep_enough].
    + unfold queue_preq. repeat case_match; rewrite ?Hcl; done.
  - intros He Hle. unfold relay_b_read. destruct (closing r) eqn:Hc; [done|]. cbv zeta.
    destruct Hi as [[? _]|Hl]; [congruence|].
    set (r1 := r <| sh ::= _ |> <| down_bytes ::= _ |>).
    destruct (nested_flags r r1) as [_ Hl1]; [by right|by intros []|done|done|done|].
    assert (forall x, stuck (tm_stream_close x) = stuck x) as Hcl by (intros x; apply fine_close).
    change (leg (to_a (fed A data r1))) with (leg (to_a r)).
    destruct (leg (to_a r)) eqn:El; [|by rewrite Hcl].
    destruct (forward_fine up relay_depth (upcall_n_ok _) (upcall_n_fine _) A data r1) as [-> _]; auto;
      [exact (Hfl A)|by apply (live_bound r)|apply deep_enough].
Qed.

Lemma relay_step_quiet obey un r r' : relay_step obey un r r' -> quiet r -> quiet r'.
Proof.
  intros Hst Hq. pose proof Hq as [Hi Hfl Hs].
  assert (forall x, nested None r x -> fine r x -> quiet x) as Hnf.
  { intros x Hn [Hx _]. apply (quiet_calm A 0 r); auto. by apply calm_nested. }
  assert (Hok := upcall_n_ok relay_depth). assert (Hfi := upcall_n_fine relay_depth).
  pose proof (deep_enough r) as Hde.
  destruct Hst as [data r He|data r He Hle|r|r|r|r|r|r|s i i' r El Hm|raw agent r Hr Ha _ Hg|r|r].
  - eapply (quiet_calm _ (blen data)); [done|apply relay_a_read_ok; [done|apply (Hfl B)|done]|].
    by apply (read_stuck data r Hq).
  - eapply (quiet_calm _ (blen data)); [done|apply relay_b_read_ok; [done|apply (Hfl A)|done|done]|].
    by apply (read_stuck data r Hq).
  - apply Hnf; [by apply relay_eof_ok|by apply (relay_eof_fine _ relay_depth)].
  - apply Hnf; [by apply relay_eof_ok|by apply (relay_eof_fine _ relay_depth)].
  - apply Hnf; [by apply relay_error_ok|apply (relay_error_fine _ relay_depth); auto].
  - apply Hnf; [by apply relay_error_ok|apply (relay_error_fine _ relay_depth); auto].
  - apply Hnf; [by apply relay_low_ok|apply (relay_low_fine _ relay_depth); auto; lia].
  - apply Hnf; [by apply relay_low_ok|apply (relay_low_fine _ relay_depth); auto; lia].
  - destruct Hi as [[_ Hn]|Hl]; [by rewrite Hn in El|].
    pose proof (li_dir r Hl s) as Hd.
    destruct (io_moves_law i i' Hm (di_ok _ _ Hd i El)) as (M1 & M2 & M3 & M4).
    constructor; [|by_side s; autorewrite with rl; auto|by destruct s]. 2: apply (Hfl s).
    right. apply (set_leg_ok s i); auto.
    intros _ Hlo. rewrite M1. by apply (di_fifo _ _ Hd (Hfl s)).
  - eapply (quiet_calm B PEND_MAX); [done|by apply attach_ok|by apply attach_stuck].
  - unfold stream_bind_timer_cb. case_match; [done|].
    constructor; [by apply inv_close|intros t; by rewrite flushing_close|]. by rewrite (proj1 (fine_close r)).
  - constructor; [by apply inv_close|intros t; by rewrite flushing_close|]. by rewrite (proj1 (fine_close r)).
Qed.

(** ** The FIN of a leg

    A leg is told to end only when its source has ended and nothing waits for it. *)

Definition fin_last (d : dir) : Prop :=
  forall i, leg d = Some i -> io_ok i /\ (io_shut i = true -> src_eof d = true /\ pend d = []).
Definition fins (r : tm_stream) : Prop := forall s, fin_last (get s r).

Lemma fins_flags r r' : (forall s, get s r' = get s r) -> fins r -> fins r'.
Proof. intros E Hf s. rewrite E. apply Hf. Qed.

Lemma fins_mod s f r : fins r -> fin_last (f (get s r)) -> fins (mod_ s f r).
Proof. intros Hf Hd. red. by_side s; autorewrite with rl; auto; apply Hf. Qed.

(** Steps that keep the leg, or let it go. *)
Lemma fins_keep s f r : fins r -> (leg (f (get s r)) = leg (get s r) \/ leg (f (get s r)) = None) ->
  (src_eof (get s r) = true -> src_eof (f (get s r)) = true) ->
  (pend (get s r) = [] -> pend (f (get s r)) = []) -> fins (mod_ s f r).
Proof.
  intros Hf Hl He Hp. apply fins_mod; [done|]. intros i Ei. destruct Hl as [El|El]; [|congruence].
  rewrite El in Ei. destruct (Hf s i Ei) as [Hok Hs]. split; [done|]. intros E. destruct (Hs E). auto.
Qed.

(** Work on the leg itself. *)
Lemma fins_leg s i i' r : fins r -> leg (get s r) = Some i -> io_ok i' -> io_shut i' = io_shut i ->
  fins (mod_ s (fun d => d <| leg := Some i' |>) r).
Proof.
  intros Hf El Hok Es. apply fins_mod; [done|]. intros j [= <-]. split; [done|]. rewrite Es. by apply (Hf s i).
Qed.

Lemma fins_map s g r : (forall i, io_ok i -> io_ok (g i) /\ io_shut (g i) = io_shut i) -> fins r ->
  fins (mod_ s (fun d => d <| leg ::= fmap g |>) r).
Proof.
  intros Hg Hf. apply fins_mod; [done|]. intros j Ej. cbn in Ej. apply fmap_Some in Ej as (i & Ei & ->).
  destruct (Hf s i Ei) as [Hok Hs]. destruct (Hg i Hok) as [? ->]. auto.
Qed.

Lemma pause_keeps i : io_ok i -> io_ok (io_pause_read i) /\ io_shut (io_pause_read i) = io_shut i.
Proof. intros Hok. by destruct (io_pause_law i Hok) as (? & ? & ? & ?). Qed.
Lemma resume_keeps i : io_ok i -> io_ok (io_resume_read i) /\ io_shut (io_resume_read i) = io_shut i.
Proof. intros Hok. by destruct (io_resume_law i Hok) as (? & ? & ? & ?). Qed.
Lemma start_keeps i : io_ok i -> io_ok (io_start i) /\ io_shut (io_start i) = io_shut i.
Proof. intros Hok. by destruct (io_start_law i Hok) as (? & ? & ? & ?). Qed.

Lemma fins_close r : fins r -> fins (tm_stream_close r).
Proof.
  intros Hf. destruct (closing r) eqn:Hc; [unfold tm_stream_close; by rewrite Hc|].
  intros s i Ei. destruct (get_close s r Hc) as (E & _). congruence.
Qed.
Lemma fins_maybe_close r : fins r -> fins (stream_maybe_close r).
Proof. intros Hf. unfold stream_maybe_close. repeat (case_match; [done|]). by apply fins_close. Qed.

Section Fins.
Context (up : side -> upcall -> tm_stream -> tm_stream)
        (Hup : forall s u r, inv r -> nested None r (up s u r))
        (Hf : forall s u r, inv r -> fins r -> fins (up s u r)).

Lemma run_up_fins s us : forall r, inv r -> fins r -> fins (run_up up s us r).
Proof.
  induction us as [|u us IH]; intros r Hi Hr; [done|]. cbn.
  destruct (leg (get s r)); [|by apply IH]. apply IH; [apply (ne_inv _ _ _ (Hup s u r Hi))|by apply Hf].
Qed.

Lemma leg_shutdown_fins s r : live r -> fins r -> src_eof (get s r) = true -> pend (get s r) = [] ->
  fins (leg_shutdown up s r).
Proof.
  intros Hl Hr He Hp. unfold leg_shutdown. destruct (leg (get s r)) as [i|] eqn:El; [|done].
  pose proof (li_dir r Hl s) as Hd. destruct (io_shutdown_law i (di_ok _ _ Hd i El)) as (L1 & L2 & L3 & L4).
  destruct (io_shutdown_send i) as [us i']. cbn [fst snd] in *. apply run_up_fins.
  - right. apply (set_leg_ok s i); auto. intros Hff Hlo. rewrite L1. by apply (di_fifo _ _ Hd Hff).
  - apply fins_mod; [done|]. by intros j [= <-].
Qed.

Lemma leg_write_fins s c r : live r -> flushing (get s r) = true -> fins r -> fins (snd (leg_write up s c r)).
Proof.
  intros Hl Hfl Hr. unfold leg_write. destruct (leg (get s r)) as [i|] eqn:El; [|done].
  pose proof (io_write_law i c (di_ok _ _ (li_dir r Hl s) i El)) as (_ & L2 & L3 & L4).
  destruct (io_write i c) as [[st us] i1]. cbn [fst snd] in *. apply run_up_fins.
  - right. apply (set_leg_ok s i); auto. congruence.
  - by apply (fins_leg s i).
Qed.

Lemma flush_loop_fins fuel s : forall r, live r -> closing r = false -> flushing (get s r) = true -> fins r ->
  fins (flush_loop up fuel s r).
Proof.
  induction fuel as [|fuel IH]; intros r Hl Hc Hfl Hr; cbn [flush_loop].
  { by apply (fins_flags r); [intros []|]. }
  destruct (blen (pend (get s r)) =? 0) eqn:Ep; [done|]. apply Z.eqb_neq in Ep.
  assert (pend (get s r) <> []) as Hpn by (intros E; by rewrite E in Ep).
  destruct (leg (get s r)) as [i0|] eqn:El; [|by apply (fins_flags r); [intros []|]].
  set (p := pend (get s r)) in *. set (k := Z.to_nat _). clearbody k.
  pose proof (leg_write_fins s (take k p) r Hl Hfl Hr) as Hw.
  destruct (leg_write up s (take k p) r) as [st r1] eqn:Ew. cbn [snd] in Hw.
  destruct (flush_write_ok up Hup s (take k p) r st r1 Hl Hc Hfl Hpn)
    as (Hne & Hl1 & Hc1 & Hp1 & _); [congruence|done|].
  assert (flushing (get s r1) = true) as Hf1 by (by rewrite (ne_flush _ _ _ Hne)).
  destruct st; try exact Hw; try (apply fins_keep; auto; fail).
  rewrite Hc1.
  destruct (set_pend_ok s (fun d => d <| pend ::= drop k |>) r1 Hl1 Hc1 Hf1) as [Hl2 _];
    [intros d; cbn; auto 10|cbn; apply suffix_drop|].
  set (r2 := mod_ s (fun d => d <| pend ::= drop k |>) r1) in *.
  assert (fins r2) as Hr2.
  { apply fins_keep; cbn; auto. intros ->. apply drop_nil. }
  assert (closing r2 = false /\ flushing (get s r2) = true) as (Hc2 & Hfl2)
    by (subst r2; by autorewrite with rl).
  clearbody r2. destruct (blen (pend (get s r2)) =? 0); [|by apply IH].
  destruct (set_pend_ok s (fun d => d <| pend_cap := 0 |>) r2 Hl2 Hc2 Hfl2) as [Hl3 _];
    [intros d; cbn; auto 10|done|].
  apply IH; autorewrite with rl; auto. apply fins_keep; auto.
Qed.

Lemma flush_pend_fins s r : live r -> closing r = false -> leg (get s r) <> None -> fins r ->
  fins (flush_pend up s r).
Proof.
  intros Hl Hc Hle Hr. unfold flush_pend. destruct (flushing (get s r)) eqn:Hff; [done|]. cbv zeta.
  apply fins_keep; auto. set (r1 := mod_ s (fun d => d <| flushing := true |>) r).
  apply flush_loop_fins; subst r1; autorewrite with rl; auto.
  - apply set_flushing_ok; auto; [done|]. intros Hb. by apply (leg_bound s r).
  - apply fins_keep; auto.
Qed.

(** Setting the flag and telling the leg to end. *)
Lemma shut_fins s r : live r -> closing r = false -> pend (get s r) = [] -> src_eof (get s r) = true ->
  (bound r = false -> s = A) -> fins r ->
  fins (leg_shutdown up s (mod_ s (fun d => d <| src_fin := true |>) r)).
Proof.
  intros Hl Hc Hp He Hbd Hr. apply leg_shutdown_fins; autorewrite with rl; auto.
  - apply live_mod; auto 8; try done.
    + destruct (li_dir r Hl s). constructor; cbn; auto.
    + destruct (li_dir r Hl (other s)). rewrite other_other in *. by constructor.
  - apply fins_keep; auto.
Qed.

Lemma source_ended_fins s r : live r -> closing r = false -> src_eof (get s r) = true -> fins r ->
  fins (source_ended up s r).
Proof.
  intros Hl Hc He Hr. unfold source_ended. destruct (leg (get s r)) eqn:El; [|by apply fins_maybe_close].
  destruct (flush_pend_ok up Hup s r Hl Hc) as (Hne & Hl1 & Hc1); [congruence|].
  assert (fins (flush_pend up s r)) as Hr1 by (apply flush_pend_fins; auto; congruence).
  cbv zeta. set (r1 := flush_pend up s r) in *.
  assert (bound r1 = false -> s = A) as Hbd.
  { rewrite (ne_bound _ _ _ Hne). apply leg_bound; [done|congruence]. }
  assert (src_eof (get s r1) = true) as He1 by (by apply (ne_eof _ _ _ Hne)).
  clearbody r1. destruct (blen (pend (get s r1)) =? 0) eqn:Ep; cbn [negb]; [|by apply fins_maybe_close].
  apply Z.eqb_eq, blen_0_nil in Ep. by apply fins_maybe_close, shut_fins.
Qed.

Lemma relay_eof_fins s r : inv r -> fins r -> fins (relay_eof up s r).
Proof.
  intros Hi Hr. unfold relay_eof. destruct (closing r) eqn:Hc; [done|].
  destruct Hi as [[? _]|Hl]; [congruence|]. destruct (set_eof_ok (other s) r Hl Hc) as [Hl1 _].
  apply source_ended_fins; autorewrite with rl; auto. apply fins_keep; auto.
Qed.

Lemma relay_error_fins s r : inv r -> fins r -> fins (relay_error up s r).
Proof.
  intros Hi Hr. unfold relay_error. destruct (closing r) eqn:Hc; [done|].
  destruct Hi as [[? _]|Hl]; [congruence|]. cbv zeta. rewrite mod_comm.
  destruct (set_eof_ok (other s) r Hl Hc) as [Hl1 _]. set (r1 := mod_ (other s) _ r) in *.
  destruct (drop_leg_ok s r1 Hl1) as [Hl2 _]; [subst r1; by autorewrite with rl|].
  apply source_ended_fins; subst r1; autorewrite with rl; auto.
  apply fins_keep; auto. apply fins_keep; auto.
Qed.

Lemma relay_low_fins s r : inv r -> fins r -> fins (relay_low up s r).
Proof.
  intros Hi Hr. unfold relay_low. destruct (closing r) eqn:Hc; [done|].
  destruct Hi as [[? _]|Hl]; [congruence|].
  destruct (leg (get s r)) eqn:El; [|by apply fins_maybe_close].
  destruct (flush_pend_ok up Hup s r Hl Hc) as (Hne & Hl1 & Hc1); [congruence|].
  assert (fins (flush_pend up s r)) as Hr1 by (apply flush_pend_fins; auto; congruence).
  assert (bound r = false -> s = A) as Hbd by (apply leg_bound; [done|congruence]).
  rewrite <- (ne_bound _ _ _ Hne) in Hbd.
  cbv zeta. set (r1 := flush_pend up s r) in *. clearbody r1.
  destruct (blen (pend (get s r1)) =? 0) eqn:Ep; cbn [negb]; [|by apply fins_maybe_close].
  apply Z.eqb_eq, blen_0_nil in Ep. apply fins_maybe_close.
  set (r2 := if src_eof _ && _ then _ else r1).
  assert (fins r2) as Hr2.
  { subst r2. destruct (src_eof (get s r1)) eqn:He; cbn [andb]; [|done]. case_match; [by apply shut_fins|done]. }
  clearbody r2. destruct (src_paused _ && _); [|done]. unfold leg_resume.
  apply fins_map; [apply resume_keeps|]. apply fins_keep; auto.
Qed.

Lemma queue_pend_fins s data r : fins r -> src_eof (get s r) = false -> fins (queue_pend s data r).
Proof.
  intros Hr He. unfold queue_pend. cbv zeta. set (cap := if _ <? _ then _ else _). clearbody cap.
  apply fins_keep; auto. unfold leg_pause. apply fins_map; [apply pause_keeps|].
  apply fins_mod; [done|]. intros i Ei. destruct (Hr s i Ei) as [Hok Hs]. split; [done|].
  intros E. destruct (Hs E). congruence.
Qed.

(** Data of a source that has not ended. *)
Lemma forward_fins s data r : live r -> closing r = false -> flushing (get s r) = false ->
  src_eof (get s r) = false -> bound r = true -> fins r -> fins (forward up s data (fed s data r)).
Proof.
  intros Hl Hc Hff He Hb Hr.
  assert (fins (fed s data r)) as Hr0 by (apply fins_keep; auto).
  assert (src_eof (get s (fed s data r)) = false) as He0 by (by autorewrite with rl).
  unfold forward. autorewrite with rl. change (pend (get s r <| src_in ::= _ |>)) with (pend (get s r)).
  destruct (blen (pend (get s r)) =? 0) eqn:Ep; cbn [negb]; [|by apply queue_pend_fins].
  apply Z.eqb_eq, blen_0_nil in Ep. unfold leg_write. autorewrite with rl.
  change (leg (get s r <| src_in ::= _ |>)) with (leg (get s r)).
  destruct (leg (get s r)) as [i|] eqn:El; [|by apply fins_close].
  pose proof (li_dir r Hl s) as Hd.
  pose proof (io_write_law i data (di_ok _ _ Hd i El)) as (L1 & L2 & L3 & L4).
  destruct (io_write i data) as [[st us] i1]. cbn [fst snd] in *.
  assert (fins (mod_ s (fun d => d <| leg := Some i1 |>) (fed s data r))) as Hr1.
  { apply (fins_leg s i); autorewrite with rl; auto. }
  destruct st; try (destruct L1 as [L1 ->]; cbn [run_up fold_left]).
  2-7,9-12: by apply fins_close.
  - destruct L1 as [L1 _]. apply run_up_fins; [|done]. right. apply (accepted_ok s i); auto.
    destruct (src_fin (get s r)) eqn:E; [|done]. destruct (di_fin _ _ Hd E). congruence.
  - apply queue_pend_fins; [done|by autorewrite with rl].
Qed.

End Fins.

Lemma upcall_n_fins n : forall s u r, inv r -> fins r -> fins (upcall_n n s u r).
Proof.
  induction n as [|n IH]; intros s u r Hi Hr; cbn [upcall_n].
  - by apply (fins_flags r); [intros []|].
  - destruct u; [apply relay_low_fins|apply relay_error_fins]; auto using upcall_n_ok.
Qed.

Lemma queue_preq_fins data r : fins r -> fins (queue_preq data r).
Proof.
  intros Hr. unfold queue_preq. cbv zeta. set (r2 := r <| preq ::= _ |> <| preq_cap := _ |>).
  assert (fins r2) as Hr2 by (by apply (fins_flags r); [intros []|]). clearbody r2.
  destruct (_ <=? _); [|done]. apply fins_keep; auto. apply fins_map; [apply pause_keeps|done].
Qed.

Lemma relay_a_read_fins data r : inv r -> flushing (to_b r) = false -> src_eof (to_b r) = false -> fins r ->
  fins (relay_a_read up data r).
Proof.
  intros Hi Hff He Hr. unfold relay_a_read. destruct (closing r) eqn:Hc; [done|].
  destruct Hi as [[? _]|Hl]; [congruence|]. cbv zeta. set (r1 := r <| sh ::= _ |> <| up_bytes ::= _ |>).
  destruct (nested_flags r r1) as [_ Hl1]; [by right|by intros []|done|done|done|].
  assert (fins r1) as Hr1 by (by apply (fins_flags r); [intros []|]).
  assert (fins (fed B data r1)) as Hr2 by (apply fins_keep; auto).
  change (leg (to_b (fed B data r1))) with (leg (to_b r)).
  destruct (leg (to_b r)) eqn:El.
  - apply forward_fins; auto using upcall_n_ok, upcall_n_fins. apply (live_bound r); [done|congruence].
  - destruct (src_eof (to_a _)); [by apply fins_close|]. destruct (_ <? _); [by apply fins_close|].
    by apply queue_preq_fins.
Qed.

Lemma relay_b_read_fins data r : inv r -> flushing (to_a r) = false -> src_eof (to_a r) = false ->
  leg (to_b r) <> None -> fins r -> fins (relay_b_read up data r).
Proof.
  intros Hi Hff He Hle Hr. unfold relay_b_read. destruct (closing r) eqn:Hc; [done|].
  destruct Hi as [[? _]|Hl]; [congruence|]. cbv zeta. set (r1 := r <| sh ::= _ |> <| down_bytes ::= _ |>).
  destruct (nested_flags r r1) as [_ Hl1]; [by right|by intros []|done|done|done|].
  assert (fins r1) as Hr1 by (by apply (fins_flags r); [intros []|]).
  assert (fins (fed A data r1)) as Hr2 by (apply fins_keep; auto).
  change (leg (to_a (fed A data r1))) with (leg (to_a r)).
  destruct (leg (to_a r)) eqn:El; [|by apply fins_close].
  apply forward_fins; auto using upcall_n_ok, upcall_n_fins. by apply (live_bound r).
Qed.

Lemma start_end_fins r : fins r -> fins (start_end r).
Proof.
  intros Hr. unfold start_end. destruct (negb _).
  - apply fins_keep; auto. apply fins_map; [apply pause_keeps|done].
  - destruct (src_paused _); [|done]. apply fins_map; [apply resume_keeps|]. apply fins_keep; auto.
Qed.

Lemma attach_fins raw agent r : quiet r -> io_fresh raw -> io_ok agent -> io_shut agent = false ->
  (leg (to_a r) = None -> src_paused (to_b r) = false) -> fins r ->
  fins (tm_stream_relay_attach_agent up raw agent r).
Proof.
  intros [Hi Hfl Hst] Hraw Hag Hsh Hg Hr.
  destruct (closing r) eqn:Hc; [unfold tm_stream_relay_attach_agent; by rewrite Hc|].
  destruct (bound r) eqn:Hb; [unfold tm_stream_relay_attach_agent; by rewrite Hb, orb_true_r|].
  destruct Hi as [[? _]|Hl]; [congruence|].
  destruct (li_pre r Hl Hb) as (P1 & P2 & P3 & P4 & P5 & P6 & P7 & P8 & P9).
  rewrite attach_unfold by done. apply start_end_fins.
  destruct (io_fresh_law raw Hraw) as (F1 & F2 & F3 & F4).
  destruct (io_start_law agent Hag) as (S1 & S2 & S3 & S4).
  assert (forall cap flag, fins (dress cap r (bound_with raw agent flag r))) as Hd.
  { intros cap flag [] i Ei.
    - cbn in *. specialize (Hr A). cbn in Hr. destruct (leg (to_a r)) as [ia|] eqn:Ea; cbn in *.
      + by apply Hr.
      + injection Ei as <-. split; [done|congruence].
    - cbn in Ei. injection Ei as <-. split; [done|congruence]. }
  assert (forall x, fins x -> fins (mod_ B (fun d => d <| flushing := false |>) x)) as Hlow
    by (intros x Hx; apply fins_keep; auto).
  destruct (negb _); [|apply Hd]. apply Hlow.
  destruct (bound_with_ok raw agent true r) as [Hl1 Hq1]; auto.
  apply flush_loop_fins; [apply upcall_n_ok|apply upcall_n_fins| |exact Hc|reflexivity|apply Hd].
  destruct Hl1 as [Hd1 H1 H2 H3]. constructor; [|exact H1|exact H2|exact H3].
  intros []; [destruct (Hd1 A) as [d1 d2 d3 d4 d5]|destruct (Hd1 B) as [d1 d2 d3 d4 d5]]; by constructor.
Qed.

Lemma relay_step_fins r r' : relay_step false true r r' -> quiet r -> fins r -> fins r'.
Proof.
  intros Hst Hq Hr. pose proof Hq as [Hi Hfl _].
  assert (Hok := upcall_n_ok relay_depth). assert (Hfi := upcall_n_fins relay_depth).
  destruct Hst as [data r He|data r He Hle|r|r|r|r|r|r|s i i' r El Hm|raw agent r Hra Ha Hs Hg|r|r].
  - apply relay_a_read_fins; auto. apply (Hfl B).
  - apply relay_b_read_fins; auto. apply (Hfl A).
  - by apply relay_eof_fins.
  - by apply relay_eof_fins.
  - by apply relay_error_fins.
  - by apply relay_error_fins.
  - by apply relay_low_fins.
  - by apply relay_low_fins.
  - destruct (Hr s i El) as [Hoi _]. destruct (io_moves_law i i' Hm Hoi) as (? & ? & ? & ?). by apply (fins_leg s i).
  - apply attach_fins; auto.
  - unfold stream_bind_timer_cb. case_match; [done|by apply fins_close].
  - by apply fins_close.
Qed.

(** ** What no callback changes

    The id of a stream and that it is bound; and a callback leaves the stream and the
    counts of streams alone unless it closes the stream, which unlinks it and counts
    it out once. *)

Definition tally (r : tm_stream) : bool * bool * Z * Z :=
  (closing r, linked r, streams_active (sh r), stream_count (sh r)).
Definition counted_out (r : tm_stream) : bool * bool * Z * Z :=
  let n := streams_active (sh r) in (true, false, if 0 <? n then n - 1 else n, stream_count (sh r) - 1).
Definition acct (r r' : tm_stream) : Prop :=
  id r' = id r /\ (tally r' = tally r \/ closing r = false /\ tally r' = counted_out r).

Definition same_id (r r' : tm_stream) : Prop := acct r r' /\ bound r' = bound r.
Definition keeps (f : tm_stream -> tm_stream) : Prop := forall r, same_id r (f r).

Lemma acct_trans r1 r2 r3 : acct r1 r2 -> acct r2 r3 -> acct r1 r3.
Proof.
  intros [I1 H1] [I2 H2]. split; [congruence|].
  destruct H1 as [H1|[C1 H1]], H2 as [H2|[C2 H2]].
  - left. congruence.
  - right. injection H1 as E1 E2 E3 E4. unfold counted_out in *. rewrite H2, <- E3, <- E4. split; congruence.
  - right. split; congruence.
  - injection H1 as E1 _ _ _. congruence.
Qed.

Lemma same_id_eq r r' : (id r', bound r', tally r') = (id r, bound r, tally r) -> same_id r r'.
Proof. intros E. injection E as E1 E2 E3 E4 E5 E6. split; [|done]. split; [done|]. left. unfold tally. congruence. Qed.
#[local] Hint Extern 0 (same_id _ _) => apply same_id_eq; reflexivity : core.

Lemma same_id_trans r1 r2 r3 : same_id r1 r2 -> same_id r2 r3 -> same_id r1 r3.
Proof. intros [A1 B1] [A2 B2]. split; [by eapply acct_trans|congruence]. Qed.
Lemma keeps_comp f g : keeps f -> keeps g -> keeps (fun r => g (f r)).
Proof. intros Hf Hg r. eapply same_id_trans; [apply Hf|apply Hg]. Qed.
Lemma keeps_mod s f : keeps (mod_ s f).
Proof. by intros r; destruct s. Qed.
Lemma keeps_close : keeps tm_stream_close.
Proof.
  intros r. unfold tm_stream_close. destruct (closing r) eqn:E; [done|]. split; [|done]. split; [done|].
  right. split; [done|reflexivity].
Qed.
Lemma keeps_maybe_close : keeps stream_maybe_close.
Proof. intros r. unfold stream_maybe_close. repeat case_match; try done. apply keeps_close. Qed.

Section Keeps.
Context (up : side -> upcall -> tm_stream -> tm_stream) (Hup : forall s u, keeps (up s u)).

Lemma keeps_run_up s us : keeps (run_up up s us).
Proof.
  intros r. unfold run_up. revert r. induction us as [|u us IH]; intros r; cbn [fold_left]; [done|].
  destruct (leg (get s r)); [|apply IH]. eapply same_id_trans; [apply Hup|apply IH].
Qed.

Lemma keeps_write s d : keeps (fun r => snd (leg_write up s d r)).
Proof.
  intros r. unfold leg_write. destruct (leg (get s r)) as [i|]; [|done].
  destruct (io_write i d) as [[st us] i']. cbn [snd]. eapply same_id_trans; [apply keeps_mod|apply keeps_run_up].
Qed.

Lemma keeps_shutdown s : keeps (leg_shutdown up s).
Proof.
  intros r. unfold leg_shutdown. destruct (leg (get s r)) as [i|]; [|done].
  destruct (io_shutdown_send i) as [us i']. eapply same_id_trans; [apply keeps_mod|apply keeps_run_up].
Qed.

Lemma keeps_flush_loop fuel s : keeps (flush_loop up fuel s).
Proof.
  induction fuel as [|fuel IH]; intros r; cbn [flush_loop]; [done|].
  destruct (blen (pend (get s r)) =? 0); [done|]. destruct (leg (get s r)); [|done].
  set (d := take _ _). pose proof (keeps_write s d r) as Hw. cbv beta in Hw. destruct (leg_write up s d r) as [st r1]. cbn [snd] in Hw.
  destruct st; try (eapply same_id_trans; [exact Hw|]; apply keeps_mod); [|exact Hw].
  destruct (closing r1); [exact Hw|]. eapply same_id_trans; [exact Hw|].
  eapply same_id_trans; [|apply IH].
  destruct (_ =? 0); [|apply keeps_mod]. eapply same_id_trans; [|apply keeps_mod]. apply keeps_mod.
Qed.

Lemma keeps_flush s : keeps (flush_pend up s).
Proof.
  intros r. unfold flush_pend. destruct (flushing (get s r)); [done|].
  eapply same_id_trans; [|apply keeps_mod]. eapply same_id_trans; [|apply keeps_flush_loop]. apply keeps_mod.
Qed.

Lemma keeps_source_ended s : keeps (source_ended up s).
Proof.
  intros r. unfold source_ended. destruct (leg (get s r)); [|apply keeps_maybe_close].
  eapply same_id_trans; [apply (keeps_flush s)|]. destruct (negb _); [apply keeps_maybe_close|].
  eapply same_id_trans; [|apply keeps_maybe_close]. eapply same_id_trans; [|apply keeps_shutdown]. apply keeps_mod.
Qed.

Lemma keeps_eof s : keeps (relay_eof up s).
Proof.
  intros r. unfold relay_eof. destruct (closing r); [done|]. eapply same_id_trans; [|apply keeps_source_ended]. apply keeps_mod.
Qed.
Lemma keeps_error s : keeps (relay_error up s).
Proof.
  intros r. unfold relay_error. destruct (closing r); [done|]. eapply same_id_trans; [|apply keeps_source_ended].
  eapply same_id_trans; apply keeps_mod.
Qed.
Lemma keeps_low s : keeps (relay_low up s).
Proof.
  intros r. unfold relay_low. destruct (closing r); [done|]. destruct (leg (get s r)); [|apply keeps_maybe_close].
  eapply same_id_trans; [apply (keeps_flush s)|]. destruct (negb _); [apply keeps_maybe_close|].
  eapply same_id_trans; [|apply keeps_maybe_close]. generalize (flush_pend up s r). intros r1.
  assert (forall b : bool, same_id r1 (if b then leg_shutdown up s (mod_ s (fun d : dir => d <| src_fin := true |>) r1) else r1)) as H2.
  { intros []; [|done]. eapply same_id_trans; [|apply keeps_shutdown]. apply keeps_mod. }
  eapply same_id_trans; [apply H2|]. destruct (_ && _); [|done]. eapply same_id_trans; [|apply keeps_mod]. apply keeps_mod.
Qed.

Lemma keeps_forward s d : keeps (forward up s d).
Proof.
  intros r. unfold forward. set (p := if negb _ then _ else _).
  assert (same_id r (snd p)) as Hp by (subst p; destruct (negb _); [done|apply keeps_write]).
  destruct p as [st r1]. cbn [snd] in Hp. eapply same_id_trans; [exact Hp|].
  destruct st; try done; try apply keeps_close. unfold queue_pend. eapply same_id_trans; [|apply keeps_mod].
  eapply same_id_trans; apply keeps_mod.
Qed.

Lemma keeps_queue_preq d : keeps (queue_preq d).
Proof.
  intros r1. unfold queue_preq. cbv zeta.
  set (r2 := r1 <| preq ::= _ |> <| preq_cap := _ |>). assert (same_id r1 r2) as H2 by done. clearbody r2.
  eapply same_id_trans; [exact H2|]. destruct (_ <=? _); [|done]. eapply same_id_trans; apply keeps_mod.
Qed.

Lemma keeps_a_read d : keeps (relay_a_read up d).
Proof.
  intros r. unfold relay_a_read. destruct (closing r); [done|]. set (r1 := mod_ B _ _).
  assert (same_id r r1) as H1 by (subst r1; eapply same_id_trans; [|apply keeps_mod]; done).
  eapply same_id_trans; [exact H1|]. clearbody r1. destruct (leg (to_b r1)); [apply keeps_forward|].
  destruct (src_eof (to_a r1)); [apply keeps_close|]. destruct (_ <? _); [apply keeps_close|apply keeps_queue_preq].
Qed.


Lemma keeps_b_read d : keeps (relay_b_read up d).
Proof.
  intros r. unfold relay_b_read. destruct (closing r); [done|]. set (r1 := mod_ A _ _).
  assert (same_id r r1) as H1 by (subst r1; eapply same_id_trans; [|apply keeps_mod]; done).
  eapply same_id_trans; [exact H1|]. clearbody r1. destruct (leg (to_a r1)); [apply keeps_forward|apply keeps_close].
Qed.
End Keeps.

Lemma keeps_upcall n s u : keeps (upcall_n n s u).
Proof.
  revert s u. induction n as [|n IH]; intros s u; cbn [upcall_n]; [by intros r|].
  destruct u; [apply keeps_low|apply keeps_error]; exact IH.
Qed.

Lemma acct_attach raw agent : forall r, acct r (tm_stream_relay_attach_agent up raw agent r).
Proof.
  assert (forall r r' : tm_stream, same_id r r' -> acct r r') as Hs by (by intros ? ? []).
  intros r. unfold tm_stream_relay_attach_agent. destruct (closing r || bound r); [by apply Hs|].
  apply acct_trans with (mod_ B (fun d => d <| leg := Some agent |> <| base := io_log agent |>) r <| sock_b := Open |>);
    [by apply Hs|].
  generalize (mod_ B (fun d => d <| leg := Some agent |> <| base := io_log agent |>) r <| sock_b := Open |>).
  clear r. intros r. unfold tm_stream_relay_start. destruct (bound r); [by apply Hs|].
  apply acct_trans with (r <| bound := true |> <| timer_on := false |>); [split; [done|by left]|].
  generalize (r <| bound := true |> <| timer_on := false |>). clear r. intros r. apply Hs.
  match goal with |- same_id _ (if _ then _ else if _ then _ else ?x) => apply same_id_trans with x end.
  - match goal with |- same_id _ (if _ then _ else ?x) => apply same_id_trans with x end.
    + eapply same_id_trans; [|apply keeps_mod]. destruct (leg (to_a r)); [done|apply keeps_mod].
    + destruct (negb _); [|done]. eapply same_id_trans; [|apply keeps_flush, keeps_upcall].
      match goal with |- same_id _ (mod_ ?s ?f ?x <| preq := _ |> <| preq_cap := _ |>) => apply same_id_trans with (mod_ s f x); [apply keeps_mod|done] end.
  - match goal with |- same_id ?x _ => generalize x end. clear r. intros r.
    destruct (negb _); [eapply same_id_trans; apply keeps_mod|].
    destruct (src_paused _); [eapply same_id_trans; apply keeps_mod|done].
Qed.

Lemma keeps_ingest d : keeps (tm_stream_ingest d).
Proof. intros r. unfold tm_stream_ingest. destruct (_ || _); [done|]. apply keeps_b_read, keeps_upcall. Qed.
Lemma keeps_ingest_a d : keeps (tm_stream_ingest_a d).
Proof. intros r. unfold tm_stream_ingest_a. destruct (_ || _); [done|]. apply keeps_a_read, keeps_upcall. Qed.

(** ** Streams of a tunnel *)

Definition new_dir (l : option io) (b : bytes) : dir := Dir l [] 0 false false false false [] b false.

(** The zeroed stream of [tm_xcalloc], with what both creators set. *)
Definition new_stream (sid now : Z) (c : shared) (io_a : option io) : tm_stream :=
  Stream sid (new_dir io_a (match io_a with Some i => io_log i | None => [] end)) (new_dir None [])
    Open NoSock true false false false now 0 0 [] 0 true c false false.

(** The streams of one tunnel, newest first, with the cells of the tunnel and of the
    broker, and the two static id counters. *)
Record stream_tbl := Tbl {
  streams : list tm_stream;
  cells : shared;
  streams_total : Z;
  b_streams_total : Z;
  sid_counter : Z;
  sid_counter2 : Z;
}.
#[global] Instance eta_tbl : Eta stream_tbl :=
  settable! Tbl <streams; cells; streams_total; b_streams_total; sid_counter; sid_counter2>.

Definition tm_stream_find (t : stream_tbl) (sid : Z) : option tm_stream :=
  List.find (fun r => id r =? sid) (streams t).

(** [(uint32_t)(counter & 0x7FFFFFFFu)], never 0. *)
Definition sid_of (counter : Z) : Z :=
  let v := Z.land counter 0x7FFFFFFF in if v =? 0 then 1 else v.

(** The limits and the bookkeeping the two creators share. *)
Definition create_with (max_streams max_per_tunnel : Z) (mk : shared -> tm_stream) (t : stream_tbl)
  : option tm_stream * stream_tbl :=
  if max_streams <=? stream_count (cells t) then (None, t)
  else if max_per_tunnel <=? streams_active (cells t) then (None, t)
  else
    let c := cells t <| streams_active ::= fun n => n + 1 |> <| stream_count ::= fun n => n + 1 |> in
    let st := mk c in
    (Some st, t <| streams ::= cons st |> <| cells := c |>
                <| streams_total ::= fun n => u64 (n + 1) |> <| b_streams_total ::= fun n => u64 (n + 1) |>).

Definition tm_stream_create_open (max_streams max_per_tunnel now : Z) (t : stream_tbl)
  : option tm_stream * stream_tbl :=
  match create_with max_streams max_per_tunnel
          (fun c => new_stream (sid_of (sid_counter t)) now c None) t with
  | (None, t) => (None, t)
  | (Some st, t) => (Some st, t <| sid_counter ::= fun n => u64 (n + 1) |>)
  end.

Definition tm_stream_create_closed (max_streams max_per_tunnel now : Z) (peer_io : io) (t : stream_tbl)
  : option tm_stream * stream_tbl :=
  match create_with max_streams max_per_tunnel
          (fun c => new_stream (sid_of (sid_counter2 t)) now c (Some peer_io)) t with
  | (None, t) => (None, t)
  | (Some st, t) => (Some st, t <| sid_counter2 ::= fun n => u64 (n + 1) |>)
  end.

(** A created stream. *)
Definition created (r : tm_stream) : Prop :=
  exists sid now c, r = new_stream sid now c None \/
                    exists i, io_ok i /\ r = new_stream sid now c (Some i).

Lemma created_quiet r : created r ->
  quiet r /\ (forall t, pend (get t r) = []) /\ preq r = [].
Proof.
  intros (sid & now & c & [->|(i & Hok & ->)]); (split; [|split; [by intros []|done]]).
  - constructor; [|by intros []|done]. right. constructor; [|done| |done].
    + intros []; constructor; cbn; try done; unfold fifo; done.
    + intros _. cbn. unfold blen, PEND_MAX, TM_IO_HIGH_WATER. cbn. split_and!; try done; lia.
  - constructor; [|by intros []|done]. right. constructor; [|done| |done].
    + intros []; constructor; cbn; try done; try (by intros j [= <-]); unfold fifo; cbn; try done.
      intros _ j [= <-] _. by rewrite app_nil_r.
    + intros _. cbn. unfold blen, PEND_MAX, TM_IO_HIGH_WATER. cbn. split_and!; try done; lia.
Qed.

Lemma relay_run_quiet obey r r' : relay_run obey r r' -> quiet r -> quiet r'.
Proof. induction 1; eauto using relay_step_quiet. Qed.

(** A stream whose consumer leg, if it has one, has not been told to end. *)
Definition unended (r : tm_stream) : Prop := forall s i, leg (get s r) = Some i -> io_shut i = false.

Lemma unended_run_fins r0 r : created r0 -> unended r0 -> unended_run r0 r -> quiet r /\ fins r.
Proof.
  intros Hc Hu Hr. destruct (created_quiet r0 Hc) as [Hq _].
  assert (fins r0) as Hf.
  { intros s i Ei. split; [|by rewrite (Hu s i Ei)]. destruct (qu_inv r0 Hq) as [[_ Hn]|Hl]; [by rewrite Hn in Ei|].
    by apply (di_ok _ _ (li_dir r0 Hl s)). }
  clear Hc Hu. induction Hr as [|r1 r2 r3 Hst _ IH]; [done|].
  apply IH; [by eapply relay_step_quiet|by eapply relay_step_fins].
Qed.

(** C3: the relay neither loses, repeats nor reorders a byte, and ends no leg early.
    From the creation of a stream on, after any events (reads in any chunks, ends,
    failures, low-water callbacks inside or outside a call, bind, timeout, close), for
    each direction with an open leg that had not been told to end before it joined the
    stream: a leg that has been told to end (the FIN) had its source end and nothing
    waits for it; and unless the leg refused a write ([lost]) what it accepted since it
    joined, followed by what waits for it, is exactly what its source delivered, so that
    a FIN comes after every byte of the source.  Bytes that arrive before the agent
    binds wait in order. *)
Theorem relay_fifo r0 r s i :
  created r0 -> unended r0 -> unended_run r0 r -> leg (get s r) = Some i ->
  (io_shut i = true -> src_eof (get s r) = true /\ pend (get s r) = []) /\
  (lost (get s r) = false ->
     io_log i ++ pend (get s r) = base (get s r) ++ src_in (get s r) /\
     (io_shut i = true -> io_log i = base (get s r) ++ src_in (get s r))) /\
  (bound r = false -> preq r = src_in (to_b r)).
Proof.
  intros Hc Hu Hr El. destruct (unended_run_fins r0 r Hc Hu Hr) as [[[[_ Hn]|Hl] Hfl _] Hf]; [by rewrite Hn in El|].
  destruct (Hf s i El) as [_ Hs]. split_and!; [done| |].
  - intros Hlo. pose proof (di_fifo _ _ (li_dir r Hl s) (Hfl s) i El Hlo) as E. split; [done|].
    intros Hsh. destruct (Hs Hsh) as [_ Hp]. by rewrite Hp, app_nil_r in E.
  - intros Hb. by destruct (li_pre r Hl Hb) as (_ & _ & _ & _ & ? & _).
Qed.

(** The nested callbacks of a stream always come to an end: after any events no
    call ran out of the depth and rounds the model allows (ten nested callbacks, one
    round of [flush_pend] per queued byte). *)
Theorem relay_terminates r0 r : created r0 -> relay_run false r0 r -> stuck r = false.
Proof.
  intros Hc Hr. destruct (created_quiet r0 Hc) as [Hq _].
  by destruct (relay_run_quiet _ _ _ Hr Hq).
Qed.

Lemma pend_close t r : pend (get t (tm_stream_close r)) = pend (get t r).
Proof.
  destruct (closing r) eqn:Hc; [unfold tm_stream_close; by rewrite Hc|].
  by destruct (get_close t r Hc) as (_ & -> & _).
Qed.

Lemma relay_step_size r r' : relay_step true false r r' -> quiet r ->
  (forall t, blen (pend (get t r)) <= PEND_MAX) -> forall t, blen (pend (get t r')) <= PEND_MAX.
Proof.
  intros Hst [Hi Hfl Hs] Hsz t.
  assert (forall x, nested None r x -> blen (pend (get t x)) <= PEND_MAX) as Hne.
  { intros x Hn. pose proof (ne_len _ _ _ Hn t). specialize (Hsz t). unfold blen in *. lia. }
  assert (forall s (data : bytes) x, live r -> calm s (blen data) r x -> blen data <= PEND_MAX ->
    leg (get (other s) r) <> None -> (forall i, leg (get (other s) r) = Some i -> io_paused i = false) ->
    blen (pend (get t x)) <= PEND_MAX) as Hrd.
  { intros s data x Hl Hca Hd Hle Hpa. pose proof (ca_len _ _ _ _ Hca t) as Hlen. specialize (Hsz t).
    case_decide; [subst t|lia].
    assert (pend (get s r) = []) as E; [|rewrite E, (@blen_nil Z) in Hlen; lia].
    destruct (pend (get s r)) eqn:E; [done|]. exfalso. pose proof (li_dir r Hl s) as Hdr.
    destruct (leg (get (other s) r)) as [i|] eqn:El; [|done].
    assert (io_paused i = true) by (apply (di_pleg _ _ Hdr i); [|done];
      apply (di_paused _ _ Hdr (Hfl s)); congruence).
    rewrite Hpa in * by done. done. }
  assert (Hok := upcall_n_ok relay_depth).
  destruct Hst as [data r He Ho Ho'|data r He Hle Ho|r|r|r|r|r|r|s i i' r El Hm|raw agent r Hr Ha _ Hg|r|r].
  - destruct (closing r) eqn:Hc; [unfold relay_a_read; by rewrite Hc|].
    destruct Hi as [[? _]|Hl]; [congruence|]. destruct (Ho eq_refl) as [Hd Hpa].
    apply (Hrd B data); auto. apply relay_a_read_ok; auto; [by right|apply (Hfl B)].
  - destruct (closing r) eqn:Hc; [unfold relay_b_read; by rewrite Hc|].
    destruct Hi as [[? _]|Hl]; [congruence|]. destruct (Ho eq_refl) as [Hd Hpa].
    apply (Hrd A data); auto. apply relay_b_read_ok; auto; [by right|apply (Hfl A)].
  - apply Hne. by apply relay_eof_ok.
  - apply Hne. by apply relay_eof_ok.
  - apply Hne. by apply relay_error_ok.
  - apply Hne. by apply relay_error_ok.
  - apply Hne. by apply relay_low_ok.
  - apply Hne. by apply relay_low_ok.
  - clear Hne Hrd. revert t. by_side s; autorewrite with rl; cbn; apply Hsz.
  - destruct (closing r) eqn:Hc; [unfold tm_stream_relay_attach_agent; by rewrite Hc|].
    destruct (bound r) eqn:Hb; [unfold tm_stream_relay_attach_agent; by rewrite Hb, orb_true_r|].
    pose proof (ca_len _ _ _ _ (attach_ok raw agent r Hi Hfl Hr Ha Hg) t) as Hlen. specialize (Hsz t).
    case_decide; [subst t|lia]. destruct Hi as [[? _]|Hl]; [congruence|].
    destruct (li_pre r Hl Hb) as (_ & P & _). cbn in *. rewrite P in Hlen. exact Hlen.
  - unfold stream_bind_timer_cb. case_match; [done|]. by rewrite pend_close.
  - by rewrite pend_close.
Qed.

(** C19: backpressure bounds the memory of a stream.  While paused legs deliver
    nothing and no chunk exceeds 320 KiB, at most 320 KiB wait in each direction (and
    before the bind), and a direction in which bytes wait has its source paused. *)
Theorem relay_backpressure r0 r s :
  created r0 -> relay_run true r0 r -> closing r = false ->
  blen (pend (get s r)) <= PEND_MAX /\ blen (preq r) <= PEND_MAX /\
  (pend (get s r) <> [] -> forall i, leg (get (other s) r) = Some i -> io_paused i = true).
Proof.
  intros Hc Hr Hcl. destruct (created_quiet r0 Hc) as (Hq & Hp0 & _).
  assert (0 <= PEND_MAX) as HP by (unfold PEND_MAX, TM_IO_HIGH_WATER; lia).
  assert (quiet r /\ forall t, blen (pend (get t r)) <= PEND_MAX) as [[Hi Hfl _] Hsz].
  { clear Hcl. assert (forall t, blen (pend (get t r0)) <= PEND_MAX) as Hs0 by (intros t; by rewrite Hp0).
    clear Hc Hp0. induction Hr as [|r1 r2 r3 Hst _ IH]; [done|].
    apply IH; [by eapply relay_step_quiet|]. by eapply relay_step_size. }
  destruct Hi as [[? _]|Hl]; [congruence|]. pose proof (li_dir r Hl s) as Hd. split_and!; auto.
  - destruct (bound r) eqn:Hb; [by rewrite (li_bound r Hl Hb)|].
    by destruct (li_pre r Hl Hb) as (_ & _ & _ & _ & _ & _ & _ & ? & _).
  - intros Hne i Ei. apply (di_pleg _ _ Hd i); [|done]. by apply (di_paused _ _ Hd (Hfl s)).
Qed.

(** C18: an orderly close leaves nothing behind on the legs that are still open.
    [stream_maybe_close] closes a stream only when both sources have ended (by an end or
    by a failure), nothing waits in either direction or from before the bind, and every
    leg that is still open has handed all it accepted to its transport; unless that leg
    refused a write ([lost]) what it accepted since it joined is all its source
    delivered.  A leg that failed is not open any more, and nothing is said of it. *)
Theorem relay_graceful_close r0 r :
  created r0 -> relay_run false r0 r ->
  closing r = false -> closing (stream_maybe_close r) = true ->
  preq r = [] /\
  forall s, src_eof (get s r) = true /\ pend (get s r) = [] /\
    forall i, leg (get s r) = Some i ->
      io_drained i = true /\ (lost (get s r) = false -> io_log i = base (get s r) ++ src_in (get s r)).
Proof.
  intros Hc Hr Hcl Hm. destruct (created_quiet r0 Hc) as [Hq _].
  destruct (relay_run_quiet _ _ _ Hr Hq) as [[[? _]|Hl] Hfl _]; [congruence|].
  unfold stream_maybe_close in Hm. rewrite Hcl in Hm. cbn [orb] in Hm.
  destruct (src_eof (to_b r)) eqn:Eb; [|cbn in Hm; congruence].
  destruct (src_eof (to_a r)) eqn:Ea; [|cbn in Hm; congruence]. cbn [negb orb] in Hm.
  destruct (undrained (leg (to_a r))) eqn:Da; [congruence|].
  destruct (undrained (leg (to_b r))) eqn:Db; [congruence|].
  destruct (_ || _ || _) eqn:Ep in Hm; [congruence|]. zb. rewrite !blen_0_nil in Ep.
  destruct Ep as [[Pa Pb] Pq]. split; [done|].
  assert (forall s, pend (get s r) = []) as Hp by (by intros []).
  intros s. split_and!; [by destruct s|apply Hp|]. intros i El. split.
  - destruct s; cbn in El; rewrite El in *; cbn in *; by apply negb_false_iff.
  - intros Hlo. pose proof (di_fifo _ _ (li_dir r Hl s) (Hfl s) i El Hlo) as E.
    by rewrite Hp, app_nil_r in E.
Qed.

(** The limits on streams hold: a stream is created only below both limits, it is
    counted once for the tunnel and once for the broker, and its id, never 0, finds
    it; at a limit nothing changes. *)
Theorem stream_create_open_spec max_streams max_per now (t : stream_tbl) :
  match tm_stream_create_open max_streams max_per now t with
  | (None, t') => t' = t /\ (max_streams <= stream_count (cells t) \/ max_per <= streams_active (cells t))
  | (Some st, t') =>
      stream_count (cells t') = stream_count (cells t) + 1 /\ stream_count (cells t') <= max_streams /\
      streams_active (cells t') = streams_active (cells t) + 1 /\ streams_active (cells t') <= max_per /\
      1 <= id st < 2 ^ 31 /\ tm_stream_find t' (id st) = Some st /\ created st
  end.
Proof.
  unfold tm_stream_create_open, create_with.
  destruct (_ <=? stream_count _) eqn:E1; [apply Z.leb_le in E1; auto|].
  destruct (_ <=? streams_active _) eqn:E2; [apply Z.leb_le in E2; auto|].
  apply Z.leb_gt in E1, E2. cbn. split_and!; try lia.
  - unfold sid_of. case_match; [lia|]. zb. pose proof (Z.land_nonneg (sid_counter t) 0x7FFFFFFF). lia.
  - unfold sid_of. change 0x7FFFFFFF with (Z.ones 31). rewrite Z.land_ones by lia.
    pose proof (Z.mod_pos_bound (sid_counter t) (2 ^ 31)). case_match; lia.
  - unfold tm_stream_find. cbn. by rewrite Z.eqb_refl.
  - eexists _, _, _. by left.
Qed.

End Relay.

(** ** Concrete runs over TCP legs *)

Module RelaySample.
Import Tcp TcpLeg.

Definition cells0 : shared := Shared 0 0 0 0 1 1 0.
Definition st0 : @tm_stream tm_io_tcp := new_stream 7 0 cells0 None.

Definition agent0 : tm_io_tcp := tcp_start (tm_io_tcp_new []).
Definition st1 : @tm_stream tm_io_tcp :=
  tm_stream_relay_attach_agent (upcall_n relay_depth) (tm_io_tcp_new []) agent0 st0.
Definition st2 : @tm_stream tm_io_tcp := relay_a_read (upcall_n relay_depth) [1; 2; 3] st1.
Definition st3 : @tm_stream tm_io_tcp := relay_a_eof st2.

Lemma st0_created : created st0.
Proof. eexists _, _, _. by left. Defined.

Lemma st3_run obey un : rtc (relay_step obey un) st0 st3.
Proof.
  eapply rtc_l with st1.
  { apply RsAttach; [by eexists|apply leg_new_ok|done|done]. }
  eapply rtc_l with st2.
  { apply RsReadA; [done| |done]. intros _. split; [done|]. by intros i [= <-]. }
  eapply rtc_l with st3; [apply RsEofA|apply rtc_refl].
Defined.

Definition leg3 : tm_io_tcp :=
  match leg (to_b st3) with Some i => i | None => agent0 end.

Lemma relay_fifo_witness :
  io_shut leg3 = true /\ io_log leg3 = [1; 2; 3] /\
  (io_shut leg3 = true -> src_eof (get B st3) = true /\ pend (get B st3) = []) /\
  (lost (get B st3) = false ->
     io_log leg3 ++ pend (get B st3) = base (get B st3) ++ src_in (get B st3) /\
     (io_shut leg3 = true -> io_log leg3 = base (get B st3) ++ src_in (get B st3))) /\
  (bound st3 = false -> preq st3 = src_in (to_b st3)).
Proof.
  split; [vm_compute; reflexivity|]. split; [vm_compute; reflexivity|].
  apply (relay_fifo st0 st3 B leg3); [apply st0_created|by intros []|apply st3_run|vm_compute; reflexivity].
Defined.

Lemma relay_terminates_witness : stuck st3 = false.
Proof. apply (relay_terminates st0 st3); [apply st0_created|apply st3_run]. Defined.

Lemma relay_backpressure_witness :
  blen (pend (get B st3)) <= PEND_MAX /\ blen (preq st3) <= PEND_MAX /\
  (pend (get B st3) <> [] -> forall i, leg (get (other B) st3) = Some i -> io_paused i = true).
Proof.
  apply (relay_backpressure st0 st3 B);
    [apply st0_created|apply st3_run|vm_compute; reflexivity].
Defined.

(** The other leg ends too, and the bytes in flight are completed. *)
Definition st4 : @tm_stream tm_io_tcp := relay_b_eof st3.
Definition leg4 : tm_io_tcp := match leg (to_b st4) with Some i => i | None => agent0 end.
Definition leg5 : tm_io_tcp := tcp_write_done note_low note_error leg4 0.
Definition st5 : @tm_stream tm_io_tcp := mod_ B (fun d => d <| leg := Some leg5 |>) st4.

Lemma relay_graceful_close_witness :
  preq st5 = [] /\
  forall s, src_eof (get s st5) = true /\ pend (get s st5) = [] /\
    forall i, leg (get s st5) = Some i ->
      io_drained i = true /\ (lost (get s st5) = false -> io_log i = base (get s st5) ++ src_in (get s st5)).
Proof.
  apply (relay_graceful_close st0 st5); [apply st0_created| |vm_compute; reflexivity|vm_compute; reflexivity].
  eapply rtc_trans; [apply st3_run|]. eapply rtc_l with st4; [apply RsEofB|].
  eapply rtc_l with st5; [|apply rtc_refl].
  apply (RsMove _ _ B leg4); [vm_compute; reflexivity|]. exists 0. split; [vm_compute; reflexivity|reflexivity].
Defined.

End RelaySample.
