(* ===== verification/Endpoint.v ===== *)
(** * The relays of the agent and of the peer

    The relay callbacks of src/agent/src/tcp.c and src/peer/src/tcp.c: an endpoint pairs
    its TLS connection to the broker (leg A) with the raw connection to the local
    service or consumer (leg B).  The fields of [struct tm_astream] and
    [struct tm_psess] that take part are those of a stream of Relay.v:

      to_b: local_io, pending_buf, pending_cap, flushing_local, broker_eof (src_eof),
            local_fin (src_fin), broker_paused (src_paused);
      to_a: broker_io, pend_buf, pend_cap, flushing_broker, local_eof, broker_fin,
            local_paused;

    with bound, closing, the byte counts, and the timer and sockets as flags.
    [pending_buf] is [preq] until the local leg exists and [pend (to_b r)] from then on.
    The counters of the broker ([sh]) have no counterpart.

    Unlike the broker's relay, an endpoint closes the whole stream when a leg fails,
    also when the failure is reported from inside a write: [ep_upcall] is that, and
    [flush_use_after_free] what it leads to.  The theorems on the order of bytes are for
    legs whose failures come from the event loop (class [SureIo]). *)

From S2P Require Import Prelude.
From S2P Require Import Wire.
From S2P Require Import Io.
From S2P Require Import Relay.

#[local] Arguments Z.of_nat : simpl never.

#[local] Hint Rewrite @get_mod @get_mod_other @get_mod_other' @closing_mod @bound_mod @preq_mod @other_other : rl.
Ltac by_side s :=
  match goal with |- forall t : side, @?P t => refine (side_cases P s _ _); cbv beta end.

Section Endpoint.
Context {io : Type} `{TmIo io}.
Abbreviation stream := (@tm_stream io).
Abbreviation fed s data r := (mod_ s (fun d => d <| src_in ::= fun b => b ++ data |>) r).

Section Up.
Context (up : side -> upcall -> stream -> stream).

(** [flush_pend] on a leg that may be absent: a write to no leg fails. *)
Definition ep_flush (s : side) (r : stream) : stream :=
  match leg (get s r) with
  | Some _ => flush_pend up s r
  | None => if flushing (get s r) || (blen (pend (get s r)) =? 0) then r
            else mod_ s (fun d => d <| pend := [] |> <| pend_cap := 0 |> <| lost := true |>) r
  end.

(** [relay_broker_read] of the agent. *)
Definition agent_broker_read (data : bytes) (r : stream) : stream :=
  if closing r then r
  else
    let r := r <| up_bytes ::= fun n => u64 (n + blen data) |> in
    let r := fed B data r in
    match leg (to_b r) with
    | None => if TM_IO_HIGH_WATER + 65536 <? blen (preq r) + blen data then tm_stream_close r
              else queue_preq data r
    | Some _ => forward up B data r
    end.

(** [relay_broker_read] of the peer, which relays only once both legs are there. *)
Definition peer_broker_read (data : bytes) (r : stream) : stream :=
  if closing r then r
  else
    let r := fed B data r in
    match leg (to_b r) with
    | None =>
        if TM_IO_HIGH_WATER <? blen (preq r) + blen data then tm_stream_close r
        else
          let need := blen (preq r) + blen data in
          let cap := if preq_cap r <? need
                     then grow (if preq_cap r =? 0 then 16384 else preq_cap r * 2) need
                     else preq_cap r in
          r <| preq ::= fun p => p ++ data |> <| preq_cap := cap |>
    | Some _ => forward up B data r
    end.

Definition relay_broker_eof (r : stream) : stream :=
  if closing r then r
  else
    let r := mod_ B (fun d => d <| src_eof := true |>) r in
    match leg (to_b r) with
    | None => r
    | Some _ =>
        let r := ep_flush A (ep_flush B r) in
        if negb (blen (pend (to_b r)) =? 0) then stream_maybe_close r
        else stream_maybe_close (leg_shutdown up B (mod_ B (fun d => d <| src_fin := true |>) r))
    end.

(** [relay_local_read]; the agent counts, the peer does not. *)
Definition agent_local_read (data : bytes) (r : stream) : stream :=
  if closing r then r
  else forward up A data (fed A data (r <| down_bytes ::= fun n => u64 (n + blen data) |>)).
Definition peer_local_read (data : bytes) (r : stream) : stream :=
  if closing r then r else forward up A data (fed A data r).

Definition relay_local_eof (r : stream) : stream :=
  if closing r then r
  else
    let r := ep_flush A (mod_ A (fun d => d <| src_eof := true |>) r) in
    if negb (blen (pend (to_a r)) =? 0) then stream_maybe_close r
    else stream_maybe_close (leg_shutdown up A (mod_ A (fun d => d <| src_fin := true |>) r)).

(** [relay_broker_low] ([s] = A) and [relay_local_low] ([s] = B). *)
Definition ep_low (s : side) (r : stream) : stream :=
  if closing r then r
  else
    let r := ep_flush s r in
    if negb (blen (pend (get s r)) =? 0) then stream_maybe_close r
    else
      let r := if src_eof (get s r) && negb (src_fin (get s r))
               then leg_shutdown up s (mod_ s (fun d => d <| src_fin := true |>) r) else r in
      let r := if src_paused (get s r)
               then leg_resume (other s) (mod_ s (fun d => d <| src_paused := false |>) r) else r in
      stream_maybe_close r.

(** [local_connected] of the agent when the connection is there: the local leg is made
    on it, both legs are started, ... *)
Definition bind_legs (raw : io) (r : stream) : stream :=
  let r := mod_ B (fun d => d <| leg := Some (io_start raw) |> <| base := [] |>
                              <| pend := preq r |> <| pend_cap := preq_cap r |>) r in
  mod_ A (fun d => d <| leg ::= fmap io_start |>)
    (r <| timer_on := false |> <| preq := [] |> <| preq_cap := 0 |> <| bound := true |>).

(** ... an end that came in the meantime is passed on, ... *)
Definition bind_eof (r : stream) : stream :=
  if src_eof (to_b r) then
    let r := leg_shutdown up B r in
    if src_eof (to_a r) then tm_stream_close r else r
  else r.

(** ... and before that what arrived in the meantime; [start_end] pauses or resumes the
    broker leg. *)
Definition local_bind (raw : io) (r : stream) : stream :=
  bind_eof (start_end (ep_flush B (bind_legs raw r))).

(** The bind of the peer: what follows DATA_BIND_OK in the same chunk is in [pending_buf]
    while it is written to the new local leg, whatever the result, and released after
    the write; a failure inside the write has released it already. *)
Definition peer_bind (raw : io) (lo : bytes) (r : stream) : stream :=
  let r := mod_ B (fun d => d <| leg := Some (io_start raw) |> <| base := [] |> <| pend := lo |>)
             (fed B lo (r <| bound := true |> <| timer_on := false |>)) in
  if blen lo =? 0 then r
  else
    let '(st, r) := leg_write up B lo r in
    if closing r then r <| uaf := true |>
    else mod_ B (fun d => d <| pend := [] |> <| lost ::= orb (negb (bool_decide (st = TM_OK))) |>) r.

(** A frame of the handshake on the broker connection. *)
Definition ep_send (data : bytes) (r : stream) : tm_status * stream :=
  match leg (to_a r) with
  | None => (TM_ERR, r)
  | Some i => let '(st, us, i') := io_write i data in
              (st, run_up up A us (mod_ A (fun d => d <| leg := Some i' |> <| base := io_log i' |>) r))
  end.

End Up.

(** What a leg calls back: its low-water mark, or its failure, which closes the stream. *)
Fixpoint ep_upcall (n : nat) (s : side) (u : upcall) (r : stream) : stream :=
  match n with
  | O => r <| stuck := true |>
  | S n' => match leg (get s r), u with
            | None, _ => r
            | Some _, UpLow => ep_low (ep_upcall n') s r
            | Some _, UpError => tm_stream_close r
            end
  end.

Definition ep_depth : nat := 10.
Abbreviation eup := (ep_upcall ep_depth).

(** DATA_BIND_OK on the agent's connection: what follows it in the reader waits for the
    local leg. *)
Definition agent_accept (lo : bytes) (r : stream) : stream :=
  mod_ B (fun d => d <| src_in := lo |>) (r <| preq := lo |>).

(** A stream whose connection to the broker has the TLS leg [i]. *)
Definition new_endpoint (sid now : Z) (i : io) : stream :=
  Stream sid (new_dir (Some i) (io_log i)) (new_dir None []) Open Open true false false false now 0 0 [] 0 true
    (Shared 0 0 0 0 0 0 0) false false.

(** ** Runs *)

Inductive program := Agent | Peer.

Definition broker_read (k : program) := match k with Agent => agent_broker_read eup | Peer => peer_broker_read eup end.
Definition local_read (k : program) := match k with Agent => agent_local_read eup | Peer => peer_local_read eup end.

(** The events of a stream of either program, in any order: frames of the handshake,
    the bind, data and end of either leg, low-water marks, work of the transports, the
    timer, and the close, which is also what a failure, a refusal or a timeout leads to.  A leg
    delivers nothing after its end; the peer relays only once it is bound. *)
Inductive ep_step (k : program) : stream -> stream -> Prop :=
  | EsSend data r : bound r = false -> ep_step k r (snd (ep_send eup data r))
  | EsAccept lo r : k = Agent -> bound r = false -> blen lo <= PEND_MAX -> ep_step k r (agent_accept lo r)
  | EsReadBroker data r : src_eof (to_b r) = false -> k = Agent \/ bound r = true -> ep_step k r (broker_read k data r)
  | EsReadLocal data r : src_eof (to_a r) = false -> bound r = true -> ep_step k r (local_read k data r)
  | EsEofBroker r : k = Agent \/ bound r = true -> ep_step k r (relay_broker_eof eup r)
  | EsEofLocal r : ep_step k r (relay_local_eof eup r)
  | EsLow s r : leg (get s r) <> None -> ep_step k r (ep_low eup s r)
  | EsMove s i i' r : leg (get s r) = Some i -> io_moves i i' -> ep_step k r (mod_ s (fun d => d <| leg := Some i' |>) r)
  | EsBind raw r : k = Agent -> closing r = false -> bound r = false -> io_fresh raw -> ep_step k r (local_bind eup raw r)
  | EsPeerBind raw lo r : k = Peer -> closing r = false -> bound r = false -> io_fresh raw -> ep_step k r (peer_bind eup raw lo r)
  | EsTimer on r : ep_step k r (r <| timer_on := on |>)
  | EsClose r : ep_step k r (tm_stream_close r).

Definition ep_run (k : program) : stream -> stream -> Prop := rtc (ep_step k).

(** ** Legs whose failures come from the event loop

    Moreover the first write to a leg does not call back: a new TCP leg hands the bytes to
    libuv and waits. *)

Class SureIo : Prop := {
  sure_write i d : Forall (eq UpLow) (snd (fst (io_write i d)));
  sure_shutdown i : Forall (eq UpLow) (fst (io_shutdown_send i));
  sure_first i d : io_fresh i -> d <> [] -> snd (fst (io_write (io_start i) d)) = [];
}.

Section Sure.
Context `{!SureIo}.

(** On such legs only the answer to the low-water mark matters. *)
Section Ext.
Context (up up' : side -> upcall -> stream -> stream) (Hext : forall s r, up s UpLow r = up' s UpLow r).

Lemma run_up_ext s us : Forall (eq UpLow) us -> forall r, run_up up s us r = run_up up' s us r.
Proof.
  induction 1 as [|u us <- _ IH]; intros r; [done|]. unfold run_up in *. cbn [fold_left].
  destruct (leg (get s r)); [|apply IH]. rewrite Hext. apply IH.
Qed.

Lemma leg_write_ext s d r : leg_write up s d r = leg_write up' s d r.
Proof.
  unfold leg_write. destruct (leg (get s r)) as [i|]; [|done]. pose proof (sure_write i d) as Hs.
  destruct (io_write i d) as [[st us] i']. cbn in Hs. by rewrite run_up_ext.
Qed.

Lemma leg_shutdown_ext s r : leg_shutdown up s r = leg_shutdown up' s r.
Proof.
  unfold leg_shutdown. destruct (leg (get s r)) as [i|]; [|done]. pose proof (sure_shutdown i) as Hs.
  destruct (io_shutdown_send i) as [us i']. cbn in Hs. by rewrite run_up_ext.
Qed.

Lemma flush_loop_ext fuel s : forall r, flush_loop up fuel s r = flush_loop up' fuel s r.
Proof.
  induction fuel as [|fuel IH]; intros r; [done|]. cbn [flush_loop]. rewrite leg_write_ext.
  destruct (_ =? 0); [done|]. destruct (leg (get s r)); [|done].
  destruct (leg_write up' s _ r) as [[] r1]; try done. destruct (closing r1); [done|apply IH].
Qed.

Lemma ep_flush_ext s r : ep_flush up s r = ep_flush up' s r.
Proof. unfold ep_flush, flush_pend. destruct (leg (get s r)); [|done]. destruct (flushing _); [done|]. by rewrite flush_loop_ext. Qed.

Lemma forward_ext s d r : forward up s d r = forward up' s d r.
Proof. unfold forward. by rewrite leg_write_ext. Qed.

Lemma ep_low_ext s r : ep_low up s r = ep_low up' s r.
Proof. unfold ep_low. by rewrite ep_flush_ext, leg_shutdown_ext. Qed.

Lemma agent_broker_read_ext d r : agent_broker_read up d r = agent_broker_read up' d r.
Proof. unfold agent_broker_read. by rewrite forward_ext. Qed.
Lemma peer_broker_read_ext d r : peer_broker_read up d r = peer_broker_read up' d r.
Proof. unfold peer_broker_read. by rewrite forward_ext. Qed.
Lemma agent_local_read_ext d r : agent_local_read up d r = agent_local_read up' d r.
Proof. unfold agent_local_read. by rewrite forward_ext. Qed.
Lemma peer_local_read_ext d r : peer_local_read up d r = peer_local_read up' d r.
Proof. unfold peer_local_read. by rewrite forward_ext. Qed.
Lemma relay_broker_eof_ext r : relay_broker_eof up r = relay_broker_eof up' r.
Proof. unfold relay_broker_eof. by rewrite !ep_flush_ext, leg_shutdown_ext. Qed.
Lemma relay_local_eof_ext r : relay_local_eof up r = relay_local_eof up' r.
Proof. unfold relay_local_eof. by rewrite !ep_flush_ext, leg_shutdown_ext. Qed.
Lemma local_bind_ext raw r : local_bind up raw r = local_bind up' raw r.
Proof. unfold local_bind, bind_eof. by rewrite !ep_flush_ext, !leg_shutdown_ext. Qed.
Lemma ep_send_ext d r : ep_send up d r = ep_send up' d r.
Proof.
  unfold ep_send. destruct (leg (to_a r)) as [i|]; [|done]. pose proof (sure_write i d) as Hs.
  destruct (io_write i d) as [[st us] i']. cbn in Hs. by rewrite run_up_ext.
Qed.
End Ext.

(** The callbacks without the failures that do not occur. *)
Fixpoint sure_upcall (n : nat) (s : side) (u : upcall) (r : stream) : stream :=
  match n with
  | O => r <| stuck := true |>
  | S n' => match leg (get s r), u with
            | Some _, UpLow => ep_low (sure_upcall n') s r
            | _, _ => r
            end
  end.

Lemma upcall_sure n : forall s r, ep_upcall n s UpLow r = sure_upcall n s UpLow r.
Proof.
  induction n as [|n IH]; intros s r; [done|]. cbn. destruct (leg (get s r)); [|done].
  by apply ep_low_ext.
Qed.

(** ** Legs stay until the stream closes *)

Definition kept (r r' : stream) : Prop :=
  (closing r = true -> closing r' = true) /\ bound r' = bound r /\
  (closing r' = true \/ forall t, leg (get t r) <> None -> leg (get t r') <> None).

Lemma kept_refl r : kept r r.
Proof. split; auto. Qed.
Lemma kept_trans r1 r2 r3 : kept r1 r2 -> kept r2 r3 -> kept r1 r3.
Proof. intros (A1 & A3 & A2) (B1 & B3 & B2). split_and!; [auto|congruence|]. destruct A2, B2; auto. Qed.
Lemma kept_flags r r' : closing r' = closing r -> bound r' = bound r -> (forall t, leg (get t r') = leg (get t r)) -> kept r r'.
Proof. intros E1 E2 E3. split_and!; [congruence|done|]. right. intros t. by rewrite E3. Qed.
Lemma kept_mod s f r : (leg (get s r) <> None -> leg (f (get s r)) <> None) -> kept r (mod_ s f r).
Proof.
  intros Hf. split_and!; [by rewrite closing_mod|apply bound_mod|]. right. intros t Ht. destruct (decide (t = s)) as [->|Hts].
  - rewrite get_mod. auto.
  - assert (t = other s) as -> by (by destruct s, t). by rewrite get_mod_other.
Qed.
Lemma kept_close r : kept r (tm_stream_close r).
Proof. split_and!; [by rewrite close_closing|unfold tm_stream_close; by destruct (closing r)|]. left. apply close_closing. Qed.
Lemma kept_maybe_close r : kept r (stream_maybe_close r).
Proof. unfold stream_maybe_close. repeat (case_match; [apply kept_refl|]). apply kept_close. Qed.
Lemma kept_fmap s g r : kept r (mod_ s (fun d => d <| leg ::= fmap g |>) r).
Proof. apply kept_mod. cbn. by destruct (leg (get s r)). Qed.

Section KeptUp.
Context (up : side -> upcall -> stream -> stream) (Hup : forall s u r, kept r (up s u r)).

Lemma kept_run_up s us : forall r, kept r (run_up up s us r).
Proof.
  induction us as [|u us IH]; intros r; [apply kept_refl|]. unfold run_up in *. cbn [fold_left].
  destruct (leg (get s r)); [|apply IH]. eapply kept_trans; [apply Hup|apply IH].
Qed.
Lemma kept_write s d r : kept r (snd (leg_write up s d r)).
Proof.
  unfold leg_write. destruct (leg (get s r)) as [i|]; [|apply kept_refl].
  destruct (io_write i d) as [[st us] i']. eapply kept_trans; [|apply kept_run_up]. by apply kept_mod.
Qed.
Lemma kept_shutdown s r : kept r (leg_shutdown up s r).
Proof.
  unfold leg_shutdown. destruct (leg (get s r)) as [i|]; [|apply kept_refl].
  destruct (io_shutdown_send i) as [us i']. eapply kept_trans; [|apply kept_run_up]. by apply kept_mod.
Qed.
Lemma kept_flush_loop fuel s : forall r, kept r (flush_loop up fuel s r).
Proof.
  induction fuel as [|fuel IH]; intros r; cbn [flush_loop]; [by apply kept_flags; [| |intros []]|].
  destruct (_ =? 0); [apply kept_refl|]. destruct (leg (get s r)) eqn:El; [|by apply kept_flags; [| |intros []]].
  pose proof (kept_write s (take (Z.to_nat (if blen (pend (get s r)) <? 65536 then blen (pend (get s r)) else 65536))
    (pend (get s r))) r) as Hw.
  destruct (leg_write up s _ r) as [st r1]. cbn [snd] in Hw.
  destruct st; try (eapply kept_trans; [exact Hw|by apply kept_mod]); [|done].
  destruct (closing r1); [eapply kept_trans; [exact Hw|by apply kept_flags; [| |intros []]]|].
  eapply kept_trans; [exact Hw|]. eapply kept_trans; [|apply IH].
  set (r2 := mod_ s _ r1). apply (kept_trans _ r2); [by apply kept_mod|].
  destruct (_ =? 0); [by apply kept_mod|apply kept_refl].
Qed.
Lemma kept_ep_flush s r : kept r (ep_flush up s r).
Proof.
  unfold ep_flush, flush_pend. destruct (leg (get s r)).
  - destruct (flushing _); [apply kept_refl|]. eapply kept_trans; [|by apply kept_mod].
    eapply kept_trans; [|apply kept_flush_loop]. by apply kept_mod.
  - destruct (_ || _); [apply kept_refl|]. by apply kept_mod.
Qed.
Lemma kept_forward s d r : kept r (forward up s d r).
Proof.
  unfold forward. set (p := if negb _ then _ else _).
  assert (kept r (snd p)) as Hp by (subst p; destruct (negb _); [apply kept_refl|apply kept_write]).
  destruct p as [st r1]. cbn [snd] in Hp. eapply kept_trans; [exact Hp|].
  destruct st; try apply kept_close; [apply kept_refl|]. unfold queue_pend.
  eapply kept_trans; [|by apply kept_mod]. eapply kept_trans; [|apply kept_fmap]. by apply kept_mod.
Qed.
Lemma kept_low s r : kept r (ep_low up s r).
Proof.
  unfold ep_low. destruct (closing r); [apply kept_refl|]. eapply kept_trans; [apply (kept_ep_flush s)|].
  set (x := ep_flush up s r). clearbody x. clear r. rename x into r. cbv zeta.
  destruct (negb _); [apply kept_maybe_close|]. eapply kept_trans; [|apply kept_maybe_close].
  set (r1 := if _ && _ then _ else r).
  apply (kept_trans _ r1).
  - subst r1. destruct (_ && _); [|apply kept_refl]. eapply kept_trans; [|apply kept_shutdown]. by apply kept_mod.
  - destruct (src_paused _); [|apply kept_refl]. eapply kept_trans; [|apply kept_fmap]. by apply kept_mod.
Qed.
Lemma kept_fin s r : kept r (leg_shutdown up s (mod_ s (fun d => d <| src_fin := true |>) r)).
Proof. eapply kept_trans; [|apply kept_shutdown]. by apply kept_mod. Qed.
Lemma kept_broker_eof r : kept r (relay_broker_eof up r).
Proof.
  unfold relay_broker_eof. destruct (closing r); [apply kept_refl|]. cbv zeta. set (r1 := mod_ B _ r).
  apply (kept_trans _ r1); [by apply kept_mod|]. destruct (leg (to_b r1)); [|apply kept_refl].
  eapply kept_trans; [apply (kept_ep_flush B)|]. eapply kept_trans; [apply (kept_ep_flush A)|].
  set (x := ep_flush up A _). destruct (negb _); [apply kept_maybe_close|]. eapply kept_trans; [apply kept_fin|apply kept_maybe_close].
Qed.
Lemma kept_local_eof r : kept r (relay_local_eof up r).
Proof.
  unfold relay_local_eof. destruct (closing r); [apply kept_refl|]. cbv zeta. set (r1 := mod_ A _ r).
  apply (kept_trans _ r1); [by apply kept_mod|].
  eapply kept_trans; [apply (kept_ep_flush A)|].
  set (x := ep_flush up A _). destruct (negb _); [apply kept_maybe_close|]. eapply kept_trans; [apply kept_fin|apply kept_maybe_close].
Qed.
End KeptUp.

Lemma kept_sure n : forall s u r, kept r (sure_upcall n s u r).
Proof.
  induction n as [|n IH]; intros s u r; cbn; [by apply kept_flags; [| |intros []]|].
  destruct (leg (get s r)), u; try apply kept_refl. by apply kept_low.
Qed.

(** ** The invariant under the callbacks *)

Section EpOk.
Context (up : side -> upcall -> stream -> stream)
        (Hup : forall s u r, inv r -> nested None r (up s u r)).

Lemma ep_flush_ok s r : live r -> closing r = false ->
  nested None r (ep_flush up s r) /\ live (ep_flush up s r) /\ closing (ep_flush up s r) = false.
Proof.
  intros Hl Hc. unfold ep_flush. destruct (leg (get s r)) as [i|] eqn:El.
  { apply flush_pend_ok; auto. congruence. }
  destruct (flushing (get s r) || _) eqn:E; [split_and!; auto; apply nested_refl; by right|].
  zb. destruct E as [Hf Hp].
  assert (pend (get s r) <> []) as Hne by (intros E; by rewrite E in Hp).
  assert (bound r = true) as Hb.
  { destruct (bound r) eqn:Hb; [done|]. destruct (li_pre r Hl Hb) as (_ & P & _ & _ & _ & P' & _). by destruct s. }
  set (f := fun d : dir => d <| pend := [] |> <| pend_cap := 0 |> <| lost := true |>).
  assert (live (mod_ s f r)) as Hl1.
  { apply live_mod; auto 8; try congruence.
    - destruct (li_dir r Hl s) as [d1 d2 d3 d4 d5]. constructor; cbn; auto; [|done..|].
      + intros _ i Ei. cbn in Ei. congruence.
      + intros Hfin. by destruct (d3 Hfin).
    - destruct (li_dir r Hl (other s)). rewrite other_other in *. by constructor. }
  split_and!; [|done|by rewrite closing_mod]. apply nested_mod; cbn; auto; [lia|congruence].
Qed.

Lemma resume_inv s r : inv r -> pend (get s r) = [] ->
  nested None r (leg_resume (other s) (mod_ s (fun d => d <| src_paused := false |>) r)).
Proof.
  intros [[Hc Hn]|Hl] Hp; [|by apply resume_ok].
  set (r' := leg_resume _ _).
  assert (forall t, leg (get t r') = None) as Hn'.
  { subst r'. unfold leg_resume. by_side s; autorewrite with rl; cbn; [apply Hn|]. by rewrite Hn. }
  assert (forall t, pend (get t r') = pend (get t r) /\ flushing (get t r') = flushing (get t r) /\
    src_in (get t r') = src_in (get t r) /\ src_eof (get t r') = src_eof (get t r) /\ lost (get t r') = lost (get t r) /\
    src_fin (get t r') = src_fin (get t r) /\ (t <> s -> src_paused (get t r') = src_paused (get t r))) as Hg.
  { subst r'. unfold leg_resume. by_side s; autorewrite with rl; cbn; split_and!; done. }
  assert (closing r' = closing r) as Hcr by (subst r'; unfold leg_resume; by rewrite !closing_mod).
  constructor.
  - left. split; [congruence|done].
  - subst r'. unfold leg_resume. by rewrite !bound_mod.
  - subst r'. unfold leg_resume. by rewrite !preq_mod.
  - apply Hg.
  - apply Hg.
  - intros t. by rewrite Hn'.
  - done.
  - intros t. destruct (Hg t) as (_ & _ & _ & -> & _). done.
  - intros t. destruct (Hg t) as (-> & _). done.
  - intros t _ _ Hpt. destruct (Hg t) as (G1 & G2 & G3 & G4 & G5 & G6 & G7).
    constructor; auto; [apply G7; intros ->; congruence|]. rewrite Hn'. by left.
Qed.

Lemma ep_low_ok s r : inv r -> leg (get s r) <> None -> nested None r (ep_low up s r).
Proof.
  intros Hi Hle. unfold ep_low. destruct (closing r) eqn:Hc; [by apply nested_refl|].
  destruct Hi as [[? _]|Hl]; [congruence|].
  destruct (ep_flush_ok s r Hl Hc) as (Hn & Hl1 & Hc1).
  assert (bound r = false -> s = A) as Hbd by (by apply leg_bound).
  rewrite <- (ne_bound _ _ _ Hn) in Hbd.
  cbv zeta. set (r1 := ep_flush up s r) in *. clearbody r1.
  eapply nested_trans; [exact Hn|]. clear Hn Hl Hc Hle r.
  destruct (negb (blen (pend (get s r1)) =? 0)) eqn:Ep; [apply nested_maybe_close; by right|].
  apply negb_false_iff, Z.eqb_eq, blen_0_nil in Ep.
  set (r2 := if src_eof _ && _ then _ else r1).
  assert (nested None r1 r2) as Hn2.
  { subst r2. destruct (src_eof (get s r1)) eqn:He; cbn [andb]; [|apply nested_refl; by right].
    case_match; [by apply shut_ok|apply nested_refl; by right]. }
  assert (pend (get s r2) = []) as Ep2 by (by apply (ne_empty _ _ _ _ Hn2)).
  clearbody r2. eapply nested_trans; [exact Hn2|]. pose proof (ne_inv _ _ _ Hn2) as Hi2.
  set (r3 := if src_paused _ then _ else r2).
  assert (nested None r2 r3) as Hn3 by (subst r3; destruct (src_paused _); [by apply resume_inv|by apply nested_refl]).
  eapply nested_trans; [exact Hn3|]. apply nested_maybe_close, (ne_inv _ _ _ Hn3).
Qed.

(** After the flush at the end of a source. *)
Lemma fin_ok s r : live r -> closing r = false -> src_eof (get s r) = true -> (bound r = false -> s = A) ->
  nested None r (if negb (blen (pend (get s r)) =? 0) then stream_maybe_close r
                 else stream_maybe_close (leg_shutdown up s (mod_ s (fun d => d <| src_fin := true |>) r))).
Proof.
  intros Hl Hc He Hb. destruct (blen (pend (get s r)) =? 0) eqn:Ep; cbn [negb]; [|apply nested_maybe_close; by right].
  apply Z.eqb_eq, blen_0_nil in Ep.
  assert (nested None r (leg_shutdown up s (mod_ s (fun d => d <| src_fin := true |>) r))) as Hn by (by apply shut_ok).
  eapply nested_trans; [exact Hn|]. apply nested_maybe_close, (ne_inv _ _ _ Hn).
Qed.

Lemma relay_broker_eof_ok r : inv r -> nested None r (relay_broker_eof up r).
Proof.
  intros Hi. unfold relay_broker_eof. destruct (closing r) eqn:Hc; [by apply nested_refl|].
  destruct Hi as [[? _]|Hl]; [congruence|]. destruct (set_eof_ok B r Hl Hc) as [Hl1 Hn1]. cbv zeta.
  set (r1 := mod_ B (fun d => d <| src_eof := true |>) r) in *.
  assert (closing r1 = false) as Hc1 by (subst r1; by rewrite closing_mod).
  assert (src_eof (get B r1) = true) as He1 by (subst r1; by rewrite get_mod).
  clearbody r1. eapply nested_trans; [exact Hn1|]. clear Hn1 Hl Hc r.
  destruct (leg (to_b r1)) eqn:El; [|apply nested_refl; by right].
  assert (bound r1 = true) as Hb by (apply live_bound; [done|congruence]).
  destruct (ep_flush_ok B r1 Hl1 Hc1) as (Hn2 & Hl2 & Hc2). set (r2 := ep_flush up B r1) in *.
  destruct (ep_flush_ok A r2 Hl2 Hc2) as (Hn3 & Hl3 & Hc3). set (r3 := ep_flush up A r2) in *.
  eapply nested_trans; [exact Hn2|]. eapply nested_trans; [exact Hn3|]. apply (fin_ok B); auto.
  - apply (ne_eof _ _ _ Hn3), (ne_eof _ _ _ Hn2), He1.
  - rewrite (ne_bound _ _ _ Hn3), (ne_bound _ _ _ Hn2). congruence.
Qed.

Lemma relay_local_eof_ok r : inv r -> nested None r (relay_local_eof up r).
Proof.
  intros Hi. unfold relay_local_eof. destruct (closing r) eqn:Hc; [by apply nested_refl|].
  destruct Hi as [[? _]|Hl]; [congruence|]. destruct (set_eof_ok A r Hl Hc) as [Hl1 Hn1]. cbv zeta.
  set (r1 := mod_ A (fun d => d <| src_eof := true |>) r) in *.
  assert (closing r1 = false) as Hc1 by (subst r1; by rewrite closing_mod).
  assert (src_eof (get A r1) = true) as He1 by (subst r1; by rewrite get_mod).
  clearbody r1. eapply nested_trans; [exact Hn1|]. clear Hn1 Hl Hc r.
  destruct (ep_flush_ok A r1 Hl1 Hc1) as (Hn2 & Hl2 & Hc2).
  eapply nested_trans; [exact Hn2|]. apply (fin_ok A); auto. apply (ne_eof _ _ _ Hn2), He1.
Qed.

End EpOk.

Lemma sure_ok n : forall s u r, inv r -> nested None r (sure_upcall n s u r).
Proof.
  induction n as [|n IH]; intros s u r Hi; cbn [sure_upcall].
  - by destruct (nested_flags r (r <| stuck := true |>) Hi).
  - destruct (leg (get s r)) eqn:El, u; try by apply nested_refl. apply ep_low_ok; auto. congruence.
Qed.

(** ** Events of an endpoint *)

Abbreviation sup := (sure_upcall ep_depth).

(** No leg is missing that should be there. *)
Definition legs_ok (r : stream) : Prop :=
  closing r = false -> leg (to_a r) <> None /\ (bound r = true -> leg (to_b r) <> None).

Lemma agent_broker_read_ok data r : inv r -> legs_ok r -> flushing (to_b r) = false -> src_eof (to_b r) = false ->
  calm B (blen data) r (agent_broker_read sup data r).
Proof.
  intros Hi Hg Hf He. unfold agent_broker_read. pose proof (blen_nonneg data) as Hdn.
  destruct (closing r) eqn:Hc; [by apply calm_nested, nested_refl|].
  destruct Hi as [[? _]|Hl]; [congruence|]. destruct (Hg Hc) as [_ Hgb]. cbv zeta.
  set (r1 := r <| up_bytes ::= _ |>).
  destruct (nested_flags r r1) as [Hn Hl1]; [by right|by intros []|done|done|done|]. specialize (Hl1 Hl).
  assert (forall r', calm B (blen data) r1 r' -> calm B (blen data) r r') as Hcal
    by (intros r' [Q1 Q2 Q3]; constructor; [exact Q1|intros []; [apply (Q2 A)|apply (Q2 B)]|
        intros []; [apply (Q3 A)|apply (Q3 B)]]).
  apply Hcal. change (leg (to_b (fed B data r1))) with (leg (to_b r)). destruct (leg (to_b r)) eqn:El.
  - apply (forward_ok sup (sure_ok _) B); auto; [apply (live_bound r); [done|congruence]|cbn; congruence].
  - destruct (_ <? _) eqn:Es; [apply calm_close; [done|done|by intros []|by intros []]|]. apply Z.ltb_ge in Es.
    apply queue_preq_ok; auto. change (bound r = false). destruct (bound r); [by destruct Hgb|done].
Qed.

Lemma local_read_ok data r : inv r -> legs_ok r -> flushing (to_a r) = false -> src_eof (to_a r) = false -> bound r = true ->
  closing r = false -> calm A (blen data) r (forward sup A data (fed A data r)).
Proof.
  intros Hi Hg Hf He Hb Hc. destruct Hi as [[? _]|Hl]; [congruence|]. destruct (Hg Hc) as [Hga _].
  by apply (forward_ok sup (sure_ok _) A).
Qed.

(** The state in which the bytes of the time before the bind are flushed. *)
Abbreviation binding raw r := (mod_ B (fun d => d <| flushing := true |>) (bind_legs raw r)).

Lemma binding_ok raw r : live r -> bound r = false -> leg (to_a r) <> None -> io_fresh raw ->
  live (binding raw r) /\ fifo (to_b (binding raw r)).
Proof.
  intros Hl Hb Hle Hraw.
  destruct (li_pre r Hl Hb) as (P1 & P2 & P3 & P4 & P5 & P6 & P7 & P8 & P9).
  destruct (io_fresh_law raw Hraw) as (F1 & F2 & F3 & F4).
  assert (fifo (to_b (binding raw r))) as Hq by (intros i [= <-] _; cbn; by rewrite F2, P5).
  split; [|done]. destruct (leg (to_a r)) as [ia|] eqn:Ea; [|done].
  pose proof (di_ok _ _ (li_dir r Hl A) ia Ea) as Hok. destruct (io_start_law ia Hok) as (S1 & S2 & S3 & S4).
  constructor; [|done|done|done]. intros []; cbn.
  - destruct (li_dir r Hl A) as [d1 d2 d3 d4 d5]. cbn in *. rewrite Ea in *. constructor; cbn; auto; try congruence.
    intros Hfl i [= <-] Hlo. cbn. rewrite S1. by apply d2.
  - destruct (li_dir r Hl B) as [d1 d2 d3 d4 d5]. cbn in *. rewrite Ea in *. constructor; cbn; auto; try congruence.
    intros i Hp [= <-]. rewrite S4. auto.
Qed.

Lemma flush_binding up raw r : flushing (to_b r) = false ->
  ep_flush up B (bind_legs raw r) =
  mod_ B (fun d => d <| flushing := false |>) (flush_loop up (S (length (preq r))) B (binding raw r)).
Proof.
  intros Hf. unfold ep_flush.
  assert (leg (get B (bind_legs raw r)) = Some (io_start raw)) as -> by done. unfold flush_pend.
  assert (flushing (get B (bind_legs raw r)) = false) as -> by exact Hf. cbv zeta.
  assert (pend (get B (binding raw r)) = preq r) as -> by done. reflexivity.
Qed.

Lemma local_bind_ok raw r : inv r -> legs_ok r -> (forall t, flushing (get t r) = false) -> closing r = false ->
  bound r = false -> io_fresh raw -> calm B PEND_MAX r (local_bind sup raw r).
Proof.
  intros Hi Hg Hfl Hc Hb Hraw. destruct Hi as [[? _]|Hl]; [congruence|]. destruct (Hg Hc) as [Hga _].
  unfold local_bind. rewrite flush_binding by apply (Hfl B).
  destruct (binding_ok raw r Hl Hb Hga Hraw) as [Hl2 Hq2].
  destruct (li_pre r Hl Hb) as (P1 & P2 & P3 & P4 & P5 & P6 & P7 & P8 & P9).
  destruct (start_flush_ok sup (S (length (preq r))) (binding raw r) (sure_ok _) Hl2) as (L1 & L2 & L3 & L4 & L5 & L6 & L7); try done.
  set (r' := start_end _) in *. unfold bind_eof.
  assert (forall t, (length (pend (get t r')) <= if decide (t = B) then length (preq r) else 0)%nat) as Hp.
  { assert (pend (get A (binding raw r)) = pend (to_a r) /\ pend (get B (binding raw r)) = preq r) as [EA EB] by done.
    intros t. specialize (L7 t). destruct t; [rewrite EA, P6 in L7|rewrite EB in L7]; exact L7. }
  assert (forall t, flushing (get t r') = flushing (get t r)) as Hf'.
  { intros t. rewrite Hfl. destruct t; [exact (eq_trans L5 (Hfl A))|exact L4]. }
  clearbody r'. clear L4 L5 L6 L7 Hl2 Hq2.
  assert (calm B PEND_MAX r r') as Hcal.
  { constructor; [by right|done|]. intros t. specialize (Hp t). unfold blen in *. case_decide; lia. }
  destruct (src_eof (to_b r')); [|exact Hcal].
  pose proof (calm_trans _ _ _ _ _ Hcal (leg_shutdown_ok sup (sure_ok _) B r' L1 L2)) as [C1 C2 C3].
  destruct (src_eof (to_a _)); [|by constructor].
  constructor; [by apply inv_close|intros t; by rewrite flushing_close|intros t; by rewrite pend_close].
Qed.

(** ** Depth of the callbacks *)

Section EpFuel.
Context (up : side -> upcall -> stream -> stream) (n : nat)
        (Hup : forall s u r, inv r -> nested None r (up s u r))
        (Hn : forall s u r, inv r -> leg (get s r) <> None -> (todo r < n)%nat -> fine r (up s u r)).

Lemma fine_refl (r : stream) : fine r r.
Proof. split; [done|lia]. Qed.

Lemma ep_flush_fine s r : live r -> closing r = false -> (todo r <= n)%nat -> fine r (ep_flush up s r).
Proof.
  intros Hl Hc Ht. unfold ep_flush. destruct (leg (get s r)) eqn:El.
  - apply (flush_pend_fine up n); auto. congruence.
  - destruct (_ || _); [apply fine_refl|]. apply fine_mod. unfold dir_todo. cbn. lia.
Qed.

Lemma set_fin_live s r : live r -> pend (get s r) = [] -> src_eof (get s r) = true -> (bound r = false -> s = A) ->
  live (mod_ s (fun d => d <| src_fin := true |>) r).
Proof.
  intros Hl Hp He Hb. apply live_mod; auto 8; try done.
  - destruct (li_dir r Hl s). constructor; cbn; auto.
  - destruct (li_dir r Hl (other s)). rewrite other_other in *. by constructor.
Qed.

(** Sending the FIN spends one unit of what is left to do. *)
Lemma shut_fine s r : live r -> closing r = false -> pend (get s r) = [] -> src_eof (get s r) = true ->
  (bound r = false -> s = A) -> (todo r < n)%nat \/ (src_fin (get s r) = false /\ (todo r <= n)%nat) ->
  fine r (leg_shutdown up s (mod_ s (fun d => d <| src_fin := true |>) r)).
Proof.
  intros Hl Hc Hp He Hb Ht. pose proof (todo_mod s (fun d => d <| src_fin := true |>) r) as E.
  pose proof (set_fin_live s r Hl Hp He Hb) as Hl2.
  assert (fine r (mod_ s (fun d => d <| src_fin := true |>) r)) as Hf
    by (apply fine_mod; unfold dir_todo; cbn; repeat case_match; lia).
  eapply fine_trans; [exact Hf|]. apply (leg_shutdown_fine up n); auto; [by rewrite closing_mod|].
  set (r2 := mod_ s _ r) in *. clearbody r2. destruct Hf as [_ Hle]. destruct Ht as [?|[Hfin Ht]]; [lia|].
  unfold dir_todo in E. cbn in E. rewrite Hfin in E. lia.
Qed.

Lemma fin_fine s r : live r -> closing r = false -> src_eof (get s r) = true -> (bound r = false -> s = A) ->
  (todo r < n)%nat ->
  fine r (if negb (blen (pend (get s r)) =? 0) then stream_maybe_close r
          else stream_maybe_close (leg_shutdown up s (mod_ s (fun d => d <| src_fin := true |>) r))).
Proof.
  intros Hl Hc He Hb Ht. destruct (blen (pend (get s r)) =? 0) eqn:Ep; cbn [negb]; [|apply fine_maybe_close].
  apply Z.eqb_eq, blen_0_nil in Ep. eapply fine_trans; [|apply fine_maybe_close]. apply shut_fine; auto.
Qed.

Lemma ep_low_fine s r : inv r -> leg (get s r) <> None -> (todo r <= n)%nat -> fine r (ep_low up s r).
Proof.
  intros Hi Hle Ht. unfold ep_low. destruct (closing r) eqn:Hc; [apply fine_refl|].
  destruct Hi as [[? _]|Hl]; [congruence|].
  destruct (ep_flush_ok up Hup s r Hl Hc) as (Hne & Hl1 & Hc1).
  pose proof (ep_flush_fine s r Hl Hc Ht) as Hf.
  assert (bound r = false -> s = A) as Hbd by (by apply leg_bound). rewrite <- (ne_bound _ _ _ Hne) in Hbd.
  cbv zeta. set (r1 := ep_flush up s r) in *. clearbody r1.
  eapply fine_trans; [exact Hf|]. destruct Hf as [_ Ht1].
  destruct (blen (pend (get s r1)) =? 0) eqn:Ep; cbn [negb]; [|apply fine_maybe_close].
  apply Z.eqb_eq, blen_0_nil in Ep.
  set (r2 := if src_eof _ && _ then _ else r1).
  assert (fine r1 r2) as Hf2.
  { subst r2. destruct (src_eof (get s r1)) eqn:He; cbn [andb]; [|apply fine_refl].
    destruct (src_fin (get s r1)) eqn:Hfin; cbn [negb]; [apply fine_refl|].
    apply shut_fine; auto. right. split; [done|lia]. }
  clearbody r2. eapply fine_trans; [exact Hf2|]. eapply fine_trans; [|apply fine_maybe_close].
  destruct (src_paused _); [|apply fine_refl].
  eapply fine_trans; apply fine_mod; [unfold dir_todo; cbn; lia|].
  autorewrite with rl. unfold dir_todo. cbn. destruct (leg (get (other s) r2)); cbn; lia.
Qed.

Lemma set_eof_fine s (r : stream) : fine r (mod_ s (fun d => d <| src_eof := true |>) r).
Proof. apply fine_mod. unfold dir_todo. cbn. lia. Qed.

Lemma relay_broker_eof_fine r : inv r -> (todo r < n)%nat -> fine r (relay_broker_eof up r).
Proof.
  intros Hi Ht. unfold relay_broker_eof. destruct (closing r) eqn:Hc; [apply fine_refl|].
  destruct Hi as [[? _]|Hl]; [congruence|]. destruct (set_eof_ok B r Hl Hc) as [Hl1 _]. cbv zeta.
  pose proof (set_eof_fine B r) as Hf. set (r1 := mod_ B (fun d => d <| src_eof := true |>) r) in *.
  assert (closing r1 = false) as Hc1 by (subst r1; by rewrite closing_mod).
  assert (src_eof (get B r1) = true) as He1 by (subst r1; by rewrite get_mod).
  clearbody r1. eapply fine_trans; [exact Hf|]. destruct Hf as [_ Hf].
  destruct (leg (to_b r1)) eqn:El; [|apply fine_refl].
  assert (bound r1 = true) as Hb by (apply live_bound; [done|congruence]).
  destruct (ep_flush_ok up Hup B r1 Hl1 Hc1) as (Hn2 & Hl2 & Hc2).
  assert (fine r1 (ep_flush up B r1)) as Hf2 by (apply ep_flush_fine; auto; lia).
  set (r2 := ep_flush up B r1) in *. destruct (ep_flush_ok up Hup A r2 Hl2 Hc2) as (Hn3 & Hl3 & Hc3).
  assert (fine r2 (ep_flush up A r2)) as Hf3 by (apply ep_flush_fine; auto; destruct Hf2; lia).
  eapply fine_trans; [exact Hf2|]. eapply fine_trans; [exact Hf3|]. apply (fin_fine B); auto.
  - apply (ne_eof _ _ _ Hn3), (ne_eof _ _ _ Hn2), He1.
  - rewrite (ne_bound _ _ _ Hn3), (ne_bound _ _ _ Hn2). congruence.
  - destruct Hf2, Hf3. lia.
Qed.

Lemma relay_local_eof_fine r : inv r -> (todo r < n)%nat -> fine r (relay_local_eof up r).
Proof.
  intros Hi Ht. unfold relay_local_eof. destruct (closing r) eqn:Hc; [apply fine_refl|].
  destruct Hi as [[? _]|Hl]; [congruence|]. destruct (set_eof_ok A r Hl Hc) as [Hl1 _]. cbv zeta.
  pose proof (set_eof_fine A r) as Hf. set (r1 := mod_ A (fun d => d <| src_eof := true |>) r) in *.
  assert (closing r1 = false) as Hc1 by (subst r1; by rewrite closing_mod).
  assert (src_eof (get A r1) = true) as He1 by (subst r1; by rewrite get_mod).
  clearbody r1. eapply fine_trans; [exact Hf|]. destruct Hf as [_ Hf].
  destruct (ep_flush_ok up Hup A r1 Hl1 Hc1) as (Hn2 & Hl2 & Hc2).
  assert (fine r1 (ep_flush up A r1)) as Hf2 by (apply ep_flush_fine; auto; lia).
  eapply fine_trans; [exact Hf2|]. apply (fin_fine A); auto; [apply (ne_eof _ _ _ Hn2), He1|]. destruct Hf2. lia.
Qed.

End EpFuel.

Lemma sure_fine n : forall s u r, inv r -> leg (get s r) <> None -> (todo r < n)%nat -> fine r (sure_upcall n s u r).
Proof.
  induction n as [|n IH]; intros s u r Hi Hle Ht; [lia|]. cbn [sure_upcall].
  destruct (leg (get s r)) eqn:El; [|done]. destruct u; [|apply fine_refl].
  apply (ep_low_fine _ n); auto using sure_ok; [congruence|lia].
Qed.

Lemma ep_deep (r : stream) : (todo r < ep_depth)%nat.
Proof. pose proof (todo_bound r). unfold ep_depth. lia. Qed.

(** ** The invariant of a run *)

Record settled (k : program) (r : stream) : Prop := {
  se_quiet : quiet r;
  se_legs : legs_ok r;
  se_peer : k = Peer -> closing r = false -> bound r = false -> preq r = [];
}.

Lemma legs_kept r r' : kept r r' -> legs_ok r -> legs_ok r'.
Proof.
  intros (K1 & K2 & K3) Hg Hc. destruct K3 as [?|K3]; [congruence|].
  assert (closing r = false) as Hcr by (apply not_true_is_false; intros E; rewrite (K1 E) in Hc; done).
  destruct (Hg Hcr) as [Ga Gb]. rewrite K2. split; [by apply (K3 A)|]. intros Hb. by apply (K3 B), Gb.
Qed.

Lemma settled_calm k x n r r' : settled k r -> calm x n r r' -> kept r r' -> stuck r' = stuck r ->
  (bound r = false -> preq r' = preq r \/ k = Agent) -> settled k r'.
Proof.
  intros [Q G P] Hc Hk Hs Hp. constructor.
  - by apply (quiet_calm x n r).
  - by apply (legs_kept r).
  - intros Hk' Hcl Hb. destruct Hk as (K1 & K2 & _). rewrite K2 in Hb. destruct (Hp Hb) as [->|?]; [|congruence].
    apply P; auto. apply not_true_is_false. intros E. rewrite (K1 E) in Hcl. done.
Qed.

Lemma settled_nested k r r' : settled k r -> nested None r r' -> kept r r' -> fine r r' -> settled k r'.
Proof.
  intros Hs Hn Hk [Hf _]. apply (settled_calm k A 0 r); auto; [by apply calm_nested|]. intros _. left. apply (ne_preq _ _ _ Hn).
Qed.

Lemma settled_close k r : settled k r -> settled k (tm_stream_close r).
Proof.
  intros Hs. destruct Hs as [[Hi Hfl Hst] G P]. apply (settled_calm k A 0 r); [by constructor| |apply kept_close|apply fine_close|].
  - constructor; [by apply inv_close|intros t; apply flushing_close|]. intros t. rewrite pend_close. case_decide; lia.
  - intros _. left. unfold tm_stream_close. by destruct (closing r).
Qed.

Lemma send_live data i r : live r -> bound r = false -> leg (to_a r) = Some i ->
  let i' := snd (io_write i data) in live (mod_ A (fun d => d <| leg := Some i' |> <| base := io_log i' |>) r).
Proof.
  intros Hl Hb El. destruct (li_pre r Hl Hb) as (P1 & P2 & P3 & P4 & P5 & P6 & P7 & P8 & P9).
  destruct (li_dir r Hl A) as [d1 d2 d3 d4 d5]. cbn [get other] in *.
  destruct (io_write_law i data (d1 i El)) as (_ & L2 & _ & L4). cbv zeta. set (i' := snd (io_write i data)) in *. clearbody i'.
  apply live_mod; auto 8; try done.
  - constructor; cbn; auto; try congruence. intros _ j [= <-] _. cbn. by rewrite P6, P7.
  - destruct (li_dir r Hl B) as [e1 e2 e3 e4 e5]. cbn in *. constructor; cbn; auto. intros j Hp [= <-]. rewrite L4. auto.
Qed.

(** Frames of the handshake become part of what the leg had accepted before the relay. *)
Lemma settled_send k data r : bound r = false -> settled k r -> settled k (snd (ep_send eup data r)).
Proof.
  intros Hb Hs. rewrite (ep_send_ext _ _ (upcall_sure ep_depth)). unfold ep_send.
  destruct (leg (to_a r)) as [i|] eqn:El; [|done]. pose proof Hs as [[[[_ Hno]|Hl] Hfl Hst] G P];
    [specialize (Hno A); cbn in Hno; congruence|].
  pose proof (send_live data i r Hl Hb El) as Hl1. destruct (io_write i data) as [[st us] i']. cbn [fst snd] in *.
  set (r1 := mod_ A _ r) in *.
  assert (calm A 0 r r1) as Hc1 by (constructor; [by right|by intros []|intros []; cbn; case_decide; lia]).
  pose proof (run_up_ok sup (sure_ok _) A us r1 (or_intror Hl1)) as Hn.
  apply (settled_calm k A 0 r); [done|by apply (calm_trans _ _ _ r1)| | |].
  - apply (kept_trans _ r1); [by apply kept_mod|]. by apply kept_run_up, kept_sure.
  - destruct (run_up_fine sup ep_depth (sure_ok _) (sure_fine _) A us r1 (or_intror Hl1) (ep_deep _)) as [-> _]. done.
  - intros _. left. by rewrite (ne_preq _ _ _ Hn).
Qed.

Lemma settled_accept lo r : bound r = false -> blen lo <= PEND_MAX -> settled Agent r -> settled Agent (agent_accept lo r).
Proof.
  intros Hb Hlo Hs. pose proof Hs as [[Hi Hfl Hst] G P].
  apply (settled_calm Agent A 0 r); [done| |apply (kept_trans _ (r <| preq := lo |>)); [by apply kept_flags; [| |intros []]|by apply kept_mod]|done|by right].
  constructor; [|by intros []|intros []; cbn; case_decide; lia].
  destruct Hi as [[Hc Hno]|Hl]; [left; split; [done|by intros []; cbn; [apply (Hno A)|apply (Hno B)]]|right].
  destruct (li_pre r Hl Hb) as (P1 & P2 & P3 & P4 & P5 & P6 & P7 & P8 & P9).
  constructor; cbn; try done; try congruence.
  - intros []; cbn; [destruct (li_dir r Hl A) as [d1 d2 d3 d4 d5]|destruct (li_dir r Hl B) as [d1 d2 d3 d4 d5]];
      cbn in *; constructor; cbn; auto. intros _ j Ej. cbn in Ej. congruence.
Qed.

Lemma settled_flags k r r' : (forall s, get s r' = get s r) -> bound r' = bound r -> preq r' = preq r ->
  closing r' = closing r -> stuck r' = stuck r -> settled k r -> settled k r'.
Proof.
  intros Hg Hb Hp Hc Hst Hs. pose proof Hs as [[Hi _ _] _ _].
  destruct (nested_flags r r' Hi Hg Hb Hp Hc) as [Hn _]. apply (settled_nested k r); auto.
  - apply kept_flags; auto. intros t. by rewrite Hg.
  - split; [done|]. unfold todo. pose proof (Hg A) as EA. pose proof (Hg B) as EB. cbn in EA, EB. by rewrite EA, EB.
Qed.

Lemma settled_forward k s data r : settled k r -> closing r = false -> bound r = true -> src_eof (get s r) = false ->
  settled k (forward sup s data (fed s data r)).
Proof.
  intros Hs Hc Hb He. pose proof Hs as [[Hi Hfl Hst] G P]. destruct Hi as [[? _]|Hl]; [congruence|].
  destruct (G Hc) as [Ga Gb]. assert (leg (get s r) <> None) as Hle by (destruct s; cbn; auto).
  apply (settled_calm k s (blen data) r); [done|by apply (forward_ok sup (sure_ok _))| | |congruence].
  - apply (kept_trans _ (fed s data r)); [by apply kept_mod|]. apply kept_forward, kept_sure.
  - destruct (forward_fine sup ep_depth (sure_ok _) (sure_fine _) s data r) as [-> _]; auto. apply ep_deep.
Qed.

Lemma settled_queue data r : settled Agent r -> closing r = false -> bound r = false -> src_eof (to_b r) = false ->
  blen (preq r) + blen data <= PEND_MAX -> settled Agent (queue_preq data (fed B data r)).
Proof.
  intros Hs Hc Hb He Hsz. pose proof Hs as [[Hi Hfl Hst] G P]. destruct Hi as [[? _]|Hl]; [congruence|].
  apply (settled_calm Agent B (blen data) r); [done|by apply queue_preq_ok| | |by right].
  - apply (kept_trans _ (fed B data r)); [by apply kept_mod|]. unfold queue_preq. cbv zeta.
    set (r2 := fed B data r <| preq ::= _ |> <| preq_cap := _ |>).
    apply (kept_trans _ r2); [by apply kept_flags; [| |intros []]|]. destruct (_ <=? _); [|apply kept_refl].
    eapply kept_trans; [|by apply kept_mod]. apply kept_fmap.
  - unfold queue_preq. by destruct (_ <=? _).
Qed.

Lemma settled_broker_read k data r : settled k r -> src_eof (to_b r) = false -> k = Agent \/ bound r = true ->
  settled k (broker_read k data r).
Proof.
  intros Hs He Hk. destruct k; cbn [broker_read].
  - rewrite (agent_broker_read_ext _ _ (upcall_sure ep_depth)). unfold agent_broker_read.
    destruct (closing r) eqn:Hc; [done|]. cbv zeta. set (r1 := r <| up_bytes ::= _ |>).
    assert (settled Agent r1) as Hs1 by (by apply (settled_flags Agent r); [intros []|..]).
    change (leg (to_b (fed B data r1))) with (leg (to_b r)). pose proof (se_legs _ _ Hs Hc) as [_ Gb].
    destruct (leg (to_b r)) eqn:El.
    + apply settled_forward; auto. pose proof (qu_inv _ (se_quiet _ _ Hs)) as [[? _]|Hl]; [congruence|].
      apply (live_bound r); [done|congruence].
    + assert (bound r = false) as Hb by (destruct (bound r); [by destruct Gb|done]).
      destruct (_ <? _) eqn:Esz.
      * apply (settled_calm Agent B 0 r1); [done|apply calm_close; [done|done|by intros []|by intros []]| | |by right].
        -- apply (kept_trans _ (fed B data r1)); [by apply kept_mod|apply kept_close].
        -- by rewrite (proj1 (fine_close _)).
      * apply Z.ltb_ge in Esz. by apply settled_queue.
  - rewrite (peer_broker_read_ext _ _ (upcall_sure ep_depth)). unfold peer_broker_read.
    destruct (closing r) eqn:Hc; [done|]. cbv zeta. destruct Hk as [?|Hb]; [done|].
    change (leg (to_b (fed B data r))) with (leg (to_b r)). destruct (se_legs _ _ Hs Hc) as [_ Gb].
    destruct (leg (to_b r)) eqn:El; [by apply settled_forward|by destruct Gb].
Qed.

Lemma settled_local_read k data r : settled k r -> src_eof (to_a r) = false -> bound r = true -> settled k (local_read k data r).
Proof.
  intros Hs He Hb. destruct k; cbn [local_read].
  - rewrite (agent_local_read_ext _ _ (upcall_sure ep_depth)). unfold agent_local_read.
    destruct (closing r) eqn:Hc; [done|]. set (r1 := r <| down_bytes ::= _ |>).
    apply settled_forward; auto. by apply (settled_flags Agent r); [intros []|..].
  - rewrite (peer_local_read_ext _ _ (upcall_sure ep_depth)). unfold peer_local_read.
    destruct (closing r) eqn:Hc; [done|]. by apply settled_forward.
Qed.

Lemma settled_bind raw r : settled Agent r -> closing r = false -> bound r = false -> io_fresh raw ->
  settled Agent (local_bind eup raw r).
Proof.
  intros Hs Hc Hb Hraw. rewrite (local_bind_ext _ _ (upcall_sure ep_depth)).
  pose proof Hs as [[Hi Hfl Hst] G P].
  pose proof (local_bind_ok raw r Hi G Hfl Hc Hb Hraw) as Hcal.
  destruct Hi as [[? _]|Hl]; [congruence|]. destruct (G Hc) as [Ga _].
  destruct (binding_ok raw r Hl Hb Ga Hraw) as [Hl2 Hq2].
  assert (kept (bind_legs raw r) (local_bind sup raw r)) as Hk.
  { unfold local_bind, bind_eof. eapply kept_trans; [apply (kept_ep_flush sup (kept_sure _) B)|].
    generalize (ep_flush sup B (bind_legs raw r)). intros x. apply (kept_trans _ (start_end x)).
    - unfold start_end. destruct (negb _).
      + eapply kept_trans; [|by apply kept_mod]. apply kept_fmap.
      + destruct (src_paused _); [|apply kept_refl]. eapply kept_trans; [|apply kept_fmap]. by apply kept_mod.
    - destruct (src_eof (to_b (start_end x))); [|apply kept_refl].
      eapply kept_trans; [apply (kept_shutdown sup (kept_sure _) B)|].
      destruct (src_eof (to_a _)); [apply kept_close|apply kept_refl]. }
  assert (legs_ok (bind_legs raw r)) as Gb.
  { intros _. split; [cbn; by destruct (leg (to_a r))|done]. }
  constructor.
  - apply (quiet_calm B PEND_MAX r); [by apply (se_quiet _ _ Hs)|done|].
    unfold local_bind. rewrite flush_binding by apply (Hfl B).
    destruct (start_flush_ok sup (S (length (preq r))) (binding raw r) (sure_ok _) Hl2) as (L1 & L2 & _); try done.
    destruct (flush_loop_fine sup ep_depth (sure_ok _) (sure_fine _) (S (length (preq r))) B (binding raw r) Hl2) as [Hst2 _];
      [done|done|cbn; lia|apply ep_deep|].
    assert (forall x, stuck (start_end x) = stuck x) as Hse by (intros x; unfold start_end; by repeat case_match).
    set (r' := start_end _) in *. assert (stuck r' = stuck r) as <-.
    { subst r'. rewrite Hse. assert (forall f (x : stream), stuck (mod_ B f x) = stuck x) as Hm by done.
      rewrite Hm, Hst2. done. }
    clearbody r'. unfold bind_eof. destruct (src_eof (to_b r')); [|done].
    destruct (leg_shutdown_fine sup ep_depth (sure_ok _) (sure_fine _) B r' L1 L2 (ep_deep _)) as [E _].
    destruct (src_eof (to_a _)); [|done]. by rewrite (proj1 (fine_close _)).
  - by apply (legs_kept (bind_legs raw r)).
  - done.
Qed.


Abbreviation peer_legs raw r :=
  (mod_ B (fun d => d <| leg := Some (io_start raw) |> <| base := [] |>) (r <| bound := true |> <| timer_on := false |>)).

Lemma peer_legs_ok raw r : settled Peer r -> closing r = false -> bound r = false -> io_fresh raw ->
  live (peer_legs raw r) /\ settled Peer (peer_legs raw r) /\ pend (to_b r) = [] /\ src_fin (to_b r) = false /\
  flushing (to_b r) = false /\ stuck r = false /\ io_ok (io_start raw).
Proof.
  intros Hs Hc Hb Hraw. pose proof Hs as [[Hi Hfl Hst] G P]. specialize (P eq_refl Hc Hb).
  destruct Hi as [[? _]|Hl]; [congruence|]. destruct (G Hc) as [Ga _].
  destruct (li_pre r Hl Hb) as (P1 & P2 & P3 & P4 & P5 & P6 & P7 & P8 & P9). rewrite P in P5.
  destruct (io_fresh_law raw Hraw) as (F1 & F2 & F3 & F4).
  assert (live (peer_legs raw r)) as Hl1.
  { constructor; [|done|done|done]. intros []; cbn.
    - destruct (li_dir r Hl A) as [d1 d2 d3 d4 d5]. cbn in *. constructor; cbn; auto. congruence.
    - destruct (li_dir r Hl B) as [d1 d2 d3 d4 d5]. cbn in *. constructor; cbn; auto; try congruence.
      intros _ i [= <-] _. cbn. by rewrite F2, P2, <- P5. }
  split_and!; try done.
  constructor; [constructor; [by right|by intros []; cbn; [apply (Hfl A)|apply (Hfl B)]|done]|by intros _|done].
Qed.

(** The bind with its first write, which calls nothing back. *)
Lemma peer_bind_eq up raw lo r : settled Peer r -> closing r = false -> bound r = false -> io_fresh raw ->
  exists us i1 st, io_write (io_start raw) lo = (st, us, i1) /\
  peer_bind up raw lo r =
    (if blen lo =? 0 then peer_legs raw r
     else mod_ B (fun d => d <| leg := Some i1 |> <| lost ::= orb (negb (bool_decide (st = TM_OK))) |>) (fed B lo (peer_legs raw r))).
Proof.
  intros Hs Hc Hb Hraw. destruct (peer_legs_ok raw r Hs Hc Hb Hraw) as (_ & _ & Hp & _).
  destruct (io_write (io_start raw) lo) as [[st us] i1] eqn:Ew. exists us, i1, st. split; [done|].
  unfold peer_bind. cbv zeta. destruct (blen lo =? 0) eqn:E0; zb.
  - apply blen_0_nil in E0 as ->. destruct r as [? ? [] ? ? ? ? ? ?]; cbn in *. rewrite app_nil_r. by subst.
  - assert (lo <> []) as Hne by (by intros ->). pose proof (sure_first raw lo Hraw Hne) as Hu. rewrite Ew in Hu. cbn in Hu. subst us.
    unfold leg_write. rewrite get_mod. cbn [leg]. change (leg (_ <| leg := Some (io_start raw) |> <| base := [] |> <| pend := lo |>)) with (Some (io_start raw)).
    cbn match. rewrite Ew. cbn [run_up fold_left]. rewrite !closing_mod. cbn [closing]. change (closing (r <| bound := true |> <| timer_on := false |>)) with (closing r).
    rewrite Hc. destruct r as [? ? [] ? ? ? ? ? ?]; cbn in *. by subst.
Qed.

Lemma settled_peer_bind raw lo r : settled Peer r -> closing r = false -> bound r = false -> io_fresh raw ->
  settled Peer (peer_bind eup raw lo r).
Proof.
  intros Hs Hc Hb Hraw. destruct (peer_bind_eq eup raw lo r Hs Hc Hb Hraw) as (us & i1 & st & Ew & ->).
  destruct (peer_legs_ok raw r Hs Hc Hb Hraw) as (Hl1 & Hs1 & E2 & E3 & E4 & E7 & F1).
  set (r1 := peer_legs raw r) in *. destruct (blen lo =? 0); [done|].
  assert (leg (get B r1) = Some (io_start raw) /\ bound r1 = true /\ pend (get B r1) = [] /\ src_fin (get B r1) = false /\ flushing (get B r1) = false)
    as (E1 & E5 & E6 & E8 & E9) by done.
  clearbody r1. pose proof (io_write_law (io_start raw) lo F1) as (L1 & L2 & L3 & L4). rewrite Ew in L1, L2, L3, L4. cbn [fst snd] in *.
  rewrite mod_mod. set (f := fun d : dir => _).
  apply (settled_calm Peer B 0 r1); [done| |by apply kept_mod|done|congruence].
  constructor; [|by intros []|intros []; cbn; case_decide; lia]. right.
  apply live_mod; auto 8; try (rewrite E5; done); try done.
  - destruct (li_dir r1 Hl1 B) as [d1 d2 d3 d4 d5]. constructor; cbn; auto; try congruence.
    intros Hf i [= <-] Hlo. apply orb_false_iff in Hlo as [Hst Hlo]. zb. subst st. destruct L1 as [L1 _].
    cbn in E6, Hlo |- *. rewrite L1, E6, app_nil_r. pose proof (d2 E9 (io_start raw) E1 Hlo) as Hd. cbn in Hd. rewrite E6, app_nil_r in Hd. rewrite Hd. by rewrite app_assoc.
  - destruct (li_dir r1 Hl1 A) as [d1 d2 d3 d4 d5]. cbn in *. constructor; cbn; auto. intros j Hp [= <-]. rewrite L4. eauto.
Qed.

Lemma settled_step k r r' : ep_step k r r' -> settled k r -> settled k r'.
Proof.
  intros Hst Hs. pose proof Hs as [[Hi Hfl _] _ _].
  destruct Hst as [data r Hb|lo r -> Hb Hlo|data r He Hk|data r He Hb|r Hk|r|s r Hle|s i i' r El Hm|raw r -> Hc Hb Hr|raw lo r -> Hc Hb Hr|on r|r].
  - by apply settled_send.
  - by apply settled_accept.
  - by apply settled_broker_read.
  - by apply settled_local_read.
  - rewrite (relay_broker_eof_ext _ _ (upcall_sure ep_depth)). apply (settled_nested k r); auto.
    + apply relay_broker_eof_ok; [apply sure_ok|done].
    + by apply kept_broker_eof, kept_sure.
    + apply (relay_broker_eof_fine _ ep_depth); auto using sure_ok, sure_fine. apply ep_deep.
  - rewrite (relay_local_eof_ext _ _ (upcall_sure ep_depth)). apply (settled_nested k r); auto.
    + apply relay_local_eof_ok; [apply sure_ok|done].
    + by apply kept_local_eof, kept_sure.
    + apply (relay_local_eof_fine _ ep_depth); auto using sure_ok, sure_fine. apply ep_deep.
  - rewrite (ep_low_ext _ _ (upcall_sure ep_depth)). apply (settled_nested k r); auto.
    + by apply ep_low_ok; [apply sure_ok|..].
    + by apply kept_low, kept_sure.
    + pose proof (ep_deep r). apply (ep_low_fine _ ep_depth); auto using sure_ok, sure_fine. lia.
  - destruct Hi as [[_ Hn]|Hl]; [by rewrite Hn in El|]. pose proof (li_dir r Hl s) as Hd.
    destruct (io_moves_law i i' Hm (di_ok _ _ Hd i El)) as (M1 & M2 & M3 & M4).
    apply (settled_nested k r); [done| |by apply kept_mod|apply fine_mod; unfold dir_todo; rewrite El; cbn; lia].
    apply nested_mod; cbn; auto; try congruence.
    apply (set_leg_ok s i); auto. intros _ Hlo. rewrite M1. by apply (di_fifo _ _ Hd (Hfl s)).
  - by apply settled_bind.
  - by apply settled_peer_bind.
  - apply (settled_flags k r); [by intros []|done..].
  - by apply settled_close.
Qed.


(** ** The FIN of a leg

    An endpoint tells a leg to end only when its source has ended and nothing waits for
    it, except at the agent's bind ([late_bind_loses] below). *)

(** No callback of such a leg ends a source. *)
Definition eofs (r r' : stream) : Prop := forall t, src_eof (get t r') = src_eof (get t r).

Lemma eofs_trans r1 r2 r3 : eofs r1 r2 -> eofs r2 r3 -> eofs r1 r3.
Proof. intros H1 H2 t. by rewrite H2, H1. Qed.
Lemma eofs_flags r r' : (forall t, get t r' = get t r) -> eofs r r'.
Proof. intros E t. by rewrite E. Qed.
Lemma eofs_mod s f r : src_eof (f (get s r)) = src_eof (get s r) -> eofs r (mod_ s f r).
Proof. intros E. red. by_side s; by autorewrite with rl. Qed.
Lemma eofs_close r : eofs r (tm_stream_close r).
Proof.
  destruct (closing r) eqn:Hc; [unfold tm_stream_close; by rewrite Hc|].
  intros t. by destruct (get_close t r Hc) as (_ & _ & _ & _ & _ & ->).
Qed.
Lemma eofs_maybe_close r : eofs r (stream_maybe_close r).
Proof. unfold stream_maybe_close. repeat (case_match; [done|]). apply eofs_close. Qed.

Section Eofs.
Context (up : side -> upcall -> stream -> stream) (Hup : forall s u r, eofs r (up s u r)).

Lemma eofs_run_up s us : forall r, eofs r (run_up up s us r).
Proof.
  induction us as [|u us IH]; intros r; [done|]. unfold run_up in *. cbn [fold_left].
  destruct (leg (get s r)); [|apply IH]. eapply eofs_trans; [apply Hup|apply IH].
Qed.
Lemma eofs_write s d r : eofs r (snd (leg_write up s d r)).
Proof.
  unfold leg_write. destruct (leg (get s r)) as [i|]; [|done].
  destruct (io_write i d) as [[st us] i']. eapply eofs_trans; [|apply eofs_run_up]. by apply eofs_mod.
Qed.
Lemma eofs_shutdown s r : eofs r (leg_shutdown up s r).
Proof.
  unfold leg_shutdown. destruct (leg (get s r)) as [i|]; [|done].
  destruct (io_shutdown_send i) as [us i']. eapply eofs_trans; [|apply eofs_run_up]. by apply eofs_mod.
Qed.
Lemma eofs_flush_loop fuel s : forall r, eofs r (flush_loop up fuel s r).
Proof.
  induction fuel as [|fuel IH]; intros r; cbn [flush_loop]; [by apply eofs_flags; intros []|].
  destruct (_ =? 0); [done|]. destruct (leg (get s r)); [|by apply eofs_flags; intros []].
  set (d := take _ _). pose proof (eofs_write s d r) as Hw. destruct (leg_write up s d r) as [st r1]. cbn [snd] in Hw.
  destruct st; try (eapply eofs_trans; [exact Hw|by apply eofs_mod]); [|done].
  eapply eofs_trans; [exact Hw|]. destruct (closing r1); [by apply eofs_flags; intros []|].
  eapply eofs_trans; [|apply IH]. set (r2 := mod_ s _ r1). apply (eofs_trans _ r2); [by apply eofs_mod|].
  destruct (_ =? 0); [by apply eofs_mod|done].
Qed.
Lemma eofs_ep_flush s r : eofs r (ep_flush up s r).
Proof.
  unfold ep_flush, flush_pend. destruct (leg (get s r)).
  - destruct (flushing _); [done|]. eapply eofs_trans; [|by apply eofs_mod].
    eapply eofs_trans; [|apply eofs_flush_loop]. by apply eofs_mod.
  - destruct (_ || _); [done|]. by apply eofs_mod.
Qed.
Lemma eofs_low s r : eofs r (ep_low up s r).
Proof.
  unfold ep_low. destruct (closing r); [done|]. eapply eofs_trans; [apply (eofs_ep_flush s)|].
  set (x := ep_flush up s r). clearbody x. clear r. rename x into r. cbv zeta.
  destruct (negb _); [apply eofs_maybe_close|]. eapply eofs_trans; [|apply eofs_maybe_close].
  set (r1 := if _ && _ then _ else r). apply (eofs_trans _ r1).
  - subst r1. destruct (_ && _); [|done]. eapply eofs_trans; [|apply eofs_shutdown]. by apply eofs_mod.
  - destruct (src_paused _); [|done]. unfold leg_resume.
    eapply eofs_trans; [|by apply eofs_mod]. by apply eofs_mod.
Qed.
End Eofs.

Lemma eofs_sure n : forall s u r, eofs r (sure_upcall n s u r).
Proof.
  induction n as [|n IH]; intros s u r; cbn [sure_upcall]; [by apply eofs_flags; intros []|].
  destruct (leg (get s r)), u; try done. by apply eofs_low.
Qed.

Section EpFins.
Context (up : side -> upcall -> stream -> stream)
        (Hup : forall s u r, inv r -> nested None r (up s u r))
        (Hf : forall s u r, inv r -> fins r -> fins (up s u r)).

Lemma ep_flush_fins s r : live r -> closing r = false -> fins r -> fins (ep_flush up s r).
Proof.
  intros Hl Hc Hr. unfold ep_flush. destruct (leg (get s r)) eqn:El.
  - apply flush_pend_fins; auto. congruence.
  - destruct (_ || _); [done|]. apply fins_keep; auto.
Qed.

(** After the flush at the end of a source. *)
Lemma fin_fins s r : live r -> closing r = false -> src_eof (get s r) = true -> (bound r = false -> s = A) -> fins r ->
  fins (if negb (blen (pend (get s r)) =? 0) then stream_maybe_close r
        else stream_maybe_close (leg_shutdown up s (mod_ s (fun d => d <| src_fin := true |>) r))).
Proof.
  intros Hl Hc He Hb Hr. destruct (blen (pend (get s r)) =? 0) eqn:Ep; cbn [negb]; [|by apply fins_maybe_close].
  apply Z.eqb_eq, blen_0_nil in Ep. by apply fins_maybe_close, shut_fins.
Qed.

Lemma ep_low_fins s r : inv r -> leg (get s r) <> None -> fins r -> fins (ep_low up s r).
Proof.
  intros Hi Hle Hr. unfold ep_low. destruct (closing r) eqn:Hc; [done|].
  destruct Hi as [[? _]|Hl]; [congruence|].
  destruct (ep_flush_ok up Hup s r Hl Hc) as (Hne & Hl1 & Hc1). pose proof (ep_flush_fins s r Hl Hc Hr) as Hr1.
  assert (bound r = false -> s = A) as Hbd by (by apply leg_bound). rewrite <- (ne_bound _ _ _ Hne) in Hbd.
  cbv zeta. set (r1 := ep_flush up s r) in *. clearbody r1.
  destruct (blen (pend (get s r1)) =? 0) eqn:Ep; cbn [negb]; [|by apply fins_maybe_close].
  apply Z.eqb_eq, blen_0_nil in Ep. apply fins_maybe_close. set (r2 := if src_eof _ && _ then _ else r1).
  assert (fins r2) as Hr2.
  { subst r2. destruct (src_eof (get s r1)) eqn:He; cbn [andb]; [|done]. case_match; [by apply shut_fins|done]. }
  clearbody r2. destruct (src_paused _); [|done]. unfold leg_resume.
  apply fins_map; [apply resume_keeps|]. apply fins_keep; auto.
Qed.

Lemma broker_eof_fins r : inv r -> fins r -> fins (relay_broker_eof up r).
Proof.
  intros Hi Hr. unfold relay_broker_eof. destruct (closing r) eqn:Hc; [done|].
  destruct Hi as [[? _]|Hl]; [congruence|]. destruct (set_eof_ok B r Hl Hc) as [Hl1 _]. cbv zeta.
  assert (fins (mod_ B (fun d => d <| src_eof := true |>) r)) as Hr1 by (apply fins_keep; auto).
  set (r1 := mod_ B (fun d => d <| src_eof := true |>) r) in *.
  assert (closing r1 = false) as Hc1 by (subst r1; by rewrite closing_mod).
  assert (src_eof (get B r1) = true) as He1 by (subst r1; by rewrite get_mod). clearbody r1.
  destruct (leg (to_b r1)) eqn:El; [|done].
  assert (bound r1 = true) as Hb by (apply live_bound; [done|congruence]).
  destruct (ep_flush_ok up Hup B r1 Hl1 Hc1) as (Hn2 & Hl2 & Hc2). pose proof (ep_flush_fins B r1 Hl1 Hc1 Hr1) as Hr2.
  set (r2 := ep_flush up B r1) in *. destruct (ep_flush_ok up Hup A r2 Hl2 Hc2) as (Hn3 & Hl3 & Hc3).
  pose proof (ep_flush_fins A r2 Hl2 Hc2 Hr2) as Hr3. apply (fin_fins B); auto.
  - apply (ne_eof _ _ _ Hn3), (ne_eof _ _ _ Hn2), He1.
  - rewrite (ne_bound _ _ _ Hn3), (ne_bound _ _ _ Hn2). congruence.
Qed.

Lemma local_eof_fins r : inv r -> fins r -> fins (relay_local_eof up r).
Proof.
  intros Hi Hr. unfold relay_local_eof. destruct (closing r) eqn:Hc; [done|].
  destruct Hi as [[? _]|Hl]; [congruence|]. destruct (set_eof_ok A r Hl Hc) as [Hl1 _]. cbv zeta.
  assert (fins (mod_ A (fun d => d <| src_eof := true |>) r)) as Hr1 by (apply fins_keep; auto).
  set (r1 := mod_ A (fun d => d <| src_eof := true |>) r) in *.
  assert (closing r1 = false) as Hc1 by (subst r1; by rewrite closing_mod).
  assert (src_eof (get A r1) = true) as He1 by (subst r1; by rewrite get_mod). clearbody r1.
  destruct (ep_flush_ok up Hup A r1 Hl1 Hc1) as (Hn2 & Hl2 & Hc2). pose proof (ep_flush_fins A r1 Hl1 Hc1 Hr1) as Hr2.
  apply (fin_fins A); auto. apply (ne_eof _ _ _ Hn2), He1.
Qed.
End EpFins.

Lemma sure_fins n : forall s u r, inv r -> fins r -> fins (sure_upcall n s u r).
Proof.
  induction n as [|n IH]; intros s u r Hi Hr; cbn [sure_upcall]; [by apply (fins_flags r); [intros []|]|].
  destruct (leg (get s r)) eqn:El, u; try done. apply ep_low_fins; auto using sure_ok. congruence.
Qed.

(** At the bind nothing waits any more, or the broker's side has not ended. *)
Lemma bind_fins raw r : settled Agent r -> closing r = false -> bound r = false -> io_fresh raw ->
  src_eof (to_b r) = false \/ preq r = [] -> fins r -> fins (local_bind eup raw r).
Proof.
  intros [[Hi Hfl Hst] G P] Hc Hb Hraw Hp Hr. rewrite (local_bind_ext _ _ (upcall_sure ep_depth)).
  destruct Hi as [[? _]|Hl]; [congruence|]. destruct (G Hc) as [Ga _].
  destruct (binding_ok raw r Hl Hb Ga Hraw) as [Hl2 Hq2]. destruct (io_fresh_law raw Hraw) as (F1 & F2 & F3 & F4).
  unfold local_bind. rewrite flush_binding by apply (Hfl B).
  destruct (start_flush_ok sup (S (length (preq r))) (binding raw r) (sure_ok _) Hl2) as (L1 & L2 & _ & _ & _ & _ & L7); try done.
  assert (fins (binding raw r)) as Hr1.
  { intros [] i Ei; cbn in Ei |- *.
    - specialize (Hr A). cbn in Hr. apply fmap_Some in Ei as (j & Ej & ->). destruct (Hr j Ej) as [Hok Hs].
      destruct (start_keeps j Hok) as [? ->]. done.
    - injection Ei as <-. split; [done|congruence]. }
  assert (closing (binding raw r) = false /\ flushing (get B (binding raw r)) = true /\
    src_eof (get B (binding raw r)) = src_eof (to_b r) /\ pend (get B (binding raw r)) = preq r) as (G1 & G2 & G3 & G4) by done.
  specialize (L7 B). rewrite G4 in L7. set (y := binding raw r) in *. clearbody y.
  pose proof (flush_loop_fins sup (sure_ok _) (sure_fins _) (S (length (preq r))) B y Hl2 G1 G2 Hr1) as Hr2.
  pose proof (eofs_flush_loop sup (eofs_sure _) (S (length (preq r))) B y B) as He. rewrite G3 in He.
  set (x := flush_loop sup _ B y) in *. clearbody x.
  assert (fins (start_end (mod_ B (fun d => d <| flushing := false |>) x))) as Hr3 by (apply start_end_fins, fins_keep; auto).
  assert (src_eof (to_b (start_end (mod_ B (fun d => d <| flushing := false |>) x))) = src_eof (to_b r)) as He3.
  { rewrite <- He. unfold start_end. by repeat case_match. }
  set (r' := start_end _) in *. clearbody r'. unfold bind_eof. rewrite He3.
  destruct (src_eof (to_b r)) eqn:Eb; [|done]. destruct Hp as [?|Hp]; [done|]. rewrite Hp in L7.
  assert (fins (leg_shutdown sup B r')) as Hr4.
  { apply leg_shutdown_fins; auto using sure_ok, sure_fins. destruct (pend (get B r')); [done|cbn in L7; lia]. }
  destruct (src_eof (to_a _)); [by apply fins_close|done].
Qed.

Lemma peer_bind_fins raw lo r : settled Peer r -> closing r = false -> bound r = false -> io_fresh raw -> fins r ->
  fins (peer_bind eup raw lo r).
Proof.
  intros Hs Hc Hb Hraw Hr. destruct (peer_bind_eq eup raw lo r Hs Hc Hb Hraw) as (us & i1 & st & Ew & ->).
  destruct (io_fresh_law raw Hraw) as (F1 & F2 & F3 & F4).
  assert (fins (r <| bound := true |> <| timer_on := false |>)) as Hr0 by (by apply (fins_flags r); [intros []|]).
  assert (fins (peer_legs raw r)) as Hr1.
  { apply fins_mod; [done|]. intros i [= <-]. split; [done|congruence]. }
  destruct (_ =? 0); [done|]. destruct (io_write_law (io_start raw) lo F1) as (_ & L2 & L3 & _). rewrite Ew in L2, L3. cbn [snd] in L2, L3.
  rewrite mod_mod. apply fins_mod; [done|]. intros i [= <-]. split; [done|congruence].
Qed.

Lemma forward_sure_fins s data r : settled Agent r \/ settled Peer r -> closing r = false -> bound r = true ->
  src_eof (get s r) = false -> fins r -> fins (forward sup s data (fed s data r)).
Proof.
  intros Hs Hc Hb He Hr. assert (quiet r) as [Hi Hfl _] by (by destruct Hs as [[? _ _]|[? _ _]]).
  destruct Hi as [[? _]|Hl]; [congruence|]. apply forward_fins; auto using sure_ok, sure_fins.
Qed.

Lemma broker_read_fins k data r : settled k r -> src_eof (to_b r) = false -> k = Agent \/ bound r = true -> fins r ->
  fins (broker_read k data r).
Proof.
  intros Hs He Hk Hr. assert (fins (fed B data r)) as Hr0 by (apply fins_keep; auto). destruct k; cbn [broker_read].
  - rewrite (agent_broker_read_ext _ _ (upcall_sure ep_depth)). unfold agent_broker_read.
    destruct (closing r) eqn:Hc; [done|]. cbv zeta. set (r1 := r <| up_bytes ::= _ |>).
    assert (settled Agent r1) as Hs1 by (by apply (settled_flags Agent r); [intros []|..]).
    assert (fins r1) as Hr1 by (by apply (fins_flags r); [intros []|]).
    assert (fins (fed B data r1)) as Hr2 by (apply fins_keep; auto).
    change (leg (to_b (fed B data r1))) with (leg (to_b r)). destruct (leg (to_b r)) eqn:El.
    + apply forward_sure_fins; auto. pose proof (qu_inv _ (se_quiet _ _ Hs)) as [[? _]|Hl]; [congruence|].
      apply (live_bound r); [done|congruence].
    + destruct (_ <? _); [by apply fins_close|by apply queue_preq_fins].
  - rewrite (peer_broker_read_ext _ _ (upcall_sure ep_depth)). unfold peer_broker_read.
    destruct (closing r) eqn:Hc; [done|]. cbv zeta. destruct Hk as [?|Hb]; [done|].
    change (leg (to_b (fed B data r))) with (leg (to_b r)). destruct (leg (to_b r)); [by apply forward_sure_fins; auto|].
    destruct (_ <? _); [by apply fins_close|]. by apply (fins_flags (fed B data r)); [intros []|].
Qed.

Lemma local_read_fins k data r : settled k r -> src_eof (to_a r) = false -> bound r = true -> fins r ->
  fins (local_read k data r).
Proof.
  intros Hs He Hb Hr. destruct k; cbn [local_read].
  - rewrite (agent_local_read_ext _ _ (upcall_sure ep_depth)). unfold agent_local_read.
    destruct (closing r) eqn:Hc; [done|]. set (r1 := r <| down_bytes ::= _ |>).
    assert (settled Agent r1) as Hs1 by (by apply (settled_flags Agent r); [intros []|..]).
    assert (fins r1) as Hr1 by (by apply (fins_flags r); [intros []|]).
    by apply forward_sure_fins; auto.
  - rewrite (peer_local_read_ext _ _ (upcall_sure ep_depth)). unfold peer_local_read.
    destruct (closing r) eqn:Hc; [done|]. by apply forward_sure_fins; auto.
Qed.

Lemma send_fins data r : settled Agent r \/ settled Peer r -> bound r = false -> fins r -> fins (snd (ep_send eup data r)).
Proof.
  intros Hs Hb Hr. assert (quiet r) as [Hi Hfl _] by (by destruct Hs as [[? _ _]|[? _ _]]).
  rewrite (ep_send_ext _ _ (upcall_sure ep_depth)). unfold ep_send. destruct (leg (to_a r)) as [i|] eqn:El; [|done].
  destruct Hi as [[_ Hno]|Hl]; [specialize (Hno A); cbn in Hno; congruence|].
  pose proof (send_live data i r Hl Hb El) as Hl1.
  destruct (io_write_law i data (di_ok _ _ (li_dir r Hl A) i El)) as (_ & L2 & L3 & _).
  destruct (io_write i data) as [[st us] i']. cbn [fst snd] in *.
  apply run_up_fins; [apply sure_ok|apply sure_fins|by right|]. apply fins_mod; [done|]. intros j [= <-].
  split; [done|]. rewrite L3. by apply (Hr A i).
Qed.

(** Runs in which the agent's bind comes before the end of the broker's side, or finds
    no bytes that wait. *)
Definition prompt_step (k : program) (r r' : stream) : Prop :=
  ep_step k r r' /\ (bound r = false -> bound r' = true -> src_eof (to_b r) = false \/ preq r = []).
Definition prompt_run (k : program) : stream -> stream -> Prop := rtc (prompt_step k).

Lemma local_bind_bound raw r : bound (local_bind sup raw r) = true.
Proof.
  unfold local_bind, bind_eof. pose proof (kept_ep_flush sup (kept_sure _) B (bind_legs raw r)) as (_ & K & _).
  change (bound (bind_legs raw r)) with true in K. set (x := ep_flush sup B _) in *. clearbody x.
  assert (bound (start_end x) = true) as Hx by (rewrite <- K; unfold start_end; by repeat case_match).
  destruct (src_eof (to_b (start_end x))); [|done].
  destruct (kept_shutdown sup (kept_sure _) B (start_end x)) as (_ & K1 & _).
  destruct (src_eof (to_a _)); [|congruence]. destruct (kept_close (leg_shutdown sup B (start_end x))) as (_ & K2 & _). congruence.
Qed.

Lemma prompt_fins k r r' : prompt_step k r r' -> settled k r -> fins r -> fins r'.
Proof.
  intros [Hst Hp] Hs Hr. pose proof Hs as [[Hi Hfl _] _ _].
  assert (settled Agent r \/ settled Peer r) as Hs' by (destruct k; auto).
  destruct Hst as [data r Hb|lo r -> Hb Hlo|data r He Hk|data r He Hb|r Hk|r|s r Hle|s i i' r El Hm|raw r -> Hc Hb Hraw|raw lo r -> Hc Hb Hraw|on r|r].
  - by apply send_fins.
  - apply fins_keep; auto; by apply (fins_flags r); [intros []|].
  - by apply broker_read_fins.
  - by apply local_read_fins.
  - rewrite (relay_broker_eof_ext _ _ (upcall_sure ep_depth)). apply broker_eof_fins; auto using sure_ok, sure_fins.
  - rewrite (relay_local_eof_ext _ _ (upcall_sure ep_depth)). apply local_eof_fins; auto using sure_ok, sure_fins.
  - rewrite (ep_low_ext _ _ (upcall_sure ep_depth)). apply ep_low_fins; auto using sure_ok, sure_fins.
  - destruct (Hr s i El) as [Hoi _]. destruct (io_moves_law i i' Hm Hoi) as (? & ? & ? & ?). by apply (fins_leg s i).
  - apply bind_fins; auto. apply Hp; [done|]. rewrite (local_bind_ext _ _ (upcall_sure ep_depth)). apply local_bind_bound.
  - by apply peer_bind_fins.
  - by apply (fins_flags r); [intros []|].
  - by apply fins_close.
Qed.


(** ** Memory *)

Section Safe.
Context (up : side -> upcall -> stream -> stream)
        (Hup : forall s u r, inv r -> nested None r (up s u r)) (Hk : forall s u r, kept r (up s u r))
        (Hs : forall s u r, inv r -> uaf (up s u r) = uaf r).

Lemma uaf_mod s f (r : stream) : uaf (mod_ s f r) = uaf r.
Proof. by destruct s. Qed.
Lemma uaf_close (r : stream) : uaf (tm_stream_close r) = uaf r.
Proof. unfold tm_stream_close. by destruct (closing r). Qed.
Lemma uaf_maybe_close (r : stream) : uaf (stream_maybe_close r) = uaf r.
Proof. unfold stream_maybe_close. repeat (case_match; [done|]). apply uaf_close. Qed.

Lemma uaf_run_up s us : forall r, inv r -> uaf (run_up up s us r) = uaf r.
Proof.
  induction us as [|u us IH]; intros r Hi; [done|]. unfold run_up in *. cbn [fold_left].
  destruct (leg (get s r)); [|by apply IH]. rewrite IH; [by apply Hs|]. apply (ne_inv _ _ _ (Hup s u r Hi)).
Qed.

Lemma uaf_shutdown s r : live r -> uaf (leg_shutdown up s r) = uaf r.
Proof.
  intros Hl. unfold leg_shutdown. destruct (leg (get s r)) as [i|] eqn:El; [|done].
  pose proof (li_dir r Hl s) as Hd. destruct (io_shutdown_law i (di_ok _ _ Hd i El)) as (L1 & L2 & L3 & L4).
  destruct (io_shutdown_send i) as [us i']. cbn [fst snd] in *. rewrite uaf_run_up; [apply uaf_mod|].
  right. apply (set_leg_ok s i); auto. intros Hff Hlo. rewrite L1. by apply (di_fifo _ _ Hd Hff).
Qed.

Lemma uaf_write s c r : live r -> flushing (get s r) = true -> uaf (snd (leg_write up s c r)) = uaf r.
Proof.
  intros Hl Hf. unfold leg_write. destruct (leg (get s r)) as [i|] eqn:El; [|done].
  destruct (io_write_law i c (di_ok _ _ (li_dir r Hl s) i El)) as (_ & L2 & _ & L4).
  destruct (io_write i c) as [[st us] i1]. cbn [fst snd] in *. rewrite uaf_run_up; [apply uaf_mod|].
  right. apply (set_leg_ok s i); auto. congruence.
Qed.

Lemma uaf_flush_loop fuel s : forall r, live r -> closing r = false -> flushing (get s r) = true -> fifo (get s r) ->
  leg (get s r) <> None -> uaf (flush_loop up fuel s r) = uaf r.
Proof.
  induction fuel as [|fuel IH]; intros r Hl Hc Hf Hq Hle; [done|]. cbn [flush_loop].
  destruct (blen (pend (get s r)) =? 0) eqn:Ep; [done|]. apply Z.eqb_neq in Ep.
  assert (pend (get s r) <> []) as Hpn by (intros E; by rewrite E in Ep).
  destruct (leg (get s r)) as [i0|] eqn:El; [|done].
  set (p := pend (get s r)) in *. set (n := Z.to_nat _).
  pose proof (uaf_write s (take n p) r Hl Hf) as Hw. pose proof (kept_write up Hk s (take n p) r) as (_ & _ & K).
  destruct (leg_write up s (take n p) r) as [st r1] eqn:Ew. cbn [snd] in Hw, K.
  destruct (flush_write_ok up Hup s (take n p) r st r1 Hl Hc Hf Hpn) as (Hn & Hl1 & Hc1 & Hp1 & Hlo1 & Hpa1 & Hlog);
    [congruence|done|].
  assert (flushing (get s r1) = true) as Hf1 by (by rewrite (ne_flush _ _ _ Hn)).
  destruct K as [?|K]; [congruence|]. assert (leg (get s r1) <> None) as Hle1 by (apply K; congruence).
  destruct st; rewrite ?uaf_mod; auto. rewrite Hc1.
  destruct (set_pend_ok s (fun d => d <| pend ::= drop n |>) r1 Hl1 Hc1 Hf1) as [Hl2 _];
    [intros d; cbn; auto 10|cbn; apply suffix_drop|].
  set (r2 := mod_ s (fun d => d <| pend ::= drop n |>) r1) in *.
  assert (closing r2 = false /\ flushing (get s r2) = true /\ leg (get s r2) <> None /\ uaf r2 = uaf r) as (Hc2 & Hf2 & Hle2 & Hu2).
  { subst r2. autorewrite with rl. rewrite uaf_mod. auto. }
  assert (fifo (get s r2)) as Hq2.
  { subst r2. autorewrite with rl. intros i' Ei' Hlo. destruct (Hlog i' Ei') as (i & Ei & ->).
    change (pend (get s r1 <| pend ::= drop n |>)) with (drop n (pend (get s r1))).
    change (base (get s r1 <| pend ::= drop n |>) ++ src_in (get s r1 <| pend ::= drop n |>))
      with (base (get s r1) ++ src_in (get s r1)).
    rewrite decide_True, <- app_assoc, Hp1, take_drop, (ne_in _ _ _ Hn), (ne_base _ _ _ Hn) by congruence.
    apply Hq; [congruence|]. change (lost (get s r1) = false) in Hlo. congruence. }
  clearbody r2. set (r3 := if blen _ =? 0 then _ else r2).
  assert (live r3 /\ closing r3 = false /\ flushing (get s r3) = true /\ leg (get s r3) <> None /\ uaf r3 = uaf r /\ fifo (get s r3))
    as (Hl3 & Hc3 & Hf3 & Hle3 & Hu3 & Hq3).
  { subst r3. destruct (blen (pend (get s r2)) =? 0); [|by split_and!].
    destruct (set_pend_ok s (fun d => d <| pend_cap := 0 |>) r2 Hl2 Hc2 Hf2) as [Hl3 _]; [intros d; cbn; auto 10|done|].
    autorewrite with rl. rewrite uaf_mod. by split_and!. }
  rewrite IH; auto.
Qed.

Lemma uaf_ep_flush s r : live r -> closing r = false -> uaf (ep_flush up s r) = uaf r.
Proof.
  intros Hl Hc. unfold ep_flush, flush_pend. destruct (leg (get s r)) as [i|] eqn:El.
  - destruct (flushing (get s r)) eqn:Hf; [done|]. cbv zeta. rewrite uaf_mod.
    set (r1 := mod_ s (fun d => d <| flushing := true |>) r).
    assert (live r1) as Hl1 by (apply set_flushing_ok; auto; [done|intros Hb; by apply (leg_bound s r); [|congruence|]]).
    rewrite uaf_flush_loop; [apply uaf_mod|done|subst r1; autorewrite with rl; auto..].
    + apply (di_fifo _ _ (li_dir r Hl s) Hf).
    + cbn. congruence.
  - destruct (_ || _); [done|apply uaf_mod].
Qed.

Lemma uaf_fin s r : live r -> closing r = false -> src_eof (get s r) = true -> (bound r = false -> s = A) ->
  pend (get s r) = [] -> uaf (leg_shutdown up s (mod_ s (fun d => d <| src_fin := true |>) r)) = uaf r.
Proof. intros Hl Hc He Hb Hp. rewrite uaf_shutdown; [apply uaf_mod|by apply set_fin_live]. Qed.

Lemma uaf_low s r : inv r -> leg (get s r) <> None -> uaf (ep_low up s r) = uaf r.
Proof.
  intros Hi Hle. unfold ep_low. destruct (closing r) eqn:Hc; [done|]. destruct Hi as [[? _]|Hl]; [congruence|].
  destruct (ep_flush_ok up Hup s r Hl Hc) as (Hn & Hl1 & Hc1).
  assert (bound r = false -> s = A) as Hbd by (by apply leg_bound). rewrite <- (ne_bound _ _ _ Hn) in Hbd.
  pose proof (uaf_ep_flush s r Hl Hc) as Hu. cbv zeta. set (r1 := ep_flush up s r) in *. clearbody r1.
  destruct (blen (pend (get s r1)) =? 0) eqn:Ep; cbn [negb]; [|by rewrite uaf_maybe_close].
  apply Z.eqb_eq, blen_0_nil in Ep. rewrite uaf_maybe_close.
  set (r2 := if src_eof _ && _ then _ else r1).
  assert (uaf r2 = uaf r) as Hu2.
  { subst r2. destruct (src_eof (get s r1)) eqn:He; cbn [andb]; [|done]. destruct (negb _); [|done]. by rewrite uaf_fin. }
  unfold leg_resume. destruct (src_paused _); [by rewrite !uaf_mod|done].
Qed.

Lemma uaf_broker_eof r : inv r -> uaf (relay_broker_eof up r) = uaf r.
Proof.
  intros Hi. unfold relay_broker_eof. destruct (closing r) eqn:Hc; [done|]. destruct Hi as [[? _]|Hl]; [congruence|].
  destruct (set_eof_ok B r Hl Hc) as [Hl1 _]. cbv zeta. pose proof (uaf_mod B (fun d => d <| src_eof := true |>) r) as Hu1.
  set (r1 := mod_ B (fun d => d <| src_eof := true |>) r) in *.
  assert (closing r1 = false) as Hc1 by (subst r1; by rewrite closing_mod).
  assert (src_eof (get B r1) = true) as He1 by (subst r1; by rewrite get_mod). clearbody r1.
  destruct (leg (to_b r1)) eqn:El; [|done].
  assert (bound r1 = true) as Hb by (apply live_bound; [done|congruence]).
  destruct (ep_flush_ok up Hup B r1 Hl1 Hc1) as (Hn2 & Hl2 & Hc2). pose proof (uaf_ep_flush B r1 Hl1 Hc1) as Hu2.
  set (r2 := ep_flush up B r1) in *. destruct (ep_flush_ok up Hup A r2 Hl2 Hc2) as (Hn3 & Hl3 & Hc3).
  pose proof (uaf_ep_flush A r2 Hl2 Hc2) as Hu3. set (r3 := ep_flush up A r2) in *.
  assert (src_eof (get B r3) = true) as He3 by (apply (ne_eof _ _ _ Hn3), (ne_eof _ _ _ Hn2), He1).
  assert (bound r3 = true) as Hb3 by (by rewrite (ne_bound _ _ _ Hn3), (ne_bound _ _ _ Hn2)).
  destruct (blen (pend (to_b r3)) =? 0) eqn:Ep; cbn [negb]; rewrite uaf_maybe_close; [|congruence].
  apply Z.eqb_eq, blen_0_nil in Ep. rewrite uaf_fin; auto; congruence.
Qed.

Lemma uaf_local_eof r : inv r -> uaf (relay_local_eof up r) = uaf r.
Proof.
  intros Hi. unfold relay_local_eof. destruct (closing r) eqn:Hc; [done|]. destruct Hi as [[? _]|Hl]; [congruence|].
  destruct (set_eof_ok A r Hl Hc) as [Hl1 _]. cbv zeta. pose proof (uaf_mod A (fun d => d <| src_eof := true |>) r) as Hu1.
  set (r1 := mod_ A (fun d => d <| src_eof := true |>) r) in *.
  assert (closing r1 = false) as Hc1 by (subst r1; by rewrite closing_mod).
  assert (src_eof (get A r1) = true) as He1 by (subst r1; by rewrite get_mod). clearbody r1.
  destruct (ep_flush_ok up Hup A r1 Hl1 Hc1) as (Hn2 & Hl2 & Hc2). pose proof (uaf_ep_flush A r1 Hl1 Hc1) as Hu2.
  set (r2 := ep_flush up A r1) in *.
  assert (src_eof (get A r2) = true) as He2 by (apply (ne_eof _ _ _ Hn2), He1).
  destruct (blen (pend (to_a r2)) =? 0) eqn:Ep; cbn [negb]; rewrite uaf_maybe_close; [|congruence].
  apply Z.eqb_eq, blen_0_nil in Ep. rewrite uaf_fin; auto; congruence.
Qed.

Lemma uaf_forward s data r : live r -> closing r = false -> flushing (get s r) = false -> src_eof (get s r) = false ->
  bound r = true -> leg (get s r) <> None -> uaf (forward up s data (fed s data r)) = uaf r.
Proof.
  intros Hl Hc Hf He Hb Hle. unfold forward. autorewrite with rl.
  change (pend (get s r <| src_in ::= _ |>)) with (pend (get s r)).
  assert (forall x : stream, uaf (queue_pend s data x) = uaf x) as Hq
    by (intros x; unfold queue_pend, leg_pause; by rewrite !uaf_mod).
  destruct (blen (pend (get s r)) =? 0) eqn:Ep; cbn [negb]; [|by rewrite Hq, uaf_mod].
  apply Z.eqb_eq, blen_0_nil in Ep. unfold leg_write. autorewrite with rl.
  change (leg (get s r <| src_in ::= _ |>)) with (leg (get s r)).
  destruct (leg (get s r)) as [i|] eqn:El; [|done].
  pose proof (li_dir r Hl s) as Hd. pose proof (io_write_law i data (di_ok _ _ Hd i El)) as (L1 & L2 & L3 & L4).
  destruct (io_write i data) as [[st us] i1]. cbn [fst snd] in *.
  destruct st; try (destruct L1 as [L1 ->]; cbn [run_up fold_left]; rewrite ?Hq, ?uaf_close, !uaf_mod; done).
  destruct L1 as [L1 _]. rewrite uaf_run_up; [by rewrite !uaf_mod|]. right. apply (accepted_ok s i); auto.
  destruct (src_fin (get s r)) eqn:E; [|done]. destruct (di_fin _ _ Hd E). congruence.
Qed.

End Safe.

Lemma uaf_sure n : forall s u r, inv r -> uaf (sure_upcall n s u r) = uaf r.
Proof.
  induction n as [|n IH]; intros s u r Hi; [done|]. cbn [sure_upcall].
  destruct (leg (get s r)) eqn:El, u; try done. apply uaf_low; auto using sure_ok, kept_sure. congruence.
Qed.

Lemma uaf_bind raw r : settled Agent r -> closing r = false -> bound r = false -> io_fresh raw ->
  uaf (local_bind sup raw r) = uaf r.
Proof.
  intros [[Hi Hfl Hst] G P] Hc Hb Hraw. destruct Hi as [[? _]|Hl]; [congruence|]. destruct (G Hc) as [Ga _].
  destruct (binding_ok raw r Hl Hb Ga Hraw) as [Hl2 Hq2]. unfold local_bind. rewrite flush_binding by apply (Hfl B).
  destruct (start_flush_ok sup (S (length (preq r))) (binding raw r) (sure_ok _) Hl2) as (L1 & L2 & _); try done.
  assert (forall x, uaf (start_end x) = uaf x) as Hse by (intros x; unfold start_end; by repeat case_match).
  assert (uaf (start_end (mod_ B (fun d => d <| flushing := false |>)
    (flush_loop sup (S (length (preq r))) B (binding raw r)))) = uaf r) as Hu.
  { rewrite Hse, uaf_mod, (uaf_flush_loop sup (sure_ok _) (kept_sure _) (uaf_sure _)); done. }
  set (r' := start_end _) in *. clearbody r'. unfold bind_eof. destruct (src_eof (to_b r')); [|done].
  destruct (src_eof (to_a _)); rewrite ?uaf_close, (uaf_shutdown sup (sure_ok _) (uaf_sure _)); auto.
Qed.

Lemma uaf_peer_bind up raw lo r : settled Peer r -> closing r = false -> bound r = false -> io_fresh raw ->
  uaf (peer_bind up raw lo r) = uaf r.
Proof.
  intros Hs Hc Hb Hraw. destruct (peer_bind_eq up raw lo r Hs Hc Hb Hraw) as (us & i1 & st & _ & ->).
  destruct (_ =? 0); by rewrite ?uaf_mod.
Qed.

Lemma uaf_step k r r' : ep_step k r r' -> settled k r -> uaf r' = uaf r.
Proof.
  intros Hst Hs. pose proof Hs as [[Hi Hfl _] G _].
  assert (Hok := sure_ok ep_depth). assert (Hkp := kept_sure ep_depth). assert (Hus := uaf_sure ep_depth).
  destruct Hst as [data r Hb|lo r -> Hb Hlo|data r He Hk|data r He Hb|r Hk|r|s r Hle|s i i' r El Hm|raw r -> Hc Hb Hr|raw lo r -> Hc Hb Hr|on r|r].
  - rewrite (ep_send_ext _ _ (upcall_sure ep_depth)). unfold ep_send. destruct (leg (to_a r)) as [i|] eqn:El; [|done].
    destruct Hi as [[_ Hno]|Hl]; [specialize (Hno A); cbn in Hno; congruence|].
    pose proof (send_live data i r Hl Hb El) as Hl1. destruct (io_write i data) as [[st us] i']. cbn [snd fst] in *.
    rewrite (uaf_run_up sup Hok Hus) by (by right). apply uaf_mod.
  - done.
  - destruct (closing r) eqn:Hc; [destruct k; cbn [broker_read]; unfold agent_broker_read, peer_broker_read; by rewrite Hc|].
    destruct Hi as [[? _]|Hl]; [congruence|]. destruct (G Hc) as [_ Gb].
    destruct k; cbn [broker_read].
    + rewrite (agent_broker_read_ext _ _ (upcall_sure ep_depth)). unfold agent_broker_read. rewrite Hc. cbv zeta.
      set (r1 := r <| up_bytes ::= _ |>). change (leg (to_b (fed B data r1))) with (leg (to_b r)). destruct (leg (to_b r)) eqn:El.
      * assert (live r1) as Hl1 by (by destruct (nested_flags r r1) as [_ ?]; [right|intros []|..]; auto).
        rewrite (uaf_forward sup Hok Hus B data r1); auto; [apply (Hfl B)|apply (live_bound r); [done|congruence]|cbn; congruence].
      * destruct (_ <? _); [rewrite uaf_close; done|]. unfold queue_preq. by destruct (_ <=? _).
    + rewrite (peer_broker_read_ext _ _ (upcall_sure ep_depth)). unfold peer_broker_read. rewrite Hc. cbv zeta.
      destruct Hk as [?|Hb]; [done|]. change (leg (to_b (fed B data r))) with (leg (to_b r)).
      destruct (leg (to_b r)) eqn:El; [|by destruct Gb].
      apply (uaf_forward sup Hok Hus B data r); auto; first [apply (Hfl B)|cbn; congruence].
  - destruct (closing r) eqn:Hc; [destruct k; cbn [local_read]; unfold agent_local_read, peer_local_read; by rewrite Hc|].
    destruct Hi as [[? _]|Hl]; [congruence|]. destruct (G Hc) as [Ga _]. destruct k; cbn [local_read].
    + rewrite (agent_local_read_ext _ _ (upcall_sure ep_depth)). unfold agent_local_read. rewrite Hc.
      set (r1 := r <| down_bytes ::= _ |>).
      assert (live r1) as Hl1 by (by destruct (nested_flags r r1) as [_ ?]; [right|intros []|..]; auto).
      rewrite (uaf_forward sup Hok Hus A data r1); try apply (Hfl A); auto.
    + rewrite (peer_local_read_ext _ _ (upcall_sure ep_depth)). unfold peer_local_read. rewrite Hc.
      apply (uaf_forward sup Hok Hus A data r); try apply (Hfl A); auto.
  - rewrite (relay_broker_eof_ext _ _ (upcall_sure ep_depth)). by apply uaf_broker_eof.
  - rewrite (relay_local_eof_ext _ _ (upcall_sure ep_depth)). by apply uaf_local_eof.
  - rewrite (ep_low_ext _ _ (upcall_sure ep_depth)). by apply uaf_low.
  - apply uaf_mod.
  - rewrite (local_bind_ext _ _ (upcall_sure ep_depth)). by apply uaf_bind.
  - by apply uaf_peer_bind.
  - done.
  - apply uaf_close.
Qed.

Lemma endpoint_settled k sid now i : io_ok i -> settled k (new_endpoint sid now i).
Proof.
  intros Hok. constructor; [constructor; [right|by intros []|done]|by intros _|done].
  constructor; [|done| |done].
  - intros []; constructor; cbn; try done; try (by intros j [= <-]); unfold fifo; cbn; try done.
    intros _ j [= <-] _. by rewrite app_nil_r.
  - intros _. cbn. unfold blen, PEND_MAX, TM_IO_HIGH_WATER. cbn. split_and!; try done; lia.
Qed.

Lemma run_settled k r0 r : ep_run k r0 r -> settled k r0 -> settled k r /\ uaf r = uaf r0.
Proof.
  induction 1 as [|r1 r2 r3 Hst _ IH]; intros Hs; [done|].
  destruct IH as [IH1 IH2]; [by apply (settled_step k r1)|]. split; [done|]. by rewrite IH2, (uaf_step k r1 r2).
Qed.

Lemma prompt_run_fins k r0 r : prompt_run k r0 r -> settled k r0 -> fins r0 -> fins r.
Proof.
  induction 1 as [|r1 r2 r3 Hst _ IH]; intros Hs Hr; [done|].
  apply IH; [by apply (settled_step k r1), Hs; destruct Hst|by apply (prompt_fins k r1)].
Qed.



End Sure.

End Endpoint.

(** ** Concrete legs *)

Module EndpointSample.
Import Tcp TcpLeg.

(** A TCP leg on which [uv_write] never fails at once. *)
Definition sure_tcp_write (t : tm_io_tcp) (d : bytes) : tm_status * list upcall * tm_io_tcp :=
  TcpLeg.leg_write (t <| uv_results := [] |>) d.

Lemma sure_ok_leg t : leg_ok t -> leg_ok (t <| uv_results := [] |>).
Proof. intros (C & Hf & Hc & Hs & Hr). unfold leg_ok. split_and!; try done. destruct C; by constructor. Qed.

Definition sure_leg : TmIo tm_io_tcp.
Proof.
  refine {| io_start := tcp_start; io_write := sure_tcp_write; io_shutdown_send := TcpLeg.leg_shutdown;
            io_pause_read := tcp_pause_read; io_resume_read := tcp_resume_read;
            io_drained := tcp_drained; io_write_total := queued_total;
            io_log := accepted; io_shut := write_closed; io_paused := leg_paused;
            io_ok := leg_ok; io_fresh := leg_fresh; io_moves := leg_moves |}.
  - apply (@io_fresh_law _ tcp_leg).
  - apply (@io_start_law _ tcp_leg).
  - intros t d Hok. unfold sure_tcp_write. pose proof (leg_write_law (t <| uv_results := [] |>) d (sure_ok_leg t Hok)) as L.
    destruct (TcpLeg.leg_write (t <| uv_results := [] |>) d) as [[st us] t']. exact L.
  - apply (@io_shutdown_law _ tcp_leg).
  - apply (@io_pause_law _ tcp_leg).
  - apply (@io_resume_law _ tcp_leg).
  - apply (@io_moves_law _ tcp_leg).
Defined.

Lemma pump_sure fuel t : uv_results t = [] -> Forall (eq UpLow) (upcalls t) ->
  Forall (eq UpLow) (upcalls (tcp_pump_n note_low note_error fuel t)).
Proof.
  intros Hr Hu.
  assert (forall x, Forall (eq UpLow) (upcalls x) -> Forall (eq UpLow) (upcalls (tcp_maybe_low note_low x))) as Hlow.
  { intros x Hx. unfold tcp_maybe_low. destruct (_ =? 0); [|done]. apply Forall_app. by split; [|constructor]. }
  assert (uv_write (t <| in_flight := wb_len t - wb_off t |>) =
    (0, t <| in_flight := wb_len t - wb_off t |> <| uv_results ::= List.tl |> <| sent ::= fun b => b ++ drop (Z.to_nat (wb_off t)) (wb t) |>)) as Hw.
  { unfold uv_write. change (uv_results (t <| in_flight := _ |>)) with (uv_results t). by rewrite Hr. }
  assert (Forall (eq UpLow) (upcalls (tcp_fin (tcp_maybe_low note_low (t <| wb := [] |> <| wb_off := 0 |>))))) as Hfin.
  { unfold tcp_fin. destruct (fin_sent _); by apply Hlow. }
  destruct fuel; cbn [tcp_pump_n]; rewrite Hw; cbn [Z.eqb];
    repeat case_match; try done; by apply Hlow.
Qed.

Lemma first_pump t : freed t = false -> wreq_pending t = false -> Tcp.closed t = false -> wb_off t = 0 -> wb t <> [] ->
  fin_sent t = false -> uv_results t = [] -> upcalls (tcp_pump note_low note_error t) = upcalls t.
Proof.
  intros E1 E2 E3 E4 E5 E6 E7. unfold tcp_pump. rewrite E7. cbn [length tcp_pump_n]. rewrite E1, E2, E3, E4, E6, andb_false_r. cbn [orb].
  assert (0 =? wb_len t = false) as -> by (apply Z.eqb_neq; intros E; apply E5, blen_0_nil; unfold wb_len in E; lia).
  unfold uv_write. change (uv_results (t <| in_flight := _ |>)) with (uv_results t). by rewrite E7.
Qed.

#[global] Instance sure_tcp : @SureIo _ sure_leg.
Proof.
  constructor; [|intros; constructor|].
  - intros t d. cbn [io_write sure_leg]. unfold sure_tcp_write, TcpLeg.leg_write.
    unfold tcp_write. set (u := t <| uv_results := [] |> <| upcalls := [] |>).
    destruct (freed u); [constructor|]. destruct (_ || _); [constructor|]. destruct (_ <? _); [constructor|].
    destruct (_ && _); [constructor|]. cbv zeta. cbn [fst snd]. unfold tcp_pump. apply pump_sure.
    + repeat case_match; done.
    + repeat case_match; constructor.
  - intros t d [rs ->] Hne. cbn [io_write io_start sure_leg]. unfold sure_tcp_write, TcpLeg.leg_write, tcp_write. cbv zeta.
    set (u := tcp_start (tm_io_tcp_new rs) <| uv_results := [] |> <| upcalls := [] |>).
    change (freed u) with false. change (Tcp.closed u || write_closed u) with false. change (wb_len u) with 0.
    change (wreq_pending u) with false. change (wb_off u =? 0) with true. rewrite andb_false_r. destruct (_ <? _); [done|].
    cbn [fst snd]. rewrite first_pump; repeat case_match; done.
Qed.

Definition broker_leg : tm_io_tcp := tcp_start (tm_io_tcp_new []).

(** Three bytes come with DATA_BIND_OK, the local connection is made, the local service
    answers and both sides end. *)
#[local] Existing Instance sure_leg | 0.
Definition ep0 : @tm_stream tm_io_tcp := new_endpoint 5 0 broker_leg.
Definition ep1 : @tm_stream tm_io_tcp := agent_accept [1; 2; 3] ep0.
Definition ep2 : @tm_stream tm_io_tcp := local_bind (ep_upcall ep_depth) (tm_io_tcp_new []) ep1.
Definition ep3 : @tm_stream tm_io_tcp := local_read Agent [9; 8] ep2.
Definition ep4 : @tm_stream tm_io_tcp := relay_broker_eof (ep_upcall ep_depth) ep3.
Definition local4 : tm_io_tcp := match leg (to_b ep4) with Some i => i | None => broker_leg end.

Lemma ep4_run : prompt_run Agent ep0 ep4.
Proof.
  eapply rtc_l with ep1; [split; [apply EsAccept; [done|done|vm_compute; congruence]|by left]|].
  eapply rtc_l with ep2; [split; [apply EsBind; [done|done|done|by eexists]|by left]|].
  eapply rtc_l with ep3; [split; [apply EsReadLocal; vm_compute; reflexivity|by left]|].
  eapply rtc_l with ep4; [split; [apply EsEofBroker; by left|by left]|apply rtc_refl].
Defined.


End EndpointSample.

Module EndpointFault.
Import Tcp TcpLeg.

(** A write that fails at once makes an endpoint use released memory.  When the
    local leg's first [uv_write] fails inside [flush_pend], the failure closes the
    stream and frees the queue the loop goes on to shift. *)
Theorem flush_use_after_free :
  exists (i raw : tm_io_tcp) (r : @tm_stream tm_io_tcp), io_ok i /\ io_fresh raw /\ ep_run Agent (new_endpoint 5 0 i) r /\
    Relay.closing r = false /\ Relay.uaf r = false /\
    Relay.uaf (local_bind (ep_upcall ep_depth) raw r) = true /\ Relay.closing (local_bind (ep_upcall ep_depth) raw r) = true.
Proof.
  exists (tcp_start (tm_io_tcp_new [])), (tm_io_tcp_new [-32]), (agent_accept [1; 2; 3] (new_endpoint 5 0 (tcp_start (tm_io_tcp_new [])))).
  split; [apply leg_new_ok|]. split; [by eexists|]. split.
  - eapply rtc_l; [|apply rtc_refl]. apply EsAccept; [done|done|vm_compute; congruence].
  - split; [reflexivity|]. split; [reflexivity|]. split; vm_compute; reflexivity.
Qed.

(** The same at the bind of the peer: when the first [uv_write] of the new local leg
    fails at once, the failure closes the session, which frees the bytes that came with
    DATA_BIND_OK, and they are freed a second time after the write. *)
Theorem bind_double_free :
  exists (i raw : tm_io_tcp), io_ok i /\ io_fresh raw /\
    Relay.uaf (peer_bind (ep_upcall ep_depth) raw [1; 2; 3] (new_endpoint 5 0 i)) = true.
Proof.
  exists (tcp_start (tm_io_tcp_new [])), (tm_io_tcp_new [-32]).
  split; [apply leg_new_ok|]. split; [by eexists|]. vm_compute. reflexivity.
Qed.

(** The bytes of 70000 that come with DATA_BIND_OK, more than one write takes. *)
Definition held : bytes := repeat 0 (Z.to_nat 70000).
Definition late0 : @tm_stream tm_io_tcp :=
  relay_broker_eof (ep_upcall ep_depth) (agent_accept held (new_endpoint 5 0 (tcp_start (tm_io_tcp_new [])))).
Definition late1 : @tm_stream tm_io_tcp := local_bind (ep_upcall ep_depth) (tm_io_tcp_new []) late0.
Definition has_leg (d : @dir tm_io_tcp) : bool := if leg d then true else false.
Definition leg_of (d : @dir tm_io_tcp) : tm_io_tcp := match leg d with Some i => i | None => tm_io_tcp_new [] end.

Lemma has_leg_of d : has_leg d = true -> leg d = Some (leg_of d).
Proof. unfold has_leg, leg_of. by destruct (leg d). Qed.

Definition late_leg : tm_io_tcp := leg_of (to_b late1).
Definition late_leg' : tm_io_tcp := tcp_write_done note_low note_error late_leg 0.
Definition late2 : @tm_stream tm_io_tcp :=
  ep_low (ep_upcall ep_depth) B (mod_ B (fun d => d <| leg := Some late_leg' |>) late1).

Lemma late_run h (i raw l l' : tm_io_tcp) (r1 r2 r3 r4 : @tm_stream tm_io_tcp) :
  blen h <= PEND_MAX -> io_fresh raw -> r1 = agent_accept h (new_endpoint 5 0 i) ->
  r2 = relay_broker_eof (ep_upcall ep_depth) r1 -> Relay.closing r2 = false -> bound r2 = false ->
  r3 = local_bind (ep_upcall ep_depth) raw r2 -> leg (to_b r3) = Some l -> io_moves l l' ->
  r4 = mod_ B (fun d => d <| leg := Some l' |>) r3 ->
  ep_run Agent (new_endpoint 5 0 i) (ep_low (ep_upcall ep_depth) B r4).
Proof.
  intros Hh Hraw E1 E2 Hc Hb E3 El Hm E4.
  eapply rtc_l with r1; [rewrite E1; by apply EsAccept|].
  eapply rtc_l with r2; [rewrite E2; apply EsEofBroker; by left|].
  eapply rtc_l with r3; [rewrite E3; by apply EsBind|].
  eapply rtc_l with r4; [rewrite E4; by apply (EsMove _ B l)|].
  eapply rtc_l; [|apply rtc_refl]. apply EsLow. rewrite E4. done.
Qed.

(** The agent's bind can end the local leg too early.  When the broker's side ended
    before the local connection was made and one write does not take all that waits,
    [local_connected] tells the local leg to end with bytes still waiting; the next
    flush is refused by the ended leg and throws them away, so that the local service
    never gets the end of the stream: 65536 of the 70000 bytes here. *)
Theorem late_bind_loses :
  ep_run Agent (new_endpoint 5 0 (tcp_start (tm_io_tcp_new []))) late2 /\
  leg (to_b late1) = Some late_leg /\ io_shut late_leg = true /\ blen (pend (to_b late1)) = 4464 /\ lost (to_b late1) = false /\
  has_leg (to_b late2) = true /\ blen (io_log (leg_of (to_b late2))) = 65536 /\ blen (src_in (to_b late2)) = 70000 /\
  pend (to_b late2) = [] /\ lost (to_b late2) = true /\ Relay.closing late2 = false.
Proof.
  assert (leg (to_b late1) = Some late_leg) as El by (apply has_leg_of; vm_compute; reflexivity).
  split; [|split; [exact El|split_and!; vm_compute; reflexivity]].
  unfold late2. eapply (late_run held (tcp_start (tm_io_tcp_new [])) (tm_io_tcp_new []) late_leg late_leg' _ late0 late1).
  - vm_compute. congruence.
  - by eexists.
  - reflexivity.
  - unfold late0. reflexivity.
  - vm_compute. reflexivity.
  - vm_compute. reflexivity.
  - unfold late1. reflexivity.
  - exact El.
  - exists 0. split; [vm_compute; reflexivity|]. unfold late_leg'. reflexivity.
  - reflexivity.
Qed.

End EndpointFault.
