(* ===== verification/Registry.v ===== *)
(** * Public ports, the accept limiter and listeners

    Module Ports: the port tables of src/broker/src/registry.c ([tm_port_alloc],
    [tm_port_free]).  Module Rate: the per-source accept limiter of
    src/broker/src/tcp.c.  Module Listener: the life of a tunnel's public TCP
    listener, whose close is asynchronous, up to the release of the tunnel
    (tcp.c and [tm_tunnel_delete]). *)

From S2P Require Import Prelude.
From S2P Require Import Wire.
From S2P Require Import Net.

#[local] Arguments Z.of_nat : simpl never.

(** ** Port tables *)

Module Ports.

Record ports := Ports {
  port_start : Z;            (* cfg.public_port_start *)
  port_end : Z;              (* cfg.public_port_end *)
  ports_tcp : list bool;
  ports_udp : list bool;
  ports_used : Z;            (* uint16_t *)
  cursor : Z;                (* static size_t *)
}.
#[global] Instance eta_ports : Eta ports :=
  settable! Ports <port_start; port_end; ports_tcp; ports_udp; ports_used; cursor>.

Definition table (b : ports) (p : tm_proto) : list bool :=
  match p with TM_PROTO_TCP => ports_tcp b | TM_PROTO_UDP => ports_udp b end.
Definition set_slot (p : tm_proto) (i : nat) (v : bool) (b : ports) : ports :=
  match p with
  | TM_PROTO_TCP => b <| ports_tcp ::= fun l => <[i := v]> l |>
  | TM_PROTO_UDP => b <| ports_udp ::= fun l => <[i := v]> l |>
  end.

Definition tm_port_in_range (b : ports) (port : Z) : bool :=
  (port_start b <=? port) && (port <=? port_end b).

Definition port_index (b : ports) (port : Z) : nat := Z.to_nat (port - port_start b).

(** [table[i]], false outside the table. *)
Definition slot (l : list bool) (i : nat) : bool := default false (l !! i).

Definition nports (b : ports) : Z := port_end b - port_start b + 1.

(** The loop over [i], [fuel] slots from [(start + i) % n] on. *)
Fixpoint scan (fuel : nat) (l : list bool) (n at_ : Z) : option Z :=
  match fuel with
  | O => None
  | S fuel' => let idx := at_ mod n in
               if slot l (Z.to_nat idx) then scan fuel' l n (at_ + 1) else Some idx
  end.

Definition take_slot (p : tm_proto) (idx : Z) (b : ports) : ports :=
  set_slot p (Z.to_nat idx) true b <| ports_used ::= fun u => u16 (u + 1) |>.

Definition tm_port_alloc (b : ports) (p : tm_proto) (prefer : Z) : Z * ports :=
  let n := nports b in
  if n * 2 <=? ports_used b then (0, b)
  else if negb (prefer =? 0) && tm_port_in_range b prefer &&
          negb (slot (table b p) (port_index b prefer))
  then (prefer, take_slot p (Z.of_nat (port_index b prefer)) b)
  else match scan (Z.to_nat n) (table b p) n (cursor b) with
       | Some idx => (u16 (port_start b + idx), take_slot p idx b <| cursor := (idx + 1) mod n |>)
       | None => (0, b)
       end.

Definition tm_port_free (b : ports) (p : tm_proto) (port : Z) : ports :=
  if negb (tm_port_in_range b port) then b
  else
    let i := port_index b port in
    let b := if slot (table b p) i then b <| ports_used ::= fun u => u16 (u - 1) |> else b in
    set_slot p i false b.

(** *** The invariant *)

Definition used (l : list bool) : Z := blen (List.filter (fun x => x) l).

Record ports_ok (b : ports) : Prop := {
  po_range : 1 <= port_start b <= port_end b /\ port_end b < 2 ^ 16;
  po_tcp : blen (ports_tcp b) = nports b;
  po_udp : blen (ports_udp b) = nports b;
  po_used : ports_used b = u16 (used (ports_tcp b) + used (ports_udp b));
  po_cursor : 0 <= cursor b < nports b;
}.

Lemma used_bound l : 0 <= used l <= blen l.
Proof.
  unfold used, blen. induction l as [|[] l IH]; cbn [List.filter length] in *.
  all: lia.
Qed.

Lemma used_full l i : used l = blen l -> (i < length l)%nat -> slot l i = true.
Proof.
  revert i. induction l as [|x l IH]; intros i Hu Hi; cbn in Hi; [lia|].
  pose proof (used_bound l). unfold used, blen in *. destruct x; cbn in Hu; [|lia].
  destruct i; cbn; [done|]. apply IH; lia.
Qed.

Lemma used_set l i (v : bool) : (i < length l)%nat ->
  used (<[i := v]> l) = used l + (if v then 1 else 0) - (if slot l i then 1 else 0).
Proof.
  revert i. induction l as [|x l IH]; intros i Hi; cbn in Hi; [lia|].
  destruct i as [|i].
  - change (<[0%nat := v]> (x :: l)) with (v :: l). unfold used, slot, blen.
    change ((x :: l) !! 0%nat) with (Some x). destruct v, x; cbn; lia.
  - specialize (IH i ltac:(lia)). change (<[S i := v]> (x :: l)) with (x :: <[i := v]> l).
    unfold used, slot, blen in *. change ((x :: l) !! S i) with (l !! i).
    destruct x; cbn [List.filter length]; lia.
Qed.

Lemma slot_set l i j (v : bool) : (i < length l)%nat ->
  slot (<[i := v]> l) j = if decide (i = j) then v else slot l j.
Proof.
  intros Hi. unfold slot. destruct (decide (i = j)) as [->|Hn].
  - by rewrite list_lookup_insert_eq.
  - by rewrite list_lookup_insert_ne.
Qed.

Lemma scan_spec fuel l n : forall at_, 0 < n -> 0 <= at_ ->
  match scan fuel l n at_ with
  | Some idx => 0 <= idx < n /\ slot l (Z.to_nat idx) = false
  | None => forall k, at_ <= k < at_ + Z.of_nat fuel -> slot l (Z.to_nat (k mod n)) = true
  end.
Proof.
  induction fuel as [|fuel IH]; intros at_ Hn Ha; cbn [scan]; [intros k Hk; lia|].
  destruct (slot l (Z.to_nat (at_ mod n))) eqn:E.
  - specialize (IH (at_ + 1) Hn ltac:(lia)). destruct (scan fuel l n (at_ + 1)); [done|].
    intros k Hk. destruct (Z.eq_dec k at_) as [->|]; [done|]. apply IH; lia.
  - split; [by apply Z.mod_pos_bound|done].
Qed.

(** A full turn of the cursor visits every slot. *)
Lemma scan_none l n at_ : 0 < n -> 0 <= at_ -> scan (Z.to_nat n) l n at_ = None ->
  forall i, 0 <= i < n -> slot l (Z.to_nat i) = true.
Proof.
  intros Hn Ha Hs i Hi. pose proof (scan_spec (Z.to_nat n) l n at_ Hn Ha) as H. rewrite Hs in H.
  pose proof (Z.mod_pos_bound at_ n Hn). pose proof (Z.div_mod at_ n ltac:(lia)).
  set (k := if at_ mod n <=? i then at_ - at_ mod n + i else at_ - at_ mod n + n + i).
  assert (k mod n = i) as Hk.
  { subst k. case_match; zb.
    - replace (at_ - at_ mod n + i) with (i + (at_ / n) * n) by lia. rewrite Z.mod_add by lia. by apply Z.mod_small.
    - replace (at_ - at_ mod n + n + i) with (i + (at_ / n + 1) * n) by lia. rewrite Z.mod_add by lia. by apply Z.mod_small. }
  rewrite <- Hk. apply H. subst k. rewrite Z2Nat.id by lia. case_match; zb; lia.
Qed.

Lemma table_len b p : ports_ok b -> blen (table b p) = nports b.
Proof. intros []. by destruct p. Qed.

Lemma index_in_table b p port : ports_ok b -> tm_port_in_range b port = true ->
  (port_index b port < length (table b p))%nat.
Proof.
  intros Hok Hr. pose proof (table_len b p Hok). unfold tm_port_in_range, port_index, nports, blen in *.
  zb. lia.
Qed.

Lemma nports_bound b : ports_ok b -> 1 <= nports b <= 65535.
Proof. intros []. unfold nports. lia. Qed.

Lemma set_slot_ok p i (v : bool) u c b : ports_ok b -> (i < length (table b p))%nat ->
  u = u16 (ports_used b + (if v then 1 else 0) - (if slot (table b p) i then 1 else 0)) ->
  0 <= c < nports b ->
  ports_ok (set_slot p i v b <| ports_used := u |> <| cursor := c |>).
Proof.
  intros Hok Hi -> Hc. pose proof Hok as [H1 H2 H3 H4 H5].
  assert (forall x y, u16 (u16 x + y) = u16 (x + y)) as Hw.
  { intros x y. unfold wrap. now rewrite Zplus_mod_idemp_l. }
  rewrite H4. destruct p; cbn in *; (constructor; cbn; auto; [unfold blen in *; by rewrite length_insert..|]);
    rewrite used_set by done; rewrite <- Z.add_opp_r, <- Z.add_assoc, Hw; f_equal; lia.
Qed.

Lemma take_slot_ok p idx c b : ports_ok b -> 0 <= idx < nports b ->
  slot (table b p) (Z.to_nat idx) = false -> 0 <= c < nports b ->
  ports_ok (take_slot p idx b <| cursor := c |>).
Proof.
  intros Hok Hi Hs Hc. pose proof (table_len b p Hok).
  replace (take_slot p idx b <| cursor := c |>)
    with (set_slot p (Z.to_nat idx) true b <| ports_used := u16 (ports_used b + 1) |> <| cursor := c |>)
    by (by destruct p).
  apply set_slot_ok; auto; [unfold blen in *; lia|]. rewrite Hs. f_equal. lia.
Qed.

(** The count reaches twice the range only when both tables are full. *)
Lemma tables_full b p i : ports_ok b -> nports b * 2 <= ports_used b ->
  (i < length (table b p))%nat -> slot (table b p) i = true.
Proof.
  intros Hok Ef Hi. pose proof Hok as [H1 H2 H3 H4 H5]. pose proof (nports_bound b Hok) as Hn.
  pose proof (used_bound (ports_tcp b)) as Bt. pose proof (used_bound (ports_udp b)) as Bu.
  assert (ports_used b <= used (ports_tcp b) + used (ports_udp b)) as Hle.
  { rewrite H4. unfold wrap. apply Z.mod_le; lia. }
  apply used_full; [|done]. rewrite (table_len b p Hok). destruct p; cbn; lia.
Qed.

(** What an allocation of [port] out of a table changes. *)
Definition taken (p : tm_proto) (port : Z) (b b' : ports) : Prop :=
  (forall q i, slot (table b' q) i =
     if decide (q = p /\ i = port_index b port) then true else slot (table b q) i) /\
  port_start b' = port_start b /\ port_end b' = port_end b.

Lemma take_slot_taken p idx c b port : ports_ok b -> 0 <= idx < nports b ->
  port_index b port = Z.to_nat idx -> taken p port b (take_slot p idx b <| cursor := c |>).
Proof.
  intros Hok Hi Hp. pose proof (table_len b p Hok). split; [|by destruct p].
  intros q i. rewrite Hp.
  destruct (decide (q = p)) as [->|Hq].
  - assert (table (take_slot p idx b <| cursor := c |>) p = <[Z.to_nat idx := true]> (table b p)) as ->
      by (by destruct p).
    rewrite slot_set by (unfold blen in *; lia). repeat case_decide; naive_solver.
  - rewrite decide_False by naive_solver. by destruct p, q.
Qed.

Lemma port_alloc_prefer b p prefer : ports_ok b ->
  tm_port_in_range b prefer = true -> slot (table b p) (port_index b prefer) = false ->
  fst (tm_port_alloc b p prefer) = prefer.
Proof.
  intros Hok Hr Hs. unfold tm_port_alloc.
  assert (prefer <> 0) by (destruct Hok; unfold tm_port_in_range in Hr; zb; lia).
  rewrite (proj2 (Z.eqb_neq prefer 0)), Hr, Hs by done. cbn [negb andb].
  destruct (nports b * 2 <=? ports_used b) eqn:Ef; [|done]. zb.
  rewrite (tables_full b p (port_index b prefer)) in Hs; [done|done|done|by apply index_in_table].
Qed.

(** What an allocation does, the preference left aside. *)
Lemma port_alloc_outcome b p prefer : ports_ok b ->
  let '(port, b') := tm_port_alloc b p prefer in
  ports_ok b' /\
  (port = 0 -> b' = b /\ forall q, tm_port_in_range b q = true -> slot (table b p) (port_index b q) = true) /\
  (port <> 0 -> tm_port_in_range b port = true /\ slot (table b p) (port_index b port) = false /\
                taken p port b b').
Proof.
  intros Hok. pose proof Hok as [H1 H2 H3 H4 H5]. pose proof (nports_bound b Hok) as Hn.
  unfold tm_port_alloc.
  destruct (nports b * 2 <=? ports_used b) eqn:Ef; zb.
  { split_and!; [done| |done]. intros _. split; [done|]. intros q Hq. apply tables_full; auto. by apply index_in_table. }
  destruct (negb (prefer =? 0) && tm_port_in_range b prefer && negb (slot (table b p) (port_index b prefer))) eqn:Ep.
  { zb. destruct Ep as [[Hp0 Hr] Hs]. pose proof (index_in_table b p prefer Hok Hr) as Hix.
    pose proof (table_len b p Hok) as Htl.
    replace (take_slot p (Z.of_nat (port_index b prefer)) b)
      with (take_slot p (Z.of_nat (port_index b prefer)) b <| cursor := cursor b |>) by (by destruct p, b).
    split_and!; try done.
    - apply take_slot_ok; auto; [unfold blen in *; lia|]. by rewrite Nat2Z.id.
    - intros _. split_and!; auto. apply take_slot_taken; auto; [unfold blen in *; lia|]. by rewrite Nat2Z.id. }
  clear Ep.
  pose proof (scan_spec (Z.to_nat (nports b)) (table b p) (nports b) (cursor b) ltac:(lia) ltac:(lia)) as Hsc.
  destruct (scan _ _ _ _) as [idx|] eqn:Es.
  - destruct Hsc as [Hi Hs].
    assert (u16 (port_start b + idx) = port_start b + idx) as Eu
      by (apply wrap_small; unfold in_width, nports in *; lia).
    assert (port_index b (port_start b + idx) = Z.to_nat idx) as Ei by (unfold port_index; f_equal; lia).
    rewrite Eu. split_and!; [|lia|].
    + apply take_slot_ok; auto. apply Z.mod_pos_bound; lia.
    + intros _. split_and!; [unfold tm_port_in_range, nports in *; zb; lia|by rewrite Ei|].
      by apply take_slot_taken.
  - split_and!; [done| |done]. intros _. split; [done|]. intros q Hq.
    assert (0 < nports b) as Hn0 by lia.
    pose proof (scan_none _ _ _ Hn0 (proj1 H5) Es (q - port_start b)) as Hx.
    unfold port_index. apply Hx. unfold tm_port_in_range, nports in *. zb. lia.
Qed.

(** C35: port allocation is exclusive and complete.  In a consistent table an
    allocation gives a port of the configured range that was free in the
    protocol's own namespace and marks exactly that port; it gives the preferred
    port whenever that one is free; it fails only when every port of the protocol is
    in use, and then changes nothing; the table stays consistent either way. *)
Theorem port_alloc_spec b p prefer :
  ports_ok b ->
  let '(port, b') := tm_port_alloc b p prefer in
  ports_ok b' /\
  (port = 0 -> b' = b /\ forall q, tm_port_in_range b q = true -> slot (table b p) (port_index b q) = true) /\
  (port <> 0 -> tm_port_in_range b port = true /\ slot (table b p) (port_index b port) = false /\
                taken p port b b') /\
  (tm_port_in_range b prefer = true -> slot (table b p) (port_index b prefer) = false -> port = prefer).
Proof.
  intros Hok. pose proof (port_alloc_outcome b p prefer Hok) as Ho.
  pose proof (port_alloc_prefer b p prefer Hok) as Hp.
  destruct (tm_port_alloc b p prefer) as [port b']. destruct Ho as (? & ? & ?). auto.
Qed.

Lemma port_free_slots b p port q i : ports_ok b -> tm_port_in_range b port = true ->
  slot (table (tm_port_free b p port) q) i =
  if decide (q = p /\ i = port_index b port) then false else slot (table b q) i.
Proof.
  intros Hok Hr. pose proof (index_in_table b p port Hok Hr) as Hix.
  unfold tm_port_free. rewrite Hr. cbn [negb].
  destruct (decide (q = p)) as [->|Hq].
  - replace (table (set_slot p (port_index b port) false _) p)
      with (<[port_index b port := false]> (table b p)) by (by destruct (slot _ _), p).
    rewrite slot_set by done. repeat case_decide; naive_solver.
  - rewrite decide_False by naive_solver. by destruct (slot (table b p) (port_index b port)), p, q.
Qed.

Lemma port_free_range b p port :
  port_start (tm_port_free b p port) = port_start b /\ port_end (tm_port_free b p port) = port_end b.
Proof.
  unfold tm_port_free. destruct (tm_port_in_range b port); [|done]. cbn [negb].
  by destruct (slot _ _), p.
Qed.

Lemma port_free_ok b p port : ports_ok b -> ports_ok (tm_port_free b p port).
Proof.
  intros Hok. unfold tm_port_free. destruct (tm_port_in_range b port) eqn:Hr; [|done]. cbn [negb].
  pose proof (index_in_table b p port Hok Hr) as Hix. pose proof Hok as [H1 H2 H3 H4 H5].
  set (u := u16 (ports_used b - (if slot (table b p) (port_index b port) then 1 else 0))).
  replace (set_slot p _ false _)
    with (set_slot p (port_index b port) false b <| ports_used := u |> <| cursor := cursor b |>).
  - apply set_slot_ok; auto. subst u. f_equal. lia.
  - subst u. destruct b as [s e t d n c]. destruct (slot _ _); destruct p; cbn; try done;
      cbn in H4; subst n; (by rewrite Z.sub_0_r, wrap_wrap).
Qed.

(** Freeing a port releases exactly that port.  The freed port becomes free in
    its own protocol's namespace and no other slot changes; the count stays equal to
    the number of used slots, also when the port was not in use; a port outside the
    range (a closed TCP tunnel has port 0) changes nothing; and the next allocation
    that prefers the freed port gets it. *)
Theorem port_free_spec b p port :
  ports_ok b ->
  let b' := tm_port_free b p port in
  ports_ok b' /\
  (tm_port_in_range b port = false -> b' = b) /\
  (tm_port_in_range b port = true ->
   (forall q i, slot (table b' q) i =
      if decide (q = p /\ i = port_index b port) then false else slot (table b q) i) /\
   fst (tm_port_alloc b' p port) = port).
Proof.
  intros Hok b'. split_and!; [by apply port_free_ok|unfold b', tm_port_free; by intros ->|].
  intros Hr. split; [by intros; apply port_free_slots|].
  pose proof (port_free_ok b p port Hok) as Hok'. fold b' in Hok'.
  pose proof (port_alloc_prefer b' p port Hok') as Hp.
  assert (port_index b' port = port_index b port /\ tm_port_in_range b' port = true) as [Ei Er].
  { destruct (port_free_range b p port) as [Es Ee]. unfold b', port_index, tm_port_in_range in *.
    by rewrite Es, Ee. }
  apply Hp; [done|]. unfold b' in *. rewrite port_free_slots by done. rewrite Ei. by rewrite decide_True.
Qed.

(** *** Witnesses *)

(** Three ports from 20000, the middle one taken by a TCP tunnel. *)
Definition sample : ports := Ports 20000 20002 [false; true; false] [false; false; false] 1 2.

Lemma sample_ok : ports_ok sample.
Proof. constructor; cbn; unfold nports; cbn; first [done | lia]. Qed.

Lemma port_alloc_spec_witness :
  ports_ok sample /\ tm_port_alloc sample TM_PROTO_TCP 20001 =
    (20002, Ports 20000 20002 [false; true; true] [false; false; false] 2 0) /\
  tm_port_in_range sample 20002 = true.
Proof.
  split; [exact sample_ok|]. split; [reflexivity|].
  pose proof (port_alloc_spec sample TM_PROTO_TCP 20001 sample_ok) as H.
  exact (proj1 (proj1 (proj2 (proj2 H)) ltac:(done))).
Defined.

Lemma port_free_spec_witness :
  ports_ok sample /\ fst (tm_port_alloc (tm_port_free sample TM_PROTO_TCP 20001) TM_PROTO_TCP 20001) = 20001.
Proof.
  split; [exact sample_ok|].
  exact (proj2 (proj2 (proj2 (port_free_spec sample TM_PROTO_TCP 20001 sample_ok)) eq_refl)).
Defined.
End Ports.

(** ** The accept limiter *)

Module Rate.

Record tm_accept_rate := AcceptRate { ip : sockaddr; win_start : Z; count : Z }.
#[global] Instance eta_tm_accept_rate : Eta tm_accept_rate :=
  settable! AcceptRate <ip; win_start; count>.

(** The broker's part of it: [b->accept_rates] (newest first), the setting and the
    counter of refused connections. *)
Record limiter := Limiter {
  accept_rates : list tm_accept_rate;
  connect_rate_per_ip : Z;
  conns_rate_limited : Z;
}.
#[global] Instance eta_limiter : Eta limiter :=
  settable! Limiter <accept_rates; connect_rate_per_ip; conns_rate_limited>.

Definition same_ip (a : sockaddr) (r : tm_accept_rate) : bool :=
  tm_addr_eq_ip (Some (ip r)) (Some a).

Fixpoint index_of (a : sockaddr) (rs : list tm_accept_rate) : option nat :=
  match rs with
  | [] => None
  | r :: rs' => if same_ip a r then Some 0%nat else S <$> index_of a rs'
  end.

(** The entry of an address, as its position in the list; a new one is stamped with
    the clock read here. *)
Definition rate_find (clock : Z) (rs : list tm_accept_rate) (a : sockaddr) : nat * list tm_accept_rate :=
  match index_of a rs with
  | Some i => (i, rs)
  | None => (0%nat, AcceptRate a clock 0 :: rs)
  end.

Definition rate_cleanup (now : Z) (rs : list tm_accept_rate) : list tm_accept_rate :=
  List.filter (fun r => negb ((60000 <? u64 (now - win_start r)) && (count r =? 0))) rs.

(** [now] is the clock read at the start and [clock] the one [rate_find] reads. *)
Definition rate_allow (now clock : Z) (b : limiter) (a : sockaddr) : bool * limiter :=
  let '(i, rs) := rate_find clock (accept_rates b) a in
  let r := default (AcceptRate a clock 0) (rs !! i) in
  let r := if 1000 <=? u64 (now - win_start r) then r <| win_start := now |> <| count := 0 |> else r in
  if connect_rate_per_ip b <=? count r
  then (false, b <| accept_rates := <[i := r]> rs |> <| conns_rate_limited ::= fun c => u64 (c + 1) |>)
  else (true, b <| accept_rates := rate_cleanup now (<[i := r <| count := count r + 1 |>]> rs) |>).

(** *** The specification: one fixed window per source *)

(** The window of a source: its start and the connections admitted in it. *)
Definition bucket_step (limit now : Z) (st : option (Z * Z)) : bool * option (Z * Z) :=
  let '(w, c) := match st with
                 | Some (w, c) => if 1000 <=? now - w then (now, 0) else (w, c)
                 | None => (now, 0)
                 end in
  if limit <=? c then (false, Some (w, c)) else (true, Some (w, c + 1)).

Fixpoint bucket_run (limit : Z) (st : option (Z * Z)) (times : list Z) : list bool :=
  match times with
  | [] => []
  | t :: times' => let '(v, st') := bucket_step limit t st in v :: bucket_run limit st' times'
  end.

(** A connection: the two clock readings and the address. *)
Definition event : Type := Z * Z * sockaddr.

Fixpoint run (b : limiter) (evs : list event) : list bool * limiter :=
  match evs with
  | [] => ([], b)
  | (now, clock, a) :: evs' =>
      let '(v, b1) := rate_allow now clock b a in
      let '(vs, b2) := run b1 evs' in (v :: vs, b2)
  end.

(** The clock does not go back, and stays a second below its 64-bit range. *)
Fixpoint clocked (from : Z) (evs : list event) : Prop :=
  match evs with
  | [] => True
  | (now, clock, _) :: evs' => from <= now <= clock /\ clock < 2 ^ 64 - 1000 /\ clocked clock evs'
  end.

Definition of_bucket (bk : Z * bytes) (e : event) : bool :=
  bool_decide (ip_bucket (snd e) = Some bk).

Definition verdicts_of (bk : Z * bytes) (evs : list event) (vs : list bool) : list bool :=
  map snd (List.filter (fun x => of_bucket bk (fst x)) (combine evs vs)).

Definition times_of (bk : Z * bytes) (evs : list event) : list Z :=
  map (fun e => fst (fst e)) (List.filter (of_bucket bk) evs).

(** *** Refinement *)

(** The window the list holds for a source. *)
Definition entry (bk : Z * bytes) (rs : list tm_accept_rate) : option (Z * Z) :=
  (fun r => (win_start r, count r)) <$> List.find (fun r => bool_decide (ip_bucket (ip r) = Some bk)) rs.

Lemma same_ip_bucket a bk r : ip_bucket a = Some bk ->
  same_ip a r = bool_decide (ip_bucket (ip r) = Some bk).
Proof.
  intros Ha. unfold same_ip. apply eq_true_iff_eq. rewrite addr_eq_ip_bucket, bool_decide_eq_true.
  split; [intros [-> _]; done|]. intros ->. by rewrite Ha.
Qed.

Lemma index_of_entry a bk rs : ip_bucket a = Some bk ->
  entry bk rs = (fun r => (win_start r, count r)) <$> (index_of a rs ≫= fun i => rs !! i) /\
  (forall i, index_of a rs = Some i -> exists r, rs !! i = Some r /\ ip_bucket (ip r) = Some bk).
Proof.
  intros Ha. induction rs as [|r rs [IH1 IH2]]; cbn [index_of]; [done|].
  unfold entry in *. cbn [List.find]. rewrite (same_ip_bucket a bk) by done.
  case_bool_decide as Hb; [split; [done|]; intros i [= <-]; by exists r|].
  rewrite IH1. destruct (index_of a rs) as [i|]; cbn; [|done].
  split; [done|]. intros j [= <-]. by apply IH2.
Qed.

(** Replacing an entry of one source changes that source's window only, when the
    entry is the source's first. *)
Lemma entry_insert a bk rs i r' : ip_bucket a = Some bk -> index_of a rs = Some i ->
  ip_bucket (ip r') = Some bk ->
  forall bk', entry bk' (<[i := r']> rs) = if decide (bk' = bk) then Some (win_start r', count r') else entry bk' rs.
Proof.
  intros Ha Hi Hr' bk'. revert i Hi. induction rs as [|r rs IH]; intros i Hi; cbn [index_of] in Hi; [done|].
  rewrite (same_ip_bucket a bk) in Hi by done. unfold entry in *. case_bool_decide as Hb.
  - injection Hi as <-. change (<[0%nat := r']> (r :: rs)) with (r' :: rs). cbn [List.find].
    rewrite Hr', Hb. case_decide; case_bool_decide; naive_solver.
  - destruct (index_of a rs) as [j|]; [|done]. injection Hi as <-.
    change (<[S j := r']> (r :: rs)) with (r :: <[j := r']> rs). cbn [List.find].
    specialize (IH j eq_refl). case_bool_decide as Hc; [|exact IH].
    rewrite decide_False; [done|]. naive_solver.
Qed.

(** What holds of the list between calls: windows start in the past, and when
    connections are admitted at all, every entry has admitted one. *)
Definition entries_ok (limit from : Z) (rs : list tm_accept_rate) : Prop :=
  Forall (fun r => 0 <= win_start r <= from /\ 0 <= count r /\ (0 < limit -> 0 < count r)) rs.

Lemma cleanup_id now limit from rs : 0 < limit -> entries_ok limit from rs -> rate_cleanup now rs = rs.
Proof.
  intros Hl H. unfold rate_cleanup. induction H as [|r rs Hr _ IH]; cbn [List.filter]; [done|].
  destruct (count r =? 0) eqn:E; zb; [lia|]. rewrite andb_false_r. cbn [negb]. by rewrite IH.
Qed.

Lemma entries_ok_mono limit from from' rs : from <= from' -> entries_ok limit from rs -> entries_ok limit from' rs.
Proof. intros Hf H. eapply Forall_impl; [exact H|]. cbn. intros r Hr. lia. Qed.

(** The entry [rate_allow] works on, with its window brought up to date. *)
Lemma rate_find_spec limit from now clock rs a :
  0 <= from <= now -> now <= clock < 2 ^ 64 - 1000 -> entries_ok limit from rs ->
  let '(i, rs1) := rate_find clock rs a in
  let r := default (AcceptRate a clock 0) (rs1 !! i) in
  let r1 := if 1000 <=? u64 (now - win_start r) then r <| win_start := now |> <| count := 0 |> else r in
  0 <= win_start r1 <= now /\ 0 <= count r1 /\
  (forall r', 0 <= win_start r' <= now -> 0 <= count r' -> (0 < limit -> 0 < count r') ->
     entries_ok limit now (<[i := r']> rs1)) /\
  (forall r', ip r' = ip r1 -> forall bk,
     entry bk (<[i := r']> rs1) =
     if decide (ip_bucket a = Some bk) then Some (win_start r', count r') else entry bk rs) /\
  (forall bk, ip_bucket a = Some bk ->
     (win_start r1, count r1) = match entry bk rs with
                                | Some (w, c) => if 1000 <=? now - w then (now, 0) else (w, c)
                                | None => (now, 0)
                                end).
Proof.
  intros Hf Hn Hok. unfold rate_find. destruct (index_of a rs) as [i|] eqn:Hi.
  - destruct (ip_bucket a) as [bk0|] eqn:Ha.
    2: { exfalso. revert i Hi. clear -Ha. induction rs as [|r rs IH]; cbn [index_of]; [done|]. intros i.
         destruct (same_ip a r) eqn:E; [unfold same_ip in E; apply addr_eq_ip_bucket in E as [E1 E2]; congruence|].
         destruct (index_of a rs) as [j|]; [|done]. intros _. by apply (IH j). }
    destruct (index_of_entry a bk0 rs Ha) as [He Hx]. destruct (Hx i Hi) as (r & Hr & Hrb).
    rewrite Hr. change (default (AcceptRate a clock 0) (Some r)) with r. rewrite Hi in He. cbn in He. rewrite Hr in He. cbn in He.
    pose proof (Forall_lookup_1 _ _ _ _ Hok Hr) as Hrok. cbn in Hrok.
    rewrite (wrap_small 64 (now - win_start r)) by (unfold in_width; lia).
    set (r1 := if 1000 <=? now - win_start r then _ else r).
    assert (ip r1 = ip r /\ 0 <= win_start r1 <= now /\ 0 <= count r1 /\
            (win_start r1, count r1) = if 1000 <=? now - win_start r then (now, 0) else (win_start r, count r)) as (E1 & E2 & E3 & E4)
      by (subst r1; destruct (1000 <=? now - win_start r); cbn; split_and!; try done; lia).
    split_and!; try lia.
    + intros r' H1 H2 H3. apply Forall_insert; [|done]. apply (entries_ok_mono limit from); [lia|done].
    + intros r' Hip bk. rewrite (entry_insert a bk0 rs i r') by congruence.
      repeat case_decide; naive_solver.
    + intros bk [= <-]. by rewrite He.
  - change (default _ ((AcceptRate a clock 0 :: rs) !! 0%nat)) with (AcceptRate a clock 0).
    cbn [win_start].
    set (r1 := if 1000 <=? u64 (now - clock) then _ else _).
    assert (ip r1 = a /\ win_start r1 = now /\ count r1 = 0) as (E1 & E2 & E3).
    { subst r1. destruct (Z.eq_dec now clock) as [->|Hne]; [by rewrite Z.sub_diag|].
      assert (u64 (now - clock) = now - clock + 2 ^ 64) as ->.
      { unfold wrap. symmetry. apply Z.mod_unique_pos with (-1); lia. }
      destruct (1000 <=? now - clock + 2 ^ 64) eqn:E; zb; [done|lia]. }
    split_and!; try lia.
    + intros r' H1 H2 H3. constructor; [done|]. apply (entries_ok_mono limit from); [lia|done].
    + intros r' Hip bk. change (<[0%nat := r']> (AcceptRate a clock 0 :: rs)) with (r' :: rs).
      unfold entry. cbn [List.find]. rewrite Hip, E1. case_bool_decide; case_decide; naive_solver.
    + intros bk Ha. rewrite E2, E3. destruct (index_of_entry a bk rs Ha) as [-> _]. by rewrite Hi.
Qed.

(** One call is one step of its own source's window; the cleanup frees nothing. *)
Lemma rate_allow_step from now clock b a :
  0 <= from <= now -> now <= clock < 2 ^ 64 - 1000 ->
  entries_ok (connect_rate_per_ip b) from (accept_rates b) ->
  let '(v, b') := rate_allow now clock b a in
  connect_rate_per_ip b' = connect_rate_per_ip b /\
  entries_ok (connect_rate_per_ip b) now (accept_rates b') /\
  (length (accept_rates b) <= length (accept_rates b'))%nat /\
  forall bk, if decide (ip_bucket a = Some bk)
             then (v, entry bk (accept_rates b')) = bucket_step (connect_rate_per_ip b) now (entry bk (accept_rates b))
             else entry bk (accept_rates b') = entry bk (accept_rates b).
Proof.
  intros Hf Hn Hok. pose proof (rate_find_spec _ from now clock _ a Hf Hn Hok) as H.
  assert (length (accept_rates b) <= length (snd (rate_find clock (accept_rates b) a)))%nat as Hlen
    by (unfold rate_find; destruct (index_of _ _); cbn; lia).
  unfold rate_allow. destruct (rate_find clock (accept_rates b) a) as [i rs1]. cbn [snd] in Hlen.
  cbv zeta in H. cbv zeta. set (r := default _ _) in *. set (r1 := if 1000 <=? _ then _ else r) in *. clearbody r1.
  destruct H as (H1 & H2 & H3 & H4 & H5). set (lim := connect_rate_per_ip b) in *.
  destruct (lim <=? count r1) eqn:El; zb.
  - split_and!; [done|apply H3; auto; lia|cbn; by rewrite length_insert|].
    intros bk. cbn [accept_rates upd]. rewrite H4 by done. case_decide as Hb; [|done].
    unfold bucket_step. rewrite <- (H5 bk Hb). by rewrite (proj2 (Z.leb_le _ _) El).
  - assert (entries_ok lim now (<[i := r1 <| count := count r1 + 1 |>]> rs1)) as Hok'
      by (apply H3; cbn; lia).
    cbn [accept_rates connect_rate_per_ip upd].
    rewrite (cleanup_id now lim now) by (done || lia).
    split_and!; [done|done|by rewrite length_insert|].
    intros bk. rewrite H4 by done. case_decide as Hb; [|done].
    unfold bucket_step. rewrite <- (H5 bk Hb). by rewrite (proj2 (Z.leb_gt _ _) El).
Qed.

Lemma run_refines bk : forall evs from b,
  0 <= from -> clocked from evs -> entries_ok (connect_rate_per_ip b) from (accept_rates b) ->
  verdicts_of bk evs (fst (run b evs)) =
    bucket_run (connect_rate_per_ip b) (entry bk (accept_rates b)) (times_of bk evs) /\
  (length (accept_rates b) <= length (accept_rates (snd (run b evs))))%nat.
Proof.
  induction evs as [|[[now clock] a] evs IH]; intros from b Hf Hc Hok; [done|].
  cbn [clocked] in Hc. destruct Hc as (Hc1 & Hc2 & Hc3).
  pose proof (rate_allow_step from now clock b a ltac:(lia) ltac:(lia) Hok) as H.
  cbn [run]. destruct (rate_allow now clock b a) as [v b1]. destruct H as (E1 & E2 & E3 & E4).
  specialize (IH clock b1 ltac:(lia) Hc3). rewrite E1 in IH.
  specialize (IH ltac:(apply (entries_ok_mono _ now); [lia|done])).
  destruct (run b1 evs) as [vs b2]. cbn [fst snd] in *. destruct IH as [IH1 IH2].
  split; [|lia]. unfold verdicts_of, times_of in *. cbn [combine List.filter map fst].
  specialize (E4 bk). case_decide as Hb.
  - assert (of_bucket bk (now, clock, a) = true) as -> by (by apply bool_decide_eq_true).
    cbn [map snd fst bucket_run]. rewrite <- E4. by rewrite IH1.
  - assert (of_bucket bk (now, clock, a) = false) as -> by (by apply bool_decide_eq_false).
    by rewrite IH1, E4.
Qed.

Lemma run_keeps bk : forall evs from b,
  0 <= from -> clocked from evs -> entries_ok (connect_rate_per_ip b) from (accept_rates b) ->
  entry bk (accept_rates b) <> None \/ existsb (of_bucket bk) evs = true ->
  entry bk (accept_rates (snd (run b evs))) <> None.
Proof.
  induction evs as [|[[now clock] a] evs IH]; intros from b Hf Hc Hok He; [cbn in *; naive_solver|].
  cbn [clocked] in Hc. destruct Hc as (Hc1 & Hc2 & Hc3).
  pose proof (rate_allow_step from now clock b a ltac:(lia) ltac:(lia) Hok) as H.
  cbn [run]. destruct (rate_allow now clock b a) as [v b1]. destruct H as (E1 & E2 & E3 & E4).
  specialize (IH clock b1 ltac:(lia) Hc3). rewrite E1 in IH.
  specialize (IH ltac:(apply (entries_ok_mono _ now); [lia|done])).
  destruct (run b1 evs) as [vs b2]. cbn [fst snd] in *. apply IH. specialize (E4 bk).
  case_decide as Hb.
  - left. unfold bucket_step in E4. intros Hn. rewrite Hn in E4. cms.
  - rewrite E4. destruct He as [He|He]; [by left|]. cbn in He. apply orb_true_iff in He as [He|He]; [|by right].
    by apply bool_decide_eq_true in He.
Qed.

Fixpoint nondecreasing (from : Z) (times : list Z) : Prop :=
  match times with [] => True | t :: ts => from <= t /\ nondecreasing t ts end.

Lemma times_nondecreasing bk : forall evs from from', from' <= from -> clocked from evs -> nondecreasing from' (times_of bk evs).
Proof.
  induction evs as [|[[now clock] a] evs IH]; intros from from' Hf Hc; [done|].
  cbn [clocked] in Hc. destruct Hc as (Hc1 & Hc2 & Hc3). unfold times_of in *. cbn [List.filter].
  destruct (of_bucket _ _); cbn [map fst nondecreasing]; [split; [lia|]|]; (apply (IH clock); [lia|done]).
Qed.

(** Connections admitted by a window between [lo] and [hi]. *)
Definition admitted (lo hi : Z) (times : list Z) (vs : list bool) : Z :=
  blen (List.filter (fun x : Z * bool => (lo <=? fst x) && (fst x <? hi) && snd x) (combine times vs)).

(** What a window may still admit in the second that starts at [lo]. *)
Definition budget (limit lo cur : Z) (st : option (Z * Z)) : Z :=
  if cur <? lo then 2 * limit
  else match st with
       | None => if cur <? lo + 1000 then 2 * limit else 0
       | Some (w, c) => if w <? lo then 2 * limit - c else if w <? lo + 1000 then limit - c else 0
       end.

Lemma bucket_run_bound limit lo : 0 <= limit -> forall times cur st,
  nondecreasing cur times ->
  (forall w c, st = Some (w, c) -> w <= cur /\ 0 <= c <= limit) ->
  admitted lo (lo + 1000) times (bucket_run limit st times) <= budget limit lo cur st.
Proof.
  intros Hl. induction times as [|t times IH]; intros cur st Hm Hst.
  { change (admitted _ _ _ _) with 0. unfold budget. destruct st as [[w c]|]; [destruct (Hst w c eq_refl)|]; cms; lia. }
  destruct Hm as [Hct Hm]. cbn [bucket_run].
  destruct (bucket_step limit t st) as [v st'] eqn:Es.
  assert (exists w' c', st' = Some (w', c') /\ w' <= t /\ 0 <= c' <= limit) as (w' & c' & -> & Hw' & Hc').
  { unfold bucket_step in Es. destruct st as [[w c]|]; [destruct (Hst w c eq_refl)|];
      cms; do 2 eexists; split_and!; try done; lia. }
  specialize (IH t (Some (w', c')) Hm ltac:(intros w c [= <- <-]; lia)).
  unfold admitted in *. cbn [combine List.filter fst snd].
  assert (forall x : bool, blen (if x then (t, v) :: _ else _) = (if x then 1 else 0) + _) as ->
    by (intros []; [apply blen_cons|lia]).
  etrans; [apply Z.add_le_mono_l, IH|]. clear IH.
  unfold bucket_step, budget in *. destruct st as [[w c]|]; [destruct (Hst w c eq_refl)|]; cms; lia.
Qed.

(** C33: the accept limiter is one independent fixed window per source address.  For
    any sequence of connections under a clock that does not go back, the verdicts a
    source receives are those of a window of its own run over its own connection
    times, whatever other sources do; and in any one second at most twice the limit
    of one source's connections are admitted. *)
Theorem rate_limit_refines limit refused evs bk :
  clocked 0 evs -> 0 <= limit ->
  let vs := verdicts_of bk evs (fst (run (Limiter [] limit refused) evs)) in
  vs = bucket_run limit None (times_of bk evs) /\
  forall lo, admitted lo (lo + 1000) (times_of bk evs) vs <= 2 * limit.
Proof.
  intros Hc Hl vs. assert (vs = bucket_run limit None (times_of bk evs)) as E
    by (apply (run_refines bk evs 0 (Limiter [] limit refused)); [done|done|constructor]).
  split; [exact E|]. intros lo. rewrite E.
  etrans; [apply (bucket_run_bound limit lo Hl _ 0)|].
  - by apply (times_nondecreasing bk evs 0).
  - done.
  - unfold budget. cms; lia.
Qed.

(** Entries of the accept limiter are never released: [rate_cleanup] frees only
    entries that admitted no connection, and no such entry exists when it runs, so
    every source that ever connected keeps its entry, however long ago that was. *)
Theorem accept_rates_never_freed limit refused evs bk :
  clocked 0 evs -> existsb (of_bucket bk) evs = true ->
  exists r, In r (accept_rates (snd (run (Limiter [] limit refused) evs))) /\ ip_bucket (ip r) = Some bk.
Proof.
  intros Hc He.
  assert (entry bk (accept_rates (snd (run (Limiter [] limit refused) evs))) <> None) as H
    by (apply (run_keeps bk evs 0); [done|done|constructor|by right]).
  unfold entry in H. destruct (List.find _ _) as [r|] eqn:E; [|done].
  apply find_some_in in E as [Hin Hb]. zb. by exists r.
Qed.

(** *** Witnesses *)

(** Two connections of one source in the same second, a third from another source,
    and the first source again two seconds later. *)
Definition sample : list event :=
  [(5, 5, AF_INET 40000 7); (6, 7, AF_INET 40001 7); (8, 8, AF_INET 40000 9); (2100, 2100, AF_INET 40002 7)].

Lemma rate_limit_refines_witness :
  clocked 0 sample /\ fst (run (Limiter [] 1 0) sample) = [true; false; true; true] /\
  verdicts_of (2, [7]) sample (fst (run (Limiter [] 1 0) sample)) = [true; false; true].
Proof.
  assert (clocked 0 sample) as Hc by (cbn; lia).
  split; [exact Hc|]. split; [reflexivity|].
  exact (proj1 (rate_limit_refines 1 0 sample (2, [7]) Hc ltac:(lia))).
Defined.

Lemma accept_rates_never_freed_witness :
  let evs := [(5, 5, AF_INET 40000 7); (10000000, 10000000, AF_INET 40000 9)] in
  clocked 0 evs /\
  exists r, In r (accept_rates (snd (run (Limiter [] 20 0) evs))) /\ ip_bucket (ip r) = Some (2, [7]).
Proof.
  intros evs. assert (clocked 0 evs) as Hc by (cbn; lia).
  split; [exact Hc|]. exact (accept_rates_never_freed 20 0 evs (2, [7]) Hc eq_refl).
Defined.
End Rate.

(** ** Listeners and the life of a tunnel's socket *)

Module Listener.

(** What the loop knows of the handle embedded in a tunnel. *)
Inductive hstate := H_NONE | H_ACTIVE | H_CLOSING.
#[global] Instance hstate_eq : EqDecision hstate.
Proof. solve_decision. Defined.

(** How far a start gets: the host does not resolve, [bind] fails, [listen] (or
    [uv_udp_recv_start]) fails, or the socket is open. *)
Inductive bind_result := BAD_HOST | BIND_FAILED | LISTEN_FAILED | LISTENING.
#[global] Instance bind_result_eq : EqDecision bind_result.
Proof. solve_decision. Defined.

(** The socket part of [tm_tunnel].  [handle], [frees] and [fault] are not in the
    code: the loop's view of the embedded handle, how often the tunnel was freed, and
    whether the handle was initialised, closed or freed in a state libuv forbids. *)
Record tun_sock := TunSock {
  proto : tm_proto;
  closed : bool;
  listener_open : bool;
  listener_closing : bool;
  listener_restart_pending : bool;
  udp_open : bool;
  deleting : bool;
  close_refs : Z;
  handle : hstate;
  frees : Z;
  fault : bool;
}.
#[global] Instance eta_tun_sock : Eta tun_sock :=
  settable! TunSock <proto; closed; listener_open; listener_closing; listener_restart_pending;
                     udp_open; deleting; close_refs; handle; frees; fault>.

Definition fresh (p : tm_proto) (c : bool) : tun_sock :=
  TunSock p c false false false false false 0 H_NONE 0 false.

Definition uv_init (t : tun_sock) : tun_sock :=
  t <| fault ::= orb (negb (bool_decide (handle t = H_NONE))) |> <| handle := H_ACTIVE |>.
Definition uv_close (t : tun_sock) : tun_sock :=
  t <| fault ::= orb (negb (bool_decide (handle t = H_ACTIVE))) |> <| handle := H_CLOSING |>.
Definition free_tunnel (t : tun_sock) : tun_sock :=
  t <| fault ::= orb (negb (bool_decide (handle t = H_NONE))) |> <| frees ::= Z.add 1 |>.

Definition tm_tunnel_listener_start (r : bind_result) (t : tun_sock) : tun_sock :=
  if negb (bool_decide (proto t = TM_PROTO_TCP)) || listener_open t then t
  else if closed t then t
  else if deleting t then t
  else if listener_closing t then t <| listener_restart_pending := true |>
  else
    let t := uv_init t in
    match r with
    | LISTENING => t <| listener_open := true |>
    | _ => t
    end.

Definition tunnel_listener_closed (r : bind_result) (t : tun_sock) : tun_sock :=
  let t := t <| listener_closing := false |> <| close_refs ::= fun c => c - 1 |> in
  if deleting t then if close_refs t =? 0 then free_tunnel t else t
  else if listener_restart_pending t
  then tm_tunnel_listener_start r (t <| listener_restart_pending := false |>)
  else t.

Definition tm_tunnel_listener_stop (t : tun_sock) : tun_sock :=
  let t := t <| listener_restart_pending := false |> in
  if listener_open t
  then uv_close (t <| close_refs ::= Z.add 1 |> <| listener_closing := true |>) <| listener_open := false |>
  else t.

(** The socket parts of [tm_udp_start] and [tm_udp_stop]. *)
Definition udp_sock_start (r : bind_result) (t : tun_sock) : tun_sock :=
  if negb (bool_decide (proto t = TM_PROTO_UDP)) || udp_open t then t
  else
    let t := uv_init t in
    match r with
    | LISTENING => t <| udp_open := true |>
    | _ => t
    end.

Definition tunnel_udp_closed (t : tun_sock) : tun_sock :=
  let t := t <| close_refs ::= fun c => c - 1 |> in
  if deleting t && (close_refs t =? 0) then free_tunnel t else t.

Definition udp_sock_stop (t : tun_sock) : tun_sock :=
  if udp_open t
  then uv_close (t <| close_refs ::= Z.add 1 |>) <| udp_open := false |>
  else t.

(** Starting and stopping by protocol, as [tm_tunnel_create], [tm_tunnel_teardown]
    and the administration commands do. *)
Definition sock_start (r : bind_result) (t : tun_sock) : tun_sock :=
  match proto t with
  | TM_PROTO_TCP => tm_tunnel_listener_start r t
  | TM_PROTO_UDP => udp_sock_start r t
  end.
Definition sock_stop (t : tun_sock) : tun_sock :=
  match proto t with TM_PROTO_TCP => tm_tunnel_listener_stop t | TM_PROTO_UDP => udp_sock_stop t end.
Definition sock_closed (r : bind_result) (t : tun_sock) : tun_sock :=
  match proto t with TM_PROTO_TCP => tunnel_listener_closed r t | TM_PROTO_UDP => tunnel_udp_closed t end.

(** The socket part of [tm_tunnel_delete]. *)
Definition sock_delete (t : tun_sock) : tun_sock :=
  let t := sock_stop (t <| deleting := true |>) in
  if close_refs t =? 0 then free_tunnel t else t.

(** *** What can happen to a tunnel's socket

    Requests reach a tunnel only while it is in the registry; the loop runs the close
    callback some time after [uv_close].  [can r] says which results the system calls
    may give. *)
Inductive event := START (r : bind_result) | STOP | DELETE | CLOSED (r : bind_result).

Inductive step (can : bind_result -> Prop) : tun_sock -> event -> tun_sock -> Prop :=
  | step_start t r : deleting t = false -> can r -> step can t (START r) (sock_start r t)
  | step_stop t : deleting t = false -> step can t STOP (sock_stop t)
  | step_delete t : deleting t = false -> step can t DELETE (sock_delete t)
  | step_closed t r : handle t = H_CLOSING -> can r ->
      step can t (CLOSED r) (sock_closed r (t <| handle := H_NONE |>)).

Inductive steps (can : bind_result -> Prop) : tun_sock -> list event -> tun_sock -> Prop :=
  | steps_nil t : steps can t [] t
  | steps_snoc t evs u e v : steps can t evs u -> step can u e v -> steps can t (evs ++ [e]) v.

(** Whether the tunnel should be listening after a history: the last request wins. *)
Definition wanted_step (w : bool) (e : event) : bool :=
  match e with START _ => true | STOP => false | DELETE => false | CLOSED _ => w end.
Definition wanted (evs : list event) : bool := fold_left wanted_step evs false.

(** *** The invariant of a TCP tunnel whose system calls succeed *)

Record lok (c w : bool) (t : tun_sock) : Prop := {
  lk_proto : proto t = TM_PROTO_TCP;
  lk_closed : closed t = c;
  lk_fault : fault t = false;
  lk_udp : udp_open t = false;
  lk_open : listener_open t = true <-> handle t = H_ACTIVE;
  lk_closing : listener_closing t = true <-> handle t = H_CLOSING;
  lk_refs : close_refs t = if listener_closing t then 1 else 0;
  lk_frees : frees t = if deleting t && negb (listener_closing t) then 1 else 0;
  lk_restart : listener_restart_pending t = w && negb (deleting t) && negb c && listener_closing t;
  lk_want : listener_open t = w && negb (deleting t) && negb c && negb (listener_closing t);
}.

Lemma lok_step c w t e t' :
  step (fun r => r = LISTENING) t e t' -> lok c w t -> lok c (wanted_step w e) t'.
Proof.
  intros Hs [Hp Hc Hf Hu Ho Hcl Hr Hfr Hrs Hw].
  assert ((listener_open t = true -> handle t = H_ACTIVE) /\ (handle t = H_ACTIVE -> listener_open t = true) /\
          (listener_closing t = true -> handle t = H_CLOSING) /\ (handle t = H_CLOSING -> listener_closing t = true))
    as (Ho1 & Ho2 & Hc1 & Hc2) by tauto. clear Ho Hcl.
  destruct t as [p c' lo lc lr uo d rf h fr fl]; cbn in Hp, Hc, Hf, Hu, Ho1, Ho2, Hc1, Hc2, Hr, Hfr, Hrs, Hw; subst.
  inversion Hs; subst; clear Hs; cbn in *; subst; cbn in *;
    destruct lc, w, c; try (destruct d); cbn in *; try discriminate;
    try match goal with x : hstate |- _ => destruct x end;
    repeat match goal with H : ?x = ?x -> _ |- _ => specialize (H eq_refl) end; try discriminate;
    subst; constructor; cbn; try done; split; done.
Qed.

Lemma lok_steps c t evs t' :
  steps (fun r => r = LISTENING) t evs t' -> t = fresh TM_PROTO_TCP c -> lok c (wanted evs) t'.
Proof.
  intros H. induction H as [t|t evs u e v H IH Hs]; intros ->.
  - constructor; cbn; done || (destruct c; done).
  - unfold wanted in *. rewrite fold_left_app. cbn. eapply lok_step; [exact Hs|]. by apply IH.
Qed.

(** C34: as long as every bind and listen succeeds, the public listener of a TCP tunnel
    survives every interleaving of enabling, disabling, deletion and asynchronous closes
    ([socket_restart_faults] shows what a failed bind leads to). The embedded handle is
    never initialised while the loop still closes it, never closed twice and never freed
    under a pending callback; [close_refs] counts exactly the pending callback; the
    tunnel is freed exactly once, when it is deleted and no close is pending; and
    whenever no close is pending the listener is open exactly when the last request
    asked for it (never for a closed tunnel). *)
Theorem listener_safe c evs t :
  steps (fun r => r = LISTENING) (fresh TM_PROTO_TCP c) evs t ->
  fault t = false /\
  close_refs t = (if decide (handle t = H_CLOSING) then 1 else 0) /\
  frees t = (if deleting t && negb (bool_decide (handle t = H_CLOSING)) then 1 else 0) /\
  (handle t <> H_CLOSING -> listener_open t = wanted evs && negb (deleting t) && negb c).
Proof.
  intros H. pose proof (lok_steps c _ _ _ H eq_refl) as [Hp Hc Hf Hu Ho Hcl Hr Hfr Hrs Hw].
  destruct (listener_closing t) eqn:E; rewrite Hr, Hfr, Hf.
  - rewrite decide_True by tauto. rewrite bool_decide_true by tauto. split_and!; auto. intros []. tauto.
  - assert (handle t <> H_CLOSING) by (intros Hx; apply Hcl in Hx; done).
    rewrite decide_False by done. rewrite bool_decide_false by done. split_and!; auto.
    intros _. rewrite Hw. by rewrite andb_true_r.
Qed.

(** Enabled, disabled and enabled again before the close has run, then the close runs. *)
Lemma listener_safe_witness :
  let evs := [START LISTENING; STOP; START LISTENING; CLOSED LISTENING] in
  exists t, steps (fun r => r = LISTENING) (fresh TM_PROTO_TCP false) evs t /\
            listener_open t = true /\ fault t = false /\ close_refs t = 0.
Proof.
  intros evs.
  set (t1 := sock_start LISTENING (fresh TM_PROTO_TCP false)).
  set (t2 := sock_stop t1). set (t3 := sock_start LISTENING t2).
  set (t4 := sock_closed LISTENING (t3 <| handle := H_NONE |>)).
  assert (steps (fun r => r = LISTENING) (fresh TM_PROTO_TCP false) evs t4) as H.
  { apply (steps_snoc _ _ [START LISTENING; STOP; START LISTENING] t3); [|by apply step_closed].
    apply (steps_snoc _ _ [START LISTENING; STOP] t2); [|by apply step_start].
    apply (steps_snoc _ _ [START LISTENING] t1); [|by apply step_stop].
    apply (steps_snoc _ _ [] (fresh TM_PROTO_TCP false)); [apply steps_nil|by apply step_start]. }
  exists t4. split; [exact H|].
  destruct (listener_safe false evs t4 H) as (H1 & H2 & _ & H4).
  split; [|split; [exact H1|]].
  - rewrite H4; [reflexivity|discriminate].
  - rewrite H2. reflexivity.
Defined.

(** Two ways the socket life goes wrong.  A public TCP listener whose [bind] failed
    keeps its initialised handle, so enabling it again initialises a handle the loop
    already holds, and deleting it frees the tunnel under the loop; and a UDP tunnel
    that is disabled and enabled again before its close callback ran initialises the
    handle while it is closing, which the TCP side defers. *)
Theorem socket_restart_faults :
  fault (sock_start LISTENING (sock_start BIND_FAILED (fresh TM_PROTO_TCP false))) = true /\
  fault (sock_delete (sock_start BIND_FAILED (fresh TM_PROTO_TCP false))) = true /\
  fault (sock_start LISTENING (sock_stop (sock_start LISTENING (fresh TM_PROTO_UDP false)))) = true.
Proof. by vm_compute. Qed.
End Listener.
