(* ===== verification/Udp.v ===== *)
(** * The broker's UDP plane

    src/broker/src/udp.c: one UDP socket per tunnel, on which DTLS sessions (the
    agent's, and the peers' of a closed tunnel) and plain datagrams of public clients
    are told apart; flows, which give every client or peer flow an id towards the
    agent; rate windows; and the outbound queue of a session.

    Sessions and flows are heap objects that callbacks refer to by address, so the
    model keeps sessions in a heap and records in [fault] every access to a released
    session and every access through the tunnel pointer of a closed one.  OpenSSL's
    DTLS engine is the class [DTLS]; the clock, the results of [uv_udp_send] and of
    [SSL_new] are functions of how often they were consulted. *)

From S2P Require Import Prelude.
From S2P Require Import Wire.
From S2P Require Import Text.
From S2P Require Import Net.
From S2P Require Import Registry.
Import Crypto.

#[local] Arguments Z.of_nat : simpl never.

(** ** The DTLS engine *)

Inductive ssl_io := SSL_DONE (n : Z) | SSL_WANT | SSL_FAILED.

(** One DTLS connection with its datagram BIO pair, as far as udp.c uses it.
    [SSL_read] gives the bytes of one record or nothing ([n <= 0]); [BIO_read] one
    outgoing datagram or nothing.  [unread] counts the buffered records: reading one
    removes it, and only [BIO_write] of a received datagram adds any. *)
Class DTLS := {
  SSL : Type;
  SSL_write : SSL -> bytes -> ssl_io * SSL;
  SSL_read : SSL -> option bytes * SSL;
  SSL_accept : SSL -> ssl_io * SSL;
  BIO_write : SSL -> bytes -> SSL;
  BIO_read : SSL -> option bytes * SSL;
  DTLSv1_handle_timeout : SSL -> SSL;
  DTLSv1_get_timeout : SSL -> option (Z * Z);
  unread : SSL -> nat;
  unread_read s d s' : SSL_read s = (Some d, s') -> (unread s' < unread s)%nat;
  unread_read_none s s' : SSL_read s = (None, s') -> (unread s' <= unread s)%nat;
  unread_write s d : (unread (SSL_write s d).2 <= unread s)%nat;
  unread_bio_read s : (unread (BIO_read s).2 <= unread s)%nat;
}.

(** ** Data *)

Record win := Win { win_start : Z; win_count : Z }.

Record udp_cfg := UdpCfg {
  udp_flow_idle_timeout_ms : Z;
  udp_max_flows_per_tunnel : Z;
  udp_max_datagram_size : Z;
  udp_max_packets_per_tunnel : Z;
  udp_max_packets_per_source : Z;
  udp_flow_creation_rate : Z;
  udp_queue_packets : Z;
  hmac_key : bytes;
  (* of the tunnel *)
  closed_tunnel : bool;
  agent_secret_hmac : bytes;
  shared_token_hmac : bytes;
}.

Section Udp.
Context `{OpenSSL} `{DTLS}.

(** [tun] is false once [s->tun] is NULL.  [outq] holds the first [outq_len] bytes of
    the buffer.  [admitted], [written] and [presented] are not in the code: the envelopes
    [session_queue] accepted and those given to [SSL_write], oldest first, and the secret
    of the last authentication request that was read from the session. *)
Record tm_udp_session := Session {
  tun : bool;
  ssl : SSL;
  peer : sockaddr;
  is_agent : bool;
  authenticated : bool;
  handshake_done : bool;
  inflight : bool;
  closing : bool;
  timer_closed : bool;
  timer_ms : Z;
  last_rx_ms : Z;
  pkts_rx : Z;
  pkts_tx : Z;
  pkt_win : win;
  outq : bytes;
  outq_cap : Z;
  outq_off : Z;
  outq_packets : Z;
  admitted : list bytes;
  written : list bytes;
  presented : option bytes;
}.
#[global] Instance eta_tm_udp_session : Eta tm_udp_session :=
  settable! Session <tun; ssl; peer; is_agent; authenticated; handshake_done; inflight; closing;
    timer_closed; timer_ms; last_rx_ms; pkts_rx; pkts_tx; pkt_win; outq; outq_cap; outq_off;
    outq_packets; admitted; written; presented>.

Record tm_udp_flow := Flow {
  fptr : Z;                      (* its address *)
  flow_id : Z;
  src_flow_id : Z;
  from_peer_session : bool;
  src : sockaddr;
  peer_session : option Z;
  f_last_seen_ms : Z;
  f_pkts_rx : Z;
  f_bytes_rx : Z;
}.
#[global] Instance eta_tm_udp_flow : Eta tm_udp_flow :=
  settable! Flow <fptr; flow_id; src_flow_id; from_peer_session; src; peer_session;
    f_last_seen_ms; f_pkts_rx; f_bytes_rx>.

Record stats := Stats {
  failed_auths : Z;
  protocol_errors : Z;
  udp_dropped_queue_full : Z;
  udp_dropped_oversize : Z;
  udp_dropped_rate_limit : Z;
  udp_dropped_no_flow : Z;
  udp_flow_expired : Z;
  udp_transport_errors : Z;
  flows_total : Z;
  datagrams_rx : Z;              (* the tunnel's and the broker's total *)
  datagrams_tx : Z;
  udp_bytes_rx : Z;
  udp_bytes_tx : Z;
}.
#[global] Instance eta_stats : Eta stats :=
  settable! Stats <failed_auths; protocol_errors; udp_dropped_queue_full; udp_dropped_oversize;
    udp_dropped_rate_limit; udp_dropped_no_flow; udp_flow_expired; udp_transport_errors; flows_total;
    datagrams_rx; datagrams_tx; udp_bytes_rx; udp_bytes_tx>.

(** A tunnel's UDP state.  [reqs] are the outstanding [uv_udp_send] requests, each
    with its session; [sent] the datagrams handed to the kernel; [ticks], [sends] and
    [news] how often the clock, [uv_udp_send] and [SSL_new] were used. *)
Record udp := Udp {
  mem : gmap Z tm_udp_session;
  next_addr : Z;
  udp_sessions : list Z;
  agent_session : option Z;
  udp_flows : list tm_udp_flow;
  next_flow_id : Z;
  flow_wrapped : bool;
  flow_created_win : win;
  pkt_win_tun : win;
  udp_raw_inflight : Z;
  reqs : list (option Z);
  sent : list (sockaddr * bytes);
  st_stats : stats;
  ticks : nat;
  sends : nat;
  news : nat;
  enabled : bool;
  shutting_down : bool;
  usock : Listener.tun_sock;
  fault : bool;
}.
#[global] Instance eta_udp : Eta udp :=
  settable! Udp <mem; next_addr; udp_sessions; agent_session; udp_flows; next_flow_id; flow_wrapped;
    flow_created_win; pkt_win_tun; udp_raw_inflight; reqs; sent; st_stats; ticks; sends; news; enabled;
    shutting_down; usock; fault>.

Variable cfg : udp_cfg.
Variable clock : nat -> Z.
Variable send_ok : nat -> bool.
Variable ssl_new : nat -> option SSL.

(** A [size_t] made from a [long long] setting. *)
Definition size_of (z : Z) : Z := u64 z.

Definition tm_now_ms (st : udp) : Z * udp := (clock (ticks st), st <| ticks ::= S |>).

Definition bump {R} (p : R -> Z) {_ : Setter p} (n : Z) (r : R) : R := upd p (fun c => u64 (c + n)) r.
Definition count (p : stats -> Z) {_ : Setter p} (n : Z) (st : udp) : udp :=
  st <| st_stats ::= bump p n |>.

(** Dereferencing a session pointer. *)
Definition with_s (a : Z) (st : udp) (k : tm_udp_session -> udp) : udp :=
  match mem st !! a with Some s => k s | None => st <| fault := true |> end.
Definition put (a : Z) (s : tm_udp_session) (st : udp) : udp := st <| mem ::= fun m => <[a := s]> m |>.

(** ** Sending *)

Definition udp_send_raw (s : option Z) (dst : sockaddr) (buf : bytes) (st : udp) : udp :=
  if size_of (udp_queue_packets cfg) <=? udp_raw_inflight st
  then count udp_dropped_queue_full 1 st
  else
    let ok := send_ok (sends st) in
    let st := st <| sends ::= S |> in
    if ok
    then st <| udp_raw_inflight ::= Z.add 1 |> <| reqs ::= fun r => r ++ [s] |>
            <| sent ::= fun l => l ++ [(dst, buf)] |>
    else count udp_transport_errors 1 st.

(** The head of the queue given to the engine, and whether [pump_out] goes on to the
    BIO.  The loop of the code leaves after one round on every path. *)
Definition write_head (s : tm_udp_session) : bool * tm_udp_session :=
  let outq_len := blen (outq s) in
  if outq_off s <? outq_len then
    if outq_len - outq_off s <? 4 then (false, s)
    else
      let rest := drop (Z.to_nat (outq_off s)) (outq s) in
      let plen := rd_u32 rest in
      if outq_len - outq_off s - 4 <? plen then (false, s)
      else
        let env := take (Z.to_nat plen) (drop 4 rest) in
        let '(w, ssl') := SSL_write (ssl s) env in
        let s := s <| ssl := ssl' |> in
        match w with
        | SSL_WANT => (true, s)
        | SSL_FAILED => (false, s)
        | SSL_DONE n =>
            if negb (u32 n =? plen) then (false, s)
            else (true, s <| outq_off ::= fun o => o + 4 + plen |>
                          <| outq_packets ::= fun p => if p =? 0 then p else p - 1 |>
                          <| written ::= fun l => l ++ [env] |>)
        end
  else (true, s).

Definition reset_if_empty (s : tm_udp_session) : tm_udp_session :=
  if outq_off s =? blen (outq s) then s <| outq := [] |> <| outq_off := 0 |> else s.

Definition pump_out (a : Z) (st : udp) : udp :=
  with_s a st (fun s =>
  if closing s || inflight s then st
  else
    let '(go_on, s) := write_head s in
    if negb go_on then put a s st
    else
      let s := reset_if_empty s in
      let '(chunk, ssl') := BIO_read (ssl s) in
      let s := s <| ssl := ssl' |> in
      match chunk with
      | None => put a s st
      | Some c =>
          let st := udp_send_raw (Some a) (peer s) c (put a s st) in
          let st := if tun s then st else st <| fault := true |> in
          count datagrams_tx 1 (put a (bump pkts_tx 1 (s <| inflight := true |>)) st)
      end).

(** The buffer made ready for [need] more bytes: compacted when it does not fit, then
    grown. *)
Definition make_room (s : tm_udp_session) (need : Z) : tm_udp_session :=
  if outq_cap s <? blen (outq s) + need then
    let s := if outq_off s =? 0 then s
             else s <| outq := drop (Z.to_nat (outq_off s)) (outq s) |> <| outq_off := 0 |> in
    if outq_cap s <? blen (outq s) + need
    then s <| outq_cap := grow (if outq_cap s =? 0 then 4096 else outq_cap s * 2) (blen (outq s) + need) |>
    else s
  else s.

Definition max_bytes : Z :=
  u64 (size_of (udp_queue_packets cfg) * u64 (size_of (udp_max_datagram_size cfg) + 15)).

Definition session_queue (a : Z) (data : bytes) (st : udp) : udp :=
  with_s a st (fun s =>
  if closing s then st
  else
    let queued := blen (outq s) - outq_off s in
    if (size_of (udp_queue_packets cfg) <=? outq_packets s) || (2 ^ 32 - 1 <? blen data) ||
       (max_bytes <? queued + 4 + blen data)
    then count udp_dropped_queue_full 1 st
    else
      let s := make_room s (4 + blen data) in
      let s := s <| outq ::= fun q => q ++ wr_u32 (blen data) ++ data |>
                 <| outq_packets ::= Z.add 1 |> <| admitted ::= fun l => l ++ [data] |> in
      pump_out a (put a s st)).

(** ** Flows *)

Definition flow_find (fid : Z) (fs : list tm_udp_flow) : option tm_udp_flow :=
  List.find (fun f => flow_id f =? fid) fs.
Definition flow_find_peer (a sfid : Z) (fs : list tm_udp_flow) : option tm_udp_flow :=
  List.find (fun f => from_peer_session f && bool_decide (peer_session f = Some a) && (src_flow_id f =? sfid)) fs.
Definition flow_find_src (addr : sockaddr) (fs : list tm_udp_flow) : option tm_udp_flow :=
  List.find (fun f => negb (from_peer_session f) && tm_addr_eq (Some (src f)) (Some addr)) fs.

(** [flow_unlink] drops the first flow with that address. *)
Fixpoint flow_unlink (p : Z) (fs : list tm_udp_flow) : list tm_udp_flow :=
  match fs with
  | [] => []
  | f :: fs' => if fptr f =? p then fs' else f :: flow_unlink p fs'
  end.

(** The flow's timer closes and then frees it; nothing refers to it any more. *)
Definition tm_udp_flow_expire (f : tm_udp_flow) (st : udp) : udp :=
  count udp_flow_expired 1 (st <| udp_flows ::= flow_unlink (fptr f) |>).

Definition flow_idle_cb (f : tm_udp_flow) (st : udp) : udp := tm_udp_flow_expire f st.

Definition rate_check (limit now : Z) (w : win) : bool * win :=
  if limit <=? 0 then (true, w)
  else
    let w := if 1000 <=? u64 (now - u64 (win_start w)) then Win now 0 else w in
    if limit <=? win_count w then (false, w)
    else (true, Win (win_start w) (win_count w + 1)).

Definition flow_count (st : udp) : Z := blen (udp_flows st).

(** The new flow is the head of the list.  [flow_wrapped] records that the id counter
    passed its 64-bit range. *)
Definition flow_new (from_peer : bool) (ps : option Z) (sfid : Z) (addr : sockaddr) (st : udp) : udp :=
  let fid := if next_flow_id st =? 0 then 1 else next_flow_id st in
  let '(now, st) := tm_now_ms st in
  let f := Flow (next_addr st) fid sfid from_peer addr ps now 0 0 in
  count flows_total 1
    (st <| next_flow_id := u64 (fid + 1) |> <| flow_wrapped ::= orb (u64 (fid + 1) =? 0) |>
        <| next_addr ::= Z.add 1 |> <| udp_flows ::= cons f |>).

Definition tunnel_pkt_limit (st : udp) : bool * udp :=
  let '(now, st) := tm_now_ms st in
  let '(ok, w) := rate_check (udp_max_packets_per_tunnel cfg) now (pkt_win_tun st) in
  (ok, st <| pkt_win_tun := w |>).

Definition flow_creation_limit (st : udp) : bool * udp :=
  let '(now, st) := tm_now_ms st in
  let '(ok, w) := rate_check (udp_flow_creation_rate cfg) now (flow_created_win st) in
  (ok, st <| flow_created_win := w |>).

(** Writing to a flow through its pointer. *)
Definition flow_upd (p : Z) (g : tm_udp_flow -> tm_udp_flow) (st : udp) : udp :=
  st <| udp_flows ::= map (fun f => if fptr f =? p then g f else f) |>.

(** ** Sessions *)

Definition session_maybe_free (a : Z) (st : udp) : udp :=
  with_s a st (fun s =>
  if negb (closing s) || inflight s || negb (timer_closed s) then st
  else st <| mem ::= fun m => delete a m |>).

Definition send_done (i : nat) (st : udp) : udp :=
  match reqs st !! i with
  | None => st
  | Some r =>
      let st := st <| reqs ::= fun l => delete i l |> in
      let st := if udp_raw_inflight st =? 0 then st else st <| udp_raw_inflight ::= fun n => n - 1 |> in
      match r with
      | None => st
      | Some a =>
          with_s a st (fun s =>
          let st := put a (s <| inflight := false |>) st in
          if closing s then session_maybe_free a st else pump_out a st)
      end
  end.

Definition session_timer_closed (a : Z) (st : udp) : udp :=
  with_s a st (fun s => session_maybe_free a (put a (s <| timer_closed := true |>) st)).

Fixpoint session_unlink (a : Z) (l : list Z) : list Z :=
  match l with [] => [] | x :: l' => if x =? a then l' else x :: session_unlink a l' end.

Definition expire_flows_of (a : Z) (st : udp) : udp :=
  fold_left (fun st f => if bool_decide (peer_session f = Some a) then tm_udp_flow_expire f st else st)
            (udp_flows st) st.

Definition tm_udp_session_close (a : Z) (st : udp) : udp :=
  with_s a st (fun s =>
  if closing s then st
  else
    let st := put a (s <| closing := true |>) st in
    if tun s then
      let st := expire_flows_of a st in
      let st := st <| udp_sessions ::= session_unlink a |> in
      let st := if bool_decide (agent_session st = Some a) then st <| agent_session := None |> else st in
      put a (s <| closing := true |> <| tun := false |>) st
    else st).

Definition session_create (addr : sockaddr) (st : udp) : option Z * udp :=
  let '(now, st) := tm_now_ms st in
  let r := ssl_new (news st) in
  let st := st <| news ::= S |> in
  match r with
  | None => (None, st)
  | Some e =>
      let a := next_addr st in
      let s := Session true e addr false false false false false false 500 now 0 0 (Win 0 0) [] 0 0 0 [] [] None in
      (Some a, put a s st <| next_addr ::= Z.add 1 |> <| udp_sessions ::= cons a |>)
  end.

Definition session_timer_cb (a : Z) (st : udp) : udp :=
  with_s a st (fun s =>
  if closing s then st
  else
    let '(now, st) := tm_now_ms st in
    if u64 (u64 (udp_flow_idle_timeout_ms cfg) * 2) <? u64 (now - last_rx_ms s)
    then tm_udp_session_close a st
    else if negb (handshake_done s) then
      let st := pump_out a (put a (s <| ssl ::= DTLSv1_handle_timeout |>) st) in
      with_s a st (fun s =>
      let ms := match DTLSv1_get_timeout (ssl s) with
                | Some (tv_sec, tv_usec) =>
                    let m := u64 (u64 (u64 tv_sec * 1000) + u64 (tv_usec / 1000)) in
                    if m =? 0 then 1 else m
                | None => 500
                end in
      put a (s <| timer_ms := ms |>) st)
    else put a (s <| timer_ms := 30000 |>) st).

(** ** The inbound path *)

Definition forward_to_agent (fid : Z) (payload : bytes) (st : udp) : udp :=
  match agent_session st with
  | None => count udp_dropped_no_flow 1 st
  | Some a =>
      with_s a st (fun s =>
      if negb (authenticated s) then count udp_dropped_no_flow 1 st
      else if u32 (udp_max_datagram_size cfg) <? blen payload then count udp_dropped_oversize 1 st
      else session_queue a (tm_env_encode fid 0 payload) st)
  end.

Definition forward_to_peer (f : tm_udp_flow) (payload : bytes) (st : udp) : udp :=
  if u32 (udp_max_datagram_size cfg) <? blen payload then count udp_dropped_oversize 1 st
  else if from_peer_session f then
    match peer_session f with
    | None => st
    | Some a => with_s a st (fun s =>
                if closing s then st else session_queue a (tm_env_encode (src_flow_id f) 0 payload) st)
    end
  else count udp_bytes_tx (blen payload) (count datagrams_tx 1 (udp_send_raw None (src f) payload st)).

(** The counters of a datagram that belongs to a flow. *)
Definition flow_rx (p : Z) (payload : bytes) (st : udp) : udp :=
  let '(now, st) := tm_now_ms st in
  let st := flow_upd p (fun f => bump f_bytes_rx (blen payload) (bump f_pkts_rx 1 (f <| f_last_seen_ms := now |>))) st in
  count udp_bytes_rx (blen payload) (count datagrams_rx 1 st).

Definition agent_session_env (fid : Z) (payload : bytes) (st : udp) : udp :=
  if fid =? 0 then st
  else match flow_find fid (udp_flows st) with
       | None => count udp_dropped_no_flow 1 st
       | Some f => forward_to_peer f payload (flow_rx (fptr f) payload st)
       end.

(** The flow of a datagram, made when the limits allow it. *)
Definition flow_get (found : option tm_udp_flow) (mk : udp -> udp) (st : udp) : option tm_udp_flow * udp :=
  match found with
  | Some f => (Some f, st)
  | None =>
      let '(ok, st) := flow_creation_limit st in
      if negb ok || (size_of (udp_max_flows_per_tunnel cfg) <=? flow_count st)
      then (None, count udp_dropped_rate_limit 1 st)
      else let st := mk st in (head (udp_flows st), st)
  end.

Definition flow_deliver (fo : option tm_udp_flow * udp) (payload : bytes) : udp :=
  match fo with
  | (None, st) => st
  | (Some f, st) => forward_to_agent (flow_id f) payload (flow_rx (fptr f) payload st)
  end.

Definition peer_session_env (a fid : Z) (payload : bytes) (st : udp) : udp :=
  with_s a st (fun s =>
  let '(now, st) := tm_now_ms st in
  let '(ok, w) := rate_check (udp_max_packets_per_source cfg) now (pkt_win s) in
  let st := put a (s <| pkt_win := w |>) st in
  if negb ok then count udp_dropped_rate_limit 1 st
  else
    let '(ok, st) := tunnel_pkt_limit st in
    if negb ok then count udp_dropped_rate_limit 1 st
    else if fid =? 0 then st
    else flow_deliver (flow_get (flow_find_peer a fid (udp_flows st)) (flow_new true (Some a) fid AF_UNSPEC) st) payload).

Definition open_client_datagram (addr : sockaddr) (payload : bytes) (st : udp) : udp :=
  let '(ok, st) := tunnel_pkt_limit st in
  if negb ok then count udp_dropped_rate_limit 1 st
  else flow_deliver (flow_get (flow_find_src addr (udp_flows st)) (flow_new false None 0 addr) st) payload.

Definition looks_like_dtls (data : bytes) : bool :=
  if blen data <? 13 then false
  else (20 <=? byte_at data 0) && (byte_at data 0 <=? 23) && (byte_at data 1 =? 0xfe) &&
       ((byte_at data 2 =? 0xff) || (byte_at data 2 =? 0xfd) || (byte_at data 2 =? 0xfc)).

(** What a session presents when it authenticates, and as whom it is accepted. *)
Definition auth_secret (data : bytes) : option bytes :=
  if (blen data <? TM_ENV_HDR_LEN) || negb (byte_at data 0 =? 0) then None
  else match tm_env_decode data with
       | None => None
       | Some (_, flags, payload) =>
           if (Z.land flags TM_ENV_FLAG_AUTH_REQ =? 0) || (blen payload =? 0) || (TM_MAX_SECRET <? blen payload)
           then None else Some payload
       end.

Definition auth_agent (secret : bytes) : bool :=
  tm_ct_eq_hex (secret_digest (hmac_key cfg) secret) (agent_secret_hmac cfg).
Definition auth_peer (secret : bytes) : bool :=
  negb (auth_agent secret) && closed_tunnel cfg && negb (byte_at (shared_token_hmac cfg) 0 =? 0) &&
  tm_ct_eq_hex (secret_digest (hmac_key cfg) secret) (shared_token_hmac cfg).

Definition promote_agent (a : Z) (st : udp) : udp :=
  let st := match agent_session st with
            | Some old => if old =? a then st else tm_udp_session_close old st
            | None => st
            end in
  st <| agent_session := Some a |>.

(** An unauthenticated session: the rest of its bytes is handled by [again], the
    recursive call of the code. *)
Definition session_auth (again : bytes -> udp -> udp) (a : Z) (data : bytes) (st : udp) : udp :=
  match auth_secret data with
  | None => count failed_auths 1 st
  | Some secret =>
      if negb (auth_agent secret) && negb (auth_peer secret)
      then session_queue a (tm_env_encode 0 TM_ENV_FLAG_AUTH_ERR []) (count failed_auths 1 st)
      else
        let st := with_s a st (fun s =>
                    put a (s <| authenticated := true |> <| is_agent := auth_agent secret |>) st) in
        let st := if auth_agent secret then promote_agent a st else st in
        let st := session_queue a (tm_env_encode 0 TM_ENV_FLAG_AUTH_OK []) st in
        let off := TM_ENV_HDR_LEN + blen secret in
        if off <? blen data then again (drop (Z.to_nat off) data) st else st
  end.

Definition session_env (a : Z) (s : tm_udp_session) (data : bytes) (st : udp) : udp :=
  if (blen data <? TM_ENV_HDR_LEN) || negb (byte_at data 0 =? 0) then count protocol_errors 1 st
  else match tm_env_decode data with
       | None => count protocol_errors 1 st
       | Some (fid, _, payload) =>
           if is_agent s then agent_session_env fid payload st else peer_session_env a fid payload st
       end.

(** The recursion follows an authentication, so it is at most one deep.  What the
    session presents is noted before it is judged. *)
Fixpoint session_appdata_n (fuel : nat) (a : Z) (data : bytes) (st : udp) : udp :=
  with_s a st (fun s =>
  let st := if tun s then st else st <| fault := true |> in
  if negb (authenticated s)
  then match fuel with
       | O => st
       | S fuel' => session_auth (session_appdata_n fuel' a) a data
                      (put a (s <| presented := auth_secret data |>) st)
       end
  else session_env a s data st).
Definition session_appdata : Z -> bytes -> udp -> udp := session_appdata_n 2.

(** The read loop; [None] when [fuel] runs out. *)
Fixpoint drain_n (fuel : nat) (a : Z) (st : udp) : option udp :=
  match fuel with
  | O => None
  | S fuel' =>
      match mem st !! a with
      | None => Some (st <| fault := true |>)
      | Some s =>
          let '(r, ssl') := SSL_read (ssl s) in
          let st := put a (s <| ssl := ssl' |>) st in
          match r with
          | Some d => drain_n fuel' a (session_appdata a d st)
          | None => Some st
          end
      end
  end.
Definition drain_ssl (a : Z) (st : udp) : udp :=
  with_s a st (fun s =>
  if negb (handshake_done s) then st else default st (drain_n (S (unread (ssl s))) a st)).

Definition pump_in (a : Z) (st : udp) : udp :=
  with_s a st (fun s =>
  if closing s then st
  else if handshake_done s then pump_out a (drain_ssl a st)
  else
    let '(r, ssl') := SSL_accept (ssl s) in
    let s := s <| ssl := ssl' |> in
    match r with
    | SSL_DONE _ => pump_out a (drain_ssl a (put a (s <| handshake_done := true |>) st))
    | SSL_WANT => pump_out a (put a s st)
    | SSL_FAILED => (if tun s then put a s st else put a s st <| fault := true |>)
    end).

Definition find_session (addr : sockaddr) (st : udp) : option Z :=
  List.find (fun a => match mem st !! a with
                      | Some s => tm_addr_eq (Some (peer s)) (Some addr)
                      | None => false
                      end) (udp_sessions st).

(** A datagram for session [a]. *)
Definition session_rx (a : Z) (data : bytes) (st : udp) : udp :=
  let '(now, st) := tm_now_ms st in
  with_s a st (fun s =>
  pump_in a (put a (bump pkts_rx 1 (s <| last_rx_ms := now |>) <| ssl ::= fun e => BIO_write e data |>) st)).

Definition dtls_packet (addr : sockaddr) (data : bytes) (st : udp) : udp :=
  match find_session addr st with
  | Some a => session_rx a data st
  | None =>
      let '(ok, st) := flow_creation_limit st in
      if negb ok then count udp_dropped_rate_limit 1 st
      else match session_create addr st with
           | (None, st) => st
           | (Some a, st) => session_rx a data st
           end
  end.

(** [recv] is what libuv reports: an error, no more datagrams ([addr == NULL]) or a
    datagram. *)
Inductive recv := RECV_ERROR | RECV_NOTHING | RECV (addr : sockaddr) (data : bytes).

Definition on_udp_packet (r : recv) (st : udp) : udp :=
  match r with
  | RECV_ERROR => st
  | RECV_NOTHING => st
  | RECV addr data =>
      if shutting_down st || negb (enabled st) then st
      else if negb (closed_tunnel cfg) && negb (looks_like_dtls data) then
        if size_of (udp_max_datagram_size cfg) <? blen data then count udp_dropped_oversize 1 st
        else open_client_datagram addr data st
      else dtls_packet addr data st
  end.

(** ** Start and stop *)

Definition tm_udp_start (r : Listener.bind_result) (st : udp) : udp :=
  st <| usock ::= Listener.udp_sock_start r |>.

(** The two loops of [tm_udp_stop]; every round removes the head of its list. *)
Fixpoint close_sessions (fuel : nat) (st : udp) : udp :=
  match fuel, udp_sessions st with
  | S fuel', a :: _ => close_sessions fuel' (tm_udp_session_close a st)
  | _, _ => st
  end.
Fixpoint expire_flows (fuel : nat) (st : udp) : udp :=
  match fuel, udp_flows st with
  | S fuel', f :: _ => expire_flows fuel' (tm_udp_flow_expire f st)
  | _, _ => st
  end.
Definition tm_udp_stop (st : udp) : udp :=
  let st := st <| usock ::= Listener.udp_sock_stop |> in
  let st := close_sessions (length (udp_sessions st)) st in
  let st := expire_flows (length (udp_flows st)) st in
  st <| agent_session := None |>.

(** ** Events

    What the loop runs on a tunnel's UDP state: a datagram, the completion of the
    [i]-th outstanding send, a session timer, the end of a session timer's close, a
    flow's idle timer, an administrative stop or start, and the broker's own flags. *)
Inductive event :=
  | E_PACKET (r : recv)
  | E_SEND_DONE (i : nat)
  | E_SESSION_TIMER (a : Z)
  | E_TIMER_CLOSED (a : Z)
  | E_FLOW_IDLE (i : nat)
  | E_START (r : Listener.bind_result)
  | E_STOP
  | E_FLAGS (en sh : bool).

(** A session's timer fires only before its close, the close callback runs once. *)
Definition handle (e : event) (st : udp) : udp :=
  match e with
  | E_PACKET r => on_udp_packet r st
  | E_SEND_DONE i => send_done i st
  | E_SESSION_TIMER a => if bool_decide (a ∈ udp_sessions st) then session_timer_cb a st else st
  | E_TIMER_CLOSED a => match mem st !! a with
                        | Some s => if closing s && negb (timer_closed s) then session_timer_closed a st else st
                        | None => st
                        end
  | E_FLOW_IDLE i => match udp_flows st !! i with Some f => flow_idle_cb f st | None => st end
  | E_START r => tm_udp_start r st
  | E_STOP => tm_udp_stop st
  | E_FLAGS en sh => st <| enabled := en |> <| shutting_down := sh |>
  end.
Definition handle_all (es : list event) (st : udp) : udp := fold_left (fun st e => handle e st) es st.

Definition zero_stats : stats := Stats 0 0 0 0 0 0 0 0 0 0 0 0 0.
Definition udp_new (k : Listener.tun_sock) : udp :=
  Udp ∅ 1 [] None [] 1 false (Win 0 0) (Win 0 0) 0 [] [] zero_stats 0 0 0 true false k false.

(** ** The outbound queue is a bounded FIFO of envelopes *)

Definition queue_bytes (ps : list bytes) : bytes := concat (map (fun p => wr_u32 (blen p) ++ p) ps).

Lemma queue_bytes_cons p ps : queue_bytes (p :: ps) = wr_u32 (blen p) ++ p ++ queue_bytes ps.
Proof. unfold queue_bytes. cbn [map concat]. by rewrite <- app_assoc. Qed.
Lemma queue_bytes_snoc ps p : queue_bytes (ps ++ [p]) = queue_bytes ps ++ wr_u32 (blen p) ++ p.
Proof. unfold queue_bytes. rewrite map_app, concat_app. cbn [map concat]. by rewrite app_nil_r. Qed.

(** What a buffer holds at [off] when the envelopes [ps] wait in it. *)
Lemma queue_bytes_head ps q off :
  drop (Z.to_nat off) q = queue_bytes ps -> 0 <= off <= blen q -> Forall (fun p => blen p < 2 ^ 32) ps ->
  if off <? blen q
  then exists p ps', ps = p :: ps' /\ 4 <= blen q - off /\
       rd_u32 (drop (Z.to_nat off) q) = blen p /\ blen p <= blen q - off - 4 /\
       take (Z.to_nat (blen p)) (drop 4 (drop (Z.to_nat off) q)) = p /\
       drop (Z.to_nat (off + 4 + blen p)) q = queue_bytes ps'
  else ps = [].
Proof.
  intros Hb Ho Hf. pose proof (blen_drop off q Ho) as Hd. rewrite Hb in Hd.
  destruct ps as [|p ps].
  { change (blen (queue_bytes [])) with 0 in Hd.
    rewrite (proj2 (Z.ltb_ge _ _)) by lia. done. }
  rewrite queue_bytes_cons in *. autorewrite with blen in Hd. change (blen (wr_u32 _)) with 4 in Hd.
  pose proof (blen_nonneg p). pose proof (blen_nonneg (queue_bytes ps)).
  rewrite (proj2 (Z.ltb_lt _ _)) by lia. exists p, ps.
  apply Forall_cons in Hf as [Hp _].
  split_and!; [done|lia|rewrite Hb; apply rd_wr_u32; red; lia|lia|..].
  - rewrite Hb. change (drop 4 (wr_u32 (blen p) ++ ?x)) with x.
    apply take_app_length'. unfold blen; lia.
  - replace (Z.to_nat (off + 4 + blen p)) with (Z.to_nat off + (4 + Z.to_nat (blen p)))%nat by lia.
    rewrite <- drop_drop, Hb, <- drop_drop. change (drop 4 (wr_u32 (blen p) ++ ?x)) with x.
    apply drop_app_length'. unfold blen; lia.
Qed.

Lemma size_of_range z : 0 <= size_of z < 2 ^ 64.
Proof. apply (wrap_range 64); lia. Qed.
Lemma max_bytes_range : 0 <= max_bytes < 2 ^ 64.
Proof. apply (wrap_range 64); lia. Qed.

(** [ps] are the envelopes waiting in the buffer. *)
Record queue_ok (ps : list bytes) (s : tm_udp_session) : Prop := {
  qo_log : admitted s = written s ++ ps;
  qo_bytes : drop (Z.to_nat (outq_off s)) (outq s) = queue_bytes ps;
  qo_off : 0 <= outq_off s <= blen (outq s);
  qo_packets : outq_packets s = blen ps;
  qo_len : Forall (fun p => blen p < 2 ^ 32) ps;
  qo_limit : blen ps <= size_of (udp_queue_packets cfg);
  qo_max : blen (queue_bytes ps) <= max_bytes;
  qo_cap : blen (outq s) <= outq_cap s <= Z.max 4096 (2 * max_bytes);
}.
Definition sess_ok (s : tm_udp_session) : Prop := exists ps, queue_ok ps s.

(** The fields of a session that sending does not touch. *)
Record same (s s' : tm_udp_session) : Prop := {
  sm_tun : tun s' = tun s;
  sm_peer : peer s' = peer s;
  sm_agent : is_agent s' = is_agent s;
  sm_auth : authenticated s' = authenticated s;
  sm_hs : handshake_done s' = handshake_done s;
  sm_closing : closing s' = closing s;
  sm_timer : timer_closed s' = timer_closed s;
  sm_presented : presented s' = presented s;
}.
#[local] Instance same_pre : PreOrder same.
Proof. split; [by constructor|]. intros x y z [] []. constructor; congruence. Qed.

(** A session step: what it keeps. *)
Record sstep (s s' : tm_udp_session) : Prop := {
  ss_same : same s s';
  ss_ok : sess_ok s -> sess_ok s';
  ss_unread : (unread (ssl s') <= unread (ssl s))%nat;
  ss_inflight : inflight s = true -> inflight s' = true;
}.
#[local] Instance sstep_pre : PreOrder sstep.
Proof.
  split; [by constructor|]. intros x y z [] []. constructor; [by etrans|auto|lia|auto].
Qed.

Lemma queue_head ps s : queue_ok ps s ->
  if outq_off s <? blen (outq s)
  then exists p ps', ps = p :: ps' /\ 4 <= blen (outq s) - outq_off s /\
       rd_u32 (drop (Z.to_nat (outq_off s)) (outq s)) = blen p /\
       blen p <= blen (outq s) - outq_off s - 4 /\
       take (Z.to_nat (blen p)) (drop 4 (drop (Z.to_nat (outq_off s)) (outq s))) = p /\
       drop (Z.to_nat (outq_off s + 4 + blen p)) (outq s) = queue_bytes ps'
  else ps = [].
Proof. intros []. by apply queue_bytes_head. Qed.

Lemma write_head_ok s : sstep s (write_head s).2.
Proof.
  unfold write_head. destruct (outq_off s <? blen (outq s)) eqn:E1; [|reflexivity].
  destruct (blen (outq s) - outq_off s <? 4); [reflexivity|].
  set (plen := rd_u32 _). destruct (_ <? plen) eqn:E3; [reflexivity|].
  set (env := take _ _).
  pose proof (unread_write (ssl s) env) as Hu. destruct (SSL_write (ssl s) env) as [w e].
  cbn [snd] in Hu.
  assert (sstep s (s <| ssl := e |>)) as Hs.
  { constructor; [by constructor| |done|done]. intros [ps []]. exists ps. by constructor. }
  destruct w as [n| |]; [|exact Hs..]. destruct (u32 n =? plen); [|exact Hs]. cbn [negb snd].
  constructor; [by constructor| |done|done].
  intros [ps Hq]. pose proof (queue_head ps s Hq) as Hh. rewrite E1 in Hh.
  destruct Hh as (p & ps' & -> & H4 & Hp & Hle & He & Hd). fold plen in Hp. subst env. rewrite Hp, He.
  exists ps'. destruct Hq. apply Forall_cons in qo_len0 as [_ Hl]. pose proof (blen_nonneg p).
  rewrite queue_bytes_cons in *. autorewrite with blen in *.
  change (blen (wr_u32 _)) with 4 in *. pose proof (blen_nonneg ps').
  constructor; cbn [admitted written outq outq_off outq_packets outq_cap upd]; auto; try lia.
  - rewrite qo_log0, <- app_assoc. done.
  - rewrite qo_packets0. destruct (1 + blen ps' =? 0) eqn:E; zb; lia.
Qed.

Lemma reset_empty_ok s : sstep s (reset_if_empty s).
Proof.
  unfold reset_if_empty. destruct (outq_off s =? blen (outq s)) eqn:E; [|reflexivity]. zb.
  constructor; [by constructor| |done|done].
  intros [ps Hq]. pose proof (queue_head ps s Hq) as Hh. rewrite (proj2 (Z.ltb_ge _ _)) in Hh by lia.
  subst ps. exists []. destruct Hq. pose proof (blen_nonneg (outq s)).
  constructor; cbn [admitted written outq outq_off outq_packets outq_cap upd]; try done; rewrite ?blen_nil in *; auto; lia.
Qed.

(** Room is made without touching the envelopes, within the bound. *)
Lemma room_ok ps s need :
  queue_ok ps s -> 0 <= need -> blen (queue_bytes ps) + need <= max_bytes ->
  let s' := make_room s need in
  queue_ok ps s' /\ blen (outq s') + need <= outq_cap s'.
Proof.
  intros Hq Hn Hm. pose proof max_bytes_range as Hmb. unfold make_room.
  pose proof Hq as []. pose proof (blen_drop (outq_off s) (outq s) qo_off0) as Hd. rewrite qo_bytes0 in Hd.
  destruct (outq_cap s <? blen (outq s) + need) eqn:E1; zb; [|auto].
  set (s1 := if outq_off s =? 0 then s else _).
  assert (queue_ok ps s1 /\ blen (outq s1) = blen (queue_bytes ps) /\ outq_cap s1 = outq_cap s) as (Hq1 & Hl1 & Hc1).
  { subst s1. destruct (outq_off s =? 0) eqn:E0; zb; [split_and!; auto; lia|].
    split_and!; [|cbn; by rewrite qo_bytes0|done].
    pose proof (blen_nonneg (queue_bytes ps)).
    constructor; cbn; auto; rewrite ?qo_bytes0; auto; lia. }
  clearbody s1. rewrite Hc1, Hl1. destruct (outq_cap s <? blen (queue_bytes ps) + need) eqn:E2; zb; [|split; [done|lia]].
  set (base := if outq_cap s =? 0 then 4096 else outq_cap s * 2).
  assert (1 <= base <= Z.max 4096 (2 * max_bytes)) as Hb.
  { subst base. pose proof (blen_nonneg (outq s)). destruct (outq_cap s =? 0) eqn:E3; zb; lia. }
  cbv zeta. pose proof (grow_bound base (blen (queue_bytes ps) + need) ltac:(lia)).
  pose proof (grow_fits base (blen (queue_bytes ps) + need) ltac:(lia) ltac:(lia)).
  split; [|cbn; lia]. destruct Hq1. constructor; cbn; auto; lia.
Qed.

(** ** Steps that keep the session and flow tables

    [mild st st']: sessions may send, nothing is linked, unlinked or released. *)

Definition core (f : tm_udp_flow) : Z * Z * Z * bool * sockaddr * option Z :=
  (fptr f, flow_id f, src_flow_id f, from_peer_session f, src f, peer_session f).

(** The requests [k] a step added. *)
Record new_reqs (k : list (option Z)) (st st' : udp) : Prop := {
  nr_reqs : reqs st' = reqs st ++ k;
  nr_raw : udp_raw_inflight st' = udp_raw_inflight st + blen k;
  nr_cap : k = [] \/ udp_raw_inflight st' <= size_of (udp_queue_packets cfg);
  nr_nodup : NoDup (omap id k);
  nr_owner a : Some a ∈ k -> exists s s', mem st !! a = Some s /\ inflight s = false /\
                                         mem st' !! a = Some s' /\ inflight s' = true;
}.

Record mild (st st' : udp) : Prop := {
  m_sessions : udp_sessions st' = udp_sessions st;
  m_agent : agent_session st' = agent_session st;
  m_flows : map core (udp_flows st') = map core (udp_flows st);
  m_nfid : next_flow_id st' = next_flow_id st;
  m_wrapped : flow_wrapped st' = flow_wrapped st;
  m_next : next_addr st' = next_addr st;
  m_mem a : option_Forall2 sstep (mem st !! a) (mem st' !! a);
  m_reqs : exists k, new_reqs k st st';
  m_fault : fault st' = fault st;
}.

Lemma new_reqs_nil st st' : reqs st' = reqs st -> udp_raw_inflight st' = udp_raw_inflight st ->
  exists k, new_reqs k st st'.
Proof.
  intros E1 E2. exists []. constructor; [by rewrite app_nil_r|rewrite blen_nil; lia|by left|constructor|].
  intros a Ha. by apply elem_of_nil in Ha.
Qed.

Lemma option_F2_refl (o : option tm_udp_session) : option_Forall2 sstep o o.
Proof. destruct o; constructor. reflexivity. Qed.

Lemma mild_frame st st' :
  udp_sessions st' = udp_sessions st -> agent_session st' = agent_session st ->
  map core (udp_flows st') = map core (udp_flows st) -> next_flow_id st' = next_flow_id st ->
  flow_wrapped st' = flow_wrapped st -> next_addr st' = next_addr st -> mem st' = mem st ->
  reqs st' = reqs st -> udp_raw_inflight st' = udp_raw_inflight st -> fault st' = fault st -> mild st st'.
Proof.
  intros E1 E2 E3 E4 E5 E6 E7 E8 E9 E10. constructor; auto.
  - intros a. rewrite E7. apply option_F2_refl.
  - by apply new_reqs_nil.
Qed.

#[local] Instance mild_pre : PreOrder mild.
Proof.
  split; [intros st; by apply mild_frame|].
  intros x y z [A1 A2 A3 A4 A5 A6 Am [k1 K1] A7] [B1 B2 B3 B4 B5 B6 Bm [k2 K2] B7].
  constructor; try congruence.
  { intros a. specialize (Am a). specialize (Bm a). destruct Am; inversion Bm; subst; constructor. by etrans. }
  exists (k1 ++ k2). destruct K1 as [R1 W1 C1 D1 O1], K2 as [R2 W2 C2 D2 O2]. constructor.
  - by rewrite R2, R1, app_assoc.
  - rewrite W2, W1. autorewrite with blen. lia.
  - destruct C2 as [->|C2]; [|by right]. rewrite blen_nil in W2. rewrite app_nil_r, W2, Z.add_0_r. done.
  - rewrite omap_app. apply NoDup_app. split_and!; [done| |done].
    intros a Ha Hb. apply list_elem_of_omap in Ha as (? & Ha & [= ->]), Hb as (? & Hb & [= ->]).
    destruct (O1 a Ha) as (s & s' & _ & _ & E1 & E2), (O2 a Hb) as (t & t' & E3 & E4 & _). congruence.
  - intros a [Ha|Ha]%elem_of_app.
    + destruct (O1 a Ha) as (s & s' & E1 & E2 & E3 & E4). specialize (Bm a). rewrite E3 in Bm.
      inversion Bm as [? s'' Hs Q1 Q2|]; subst. exists s, s''. split_and!; auto. by apply Hs.
    + destruct (O2 a Ha) as (s & s' & E1 & E2 & E3 & E4). specialize (Am a). rewrite E1 in Am.
      inversion Am as [s0 ? Hs Q1 Q2|]; subst. exists s0, s'. split_and!; auto.
      destruct (inflight s0) eqn:Ei; [|done]. apply Hs in Ei. congruence.
Qed.

(** Counters, the clock and the windows. *)
Ltac mild_field := apply mild_frame; reflexivity.

Lemma mild_count (p : stats -> Z) (Hp : Setter p) n st : mild st (count p n st).
Proof. mild_field. Qed.

Lemma mild_put a s s' st : mem st !! a = Some s -> sstep s s' -> mild st (put a s' st).
Proof.
  intros Ha Hs. constructor; try reflexivity; [|by apply new_reqs_nil].
  intros b. cbn. destruct (decide (a = b)) as [<-|Hn].
  - rewrite Ha, lookup_insert_eq. by constructor.
  - rewrite lookup_insert_ne by done. apply option_F2_refl.
Qed.

Lemma mild_send dst buf st : mild st (udp_send_raw None dst buf st).
Proof.
  unfold udp_send_raw. destruct (_ <=? udp_raw_inflight st) eqn:E; zb; [mild_field|].
  destruct (send_ok (sends st)); [|mild_field].
  constructor; try reflexivity.
  exists [None]. constructor; cbn [reqs udp_raw_inflight upd];
    [done|rewrite blen_cons, blen_nil; lia|right; lia|constructor|].
  intros a Ha. apply list_elem_of_singleton in Ha. done.
Qed.

(** A session's own send: the request is recorded when the session was not in flight
    and is marked in flight afterwards. *)
Lemma mild_session_send a s s' dst buf st :
  mem st !! a = Some s -> sstep s s' -> inflight s = false -> inflight s' = true ->
  mild st (put a s' (udp_send_raw (Some a) dst buf st)).
Proof.
  intros Ha Hs Hf Hf'. unfold udp_send_raw. destruct (_ <=? udp_raw_inflight st) eqn:E; zb.
  { etrans; [apply (mild_put a s s' st); done|]. mild_field. }
  destruct (send_ok (sends st)).
  2: { etrans; [apply (mild_put a s s' st); done|]. mild_field. }
  constructor; try reflexivity.
  - intros b. cbn. destruct (decide (a = b)) as [<-|Hn].
    + rewrite Ha, lookup_insert_eq. by constructor.
    + rewrite lookup_insert_ne by done. apply option_F2_refl.
  - exists [Some a]. constructor; cbn [reqs udp_raw_inflight upd put];
      [done|rewrite blen_cons, blen_nil; lia|right; lia|repeat constructor; by intros ?%elem_of_nil|].
    intros b Hb. apply list_elem_of_singleton in Hb as [= ->]. exists s, s'. split_and!; auto.
    cbn. by rewrite lookup_insert_eq.
Qed.

Lemma write_head_inflight s : inflight (write_head s).2 = inflight s.
Proof.
  unfold write_head. destruct (outq_off s <? _); [|done]. destruct (_ <? 4); [done|].
  destruct (_ <? rd_u32 _); [done|]. destruct (SSL_write _ _) as [[n| |] e]; try done. by destruct (u32 n =? _).
Qed.

(** A session that is still open has its tunnel. *)
Definition live (a : Z) (st : udp) : Prop :=
  exists s, mem st !! a = Some s /\ (closing s = false -> tun s = true).

Lemma pump_out_mild a st : live a st -> mild st (pump_out a st).
Proof.
  intros (s & Ha & Htun). unfold pump_out, with_s. rewrite Ha.
  destruct (closing s) eqn:Ec; [reflexivity|]. destruct (inflight s) eqn:Ei; [reflexivity|]. cbn [orb].
  pose proof (write_head_ok s) as Hs1. pose proof (write_head_inflight s) as Hi1.
  destruct (write_head s) as [go s1]. cbn [snd] in *. rewrite Ei in Hi1.
  destruct go; cbn [negb]; [|by apply (mild_put a s)].
  pose proof (reset_empty_ok s1) as Hs2.
  assert (inflight (reset_if_empty s1) = false) as Hi2 by (unfold reset_if_empty; by destruct (_ =? _)).
  set (s2 := reset_if_empty s1) in *. clearbody s2.
  pose proof (unread_bio_read (ssl s2)) as Hu. destruct (BIO_read (ssl s2)) as [chunk e]. cbn [snd] in Hu.
  set (s3 := s2 <| ssl := e |>).
  assert (sstep s s3) as Hs3.
  { etrans; [exact Hs1|]. etrans; [exact Hs2|].
    constructor; [by constructor| |done|done]. intros [ps []]. exists ps. by constructor. }
  assert (inflight s3 = false) as Hi3 by done. assert (tun s3 = true) as Ht3.
  { rewrite (sm_tun _ _ (ss_same _ _ Hs3)). by apply Htun. }
  clearbody s3. destruct chunk as [c|]; [|by apply (mild_put a s)].
  rewrite Ht3. etrans; [apply (mild_put a s s3 st); done|]. etrans; [|apply mild_count].
  apply (mild_session_send a s3); [cbn; by rewrite lookup_insert_eq| |done|done].
  constructor; [by constructor| |done|done]. intros [ps []]. exists ps. by constructor.
Qed.

(** Whether [session_queue] takes an envelope. *)
Definition queue_takes (s : tm_udp_session) (data : bytes) : bool :=
  negb ((size_of (udp_queue_packets cfg) <=? outq_packets s) || (2 ^ 32 - 1 <? blen data) ||
        (max_bytes <? blen (outq s) - outq_off s + 4 + blen data)).

Definition enqueue (s : tm_udp_session) (data : bytes) : tm_udp_session :=
  make_room s (4 + blen data) <| outq ::= fun q => q ++ wr_u32 (blen data) ++ data |>
    <| outq_packets ::= Z.add 1 |> <| admitted ::= fun l => l ++ [data] |>.

Lemma make_room_fields s need : let s' := make_room s need in
  same s s' /\ ssl s' = ssl s /\ inflight s' = inflight s /\ admitted s' = admitted s /\ written s' = written s.
Proof.
  unfold make_room. destruct (_ <? _); [|done]. destruct (outq_off s =? 0); (destruct (_ <? _); done).
Qed.

Lemma enqueue_ok s data : queue_takes s data = true -> sstep s (enqueue s data).
Proof.
  intros Ht. unfold queue_takes in Ht. zb. destruct Ht as [[T1 T2] T3]. unfold enqueue.
  destruct (make_room_fields s (4 + blen data)) as (Hsm & He & Hi & _).
  constructor; [destruct Hsm; by constructor| |cbn; by rewrite He|cbn; by rewrite Hi].
  intros [ps Hq]. pose proof (blen_nonneg data).
  assert (blen (outq s) - outq_off s = blen (queue_bytes ps)) as Hlen.
  { destruct Hq. rewrite <- qo_bytes0, blen_drop; lia. }
  destruct (room_ok ps s (4 + blen data) Hq ltac:(lia) ltac:(lia)) as [Hq' Hroom].
  assert (outq_packets s = blen ps) as Hp by (by destruct Hq).
  set (s' := make_room s (4 + blen data)) in *. clearbody s'. exists (ps ++ [data]).
  destruct Hq' as [L B O P F M X C]. pose proof (blen_nonneg (outq s')).
  constructor; cbn [admitted written outq outq_off outq_packets outq_cap upd];
    rewrite ?queue_bytes_snoc; autorewrite with blen; change (blen (wr_u32 _)) with 4; try lia.
  - by rewrite L, app_assoc.
  - rewrite drop_app_le by (unfold blen in *; lia). by rewrite B.
  - apply Forall_app_2; [done|]. constructor; [lia|done].
Qed.

Lemma session_queue_mild a data st : live a st -> mild st (session_queue a data st).
Proof.
  intros Hl. pose proof Hl as (s & Ha & Htun). unfold session_queue, with_s. rewrite Ha.
  destruct (closing s) eqn:Ec; [reflexivity|].
  destruct (_ || _ || _) eqn:Et; [apply mild_count|].
  assert (sstep s (enqueue s data)) as Hs by (apply enqueue_ok; unfold queue_takes; by rewrite Et).
  etrans; [apply (mild_put a s (enqueue s data)); done|]. apply pump_out_mild.
  exists (enqueue s data). split; [cbn; by rewrite lookup_insert_eq|].
  intros _. rewrite (sm_tun _ _ (ss_same _ _ Hs)). by apply Htun.
Qed.

(** ** The invariant of the UDP plane *)

(** The secret a session's role rests on: the one it presented. *)
Definition vouched (s : tm_udp_session) : Prop :=
  authenticated s = true -> exists secret, presented s = Some secret /\
    (if is_agent s then auth_agent secret else auth_peer secret) = true.

Record session_wf (next : Z) (a : Z) (s : tm_udp_session) : Prop := {
  sw_addr : a < next;
  sw_queue : sess_ok s;
  sw_tun : tun s = negb (closing s);
  sw_timer : timer_closed s = true -> closing s = true /\ inflight s = true;
  sw_auth : vouched s;
}.

(** An open session with a role. *)
Definition role (m : gmap Z tm_udp_session) (agent : bool) (a : Z) : Prop :=
  exists s, m !! a = Some s /\ closing s = false /\ authenticated s = true /\ is_agent s = agent.

Definition flow_wf (next : Z) (m : gmap Z tm_udp_session) (f : tm_udp_flow) : Prop :=
  fptr f < next /\
  match peer_session f with
  | Some a => from_peer_session f = true /\ role m false a
  | None => from_peer_session f = false /\ closed_tunnel cfg = false
  end.

Record uinv (st : udp) : Prop := {
  u_nodup : NoDup (udp_sessions st);
  u_link a : a ∈ udp_sessions st <-> exists s, mem st !! a = Some s /\ closing s = false;
  u_sess a s : mem st !! a = Some s -> session_wf (next_addr st) a s;
  u_agent a : agent_session st = Some a -> role (mem st) true a;
  u_flow : Forall (flow_wf (next_addr st) (mem st)) (udp_flows st);
  u_fptr : NoDup (map fptr (udp_flows st));
  u_fid : flow_wrapped st = false ->
          1 <= next_flow_id st < 2 ^ 64 /\ NoDup (map flow_id (udp_flows st)) /\
          Forall (fun f => 1 <= flow_id f < next_flow_id st) (udp_flows st);
  u_max : blen (udp_flows st) <= size_of (udp_max_flows_per_tunnel cfg);
  u_reqs : NoDup (omap id (reqs st));
  u_owner a : Some a ∈ reqs st -> exists s, mem st !! a = Some s /\ inflight s = true;
  u_raw : udp_raw_inflight st = blen (reqs st) /\
          udp_raw_inflight st <= size_of (udp_queue_packets cfg);
  u_fault : fault st = false;
}.

Lemma map_core {B} (g : tm_udp_flow -> B) (h : Z * Z * Z * bool * sockaddr * option Z -> B) fs fs' :
  (forall f, g f = h (core f)) -> map core fs' = map core fs -> map g fs' = map g fs.
Proof.
  intros Hg E. rewrite !(map_ext g (fun f => h (core f))) by done.
  rewrite <- !(map_map core h). by rewrite E.
Qed.

Lemma Forall_core (P : Z * Z * Z * bool * sockaddr * option Z -> Prop) fs fs' :
  map core fs' = map core fs -> Forall (fun f => P (core f)) fs -> Forall (fun f => P (core f)) fs'.
Proof.
  intros E HF. apply Forall_map in HF. apply Forall_map. change (fmap core fs') with (map core fs').
  by rewrite E.
Qed.

Lemma mild_session st st' a s : mild st st' -> mem st !! a = Some s ->
  exists s', mem st' !! a = Some s' /\ sstep s s'.
Proof. intros Hm Ha. pose proof (m_mem _ _ Hm a) as Hx. rewrite Ha in Hx. inversion Hx; subst. eauto. Qed.

Lemma mild_session_rev st st' a s' : mild st st' -> mem st' !! a = Some s' ->
  exists s, mem st !! a = Some s /\ sstep s s'.
Proof. intros Hm Ha. pose proof (m_mem _ _ Hm a) as Hx. rewrite Ha in Hx. inversion Hx; subst. eauto. Qed.

Lemma mild_role st st' b a : mild st st' -> role (mem st) b a -> role (mem st') b a.
Proof.
  intros Hm (s & Ha & H1 & H2 & H3). destruct (mild_session _ _ _ _ Hm Ha) as (s' & Ha' & [[] _ _ _]).
  exists s'. split_and!; congruence.
Qed.

Lemma uinv_mild st st' : uinv st -> mild st st' -> uinv st'.
Proof.
  intros [] Hm. pose proof Hm as [E1 E2 E3 E4 E5 E6 _ [k [K1 K2 K3 K4 K5]] E7].
  constructor; rewrite ?E1, ?E2, ?E4, ?E5, ?E7; auto.
  - intros a. rewrite u_link0. split; intros (s & Ha & Hc).
    + destruct (mild_session _ _ _ _ Hm Ha) as (s' & Ha' & [[] _ _ _]). exists s'. split; congruence.
    + destruct (mild_session_rev _ _ _ _ Hm Ha) as (s' & Ha' & [[] _ _ _]). exists s'. split; congruence.
  - intros a s' Ha'. destruct (mild_session_rev _ _ _ _ Hm Ha') as (s & Ha & [[] Hok _ Hi]).
    destruct (u_sess0 a s Ha) as [W1 W2 W3 W4 W5]. constructor; [congruence|auto|congruence| |].
    + intros Ht. rewrite sm_timer0 in Ht. destruct (W4 Ht). split; [congruence|auto].
    + unfold vouched in *. rewrite sm_auth0, sm_agent0, sm_presented0. done.
  - intros a Ha. eapply mild_role; [done|auto].
  - apply (Forall_core (fun c => let '(p, _, _, fp, _, ps) := c in p < next_addr st' /\
             match ps with Some a => fp = true /\ role (mem st') false a | None => fp = false /\ closed_tunnel cfg = false end)
             (udp_flows st)); [done|].
    eapply Forall_impl; [exact u_flow0|]. intros f [Hp Hf]. cbn. rewrite E6. split; [done|].
    destruct (peer_session f); [|done]. destruct Hf. split; [done|]. by eapply mild_role.
  - rewrite (map_core fptr (fun c => let '(p, _, _, _, _, _) := c in p) (udp_flows st)) by done. done.
  - intros Hw. destruct (u_fid0 Hw) as (F1 & F2 & F3). split_and!; try lia.
    + by rewrite (map_core flow_id (fun c => let '(_, i, _, _, _, _) := c in i) (udp_flows st)).
    + by apply (Forall_core (fun c => let '(_, i, _, _, _, _) := c in 1 <= i < next_flow_id st) (udp_flows st)).
  - assert (length (udp_flows st') = length (udp_flows st)) as El
      by (rewrite <- (length_map core), E3; apply length_map).
    unfold blen in *. lia.
  - rewrite K1, omap_app. apply NoDup_app. split_and!; [done| |done].
    intros a Ha Hb. apply list_elem_of_omap in Ha as (? & Ha & [= ->]), Hb as (? & Hb & [= ->]).
    destruct (u_owner0 a Ha) as (s & Hs & Hi), (K5 a Hb) as (t & ? & Ht & Hti & _). congruence.
  - intros a. rewrite K1. intros [Ha|Ha]%elem_of_app.
    + destruct (u_owner0 a Ha) as (s & Hs & Hi). destruct (mild_session _ _ _ _ Hm Hs) as (s' & Hs' & Hst).
      exists s'. split; [done|]. by apply Hst.
    + destruct (K5 a Ha) as (? & s' & _ & _ & Hs' & Hi'). eauto.
  - rewrite K1. autorewrite with blen. destruct u_raw0 as [R1 R2].
    destruct K3 as [->|K3]; [rewrite blen_nil in *|]; split; lia.
Qed.

Lemma uinv_live st a s : uinv st -> mem st !! a = Some s -> live a st.
Proof. intros Hu Ha. exists s. split; [done|]. intros Hc. rewrite (sw_tun _ _ _ (u_sess _ Hu a s Ha)), Hc. done. Qed.
Lemma role_live st a b : uinv st -> role (mem st) b a -> live a st.
Proof. intros Hu (s & Ha & _). by eapply uinv_live. Qed.

(** ** Steps that change the tables *)

Lemma map_sublist {A B} (g : A -> B) l k : l `sublist_of` k -> map g l `sublist_of` map g k.
Proof. intros Hs. by apply (fmap_sublist g). Qed.

Lemma Forall_sub {A} (P : A -> Prop) l k : l `sublist_of` k -> Forall P k -> Forall P l.
Proof. intros Hs HF. apply Forall_forall. intros x Hx. eapply Forall_forall in HF; [done|]. by eapply elem_of_sublist. Qed.

(** Forgetting flows. *)
Lemma uinv_flows st fs n : uinv st -> fs `sublist_of` udp_flows st ->
  uinv (count udp_flow_expired n (st <| udp_flows := fs |>)).
Proof.
  intros [] Hs. pose proof (sublist_length _ _ Hs). constructor; auto; cbn [udp_flows upd count].
  - exact (Forall_sub _ _ _ Hs u_flow0).
  - eapply sublist_NoDup; [|by apply map_sublist]; done.
  - intros Hw. destruct (u_fid0 Hw) as (F1 & F2 & F3). split_and!; [apply F1|apply F1|..].
    + eapply sublist_NoDup; [|by apply map_sublist]; done.
    + exact (Forall_sub _ _ _ Hs F3).
  - unfold blen in *. lia.
Qed.

Lemma flow_unlink_sub q fs : flow_unlink q fs `sublist_of` fs.
Proof. induction fs as [|f fs IH]; cbn; [done|]. destruct (fptr f =? q); by constructor. Qed.

Lemma flow_expire_uinv f st : uinv st -> uinv (tm_udp_flow_expire f st).
Proof. intros Hu. apply (uinv_flows st _ 1 Hu), flow_unlink_sub. Qed.

(** What the expiry of a session's flows leaves alone. *)
Record only_flows (st st' : udp) : Prop := {
  of_flows : udp_flows st' `sublist_of` udp_flows st;
  of_mem : mem st' = mem st;
  of_sessions : udp_sessions st' = udp_sessions st;
  of_agent : agent_session st' = agent_session st;
}.
#[local] Instance only_flows_pre : PreOrder only_flows.
Proof. split; [by constructor|]. intros x y z [] []. constructor; try congruence. by etrans. Qed.

Lemma flow_expire_only f st : only_flows st (tm_udp_flow_expire f st).
Proof. constructor; try done. apply flow_unlink_sub. Qed.

Lemma flow_unlink_other q fs f : f ∈ flow_unlink q fs -> NoDup (map fptr fs) -> f ∈ fs /\ fptr f <> q.
Proof.
  induction fs as [|g fs IH]; cbn [flow_unlink map]; [by intros ?%elem_of_nil|]. intros Hf [Hg Hn]%NoDup_cons.
  destruct (fptr g =? q) eqn:E; zb.
  - split; [by right|]. intros Hq. apply Hg. rewrite E, <- Hq. by apply (list_elem_of_fmap_2 fptr).
  - apply elem_of_cons in Hf as [->|Hf]; [split; [by left|done]|].
    destruct (IH Hf Hn). split; [by right|done].
Qed.

Lemma expire_fold a l : forall st, uinv st ->
  let st' := fold_left (fun st f => if bool_decide (peer_session f = Some a) then tm_udp_flow_expire f st else st) l st in
  uinv st' /\ only_flows st st' /\
  (forall f g, f ∈ udp_flows st' -> g ∈ l -> peer_session g = Some a -> fptr f <> fptr g).
Proof.
  induction l as [|f l IH]; intros st Hu; cbn [fold_left].
  { split_and!; [done|reflexivity|]. intros f g _ Hg. by apply elem_of_nil in Hg. }
  set (st1 := if bool_decide _ then _ else st).
  assert (uinv st1 /\ only_flows st st1) as [Hu1 Ho1].
  { subst st1. case_bool_decide; [|split; [done|reflexivity]].
    split; [by apply flow_expire_uinv|apply flow_expire_only]. }
  destruct (IH st1 Hu1) as (Hu2 & Ho2 & Hf2). split_and!; [done|by etrans|].
  intros h g Hh [->|Hg]%elem_of_cons Hp; [|by apply Hf2].
  assert (h ∈ udp_flows st1) as Hh1 by (eapply elem_of_sublist; [exact Hh|apply Ho2]).
  subst st1. rewrite bool_decide_true in Hh1 by done. cbn in Hh1.
  apply flow_unlink_other in Hh1 as [_ ?]; [done|apply Hu].
Qed.

Lemma expire_flows_of_spec a st : uinv st ->
  let st' := expire_flows_of a st in
  uinv st' /\ only_flows st st' /\ Forall (fun f => peer_session f <> Some a) (udp_flows st').
Proof.
  intros Hu. destruct (expire_fold a (udp_flows st) st Hu) as (H1 & H2 & H3). split_and!; auto.
  apply Forall_forall. intros f Hf Hp.
  assert (f ∈ udp_flows st) as Hf0 by (eapply elem_of_sublist; [exact Hf|apply H2]).
  by apply (H3 f f).
Qed.

Lemma session_unlink_spec a l : NoDup l ->
  NoDup (session_unlink a l) /\ forall b, b ∈ session_unlink a l <-> b ∈ l /\ b <> a.
Proof.
  induction l as [|x l IH]; cbn [session_unlink]; [intros _; split; [constructor|]; intros b; split; [by intros ?%elem_of_nil|by intros [?%elem_of_nil _]]|].
  intros [Hx Hn]%NoDup_cons. destruct (IH Hn) as [H1 H2]. destruct (x =? a) eqn:E; zb.
  - subst. split; [done|]. intros b. rewrite elem_of_cons. naive_solver.
  - split; [constructor; [rewrite H2; naive_solver|done]|]. intros b. rewrite !elem_of_cons, H2. naive_solver.
Qed.

Lemma expire_put a b x st : expire_flows_of a (put b x st) = put b x (expire_flows_of a st).
Proof.
  unfold expire_flows_of. change (udp_flows (put b x st)) with (udp_flows st).
  generalize (udp_flows st) as l. intros l. revert st.
  induction l as [|f l IH]; intros st; cbn [fold_left]; [done|].
  case_bool_decide; [|apply IH]. rewrite <- IH. done.
Qed.

Lemma put_put a x y st : put a x (put a y st) = put a x st.
Proof. unfold put. destruct st. cbn. f_equal. apply insert_insert_eq. Qed.

Lemma role_put_ne m b a a' s : a <> a' -> role (<[a := s]> m) b a' <-> role m b a'.
Proof. intros Hn. unfold role. by rewrite lookup_insert_ne. Qed.

(** Closing an open session unlinks it and its flows and nothing else. *)
Lemma session_close_spec a s st : uinv st -> mem st !! a = Some s ->
  let st' := tm_udp_session_close a st in
  uinv st' /\ (forall b, b <> a -> mem st' !! b = mem st !! b) /\
  mem st' !! a = Some (s <| closing := true |> <| tun := false |>) /\
  udp_sessions st' = (if closing s then udp_sessions st else session_unlink a (udp_sessions st)) /\
  udp_flows st' `sublist_of` udp_flows st /\
  agent_session st' = (if bool_decide (agent_session st = Some a) then None else agent_session st).
Proof.
  intros Hu Ha. pose proof (u_sess _ Hu a s Ha) as [W1 W2 W3 W4 W5].
  unfold tm_udp_session_close, with_s. rewrite Ha. destruct (closing s) eqn:Ec; cbv zeta.
  { split_and!; auto.
    - destruct s; cbn in *; subst. done.
    - case_bool_decide as E; [|done]. destruct (u_agent _ Hu a E) as (x & Hx & Hc & _). congruence. }
  rewrite W3. cbn [negb]. rewrite expire_put.
  destruct (expire_flows_of_spec a st Hu) as (Hu1 & [F1 F2 F3 F4] & Hno).
  set (st1 := expire_flows_of a st) in *. clearbody st1.
  set (s2 := s <| closing := true |> <| tun := false |>).
  set (st2 := put a s2 _).
  assert (mem st2 = <[a := s2]> (mem st)) as M.
  { subst st2. case_bool_decide; cbn; rewrite F2; apply insert_insert_eq. }
  assert (udp_sessions st2 = session_unlink a (udp_sessions st)) as S
    by (subst st2; rewrite <- F3; case_bool_decide; done).
  assert (agent_session st2 = if bool_decide (agent_session st = Some a) then None else agent_session st) as A
    by (subst st2; rewrite <- F4; change (agent_session (put _ _ st1 <| udp_sessions ::= _ |>)) with (agent_session st1);
        by destruct (bool_decide (agent_session st1 = Some a))).
  assert (udp_flows st2 = udp_flows st1 /\ next_addr st2 = next_addr st1 /\ reqs st2 = reqs st1 /\
          next_flow_id st2 = next_flow_id st1 /\ flow_wrapped st2 = flow_wrapped st1 /\
          udp_raw_inflight st2 = udp_raw_inflight st1 /\ fault st2 = fault st1) as (E1 & E2 & E3 & E4 & E5 & E6 & E7)
    by (subst st2; case_bool_decide; done).
  clearbody st2. split_and!; try done.
  2: { intros b Hb. by rewrite M, lookup_insert_ne by done. }
  2: { by rewrite M, lookup_insert_eq. }
  2: { rewrite E1. done. }
  destruct (session_unlink_spec a (udp_sessions st) (u_nodup _ Hu)) as [N1 N2].
  destruct Hu1. constructor; rewrite ?M, ?S, ?E1, ?E2, ?E3, ?E4, ?E5, ?E6, ?E7; auto.
  - intros b. rewrite N2, <- F3, u_link0, F2. destruct (decide (a = b)) as [<-|Hn].
    + rewrite lookup_insert_eq. split; [naive_solver|]. intros (x & [= <-] & Hx). done.
    + rewrite lookup_insert_ne by done. naive_solver.
  - intros b x. destruct (decide (a = b)) as [<-|Hn].
    + rewrite lookup_insert_eq. intros [= <-]. destruct (u_sess0 a s) as [X1 X2 X3 X4 X5]; [by rewrite F2|].
      constructor; auto; [destruct X2 as [ps []]; exists ps; by constructor|].
      intros Ht. destruct (X4 Ht). done.
    + rewrite lookup_insert_ne, <- F2 by done. apply u_sess0.
  - intros b. rewrite A. case_bool_decide as Eb; [done|]. intros Hb.
    assert (b <> a) by congruence. apply role_put_ne; [done|]. rewrite <- F2. apply u_agent0. congruence.
  - eapply Forall_impl; [exact (proj2 (Forall_and _ _) (conj u_flow0 Hno))|]. cbn. intros f [[Hp Hf] Hne].
    split; [done|]. destruct (peer_session f) as [b|]; [|done]. destruct Hf. split; [done|].
    apply role_put_ne; [congruence|]. by rewrite <- F2.
  - intros b Hb. destruct (u_owner0 b Hb) as (x & Hx & Hi). rewrite F2 in Hx.
    destruct (decide (a = b)) as [<-|Hn].
    + exists s2. rewrite lookup_insert_eq. split; [done|]. cbn. congruence.
    + exists x. by rewrite lookup_insert_ne.
Qed.

(** Writing a session's fields. *)
Lemma put_uinv a s s' st : uinv st -> mem st !! a = Some s -> session_wf (next_addr st) a s' ->
  closing s' = closing s ->
  (authenticated s = true -> authenticated s' = true /\ is_agent s' = is_agent s) ->
  (Some a ∈ reqs st -> inflight s' = true) -> uinv (put a s' st).
Proof.
  intros [] Ha Hw Hc Hau Hin.
  assert (forall b x, role (mem st) b x -> role (<[a := s']> (mem st)) b x) as Hrole.
  { intros b x (t & Ht & H1 & H2 & H3). destruct (decide (a = x)) as [<-|Hn].
    - exists s'. rewrite lookup_insert_eq. replace t with s in * by congruence.
      destruct (Hau H2). split_and!; congruence.
    - exists t. by rewrite lookup_insert_ne. }
  constructor; auto.
  - intros b. rewrite u_link0. cbn. destruct (decide (a = b)) as [<-|Hn].
    + rewrite lookup_insert_eq. split; [intros (x & Hx & Hcx); exists s'; split; [done|congruence]|].
      intros (x & [= <-] & Hcx). exists s. split; [done|congruence].
    + by rewrite lookup_insert_ne.
  - cbn. intros b x. destruct (decide (a = b)) as [<-|Hn].
    + rewrite lookup_insert_eq. by intros [= <-].
    + rewrite lookup_insert_ne by done. apply u_sess0.
  - cbn. eapply Forall_impl; [exact u_flow0|]. intros f [Hp Hf]. split; [done|].
    destruct (peer_session f); [|done]. destruct Hf. auto.
  - cbn. intros b Hb. destruct (u_owner0 b Hb) as (x & Hx & Hi). destruct (decide (a = b)) as [<-|Hn].
    + exists s'. rewrite lookup_insert_eq. auto.
    + exists x. by rewrite lookup_insert_ne.
Qed.

(** Releasing a closed session to which no request belongs. *)
Lemma free_uinv a s st : uinv st -> mem st !! a = Some s -> closing s = true -> Some a ∉ reqs st ->
  uinv (st <| mem ::= fun m => delete a m |>).
Proof.
  intros [] Ha Hc Hr.
  assert (forall b x, role (mem st) b x -> role (delete a (mem st)) b x) as Hrole.
  { intros b x (t & Ht & H1 & H2). exists t. rewrite lookup_delete_ne by congruence. done. }
  constructor; auto; cbn [mem upd].
  - intros b. rewrite u_link0. destruct (decide (a = b)) as [<-|Hn].
    + rewrite lookup_delete_eq. split; [intros (x & Hx & ?); congruence|by intros (x & ? & _)].
    + by rewrite lookup_delete_ne.
  - intros b x [Hn Hx]%lookup_delete_Some. by apply u_sess0.
  - eapply Forall_impl; [exact u_flow0|]. intros f [Hp Hf]. split; [done|].
    destruct (peer_session f); [|done]. destruct Hf. auto.
  - intros b Hb. destruct (u_owner0 b Hb) as (x & Hx & Hi). exists x.
    rewrite lookup_delete_ne by (intros <-; done). done.
Qed.

(** A request that completed. *)
Lemma drop_req_uinv i r st : uinv st -> reqs st !! i = Some r ->
  let st1 := st <| reqs ::= fun l => delete i l |> in
  let st1 := if udp_raw_inflight st1 =? 0 then st1 else st1 <| udp_raw_inflight ::= fun n => n - 1 |> in
  uinv st1 /\ mem st1 = mem st /\ (forall a, r = Some a -> Some a ∉ reqs st1).
Proof.
  intros Hu Hi. pose proof Hu as []. destruct u_raw0 as [R1 R2].
  pose proof (delete_Permutation _ _ _ Hi) as HP. pose proof (Permutation_length HP) as HL. cbn in HL.
  cbv zeta. cbn [udp_raw_inflight upd]. destruct (udp_raw_inflight st =? 0) eqn:E; zb.
  { unfold blen in R1. lia. }
  split_and!; [|done|].
  - constructor; auto; cbn [reqs upd].
    + apply (sublist_NoDup _ (omap id (reqs st))); [done|].
      rewrite <- (take_drop_middle _ _ _ Hi) at 2. rewrite delete_take_drop, !omap_app.
      apply sublist_app; [done|]. cbn. destruct r; cbn; [by constructor|done].
    + intros a Ha. apply u_owner0. by eapply list_elem_of_delete_inv.
    + cbn. unfold blen in *. lia.
  - intros a -> Ha. cbn in Ha. assert (NoDup (a :: omap id (delete i (reqs st)))) as Hn.
    { assert (omap id (reqs st) ≡ₚ a :: omap id (delete i (reqs st))) as HP' by (by rewrite HP at 1).
      by rewrite <- HP'. }
    apply NoDup_cons in Hn as [Hn _]. apply Hn. apply list_elem_of_omap. by exists (Some a).
Qed.

Lemma session_wf_upd next a s s' : session_wf next a s ->
  sess_ok s' -> tun s' = tun s -> closing s' = closing s -> authenticated s' = authenticated s ->
  is_agent s' = is_agent s -> presented s' = presented s -> (timer_closed s' = true -> closing s' = true /\ inflight s' = true) ->
  session_wf next a s'.
Proof.
  intros [] ? E1 E2 E3 E4 E5 ?. constructor; auto; [congruence|]. unfold vouched in *. by rewrite E3, E4, E5.
Qed.

Lemma sess_ok_fields s s' : sess_ok s -> outq s' = outq s -> outq_off s' = outq_off s ->
  outq_cap s' = outq_cap s -> outq_packets s' = outq_packets s -> admitted s' = admitted s ->
  written s' = written s -> sess_ok s'.
Proof. intros [ps []] E1 E2 E3 E4 E5 E6. exists ps. constructor; rewrite ?E1, ?E2, ?E3, ?E4, ?E5, ?E6; done. Qed.

Lemma lookup_put a s st : mem (put a s st) !! a = Some s.
Proof. cbn. apply lookup_insert_eq. Qed.

Lemma delete_put a s st :
  put a s st <| mem ::= fun m => delete a m |> = st <| mem ::= fun m => delete a m |>.
Proof. unfold put. destruct st; cbn. f_equal. apply delete_insert_eq. Qed.

Lemma maybe_free_put a s st : session_maybe_free a (put a s st) =
  if negb (closing s) || inflight s || negb (timer_closed s) then put a s st
  else st <| mem ::= fun m => delete a m |>.
Proof. unfold session_maybe_free, with_s. rewrite lookup_put. by rewrite delete_put. Qed.

Lemma send_done_uinv i st : uinv st -> uinv (send_done i st).
Proof.
  intros Hu. unfold send_done. destruct (reqs st !! i) as [r|] eqn:Hi; [|done].
  destruct (drop_req_uinv i r st Hu Hi) as (Hu1 & Hm & Hno). cbv zeta in *.
  set (st1 := if udp_raw_inflight _ =? 0 then _ else _) in *. clearbody st1.
  destruct r as [a|]; [|done].
  destruct (u_owner _ Hu a (list_elem_of_lookup_2 _ _ _ Hi)) as (s & Hs & Hin).
  rewrite <- Hm in Hs. unfold with_s at 1. rewrite Hs. pose proof (u_sess _ Hu1 a s Hs) as Hw.
  destruct (timer_closed s) eqn:Et.
  { destruct (sw_timer _ _ _ Hw Et) as [Hc _]. rewrite Hc. rewrite maybe_free_put.
    change (timer_closed (s <| inflight := false |>)) with (timer_closed s).
    change (closing (s <| inflight := false |>)) with (closing s). rewrite Hc, Et.
    apply (free_uinv a s); auto. }
  assert (uinv (put a (s <| inflight := false |>) st1)) as Hu2.
  { apply (put_uinv a s); auto; [|intros Ha; by apply Hno in Ha].
    apply (session_wf_upd _ _ s); auto; [|cbn; congruence]. eapply sess_ok_fields; [apply Hw|done..]. }
  assert (mem (put a (s <| inflight := false |>) st1) !! a = Some (s <| inflight := false |>)) as Hl
    by (cbn; by rewrite lookup_insert_eq).
  destruct (closing s) eqn:Hc.
  - rewrite maybe_free_put. change (timer_closed (s <| inflight := false |>)) with (timer_closed s).
    by rewrite Et, orb_true_r.
  - eapply uinv_mild; [exact Hu2|]. apply pump_out_mild. by eapply uinv_live.
Qed.

Lemma timer_closed_uinv a s st : uinv st -> mem st !! a = Some s -> closing s = true ->
  uinv (session_timer_closed a st).
Proof.
  intros Hu Hs Hc. pose proof (u_sess _ Hu a s Hs) as Hw. unfold session_timer_closed, with_s at 1.
  rewrite Hs, maybe_free_put.
  change (inflight (s <| timer_closed := true |>)) with (inflight s).
  change (closing (s <| timer_closed := true |>)) with (closing s). rewrite Hc.
  destruct (inflight s) eqn:Ei.
  - apply (put_uinv a s); auto. apply (session_wf_upd _ _ s); auto. eapply sess_ok_fields; [apply Hw|done..].
  - apply (free_uinv a s); auto.
    intros Ha. destruct (u_owner _ Hu a Ha) as (x & Hx & Hix). congruence.
Qed.

Lemma fresh_addr st : uinv st -> mem st !! next_addr st = None.
Proof.
  intros Hu. destruct (mem st !! next_addr st) as [s|] eqn:E; [|done].
  pose proof (sw_addr _ _ _ (u_sess _ Hu _ _ E)). lia.
Qed.

Lemma session_wf_mono n n' a s : n <= n' -> session_wf n a s -> session_wf n' a s.
Proof. intros Hn []. constructor; auto. lia. Qed.

Lemma new_session_ok s : admitted s = [] -> written s = [] -> outq s = [] -> outq_off s = 0 ->
  outq_cap s = 0 -> outq_packets s = 0 -> sess_ok s.
Proof.
  intros E1 E2 E3 E4 E5 E6. exists []. pose proof max_bytes_range. pose proof (size_of_range (udp_queue_packets cfg)).
  constructor; rewrite ?E1, ?E2, ?E3, ?E4, ?E5, ?E6; try done; change (blen (queue_bytes [])) with 0; rewrite ?blen_nil; lia.
Qed.

Lemma session_create_uinv addr st : uinv st ->
  let '(r, st') := session_create addr st in
  uinv st' /\ forall a, r = Some a -> a ∈ udp_sessions st'.
Proof.
  intros Hu. cbv beta iota zeta delta [session_create tm_now_ms].
  assert (uinv (st <| ticks ::= S |> <| news ::= S |>)) as Hu1 by (eapply uinv_mild; [exact Hu|mild_field]).
  destruct (ssl_new _) as [e|]; [|split; [exact Hu1|done]].
  set (st1 := st <| ticks ::= S |> <| news ::= S |>) in *.
  set (s0 := Session _ _ _ _ _ _ _ _ _ _ _ _ _ _ _ _ _ _ _ _ _).
  pose proof (fresh_addr _ Hu1) as Hf. clearbody st1.
  assert (forall b x, role (mem st1) b x -> role (<[next_addr st1 := s0]> (mem st1)) b x) as Hrole.
  { intros b x (t & Ht & Hx). exists t. rewrite lookup_insert_ne by congruence. done. }
  split; [|intros a [= <-]; by left]. destruct Hu1. constructor; auto; cbn [mem udp_sessions next_addr upd put udp_flows].
  - constructor; [|done]. rewrite u_link0. by intros (x & Hx & _); congruence.
  - intros b. rewrite elem_of_cons, u_link0. destruct (decide (b = next_addr st1)) as [->|Hn].
    + rewrite lookup_insert_eq. split; [intros _; by exists s0|by left].
    + rewrite lookup_insert_ne by done. naive_solver.
  - intros b x. destruct (decide (b = next_addr st1)) as [->|Hn].
    + rewrite lookup_insert_eq. intros [= <-]. constructor; [lia|by apply new_session_ok|done|done|done].
    + rewrite lookup_insert_ne by done. intros Hx. apply (session_wf_mono (next_addr st1)); [lia|auto].
  - eapply Forall_impl; [exact u_flow0|]. intros f [Hp Hx]. split; [lia|].
    destruct (peer_session f); [|done]. destruct Hx. auto.
  - intros b Hb. destruct (u_owner0 b Hb) as (x & Hx & Hi). exists x. rewrite lookup_insert_ne by congruence. done.
Qed.

Lemma flow_new_uinv fp ps sfid addr st : uinv st ->
  match ps with Some a => fp = true /\ role (mem st) false a | None => fp = false /\ closed_tunnel cfg = false end ->
  blen (udp_flows st) < size_of (udp_max_flows_per_tunnel cfg) ->
  let st' := flow_new fp ps sfid addr st in
  uinv st' /\ mem st' = mem st /\ agent_session st' = agent_session st /\
  exists f, udp_flows st' = f :: udp_flows st /\ from_peer_session f = fp /\ peer_session f = ps /\
            src_flow_id f = sfid /\ src f = addr.
Proof.
  intros Hu Hps Hlt. cbv beta iota zeta delta [flow_new tm_now_ms].
  set (fid := if next_flow_id st =? 0 then 1 else next_flow_id st).
  set (f := Flow _ _ _ _ _ _ _ _ _). set (st' := count flows_total 1 _).
  assert (mem st' = mem st /\ agent_session st' = agent_session st /\ udp_sessions st' = udp_sessions st /\
          udp_flows st' = f :: udp_flows st /\ next_addr st' = 1 + next_addr st /\
          next_flow_id st' = u64 (fid + 1) /\ flow_wrapped st' = (u64 (fid + 1) =? 0) || flow_wrapped st)
    as (M & A & SS & FL & NA & NF & W) by (by split_and!).
  assert (reqs st' = reqs st /\ udp_raw_inflight st' = udp_raw_inflight st /\ fault st' = fault st)
    as (RQ & RW & FT) by (by split_and!).
  clearbody st'. split_and!; [|done|done|by exists f].
  assert (fptr f = next_addr st /\ flow_id f = fid /\ peer_session f = ps /\ from_peer_session f = fp)
    as (Ff & Fi & Fs & Fp) by done.
  clearbody f. destruct Hu. constructor; rewrite ?M, ?A, ?SS, ?FL, ?NA, ?NF, ?W, ?RQ, ?RW, ?FT; auto; cbn [map].
  - intros b s Hs. apply (session_wf_mono (next_addr st)); [lia|by apply u_sess0].
  - constructor; [split; [lia|by rewrite Fs, Fp]|]. eapply Forall_impl; [exact u_flow0|]. intros g [Hp Hg]. split; [lia|done].
  - constructor; [|done]. intros Hin. apply (list_elem_of_fmap_1 fptr) in Hin as (g & Hg & Hgin).
    eapply Forall_forall in u_flow0; [|exact Hgin]. destruct u_flow0 as [Hp _]. lia.
  - intros [Hz Hw]%orb_false_iff. destruct (u_fid0 Hw) as (F1 & F2 & F3). zb.
    assert (fid = next_flow_id st) as Ef by (subst fid; destruct (next_flow_id st =? 0) eqn:E; zb; lia).
    assert (u64 (fid + 1) = fid + 1) as Eu.
    { destruct (Z.eq_dec (fid + 1) (2 ^ 64)) as [Ew|]; [rewrite Ew in Hz; done|].
      apply wrap_small. red. lia. }
    pose proof (wrap_range 64 (fid + 1) ltac:(lia)) as [_ Hlt2]. rewrite Eu in *. split_and!; try lia.
    + constructor; [|done]. intros Hin. apply (list_elem_of_fmap_1 flow_id) in Hin as (g & Hg & Hgin).
      eapply Forall_forall in F3; [|exact Hgin]. cbn in F3. lia.
    + constructor; [lia|]. eapply Forall_impl; [exact F3|]. cbn. lia.
  - rewrite blen_cons. lia.
Qed.

(** ** The handlers keep the invariant *)

(** A step after which the invariant holds and an open session [a] is still there,
    open, with no more unread records. *)
Definition keep (a : Z) (st st' : udp) : Prop :=
  uinv st' /\
  forall s, mem st !! a = Some s -> closing s = false ->
    exists s', mem st' !! a = Some s' /\ closing s' = false /\ handshake_done s' = handshake_done s /\
               (unread (ssl s') <= unread (ssl s))%nat.

Lemma keep_mild a st st' : uinv st -> mild st st' -> keep a st st'.
Proof.
  intros Hu Hm. split; [by eapply uinv_mild|]. intros s Hs Hc.
  destruct (mild_session _ _ _ _ Hm Hs) as (s' & Hs' & [[] _ ? _]). exists s'. split_and!; congruence || done.
Qed.

Lemma keep_trans a st st1 st2 : keep a st st1 -> keep a st1 st2 -> keep a st st2.
Proof.
  intros [_ H1] [Hu H2]. split; [done|]. intros s Hs Hc.
  destruct (H1 s Hs Hc) as (s1 & Hs1 & Hc1 & Hh1 & Hn1). destruct (H2 s1 Hs1 Hc1) as (s2 & Hs2 & Hc2 & Hh2 & Hn2).
  exists s2. split_and!; auto; [congruence|lia].
Qed.

Lemma keep_mem a st st' : uinv st' -> mem st' = mem st -> keep a st st'.
Proof. intros Hu E. split; [done|]. intros s Hs Hc. exists s. rewrite E. split_and!; auto. Qed.

Lemma forward_to_agent_mild fid payload st : uinv st -> mild st (forward_to_agent fid payload st).
Proof.
  intros Hu. unfold forward_to_agent. destruct (agent_session st) as [a|] eqn:Ea; [|apply mild_count].
  destruct (u_agent _ Hu a Ea) as (s & Hs & Hc & Hau & _). unfold with_s. rewrite Hs, Hau. cbn [negb].
  destruct (_ <? blen payload); [apply mild_count|]. apply session_queue_mild. by eapply uinv_live.
Qed.

Lemma forward_to_peer_mild f payload st : uinv st -> f ∈ udp_flows st -> mild st (forward_to_peer f payload st).
Proof.
  intros Hu Hf. unfold forward_to_peer. destruct (_ <? blen payload); [apply mild_count|].
  pose proof (u_flow _ Hu) as Hall. eapply Forall_forall in Hall as [_ Hw]; [|exact Hf].
  destruct (peer_session f) as [a|]; destruct Hw as [-> Hr].
  - destruct Hr as (s & Hs & Hc & _). unfold with_s. rewrite Hs, Hc. apply session_queue_mild. by eapply uinv_live.
  - etrans; [|apply mild_count]. etrans; [|apply mild_count]. apply mild_send.
Qed.

Lemma map_core_upd q g fs : (forall f, core (g f) = core f) ->
  map core (map (fun f => if fptr f =? q then g f else f) fs) = map core fs.
Proof. intros Hg. rewrite map_map. apply map_ext. intros f. destruct (fptr f =? q); auto. Qed.

Lemma flow_rx_mild q payload st : mild st (flow_rx q payload st).
Proof.
  unfold flow_rx, tm_now_ms. etrans; [|apply mild_count]. etrans; [|apply mild_count].
  apply mild_frame; try reflexivity. unfold flow_upd. apply (map_core_upd q). done.
Qed.

(** A flow of the list, found again by pointer after its counters moved. *)
Lemma elem_core f fs fs' : map core fs' = map core fs -> f ∈ fs -> exists f', f' ∈ fs' /\ core f' = core f.
Proof.
  intros E Hf. apply (list_elem_of_fmap_2 core) in Hf. change (fmap core fs) with (map core fs) in Hf.
  rewrite <- E in Hf. apply (list_elem_of_fmap_1 core) in Hf as (f' & ? & ?). eauto.
Qed.

Lemma forward_to_peer_core f f' payload st : core f = core f' -> forward_to_peer f payload st = forward_to_peer f' payload st.
Proof. destruct f, f'. cbn. intros [= -> -> -> -> -> ->]. done. Qed.

Lemma agent_session_env_mild fid payload st : uinv st -> mild st (agent_session_env fid payload st).
Proof.
  intros Hu. unfold agent_session_env. destruct (fid =? 0); [reflexivity|].
  destruct (flow_find fid (udp_flows st)) as [f|] eqn:Ef; [|apply mild_count].
  apply find_some_in in Ef as [Hin _]. apply list_elem_of_In in Hin.
  pose proof (flow_rx_mild (fptr f) payload st) as Hm. etrans; [exact Hm|].
  destruct (elem_core f _ _ (m_flows _ _ Hm) Hin) as (f' & Hf' & Hc).
  rewrite (forward_to_peer_core f f') by done. apply forward_to_peer_mild; [|done]. by eapply uinv_mild.
Qed.

Lemma tunnel_pkt_limit_mild st : mild st (tunnel_pkt_limit st).2.
Proof. unfold tunnel_pkt_limit, tm_now_ms. destruct (rate_check _ _ _). mild_field. Qed.
Lemma flow_creation_limit_mild st : mild st (flow_creation_limit st).2.
Proof. unfold flow_creation_limit, tm_now_ms. destruct (rate_check _ _ _). mild_field. Qed.

(** Getting or making a flow and delivering a datagram on it. *)
Lemma flow_deliver_keep a found fp ps sfid addr payload st : uinv st ->
  match ps with Some b => fp = true /\ role (mem st) false b | None => fp = false /\ closed_tunnel cfg = false end ->
  keep a st (flow_deliver (flow_get found (flow_new fp ps sfid addr) st) payload).
Proof.
  intros Hu Hps. unfold flow_get.
  assert (forall f st1, uinv st1 -> keep a st1 (flow_deliver (Some f, st1) payload)) as Hdel.
  { intros f st1 Hu1. cbn [flow_deliver]. pose proof (flow_rx_mild (fptr f) payload st1) as Hm.
    apply keep_mild; [done|]. etrans; [exact Hm|]. apply forward_to_agent_mild. by eapply uinv_mild. }
  destruct found as [f|]; [by apply Hdel|].
  pose proof (flow_creation_limit_mild st) as Hm. destruct (flow_creation_limit st) as [ok st1]. cbn [snd] in Hm.
  pose proof (uinv_mild _ _ Hu Hm) as Hu1.
  destruct (negb ok || (size_of (udp_max_flows_per_tunnel cfg) <=? flow_count st1)) eqn:El.
  { cbn [flow_deliver]. apply keep_mild; [done|]. etrans; [exact Hm|apply mild_count]. }
  apply orb_false_iff in El as [_ El]. zb.
  destruct (flow_new_uinv fp ps sfid addr st1) as (Hu2 & Hmem & _ & f & Hf & _); [done| |done|].
  { destruct ps; [|done]. destruct Hps. split; [done|]. by eapply mild_role. }
  apply (keep_trans a st st1); [by apply keep_mild|].
  apply (keep_trans a st1 (flow_new fp ps sfid addr st1)); [by apply keep_mem|].
  rewrite Hf. cbn [head]. by apply Hdel.
Qed.

Lemma open_client_keep a addr payload st : uinv st -> closed_tunnel cfg = false ->
  keep a st (open_client_datagram addr payload st).
Proof.
  intros Hu Hcl. unfold open_client_datagram. pose proof (tunnel_pkt_limit_mild st) as Hm.
  destruct (tunnel_pkt_limit st) as [ok st1]. cbn [snd] in Hm. pose proof (uinv_mild _ _ Hu Hm) as Hu1.
  apply (keep_trans a st st1); [by apply keep_mild|].
  destruct ok; cbn [negb]; [|apply keep_mild; [done|apply mild_count]]. by apply flow_deliver_keep.
Qed.

Lemma peer_session_env_keep b a fid payload s st : uinv st ->
  mem st !! a = Some s -> closing s = false -> authenticated s = true -> is_agent s = false ->
  keep b st (peer_session_env a fid payload st).
Proof.
  intros Hu Hs Hc Hau Hag. unfold peer_session_env, with_s. rewrite Hs. unfold tm_now_ms.
  destruct (rate_check (udp_max_packets_per_source cfg) _ _) as [ok w].
  set (st1 := put a (s <| pkt_win := w |>) (st <| ticks ::= S |>)).
  assert (mild st st1) as Hm1.
  { etrans; [|apply (mild_put a s)]; [mild_field|exact Hs|].
    constructor; [by constructor| |done|done]. intros Hq. eapply sess_ok_fields; [exact Hq|done..]. }
  assert (role (mem st) false a) as Hr by (by exists s).
  clearbody st1. pose proof (uinv_mild _ _ Hu Hm1) as Hu1. apply (keep_trans b st st1); [by apply keep_mild|].
  destruct ok; cbn [negb]; [|apply keep_mild; [done|apply mild_count]].
  pose proof (tunnel_pkt_limit_mild st1) as Hm2. destruct (tunnel_pkt_limit st1) as [ok st2]. cbn [snd] in Hm2.
  pose proof (uinv_mild _ _ Hu1 Hm2) as Hu2. apply (keep_trans b st1 st2); [by apply keep_mild|].
  destruct ok; cbn [negb]; [|apply keep_mild; [done|apply mild_count]].
  destruct (fid =? 0); [by apply keep_mem|].
  apply flow_deliver_keep; [done|]. split; [done|]. eapply mild_role; [exact Hm2|]. by eapply mild_role.
Qed.

(** An authentication takes the whole record, so nothing is left for the recursion. *)
Lemma auth_secret_len data secret : auth_secret data = Some secret ->
  TM_ENV_HDR_LEN + blen secret = blen data /\ secret <> [].
Proof.
  unfold auth_secret, tm_env_decode, TM_ENV_HDR_LEN. intros Hs.
  destruct (blen data <? 11) eqn:E1; [done|]. cbn [orb] in Hs. destruct (negb (byte_at data 0 =? 0)); [done|].
  destruct (negb (rd_u16 data =? 11)); [done|]. destruct (negb (Z.land _ _ =? 0)); [done|].
  destruct (_ || _ || _) eqn:E2 in Hs; [done|]. injection Hs as <-. zb.
  rewrite (blen_drop 11) in * by lia. split; [lia|]. intros E. apply (f_equal blen) in E.
  rewrite (blen_drop 11), blen_nil in E by lia. lia.
Qed.

Lemma set_agent_uinv a st : uinv st -> role (mem st) true a -> uinv (st <| agent_session := Some a |>).
Proof. intros [] Hr. constructor; auto. cbn. by intros b [= <-]. Qed.

Lemma promote_agent_keep a st : uinv st -> role (mem st) true a ->
  keep a st (promote_agent a st) /\ role (mem (promote_agent a st)) true a.
Proof.
  intros Hu Hr. unfold promote_agent. destruct (agent_session st) as [old|] eqn:Eo.
  2: { split; [|done]. apply keep_mem; [by apply set_agent_uinv|done]. }
  destruct (old =? a) eqn:E; zb.
  { split; [|done]. apply keep_mem; [by apply set_agent_uinv|done]. }
  destruct (u_agent _ Hu old Eo) as (x & Hx & _).
  destruct (session_close_spec old x st Hu Hx) as (Hu1 & Hoth & _). cbv zeta in *.
  set (st1 := tm_udp_session_close old st) in *. clearbody st1.
  assert (mem st1 !! a = mem st !! a) as Ea by (by apply Hoth).
  assert (role (mem st1) true a) as Hr1 by (unfold role in *; by rewrite Ea).
  split; [|done]. split; [by apply set_agent_uinv|]. intros s Hs Hc. exists s. cbn. rewrite Ea. split_and!; auto.
Qed.

Lemma put_keep a b s s' st : uinv (put a s' st) -> mem st !! a = Some s -> closing s' = closing s ->
  handshake_done s' = handshake_done s -> (unread (ssl s') <= unread (ssl s))%nat -> keep b st (put a s' st).
Proof.
  intros Hu Hs Hc Hh Hn. split; [done|]. intros x Hx Hcx. destruct (decide (a = b)) as [<-|Hne].
  - exists s'. rewrite lookup_put. replace x with s in * by congruence. split_and!; congruence || done.
  - exists x. cbn. rewrite lookup_insert_ne by done. split_and!; auto.
Qed.

Lemma session_auth_keep again a data s st : uinv st ->
  mem st !! a = Some s -> closing s = false -> authenticated s = false -> presented s = auth_secret data ->
  keep a st (session_auth again a data st).
Proof.
  intros Hu Hs Hc Hau Hpr. unfold session_auth.
  destruct (auth_secret data) as [secret|] eqn:Es; [|apply keep_mild; [done|apply mild_count]].
  destruct (auth_secret_len _ _ Es) as [Hlen _]. rewrite (proj2 (Z.ltb_ge _ _)) by lia.
  destruct (negb (auth_agent secret) && negb (auth_peer secret)) eqn:Er.
  { pose proof (mild_count failed_auths _ 1 st) as Hm. apply keep_mild; [done|]. etrans; [exact Hm|].
    apply session_queue_mild. apply (uinv_live _ a s); [by eapply uinv_mild|done]. }
  set (s1 := s <| authenticated := true |> <| is_agent := auth_agent secret |>).
  assert (with_s a st (fun s => put a (s <| authenticated := true |> <| is_agent := auth_agent secret |>) st)
          = put a s1 st) as -> by (unfold with_s; by rewrite Hs).
  assert (uinv (put a s1 st)) as Hu1.
  { pose proof (u_sess _ Hu a s Hs) as Hw. apply (put_uinv a s); auto; [|congruence|].
    - destruct Hw. constructor; auto.
      + eapply sess_ok_fields; [exact sw_queue0|done..].
      + intros _. exists secret. split; [cbn; congruence|]. cbn. destruct (auth_agent secret) eqn:Ea; [done|].
        cbn in Er. by destruct (auth_peer secret).
    - intros Hr. destruct (u_owner _ Hu a Hr) as (x & Hx & Hi). cbn. congruence. }
  assert (keep a st (put a s1 st)) as Hk1 by (by apply (put_keep a a s)).
  pose proof (lookup_put a s1 st) as Hs1. assert (closing s1 = false) as Hc1 by done.
  assert (is_agent s1 = auth_agent secret /\ authenticated s1 = true) as [Hag Hau1] by done.
  set (st1 := put a s1 st) in *. clearbody st1 s1. apply (keep_trans a st st1); [done|].
  set (st2 := if auth_agent secret then promote_agent a st1 else st1).
  assert (keep a st1 st2) as Hk2.
  { subst st2. destruct (auth_agent secret); [|by apply keep_mem].
    apply promote_agent_keep; [done|]. by exists s1. }
  clearbody st2. apply (keep_trans a st1 st2); [done|]. destruct Hk2 as [Hu2 Hk2].
  destruct (Hk2 s1 Hs1 Hc1) as (s2 & Hs2 & _). apply keep_mild; [done|]. apply session_queue_mild. by eapply uinv_live.
Qed.

Lemma session_appdata_keep a data s st : uinv st -> mem st !! a = Some s -> closing s = false ->
  keep a st (session_appdata a data st).
Proof.
  intros Hu Hs Hc. unfold session_appdata. cbn [session_appdata_n]. unfold with_s at 1. rewrite Hs.
  rewrite (sw_tun _ _ _ (u_sess _ Hu a s Hs)), Hc. cbn [negb].
  destruct (authenticated s) eqn:Ea; cbn [negb].
  2: { set (s1 := s <| presented := auth_secret data |>).
       assert (uinv (put a s1 st)) as Hu1.
       { pose proof (u_sess _ Hu a s Hs) as Hw. apply (put_uinv a s); auto.
         - destruct Hw. constructor; auto; [eapply sess_ok_fields; [exact sw_queue0|done..]|].
           intros Ha. cbn in Ha. congruence.
         - intros Hr. destruct (u_owner _ Hu a Hr) as (x & Hx & Hi). cbn. congruence. }
       apply (keep_trans a st (put a s1 st)); [by apply (put_keep a a s)|].
       apply (session_auth_keep _ a data s1); auto. apply lookup_put. }
  unfold session_env. destruct (_ || _); [apply keep_mild; [done|apply mild_count]|].
  destruct (tm_env_decode data) as [[[fid fl] payload]|]; [|apply keep_mild; [done|apply mild_count]].
  destruct (is_agent s) eqn:Eg.
  - apply keep_mild; [done|]. by apply agent_session_env_mild.
  - by apply (peer_session_env_keep a a fid payload s).
Qed.

(** The read loop ends: each round takes one of the records the engine holds. *)
Lemma drain_n_keep a : forall fuel s st, uinv st -> mem st !! a = Some s -> closing s = false ->
  (unread (ssl s) < fuel)%nat -> exists st', drain_n fuel a st = Some st' /\ keep a st st'.
Proof.
  induction fuel as [|fuel IH]; intros s st Hu Hs Hc Hf; [lia|]. cbn [drain_n]. rewrite Hs.
  destruct (SSL_read (ssl s)) as [r e] eqn:Er.
  set (s1 := s <| ssl := e |>).
  assert ((unread e <= unread (ssl s))%nat) as Hle
    by (destruct r; [apply unread_read in Er; lia|by apply unread_read_none in Er]).
  assert (uinv (put a s1 st)) as Hu1.
  { eapply uinv_mild; [exact Hu|]. apply (mild_put a s); [done|].
    constructor; [by constructor| |done|done]. intros Hq. eapply sess_ok_fields; [exact Hq|done..]. }
  assert (keep a st (put a s1 st)) as Hk1 by (by apply (put_keep a a s)).
  destruct r as [d|]; [|by eexists].
  pose proof (session_appdata_keep a d s1 (put a s1 st) Hu1 (lookup_put _ _ _) Hc) as Hk2.
  pose proof Hk2 as [Hu2 H2]. destruct (H2 s1 (lookup_put _ _ _) Hc) as (s2 & Hs2 & Hc2 & _ & Hn2).
  apply unread_read in Er. destruct (IH s2 _ Hu2 Hs2 Hc2) as (st' & Hd & Hk3); [cbn in Hn2; lia|].
  exists st'. split; [done|]. eapply keep_trans; [exact Hk1|]. by eapply keep_trans.
Qed.

Lemma drain_ssl_keep a s st : uinv st -> mem st !! a = Some s -> closing s = false -> keep a st (drain_ssl a st).
Proof.
  intros Hu Hs Hc. unfold drain_ssl, with_s. rewrite Hs. destruct (handshake_done s); [|by apply keep_mem].
  destruct (drain_n_keep a (S (unread (ssl s))) s st Hu Hs Hc) as (st' & -> & Hk); [lia|done].
Qed.

Lemma drain_pump_keep a s st : uinv st -> mem st !! a = Some s -> closing s = false ->
  keep a st (pump_out a (drain_ssl a st)).
Proof.
  intros Hu Hs Hc. pose proof (drain_ssl_keep a s st Hu Hs Hc) as Hk. eapply keep_trans; [exact Hk|].
  destruct Hk as [Hu1 H1]. destruct (H1 s Hs Hc) as (s1 & Hs1 & _).
  apply keep_mild; [done|]. apply pump_out_mild. by eapply uinv_live.
Qed.

(** Fields of a session that no part of the invariant mentions. *)
Lemma put_fields_uinv a s s' st : uinv st -> mem st !! a = Some s -> same s s' \/
    (tun s' = tun s /\ closing s' = closing s /\ authenticated s' = authenticated s /\ is_agent s' = is_agent s /\
     timer_closed s' = timer_closed s /\ presented s' = presented s) ->
  inflight s' = inflight s -> sess_ok s' -> uinv (put a s' st).
Proof.
  intros Hu Hs Hor Hi Hq.
  assert (tun s' = tun s /\ closing s' = closing s /\ authenticated s' = authenticated s /\ is_agent s' = is_agent s /\
     timer_closed s' = timer_closed s /\ presented s' = presented s) as (E1 & E2 & E3 & E4 & E5 & E6) by (destruct Hor as [[]|]; auto 10).
  pose proof (u_sess _ Hu a s Hs) as Hw. apply (put_uinv a s); auto.
  - apply (session_wf_upd _ _ s); auto. rewrite E5, E2, Hi. apply Hw.
  - intros Ha. by rewrite E3.
  - intros Hr. destruct (u_owner _ Hu a Hr) as (x & Hx & Hix). congruence.
Qed.

Lemma pump_in_uinv a s st : uinv st -> mem st !! a = Some s -> uinv (pump_in a st).
Proof.
  intros Hu Hs. unfold pump_in, with_s. rewrite Hs. destruct (closing s) eqn:Hc; [done|].
  destruct (handshake_done s); [by eapply drain_pump_keep|].
  destruct (SSL_accept (ssl s)) as [r e]. pose proof (u_sess _ Hu a s Hs) as Hw.
  set (s1 := s <| ssl := e |>).
  assert (uinv (put a s1 st)) as Hu1.
  { apply (put_fields_uinv a s); auto; [by right|]. eapply sess_ok_fields; [apply Hw|done..]. }
  destruct r as [n| |].
  - set (s2 := s1 <| handshake_done := true |>).
    assert (uinv (put a s2 st)) as Hu2.
    { apply (put_fields_uinv a s); auto; [by right|]. eapply sess_ok_fields; [apply Hw|done..]. }
    apply (drain_pump_keep a s2); [done|apply lookup_put|done].
  - eapply uinv_mild; [exact Hu1|]. apply pump_out_mild. eapply uinv_live; [done|apply lookup_put].
  - change (tun s1) with (tun s). rewrite (sw_tun _ _ _ Hw), Hc. done.
Qed.

Lemma session_rx_uinv a s data st : uinv st -> mem st !! a = Some s -> uinv (session_rx a data st).
Proof.
  intros Hu Hs. cbv beta iota zeta delta [session_rx tm_now_ms].
  assert (uinv (st <| ticks ::= S |>)) as Hu1 by (eapply uinv_mild; [exact Hu|mild_field]).
  unfold with_s. change (mem (st <| ticks ::= S |>) !! a) with (mem st !! a). rewrite Hs.
  eapply pump_in_uinv; [|apply lookup_put]. pose proof (u_sess _ Hu a s Hs) as Hw.
  apply (put_fields_uinv a s); auto; [by right|]. eapply sess_ok_fields; [apply Hw|done..].
Qed.

Lemma on_udp_packet_uinv r st : uinv st -> uinv (on_udp_packet r st).
Proof.
  intros Hu. destruct r as [| |addr data]; cbn [on_udp_packet]; [done..|].
  destruct (shutting_down st || negb (enabled st)); [done|].
  destruct (closed_tunnel cfg) eqn:Ecl; cbn [negb andb].
  2: destruct (looks_like_dtls data); cbn [negb].
  2,3: try destruct (_ <? blen data); try (eapply uinv_mild; [exact Hu|apply mild_count]).
  3: by apply (open_client_keep 0).
  all: unfold dtls_packet; destruct (find_session addr st) as [a|] eqn:Ef;
    [apply find_some_in in Ef as [Hin _]; apply list_elem_of_In, (u_link _ Hu) in Hin as (s & Hs & _);
     by eapply session_rx_uinv|];
    pose proof (flow_creation_limit_mild st) as Hm; destruct (flow_creation_limit st) as [ok st1]; cbn [snd] in Hm;
    pose proof (uinv_mild _ _ Hu Hm) as Hu1;
    (destruct ok; cbn [negb]; [|eapply uinv_mild; [exact Hu1|apply mild_count]]);
    pose proof (session_create_uinv addr st1 Hu1) as Hcr; destruct (session_create addr st1) as [[a|] st2];
    [|by apply Hcr]; destruct Hcr as [Hu2 Hin]; specialize (Hin a eq_refl);
    apply (u_link _ Hu2) in Hin as (s & Hs & _); by eapply session_rx_uinv.
Qed.

Lemma session_timer_cb_uinv a s st : uinv st -> mem st !! a = Some s -> uinv (session_timer_cb a st).
Proof.
  intros Hu Hs. unfold session_timer_cb, with_s at 1. rewrite Hs. destruct (closing s) eqn:Hc; [done|].
  cbv beta iota zeta delta [tm_now_ms].
  assert (uinv (st <| ticks ::= S |>)) as Hu1 by (eapply uinv_mild; [exact Hu|mild_field]).
  assert (mem (st <| ticks ::= S |>) !! a = Some s) as Hs1 by done.
  set (st1 := st <| ticks ::= S |>) in *. clearbody st1. pose proof (u_sess _ Hu1 a s Hs1) as Hw.
  destruct (_ <? _); [by apply (session_close_spec a s)|].
  destruct (handshake_done s); cbn [negb].
  { apply (put_fields_uinv a s); auto; [by right|]. eapply sess_ok_fields; [apply Hw|done..]. }
  set (s2 := s <| ssl ::= DTLSv1_handle_timeout |>).
  assert (uinv (put a s2 st1)) as Hu2.
  { apply (put_fields_uinv a s); auto; [by right|]. eapply sess_ok_fields; [apply Hw|done..]. }
  assert (mild (put a s2 st1) (pump_out a (put a s2 st1))) as Hm.
  { apply pump_out_mild. eapply uinv_live; [done|apply lookup_put]. }
  destruct (mild_session _ _ _ _ Hm (lookup_put _ _ _)) as (s3 & Hs3 & _).
  pose proof (uinv_mild _ _ Hu2 Hm) as Hu3. unfold with_s. rewrite Hs3.
  pose proof (u_sess _ Hu3 a s3 Hs3) as Hw3.
  apply (put_fields_uinv a s3); auto; [by right|]. eapply sess_ok_fields; [apply Hw3|done..].
Qed.

(** [tm_udp_stop] leaves no session linked and no flow. *)
Lemma close_sessions_spec fuel : forall st, uinv st -> (length (udp_sessions st) <= fuel)%nat ->
  uinv (close_sessions fuel st) /\ udp_sessions (close_sessions fuel st) = [].
Proof.
  induction fuel as [|fuel IH]; intros st Hu Hf; cbn [close_sessions].
  { split; [done|]. destruct (udp_sessions st); [done|cbn in Hf; lia]. }
  destruct (udp_sessions st) as [|a l] eqn:El; [done|].
  assert (a ∈ udp_sessions st) as Hin by (rewrite El; by left).
  apply (u_link _ Hu) in Hin as (s & Hs & Hc).
  destruct (session_close_spec a s st Hu Hs) as (Hu1 & _ & _ & Hl & _). cbv zeta in *.
  rewrite Hc, El in Hl. cbn [session_unlink] in Hl. rewrite Z.eqb_refl in Hl.
  apply IH; [done|]. rewrite Hl. cbn in Hf. lia.
Qed.

Lemma expire_flows_spec fuel : forall st, uinv st -> (length (udp_flows st) <= fuel)%nat ->
  let st' := expire_flows fuel st in
  uinv st' /\ udp_flows st' = [] /\ udp_sessions st' = udp_sessions st.
Proof.
  induction fuel as [|fuel IH]; intros st Hu Hf; cbn [expire_flows].
  { split_and!; [done| |done]. destruct (udp_flows st); [done|cbn in Hf; lia]. }
  destruct (udp_flows st) as [|f l] eqn:El; [done|].
  destruct (IH (tm_udp_flow_expire f st)) as (H1 & H2 & H3).
  - by apply flow_expire_uinv.
  - unfold tm_udp_flow_expire. cbn. rewrite El. cbn. rewrite Z.eqb_refl. cbn in Hf. lia.
  - split_and!; auto.
Qed.

Lemma stop_spec st : uinv st ->
  let st' := tm_udp_stop st in
  uinv st' /\ udp_sessions st' = [] /\ udp_flows st' = [] /\ agent_session st' = None.
Proof.
  intros Hu. cbv beta iota zeta delta [tm_udp_stop].
  assert (uinv (st <| usock ::= Listener.udp_sock_stop |>)) as Hu1 by (eapply uinv_mild; [exact Hu|mild_field]).
  set (st1 := st <| usock ::= _ |>) in *. clearbody st1.
  destruct (close_sessions_spec _ st1 Hu1 (le_n _)) as [Hu2 Hs2].
  set (st2 := close_sessions _ _) in *. clearbody st2.
  destruct (expire_flows_spec _ st2 Hu2 (le_n _)) as (Hu3 & Hf3 & Hs3). cbv zeta in *.
  set (st3 := expire_flows _ _) in *. clearbody st3. split_and!; [|cbn; congruence|done|done].
  destruct Hu3. constructor; auto. done.
Qed.

Lemma handle_uinv e st : uinv st -> uinv (handle e st).
Proof.
  intros Hu. destruct e as [r|i|a|a|i|r| |en sh]; cbn [handle].
  - by apply on_udp_packet_uinv.
  - by apply send_done_uinv.
  - case_bool_decide as Hin; [|done]. apply (u_link _ Hu) in Hin as (s & Hs & _). by eapply session_timer_cb_uinv.
  - destruct (mem st !! a) as [s|] eqn:Hs; [|done]. destruct (closing s) eqn:Hc; [|done].
    destruct (timer_closed s); [done|]. by apply (timer_closed_uinv a s).
  - destruct (udp_flows st !! i); [|done]. by apply flow_expire_uinv.
  - eapply uinv_mild; [exact Hu|]. mild_field.
  - by apply stop_spec.
  - eapply uinv_mild; [exact Hu|]. mild_field.
Qed.

Lemma udp_new_uinv k : uinv (udp_new k).
Proof.
  pose proof (size_of_range (udp_max_flows_per_tunnel cfg)). pose proof (size_of_range (udp_queue_packets cfg)).
  constructor; try constructor; try done; cbn.
  - by intros ?%elem_of_nil.
  - intros (s & Hs & _). by rewrite lookup_empty in Hs.
  - split; constructor.
  - rewrite blen_nil. lia.
  - intros a Hx. by apply elem_of_nil in Hx.
  - lia.
Qed.

Lemma handle_all_uinv es k : uinv (handle_all es (udp_new k)).
Proof.
  unfold handle_all. generalize (udp_new_uinv k). generalize (udp_new k).
  induction es as [|e es IH]; intros st Hu; cbn [fold_left]; [done|]. by apply IH, handle_uinv.
Qed.

(** ** Who receives what *)

(** [only a env st st']: no session but [a] changed, and an open session [a] was given
    the envelope [env] exactly when its queue takes it. *)
Record only (a : Z) (env : bytes) (st st' : udp) : Prop := {
  on_others b : b <> a -> mem st' !! b = mem st !! b;
  on_self s : mem st !! a = Some s -> closing s = false -> exists s', mem st' !! a = Some s' /\
              admitted s' = admitted s ++ (if queue_takes s env then [env] else []);
  on_flows : udp_flows st' = udp_flows st;
}.

Lemma write_head_admitted s : admitted (write_head s).2 = admitted s.
Proof.
  unfold write_head. destruct (outq_off s <? _); [|done]. destruct (_ <? 4); [done|].
  destruct (_ <? rd_u32 _); [done|]. destruct (SSL_write _ _) as [[n| |] e]; try done. by destruct (u32 n =? _).
Qed.

Lemma send_raw_frame o dst buf st : mem (udp_send_raw o dst buf st) = mem st /\
  udp_flows (udp_send_raw o dst buf st) = udp_flows st.
Proof. unfold udp_send_raw. destruct (_ <=? _); [done|]. by destruct (send_ok _). Qed.

Lemma pump_out_frame a st : udp_flows (pump_out a st) = udp_flows st /\
  (forall b, b <> a -> mem (pump_out a st) !! b = mem st !! b) /\
  forall s, mem st !! a = Some s -> exists s', mem (pump_out a st) !! a = Some s' /\ admitted s' = admitted s.
Proof.
  unfold pump_out, with_s. destruct (mem st !! a) as [s|] eqn:Hs; [|by split_and!].
  destruct (closing s || inflight s); [split_and!; [done|done|]; intros x [= <-]; by exists s|].
  pose proof (write_head_admitted s) as Ha. destruct (write_head s) as [go s1]. cbn [snd] in Ha.
  assert (forall x, admitted x = admitted s -> udp_flows (put a x st) = udp_flows st /\
    (forall b, b <> a -> mem (put a x st) !! b = mem st !! b) /\
    forall y, Some s = Some y -> exists s', mem (put a x st) !! a = Some s' /\ admitted s' = admitted y) as Hput.
  { intros x Hx. split_and!; [done|intros b Hb; cbn; by rewrite lookup_insert_ne|].
    intros y [= <-]. exists x. by rewrite lookup_put. }
  destruct go; cbn [negb]; [|by apply Hput].
  assert (admitted (reset_if_empty s1) = admitted s) as Hr by (unfold reset_if_empty; by destruct (_ =? _)).
  destruct (BIO_read _) as [[c|] e]; [|by apply Hput].
  set (s3 := reset_if_empty s1 <| ssl := e |>) in *.
  set (st1 := put a s3 st). destruct (send_raw_frame (Some a) (peer s3) c st1) as [Em Ef].
  set (st2 := udp_send_raw _ _ _ _) in *.
  set (st3 := if tun s3 then st2 else _).
  assert (mem st3 = mem st1 /\ udp_flows st3 = udp_flows st) as [Em3 Ef3] by (subst st3; by destruct (tun s3)).
  clearbody st3. split_and!; [done|..].
  - intros b Hb. cbn. rewrite lookup_insert_ne, Em3 by done. cbn. by rewrite lookup_insert_ne.
  - intros y [= <-]. eexists. cbn. rewrite lookup_insert_eq. split; [reflexivity|done].
Qed.

Lemma session_queue_only a env st : only a env st (session_queue a env st).
Proof.
  unfold session_queue, with_s. destruct (mem st !! a) as [s|] eqn:Hs.
  2: { constructor; [done| |done]. intros x Hx. congruence. }
  destruct (closing s) eqn:Hc; [constructor; [done|intros x Hx; congruence|done]|].
  destruct (_ || _ || _) eqn:Et.
  { constructor; [done| |done]. intros x Hx _. exists x. split; [done|].
    replace x with s by congruence. unfold queue_takes. by rewrite Et, app_nil_r. }
  match goal with |- only _ _ _ (pump_out a (put a ?x st)) => set (s1 := x) end.
  assert (admitted s1 = admitted s ++ [env]) as Ha.
  { subst s1. destruct (make_room_fields s (4 + blen env)) as (_ & _ & _ & E & _). cbn. by rewrite E. }
  destruct (pump_out_frame a (put a s1 st)) as (F1 & F2 & F3). constructor.
  - intros b Hb. rewrite F2 by done. cbn. by rewrite lookup_insert_ne.
  - intros x Hx _. destruct (F3 s1 (lookup_put _ _ _)) as (s' & Hs' & E). exists s'. split; [done|].
    replace x with s by congruence. unfold queue_takes. by rewrite E, Ha, Et.
  - done.
Qed.

Lemma flow_find_unique st f : uinv st -> flow_wrapped st = false -> f ∈ udp_flows st ->
  flow_find (flow_id f) (udp_flows st) = Some f /\ flow_id f <> 0.
Proof.
  intros Hu Hw Hf. destruct (u_fid _ Hu Hw) as (_ & Hn & HF).
  split; [|eapply Forall_forall in HF; [|exact Hf]; cbn in HF; lia].
  clear -Hn Hf. induction (udp_flows st) as [|g fs IH]; [by apply elem_of_nil in Hf|].
  cbn [map] in Hn. apply NoDup_cons in Hn as [Hg Hn]. unfold flow_find in *. cbn [List.find].
  apply elem_of_cons in Hf as [->|Hf]; [by rewrite Z.eqb_refl|].
  destruct (flow_id g =? flow_id f) eqn:E; zb; [|by apply IH].
  exfalso. apply Hg. rewrite E. by apply (list_elem_of_fmap_2 flow_id).
Qed.

Lemma flow_rx_frame q payload st : mem (flow_rx q payload st) = mem st /\ sent (flow_rx q payload st) = sent st /\
  agent_session (flow_rx q payload st) = agent_session st /\ udp_raw_inflight (flow_rx q payload st) = udp_raw_inflight st /\
  sends (flow_rx q payload st) = sends st.
Proof. done. Qed.

(** ** Theorems *)

(** C20: the UDP plane never touches a released session.  For any sequence of datagrams,
    send completions, timers, stops and restarts, whatever the DTLS engine, the clock
    and the socket do, no handler dereferences a freed session or the tunnel of a closed
    one; every outstanding send belongs to a session that is still allocated and marked
    in flight; and the session list, the agent pointer and the flows' session pointers
    name exactly open sessions. *)
Theorem udp_memory_safe es k :
  let st := handle_all es (udp_new k) in
  fault st = false /\
  (forall a, Some a ∈ reqs st -> exists s, mem st !! a = Some s /\ inflight s = true) /\
  (forall a, a ∈ udp_sessions st <-> exists s, mem st !! a = Some s /\ closing s = false) /\
  (forall a, agent_session st = Some a -> a ∈ udp_sessions st) /\
  (forall f a, f ∈ udp_flows st -> peer_session f = Some a -> a ∈ udp_sessions st).
Proof.
  cbv zeta. pose proof (handle_all_uinv es k) as Hu. set (st := handle_all es (udp_new k)) in *. clearbody st.
  assert (forall b a, role (mem st) b a -> a ∈ udp_sessions st) as Hr.
  { intros b a (s & Hs & Hc & _). apply (u_link _ Hu). by exists s. }
  split_and!; [apply Hu|apply Hu|apply Hu|..].
  - intros a Ha. exact (Hr _ _ (u_agent _ Hu a Ha)).
  - intros f a Hf Hp. pose proof (u_flow _ Hu) as HF. eapply Forall_forall in HF as [_ HF]; [|exact Hf].
    rewrite Hp in HF. exact (Hr _ _ (proj2 HF)).
Qed.

(** C9: only authenticated parties reach each other. In every state reached while the
    digests of the tunnel stay as they are, the secret the session that receives client
    traffic presented has the tunnel's agent digest; the secret a session in the peer
    role presented matches the shared token, and that only on a closed tunnel; and on a
    closed tunnel every flow belongs to an open session in the peer role, so an
    unauthenticated sender has none. *)
Theorem udp_authenticated es k :
  let st := handle_all es (udp_new k) in
  (forall a, agent_session st = Some a -> exists s secret, mem st !! a = Some s /\ is_agent s = true /\
     presented s = Some secret /\
     tm_ct_eq_hex (secret_digest (hmac_key cfg) secret) (agent_secret_hmac cfg) = true) /\
  (forall a s, mem st !! a = Some s -> authenticated s = true -> is_agent s = false ->
     closed_tunnel cfg = true /\ exists secret, presented s = Some secret /\
     tm_ct_eq_hex (secret_digest (hmac_key cfg) secret) (shared_token_hmac cfg) = true) /\
  (closed_tunnel cfg = true -> forall f, f ∈ udp_flows st -> exists a s, peer_session f = Some a /\
     mem st !! a = Some s /\ closing s = false /\ authenticated s = true /\ is_agent s = false).
Proof.
  cbv zeta. pose proof (handle_all_uinv es k) as Hu. set (st := handle_all es (udp_new k)) in *. clearbody st.
  split_and!.
  - intros a Ha. destruct (u_agent _ Hu a Ha) as (s & Hs & _ & Hau & Hag).
    destruct (sw_auth _ _ _ (u_sess _ Hu a s Hs) Hau) as (secret & Hp & Hv). rewrite Hag in Hv. by exists s, secret.
  - intros a s Hs Hau Hag. destruct (sw_auth _ _ _ (u_sess _ Hu a s Hs) Hau) as (secret & Hp & Hv). rewrite Hag in Hv.
    unfold auth_peer in Hv. zb. split; [tauto|]. exists secret. tauto.
  - intros Hcl f Hf. pose proof (u_flow _ Hu) as HF. eapply Forall_forall in HF as [_ HF]; [|exact Hf].
    destruct (peer_session f) as [a|]; [|destruct HF; congruence].
    destruct HF as [_ (s & Hs & Hc & Hau & Hag)]. by exists a, s.
Qed.

(** A session's byte queue implements a bounded FIFO of envelopes.  In every
    reachable state of every session, live or closing, the buffer from its read offset
    on is exactly the length-prefixed encoding of the envelopes admitted and not yet
    given to the engine, in order; what the engine was given are the first admitted
    envelopes, each whole; and the counters, the offset and the capacity agree with it,
    through every compaction and reallocation. *)
Theorem udp_queue_fifo es k a s :
  mem (handle_all es (udp_new k)) !! a = Some s ->
  exists waiting,
    admitted s = written s ++ waiting /\
    drop (Z.to_nat (outq_off s)) (outq s) = queue_bytes waiting /\
    outq_packets s = blen waiting /\ 0 <= outq_off s <= blen (outq s) /\ blen (outq s) <= outq_cap s.
Proof.
  intros Hs. destruct (sw_queue _ _ _ (u_sess _ (handle_all_uinv es k) a s Hs)) as [ps []].
  exists ps. split_and!; auto; lia.
Qed.

(** C36: what a remote party can make the UDP plane hold is bounded: outstanding sends
    and the envelopes of each session by [udp_queue_packets], the bytes of a session's
    buffer by twice its byte limit (or the initial 4096), and the flows by
    [udp_max_flows_per_tunnel]; and as long as the 64-bit flow id counter has not come
    round, flow ids are positive and distinct. *)
Theorem udp_bounds es k :
  let st := handle_all es (udp_new k) in
  blen (reqs st) <= size_of (udp_queue_packets cfg) /\ udp_raw_inflight st = blen (reqs st) /\
  blen (udp_flows st) <= size_of (udp_max_flows_per_tunnel cfg) /\
  (forall a s, mem st !! a = Some s -> outq_packets s <= size_of (udp_queue_packets cfg) /\
     outq_cap s <= Z.max 4096 (2 * max_bytes)) /\
  (flow_wrapped st = false -> NoDup (map flow_id (udp_flows st)) /\ Forall (fun f => 0 < flow_id f) (udp_flows st)).
Proof.
  cbv zeta. pose proof (handle_all_uinv es k) as Hu. set (st := handle_all es (udp_new k)) in *. clearbody st.
  destruct (u_raw _ Hu) as [R1 R2]. split_and!; [lia|done|apply Hu|..].
  - intros a s Hs. destruct (sw_queue _ _ _ (u_sess _ Hu a s Hs)) as [ps []]. lia.
  - intros Hw. destruct (u_fid _ Hu Hw) as (_ & Hn & HF). split; [done|].
    eapply Forall_impl; [exact HF|]. cbn. lia.
Qed.

(** C21: a reply of the agent reaches the owner of its flow and nobody else.  An envelope
    for flow [f] of an open client becomes one datagram to the client's address with the
    payload unchanged, unless the send cap is reached or the socket refuses, and touches
    no session.  For a flow of a peer session that session is open and in the peer role,
    and its queue gains exactly the payload under the peer's own flow id, unless the
    queue is full ([queue_takes]: fewer than [udp_queue_packets] envelopes wait and the
    bytes stay within the limit); no other session changes. *)
Theorem udp_reply_isolated es k f payload :
  let st := handle_all es (udp_new k) in
  f ∈ udp_flows st -> flow_wrapped st = false -> blen payload <= u32 (udp_max_datagram_size cfg) ->
  let st' := agent_session_env (flow_id f) payload st in
  match peer_session f with
  | None => mem st' = mem st /\
      sent st' = sent st ++ (if (udp_raw_inflight st <? size_of (udp_queue_packets cfg)) && send_ok (sends st)
                             then [(src f, payload)] else [])
  | Some a =>
      let env := tm_env_encode (src_flow_id f) 0 payload in
      (forall b, b <> a -> mem st' !! b = mem st !! b) /\
      exists s s', mem st !! a = Some s /\ mem st' !! a = Some s' /\
        closing s = false /\ authenticated s = true /\ is_agent s = false /\
        admitted s' = admitted s ++ (if queue_takes s env then [env] else [])
  end.
Proof.
  cbv zeta. pose proof (handle_all_uinv es k) as Hu. set (st := handle_all es (udp_new k)) in *. clearbody st.
  intros Hf Hw Hp. destruct (flow_find_unique st f Hu Hw Hf) as [Hfind Hnz].
  unfold agent_session_env. rewrite (proj2 (Z.eqb_neq _ _) Hnz), Hfind.
  destruct (flow_rx_frame (fptr f) payload st) as (Em & Es & _ & Er & En).
  set (st1 := flow_rx _ _ _) in *. clearbody st1. unfold forward_to_peer.
  rewrite (proj2 (Z.ltb_ge _ _)) by lia.
  pose proof (u_flow _ Hu) as HF. eapply Forall_forall in HF as [_ HF]; [|exact Hf].
  destruct (peer_session f) as [a|]; destruct HF as [-> HF].
  - destruct HF as (s & Hs & Hc & Hau & Hag). unfold with_s. rewrite Em, Hs, Hc.
    destruct (session_queue_only a (tm_env_encode (src_flow_id f) 0 payload) st1) as [O1 O2 _].
    split; [intros b Hb; by rewrite O1, Em|]. destruct (O2 s) as (s' & Hs' & Ha); [by rewrite Em|done|].
    exists s, s'. by split_and!.
  - rewrite <- Em, <- Es, <- Er, <- En. split; [apply send_raw_frame|]. unfold udp_send_raw.
    destruct (size_of (udp_queue_packets cfg) <=? udp_raw_inflight st1) eqn:E; zb.
    + rewrite (proj2 (Z.ltb_ge _ _)) by lia. cbn. by rewrite app_nil_r.
    + rewrite (proj2 (Z.ltb_lt _ _)) by lia. cbn [andb]. destruct (send_ok (sends st1)); [done|]. cbn. by rewrite app_nil_r.
Qed.

(** What [forward_to_agent] gives an open, authenticated agent session. *)
Lemma forward_to_agent_only fid payload st :
  udp_flows (forward_to_agent fid payload st) = udp_flows st /\
  match agent_session st with
  | None => mem (forward_to_agent fid payload st) = mem st
  | Some a => (forall b, b <> a -> mem (forward_to_agent fid payload st) !! b = mem st !! b) /\
      forall s, mem st !! a = Some s -> closing s = false -> authenticated s = true ->
        exists s', mem (forward_to_agent fid payload st) !! a = Some s' /\
        admitted s' = admitted s ++
          (if (blen payload <=? u32 (udp_max_datagram_size cfg)) && queue_takes s (tm_env_encode fid 0 payload)
           then [tm_env_encode fid 0 payload] else [])
  end.
Proof.
  unfold forward_to_agent. destruct (agent_session st) as [a|]; [|done]. unfold with_s.
  destruct (mem st !! a) as [s|] eqn:Hs; [|by split_and!].
  destruct (authenticated s) eqn:Hau; cbn [negb]; [|split_and!; [done|done|]; intros x [= <-]; congruence].
  destruct (_ <? blen payload) eqn:El; zb.
  { split_and!; [done|done|]. intros x [= <-] _ _. exists s. split; [done|].
    rewrite (proj2 (Z.leb_gt _ _)) by lia. cbn. by rewrite app_nil_r. }
  destruct (session_queue_only a (tm_env_encode fid 0 payload) st) as [O1 O2 O3].
  split_and!; [done|done|]. intros x [= <-] Hc _. rewrite (proj2 (Z.leb_le _ _)) by lia. by apply O2.
Qed.

(** A window lets one more through: there is no limit, the window is over a second old,
    or it has counted fewer than the limit. *)
Definition under_rate (limit now : Z) (w : win) : bool :=
  (limit <=? 0) || (1000 <=? u64 (now - u64 (win_start w))) || (win_count w <? limit).

Lemma rate_check_under limit now w : (rate_check limit now w).1 = under_rate limit now w.
Proof.
  unfold rate_check, under_rate. destruct (limit <=? 0) eqn:E0; [done|]. cbn [orb]. zb.
  destruct (1000 <=? _) eqn:E1; cbn [win_count win_start orb].
  - by rewrite (proj2 (Z.leb_gt _ _)) by lia.
  - destruct (limit <=? win_count w) eqn:E2; zb; symmetry; [apply Z.ltb_ge|apply Z.ltb_lt]; lia.
Qed.

Definition is_client (addr : sockaddr) (f : tm_udp_flow) : bool :=
  negb (from_peer_session f) && tm_addr_eq (Some (src f)) (Some addr).

(** A datagram of this client passes the limits: the tunnel's packet rate, and a flow
    that exists or may be made. *)
Definition client_passes (addr : sockaddr) (st : udp) : bool :=
  under_rate (udp_max_packets_per_tunnel cfg) (clock (ticks st)) (pkt_win_tun st) &&
  (existsb (is_client addr) (udp_flows st) ||
   under_rate (udp_flow_creation_rate cfg) (clock (S (ticks st))) (flow_created_win st) &&
   (blen (udp_flows st) <? size_of (udp_max_flows_per_tunnel cfg))).

(** The flow of a client's datagram: found, or made when the limits allow it. *)
Lemma client_flow_get addr st : tm_addr_eq (Some addr) (Some addr) = true ->
  let '(fo, st') := flow_get (flow_find_src addr (udp_flows st)) (flow_new false None 0 addr) st in
  mem st' = mem st /\ agent_session st' = agent_session st /\
  match fo with
  | Some f => f ∈ udp_flows st' /\ is_client addr f = true
  | None => True
  end /\
  (if fo then true else false) = existsb (is_client addr) (udp_flows st) ||
   under_rate (udp_flow_creation_rate cfg) (clock (ticks st)) (flow_created_win st) &&
   (blen (udp_flows st) <? size_of (udp_max_flows_per_tunnel cfg)).
Proof.
  intros Haddr. unfold flow_get. destruct (flow_find_src addr (udp_flows st)) as [f|] eqn:Ef.
  { apply find_some_in in Ef as [Hin Hf]. split_and!; [done|done|by apply list_elem_of_In|done|].
    assert (existsb (is_client addr) (udp_flows st) = true) as -> by (apply existsb_exists; by exists f). done. }
  assert (existsb (is_client addr) (udp_flows st) = false) as ->.
  { apply not_true_is_false. intros (f & Hin & Hf)%existsb_exists.
    eapply find_none in Ef; [|exact Hin]. unfold is_client in Hf. congruence. }
  unfold flow_creation_limit, tm_now_ms. cbn [orb]. rewrite <- rate_check_under.
  destruct (rate_check _ _ _) as [ok w]. cbn [fst]. unfold flow_count.
  change (udp_flows (st <| ticks ::= S |> <| flow_created_win := w |>)) with (udp_flows st).
  destruct ok; cbn [negb orb andb]; [|by split_and!].
  destruct (size_of _ <=? blen (udp_flows st)) eqn:El; zb.
  - split_and!; try done. symmetry. apply Z.ltb_ge. lia.
  - rewrite (proj2 (Z.ltb_lt _ _)) by lia. split; [done|]. split; [done|]. split; [|done].
    split; [left|]. unfold is_client. cbn [from_peer_session src negb andb]. exact Haddr.
Qed.

(** C22: a public client's datagram is handed to the agent under a flow that belongs to
    that client's address.  No session but the agent's changes.  When the limits let the
    datagram through ([client_passes]: the packet rate of the tunnel, and a flow of this
    client that exists or may be made) and the payload is within the largest datagram,
    the queue of the agent's session, which is open and authenticated, gains exactly the
    payload, unchanged, under the id of a flow in the table whose source is the sender's
    address and port, unless the queue is full ([queue_takes]); otherwise it gains
    nothing. *)
Theorem udp_client_tagged es k addr payload :
  tm_addr_eq (Some addr) (Some addr) = true ->
  let st := handle_all es (udp_new k) in
  let st' := open_client_datagram addr payload st in
  (forall b, agent_session st <> Some b -> mem st' !! b = mem st !! b) /\
  forall a, agent_session st = Some a -> exists s s', mem st !! a = Some s /\ mem st' !! a = Some s' /\
    closing s = false /\ authenticated s = true /\ is_agent s = true /\
    if client_passes addr st && (blen payload <=? u32 (udp_max_datagram_size cfg))
    then exists f, f ∈ udp_flows st' /\ is_client addr f = true /\
         let env := tm_env_encode (flow_id f) 0 payload in
         admitted s' = admitted s ++ (if queue_takes s env then [env] else [])
    else admitted s' = admitted s.
Proof.
  intros Haddr. cbv zeta. pose proof (handle_all_uinv es k) as Hu. set (st := handle_all es (udp_new k)) in *.
  clearbody st. pose proof (u_agent _ Hu) as Hag. clear Hu. unfold open_client_datagram, client_passes, tunnel_pkt_limit, tm_now_ms.
  rewrite <- rate_check_under. destruct (rate_check _ _ _) as [ok w]. cbn [fst].
  set (st1 := st <| ticks ::= S |> <| pkt_win_tun := w |>).
  change (clock (S (ticks st))) with (clock (ticks st1)). change (flow_created_win st) with (flow_created_win st1).
  change (udp_flows st) with (udp_flows st1). change (mem st) with (mem st1) in *.
  change (agent_session st) with (agent_session st1) in *. clearbody st1. clear st w.
  destruct ok; cbn [negb andb].
  2: { split; [done|]. intros a Ha. destruct (Hag a Ha) as (s & Hs & Hc & Hau & Hia). exists s, s. by split_and!. }
  pose proof (client_flow_get addr st1 Haddr) as Hg. destruct (flow_get _ _ _) as [fo st2].
  destruct Hg as (G1 & G2 & G3 & <-). rewrite <- G1, <- G2 in *. destruct fo as [f|]; cbn [flow_deliver andb].
  2: { split; [done|]. intros a Ha. destruct (Hag a Ha) as (s & Hs & Hc & Hau & Hia). exists s, s. by split_and!. }
  destruct G3 as [Hin Hcl]. destruct (flow_rx_frame (fptr f) payload st2) as (Em & _ & Ea & _).
  destruct (elem_core f _ _ (m_flows _ _ (flow_rx_mild (fptr f) payload st2)) Hin) as (f' & Hf' & Hcore).
  assert (flow_id f' = flow_id f /\ is_client addr f' = is_client addr f) as [C1 C2]
    by (destruct f, f'; cbn in Hcore; by simplify_eq).
  set (st3 := flow_rx _ _ _) in *. clearbody st3. rewrite <- Em, <- Ea in *.
  destruct (forward_to_agent_only (flow_id f) payload st3) as [F1 F2].
  destruct (agent_session st3) as [a|]; [|split; [intros b _; by rewrite F2|done]].
  destruct F2 as [F2 F3]. split; [intros b Hb; apply F2; congruence|].
  intros x [= <-]. destruct (Hag a eq_refl) as (s & Hs & Hc & Hau & Hia).
  destruct (F3 s Hs Hc Hau) as (s' & Hs' & Had). exists s, s'. split_and!; try done.
  destruct (blen payload <=? _); [|by rewrite app_nil_r in Had].
  exists f'. rewrite F1, C1, C2. by split_and!.
Qed.

(** A session whose datagram is dropped at the send cap (or refused by the socket)
    is left marked in flight although no request is outstanding for it: nothing will
    ever clear the mark, and [pump_out] does nothing from then on. *)
Theorem udp_session_stuck a s c e st :
  mem st !! a = Some s -> closing s = false -> inflight s = false -> tun s = true ->
  outq s = [] -> outq_off s = 0 -> BIO_read (ssl s) = (Some c, e) ->
  size_of (udp_queue_packets cfg) <= udp_raw_inflight st \/ send_ok (sends st) = false ->
  let st' := pump_out a st in
  reqs st' = reqs st /\ sent st' = sent st /\
  (exists s', mem st' !! a = Some s' /\ inflight s' = true) /\ pump_out a st' = st'.
Proof.
  intros Hs Hc Hi Ht Hq Ho Hb Hcap. cbv zeta.
  assert (exists st1 s', pump_out a st = put a s' st1 /\ inflight s' = true /\
            reqs st1 = reqs st /\ sent st1 = sent st) as (st1 & s' & E & Hi' & Er & Es).
  { unfold pump_out, with_s. rewrite Hs, Hc, Hi. cbn [orb]. unfold write_head, reset_if_empty.
    rewrite Hq, Ho. change (0 <? blen []) with false. cbv iota beta. cbn [negb]. rewrite Hq, Ho.
    change (0 =? blen []) with true. cbv iota.
    change (ssl (s <| outq := [] |> <| outq_off := 0 |>)) with (ssl s). rewrite Hb.
    set (s3 := s <| outq := [] |> <| outq_off := 0 |> <| ssl := e |>).
    change (tun s3) with (tun s). rewrite Ht.
    set (st2 := udp_send_raw _ _ _ _).
    assert (reqs st2 = reqs st /\ sent st2 = sent st) as [E1 E2].
    { subst st2. unfold udp_send_raw. change (udp_raw_inflight (put a s3 st)) with (udp_raw_inflight st).
      change (sends (put a s3 st)) with (sends st).
      destruct (size_of (udp_queue_packets cfg) <=? udp_raw_inflight st) eqn:El; [done|]. zb.
      destruct Hcap as [Hcap| ->]; [lia|done]. }
    exists (count datagrams_tx 1 st2), (bump pkts_tx 1 (s3 <| inflight := true |>)). done. }
  rewrite E. split_and!; [done|done|exists s'; split; [apply lookup_put|done]|].
  unfold pump_out, with_s. rewrite lookup_put, Hi', orb_true_r. done.
Qed.
End Udp.

(** ** Witnesses: a transparent engine *)

Module UdpSample.

(** Records pass in and out unchanged; the handshake succeeds at once. *)
Definition engine : Type := list bytes * list bytes.
Definition read_in (s : engine) : option bytes * engine :=
  match s.1 with d :: l => (Some d, (l, s.2)) | [] => (None, s) end.
Definition read_out (s : engine) : option bytes * engine :=
  match s.2 with d :: l => (Some d, (s.1, l)) | [] => (None, s) end.

Lemma read_in_some s d s' : read_in s = (Some d, s') -> (length s'.1 < length s.1)%nat.
Proof. destruct s as [[|x i] o]; cbn; intros [= <- <-]; cbn; lia. Qed.
Lemma read_in_none s s' : read_in s = (None, s') -> (length s'.1 <= length s.1)%nat.
Proof. destruct s as [[|x i] o]; cbn; intros [= <-]; cbn; lia. Qed.
Lemma read_out_in s : (length (read_out s).2.1 <= length s.1)%nat.
Proof. destruct s as [i [|x o]]; cbn; lia. Qed.

#[local] Instance plain : DTLS := {|
  SSL := engine;
  SSL_write s d := (SSL_DONE (blen d), (s.1, s.2 ++ [d]));
  SSL_read := read_in;
  SSL_accept s := (SSL_DONE 1, s);
  BIO_write s d := (s.1 ++ [drop 13 d], s.2);
  BIO_read := read_out;
  DTLSv1_handle_timeout s := s;
  DTLSv1_get_timeout s := None;
  unread s := length s.1;
  unread_read := read_in_some;
  unread_read_none := read_in_none;
  unread_write s d := le_n _;
  unread_bio_read := read_out_in;
|}.

(** A digest that keeps the first 32 bytes. *)
Definition digest (m : bytes) : bytes := take 32 (map u8 m ++ replicate 32 0).
Lemma digest_len m : length (digest m) = 32%nat.
Proof. unfold digest. rewrite length_take, length_app, length_replicate. lia. Qed.
Lemma digest_ok m : bytes_ok (digest m).
Proof.
  apply bytes_ok_take, bytes_ok_app.
  - apply Forall_forall. intros x Hx. apply (list_elem_of_fmap_1 u8) in Hx as (y & -> & _). apply wrap_range. lia.
  - apply Forall_replicate. red. red. lia.
Qed.
#[local] Instance short : OpenSSL :=
  {| HMAC_SHA256 k m := k ++ m; SHA256 := digest; SHA256_len := digest_len; SHA256_ok := digest_ok |}.

Definition cfg : udp_cfg :=
  UdpCfg 60000 4 1400 0 0 0 8 [] false (secret_digest [] [7; 7]) [].
Definition agent_addr : sockaddr := AF_INET 5000 1.
Definition client_addr : sockaddr := AF_INET 6000 2.
Definition record (d : bytes) : bytes := [23; 254; 253] ++ replicate 10 0 ++ d.

(** The agent authenticates, a client sends "hi" and every send completes. *)
Definition events : list event :=
  [E_PACKET (RECV agent_addr (record (tm_env_encode 0 TM_ENV_FLAG_AUTH_REQ [7; 7])));
   E_SEND_DONE 0; E_PACKET (RECV client_addr [104; 105]); E_SEND_DONE 0].
Definition clock (n : nat) : Z := Z.of_nat n.
Definition new_ssl (_ : nat) : option SSL := Some (([], []) : engine).
Abbreviation run es :=
  (handle_all cfg clock (fun _ => true) new_ssl es (udp_new (Listener.fresh TM_PROTO_UDP false))).

Lemma udp_memory_safe_witness : fault (run events) = false /\ agent_session (run events) = Some 1 /\
  1 ∈ udp_sessions (run events).
Proof.
  pose proof (udp_memory_safe cfg clock (fun _ => true) new_ssl events (Listener.fresh TM_PROTO_UDP false)) as H.
  cbv zeta in H. destruct H as (H1 & _ & _ & H4 & _).
  split; [exact H1|]. split; [vm_compute; reflexivity|]. apply H4. vm_compute. reflexivity.
Defined.

Lemma udp_authenticated_witness : exists s secret, mem (run events) !! 1 = Some s /\ is_agent s = true /\
  presented s = Some secret /\
  tm_ct_eq_hex (secret_digest (hmac_key cfg) secret) (agent_secret_hmac cfg) = true.
Proof.
  pose proof (udp_authenticated cfg clock (fun _ => true) new_ssl events (Listener.fresh TM_PROTO_UDP false)) as H.
  cbv zeta in H. destruct H as [H _]. apply H. vm_compute. reflexivity.
Defined.

(** The agent's session has been given the acknowledgement and the client's datagram. *)
Lemma udp_queue_fifo_witness : exists s waiting,
  mem (run events) !! 1 = Some s /\
  written s = [tm_env_encode 0 TM_ENV_FLAG_AUTH_OK []; tm_env_encode 1 0 [104; 105]] /\
  admitted s = written s ++ waiting.
Proof.
  destruct (mem (run events) !! 1) as [s|] eqn:E; [|vm_compute in E; discriminate].
  destruct (udp_queue_fifo cfg clock (fun _ => true) new_ssl events
              (Listener.fresh TM_PROTO_UDP false) 1 s E) as (w & Hw & _).
  exists s, w. split; [reflexivity|]. split; [|exact Hw].
  vm_compute in E. injection E as <-. vm_compute. reflexivity.
Defined.

Lemma udp_bounds_witness : blen (udp_flows (run events)) = 1 /\
  blen (udp_flows (run events)) <= size_of (udp_max_flows_per_tunnel cfg).
Proof.
  pose proof (udp_bounds cfg clock (fun _ => true) new_ssl events (Listener.fresh TM_PROTO_UDP false)) as H.
  cbv zeta in H. split; [vm_compute; reflexivity|]. exact (proj1 (proj2 (proj2 H))).
Defined.

(** The agent's answer on flow 1 goes back to the client. *)
Lemma udp_reply_isolated_witness : exists f, f ∈ udp_flows (run events) /\ flow_id f = 1 /\
  sent (agent_session_env cfg clock (fun _ => true) (flow_id f) [111; 107] (run events)) =
  sent (run events) ++ [(client_addr, [111; 107])].
Proof.
  destruct (udp_flows (run events)) as [|f l] eqn:E; [vm_compute in E; discriminate|].
  assert (f ∈ udp_flows (run events)) as Hf by (rewrite E; left).
  pose proof (udp_reply_isolated cfg clock (fun _ => true) new_ssl events
                (Listener.fresh TM_PROTO_UDP false) f [111; 107]) as H.
  cbv zeta in H. specialize (H Hf ltac:(vm_compute; reflexivity) ltac:(vm_compute; discriminate)).
  exists f. split; [left|].
  assert (flow_id f = 1 /\ peer_session f = None /\ src f = client_addr) as (E1 & E2 & E3)
    by (vm_compute in E; injection E as <- _; split_and!; reflexivity).
  split; [exact E1|]. rewrite E2, E3 in H. exact (proj2 H).
Defined.

Lemma udp_client_tagged_witness : exists s',
  mem (open_client_datagram cfg clock (fun _ => true) client_addr [104; 105] (run (take 2 events))) !! 1 = Some s' /\
  exists f, is_client client_addr f = true /\
  admitted s' = [tm_env_encode 0 TM_ENV_FLAG_AUTH_OK []; tm_env_encode (flow_id f) 0 [104; 105]].
Proof.
  destruct (udp_client_tagged cfg clock (fun _ => true) new_ssl (take 2 events)
              (Listener.fresh TM_PROTO_UDP false) client_addr [104; 105] eq_refl) as [_ H].
  destruct (H 1 ltac:(vm_compute; reflexivity)) as (s & s' & Hs & Hs' & _ & _ & _ & Hr).
  change (client_passes _ _ _ _ && _) with true in Hr. destruct Hr as (f & _ & Hc & Had).
  exists s'. split; [exact Hs'|]. exists f. split; [exact Hc|]. rewrite Had.
  vm_compute in Hs. injection Hs as <-. reflexivity.
Defined.

Lemma udp_session_stuck_witness :
  let c := UdpCfg 60000 4 1400 0 0 0 1 [] false [] [] in
  let s := Session true (([], [[9]]) : engine) agent_addr false false true false false false 500 0 0 0 (Win 0 0) [] 0 0 0 [] [] None in
  let st := put 1 s (udp_new (Listener.fresh TM_PROTO_UDP false)) <| udp_raw_inflight := 1 |> <| reqs := [None] |> in
  reqs (pump_out c (fun _ => true) 1 st) = [None] /\
  pump_out c (fun _ => true) 1 (pump_out c (fun _ => true) 1 st) = pump_out c (fun _ => true) 1 st.
Proof.
  intros c s st.
  destruct (udp_session_stuck c (fun _ => true) 1 s [9] (([], []) : engine) st) as (H1 & _ & _ & H4);
    try reflexivity; [left; vm_compute; discriminate|].
  split; [exact H1|exact H4].
Defined.
End UdpSample.
