(* ===== verification/ClientCfg.v ===== *)
(** * Settings of the agent and the peer

    [tm_agent_cfg] with [cfg_defaults] and [cfg_apply] (src/agent/src/agent.h, main.c),
    and [tm_peer_cfg] with the command line of the peer: [parse_tunnel_url],
    [parse_listen] and the option loop of [main] (src/peer/src/peer.h, main.c).
    [getopt_long] is the C library's: the options it finds are a list, and the content
    of a token file comes with its option. *)

From S2P Require Import Prelude.
From S2P Require Import Wire.
From S2P Require Import Text.
From S2P Require Import Config.
Import CLib Conf Log.

(** ** The agent *)

Module AgentCfg.

Record tm_agent_cfg := Cfg {
  broker_host : bytes;
  broker_port : Z;
  broker_udp_port : Z;
  proto : tm_proto;
  tunnel_id : bytes;
  agent_secret : bytes;
  local_host : bytes;
  local_port : Z;
  name : bytes;
  ca_path : bytes;
  verify_ca : bool;
  log_level : tm_log_level;
  heartbeat_interval_ms : Z;
  idle_timeout_ms : Z;
  reconnect_delay_ms : Z;
  reconnect_max_delay_ms : Z;
  handshake_timeout_ms : Z;
  local_connect_timeout_ms : Z;
  udp_flow_idle_timeout_ms : Z;
  udp_max_datagram_size : Z;
  udp_max_packets_per_flow : Z;
  udp_max_flows : Z;
}.

Definition cfg_defaults : tm_agent_cfg :=
  {| broker_host := []; broker_port := 0; broker_udp_port := 0; proto := TM_PROTO_TCP;
     tunnel_id := []; agent_secret := []; local_host := []; local_port := 0; name := [];
     ca_path := []; verify_ca := true; log_level := TM_LOG_INFO;
     heartbeat_interval_ms := 5000; idle_timeout_ms := 30000; reconnect_delay_ms := 1000;
     reconnect_max_delay_ms := 30000; handshake_timeout_ms := 15000;
     local_connect_timeout_ms := 10000; udp_flow_idle_timeout_ms := 30000;
     udp_max_datagram_size := TM_DEFAULT_DATAGRAM; udp_max_packets_per_flow := 1000;
     udp_max_flows := 4096 |}.

(** [strncpy(dst, s, size - 1)] into a zeroed array of [size] bytes. *)
Definition set_str (c : tm_config) (key : bytes) (size : Z) (old : bytes) : bytes :=
  match tm_config_get_str c key None with
  | (true, Some s) => str_trunc size s
  | _ => old
  end.
Definition set_port (c : tm_config) (key : bytes) (old : Z) : Z :=
  let '(found, v) := tm_config_get_int c key 0 in if found then u16 v else old.
Definition set_pos (c : tm_config) (key : bytes) (old : Z) : Z :=
  let '(found, v) := tm_config_get_int c key 0 in if found && (0 <? v) then v else old.

(** The checks at the end of [cfg_apply]. *)
Definition cfg_complete (g : tm_agent_cfg) : bool :=
  negb ((blen (broker_host g) =? 0) || (broker_port g =? 0)) &&
  negb (bool_decide (proto g = TM_PROTO_UDP) && (broker_udp_port g =? 0)) &&
  negb ((blen (tunnel_id g) =? 0) || (blen (agent_secret g) =? 0)) &&
  negb ((blen (local_host g) =? 0) || (local_port g =? 0)).

(** [None] is [TM_ERR]. *)
Definition cfg_apply (g : tm_agent_cfg) (c : tm_config) : option tm_agent_cfg :=
  let pr := match tm_config_get_str c (cstr "agent.protocol") (Some (cstr "tcp")) with
            | (true, Some s) => if streq s (cstr "tcp") then Some TM_PROTO_TCP
                                else if streq s (cstr "udp") then Some TM_PROTO_UDP else None
            | _ => Some (proto g)
            end in
  match pr with
  | None => None
  | Some pr =>
      let g :=
        {| broker_host := set_str c (cstr "agent.broker_host") 256 (broker_host g);
           broker_port := set_port c (cstr "agent.broker_port") (broker_port g);
           broker_udp_port := set_port c (cstr "agent.broker_udp_port") (broker_udp_port g);
           proto := pr;
           tunnel_id := set_str c (cstr "agent.tunnel_id") (TM_TUNNEL_ID_LEN + 1) (tunnel_id g);
           agent_secret := set_str c (cstr "agent.agent_secret") (TM_MAX_SECRET + 1) (agent_secret g);
           local_host := set_str c (cstr "agent.local_host") 256 (local_host g);
           local_port := set_port c (cstr "agent.local_port") (local_port g);
           name := set_str c (cstr "agent.name") 65 (name g);
           ca_path := set_str c (cstr "agent.ca_path") 512 (ca_path g);
           verify_ca := match tm_config_get_bool c (cstr "agent.verify_ca") true with
                        | (true, b) => b
                        | _ => verify_ca g
                        end;
           log_level := match tm_config_get_str c (cstr "agent.log_level") (Some (cstr "info")) with
                        | (true, s) => default (log_level g) (tm_log_level_parse s)
                        | _ => log_level g
                        end;
           heartbeat_interval_ms := set_pos c (cstr "agent.heartbeat_interval_ms") (heartbeat_interval_ms g);
           idle_timeout_ms := set_pos c (cstr "agent.idle_timeout_ms") (idle_timeout_ms g);
           reconnect_delay_ms := set_pos c (cstr "agent.reconnect_delay_ms") (reconnect_delay_ms g);
           reconnect_max_delay_ms := set_pos c (cstr "agent.reconnect_max_delay_ms") (reconnect_max_delay_ms g);
           handshake_timeout_ms := set_pos c (cstr "agent.handshake_timeout_ms") (handshake_timeout_ms g);
           local_connect_timeout_ms :=
             set_pos c (cstr "agent.local_connect_timeout_ms") (local_connect_timeout_ms g);
           udp_flow_idle_timeout_ms :=
             set_pos c (cstr "agent.udp_flow_idle_timeout_ms") (udp_flow_idle_timeout_ms g);
           udp_max_datagram_size := set_pos c (cstr "agent.udp_max_datagram_size") (udp_max_datagram_size g);
           udp_max_packets_per_flow :=
             set_pos c (cstr "agent.udp_max_packets_per_flow") (udp_max_packets_per_flow g);
           udp_max_flows := set_pos c (cstr "agent.udp_max_flows") (udp_max_flows g) |} in
      if cfg_complete g then Some g else None
  end.

(** What the rest of the agent relies on. *)
Record cfg_ok (g : tm_agent_cfg) : Prop := {
  ok_host : 0 < blen (broker_host g) < 256;
  ok_port : 0 < broker_port g < 65536;
  ok_udp : proto g = TM_PROTO_UDP -> 0 < broker_udp_port g < 65536;
  ok_id : 0 < blen (tunnel_id g) <= TM_TUNNEL_ID_LEN;
  ok_secret : 0 < blen (agent_secret g) <= TM_MAX_SECRET;
  ok_local : 0 < blen (local_host g) < 256 /\ 0 < local_port g < 65536;
  ok_paths : blen (name g) < 65 /\ blen (ca_path g) < 512;
  ok_timers : Forall (fun v => 0 < v < 2 ^ 63)
    [heartbeat_interval_ms g; idle_timeout_ms g; reconnect_delay_ms g; reconnect_max_delay_ms g;
     handshake_timeout_ms g; local_connect_timeout_ms g; udp_flow_idle_timeout_ms g;
     udp_max_datagram_size g; udp_max_packets_per_flow g; udp_max_flows g];
}.

Lemma set_str_fits c key size : 1 <= size -> blen (set_str c key size []) < size.
Proof.
  intros Hs. unfold set_str, tm_config_get_str. destruct (config_find c key); [by apply blen_str_trunc|].
  change (blen []) with 0. lia.
Qed.

Lemma set_port_range c key : 0 <= set_port c key 0 < 65536.
Proof.
  unfold set_port. destruct (tm_config_get_int c key 0) as [[] v]; [|lia].
  pose proof (wrap_range 16 v ltac:(lia)) as Hr. unfold in_width in Hr. change (2 ^ 16) with 65536 in Hr. lia.
Qed.

Lemma get_int_range c key : let '(found, v) := tm_config_get_int c key 0 in v < 2 ^ 63.
Proof.
  unfold tm_config_get_int. destruct (config_find c key) as [v|]; [|done].
  unfold strtoll. repeat case_match; try done; simplify_eq;
    unfold clamp_ll, LLONG_MAX, LLONG_MIN in *; lia.
Qed.

Lemma set_pos_range c key old : 0 < old < 2 ^ 63 -> 0 < set_pos c key old < 2 ^ 63.
Proof.
  intros Ho. unfold set_pos. pose proof (get_int_range c key) as Hr.
  destruct (tm_config_get_int c key 0) as [[] v]; cbn [andb]; [|done].
  destruct (0 <? v) eqn:E; zb; lia.
Qed.

(** C39: A configuration file the agent accepts gives well-formed settings: every
    string fits its array with its NUL and the required ones are not empty, the ports
    it needs are between 1 and 65535, and every interval and limit is a positive
    [long long]. *)
Theorem agent_cfg_ok c g : cfg_apply cfg_defaults c = Some g -> cfg_ok g.
Proof.
  unfold cfg_apply. set (pr := match tm_config_get_str _ _ _ with (true, Some s) => _ | _ => _ end).
  destruct pr as [pr|]; [|done]. cbv zeta.
  match goal with |- (if cfg_complete ?x then _ else _) = _ -> _ => destruct (cfg_complete x) eqn:E; [|done] end.
  intros [= <-]. unfold cfg_complete in E. cbn [broker_host broker_port broker_udp_port proto tunnel_id
    agent_secret local_host local_port cfg_defaults] in E. zb. destruct E as [[[[E1 E2] E3] [E4 E5]] [E6 E7]].
  constructor; cbn [broker_host broker_port broker_udp_port proto tunnel_id agent_secret local_host
    local_port name ca_path cfg_defaults].
  - pose proof (set_str_fits c (cstr "agent.broker_host") 256 ltac:(lia)).
    pose proof (blen_nonneg (set_str c (cstr "agent.broker_host") 256 [])). lia.
  - pose proof (set_port_range c (cstr "agent.broker_port")). lia.
  - intros ->. pose proof (set_port_range c (cstr "agent.broker_udp_port")). destruct E3; [done|lia].
  - pose proof (set_str_fits c (cstr "agent.tunnel_id") (TM_TUNNEL_ID_LEN + 1) ltac:(unfold TM_TUNNEL_ID_LEN; lia)).
    pose proof (blen_nonneg (set_str c (cstr "agent.tunnel_id") (TM_TUNNEL_ID_LEN + 1) [])). lia.
  - pose proof (set_str_fits c (cstr "agent.agent_secret") (TM_MAX_SECRET + 1) ltac:(unfold TM_MAX_SECRET; lia)).
    pose proof (blen_nonneg (set_str c (cstr "agent.agent_secret") (TM_MAX_SECRET + 1) [])). lia.
  - pose proof (set_str_fits c (cstr "agent.local_host") 256 ltac:(lia)).
    pose proof (blen_nonneg (set_str c (cstr "agent.local_host") 256 [])).
    pose proof (set_port_range c (cstr "agent.local_port")). lia.
  - split; apply set_str_fits; lia.
  - cbn [heartbeat_interval_ms idle_timeout_ms reconnect_delay_ms reconnect_max_delay_ms
      handshake_timeout_ms local_connect_timeout_ms udp_flow_idle_timeout_ms udp_max_datagram_size
      udp_max_packets_per_flow udp_max_flows cfg_defaults].
    repeat (constructor; [apply set_pos_range; unfold TM_DEFAULT_DATAGRAM; lia|]). constructor.
Qed.

Definition sample : tm_config :=
  [(cstr "agent.broker_host", cstr "broker.example"); (cstr "agent.broker_port", cstr "7000");
   (cstr "agent.tunnel_id", cstr "web"); (cstr "agent.agent_secret", cstr "s3cret");
   (cstr "agent.local_host", cstr "127.0.0.1"); (cstr "agent.local_port", cstr "8080")].
Definition sample_cfg : tm_agent_cfg := default cfg_defaults (cfg_apply cfg_defaults sample).

Lemma agent_cfg_ok_witness : cfg_ok sample_cfg.
Proof. apply (agent_cfg_ok sample sample_cfg). vm_compute. reflexivity. Defined.

End AgentCfg.

(** ** The peer *)

Module PeerCfg.

Record tm_peer_cfg := Cfg {
  broker_host : bytes;
  broker_port : Z;
  public_port : Z;
  tunnel_id : bytes;
  token : bytes;
  listen_host : bytes;
  listen_port : Z;
  ca_path : bytes;
  verify_ca : bool;
  proto : tm_proto;
  log_level : tm_log_level;
  handshake_timeout_ms : Z;
  idle_timeout_ms : Z;
  reconnect_delay_ms : Z;
  reconnect_max_delay_ms : Z;
  udp_flow_idle_timeout_ms : Z;
  udp_max_datagram_size : Z;
  udp_max_flows : Z;
}.
#[global] Instance eta_cfg : Eta tm_peer_cfg :=
  settable! Cfg <broker_host; broker_port; public_port; tunnel_id; token; listen_host; listen_port;
    ca_path; verify_ca; proto; log_level; handshake_timeout_ms; idle_timeout_ms; reconnect_delay_ms;
    reconnect_max_delay_ms; udp_flow_idle_timeout_ms; udp_max_datagram_size; udp_max_flows>.

(** The settings before the command line is read. *)
Definition main_defaults : tm_peer_cfg :=
  {| broker_host := []; broker_port := 0; public_port := 0; tunnel_id := []; token := [];
     listen_host := []; listen_port := 0; ca_path := []; verify_ca := true; proto := TM_PROTO_TCP;
     log_level := TM_LOG_INFO; handshake_timeout_ms := 10000; idle_timeout_ms := 90000;
     reconnect_delay_ms := 1000; reconnect_max_delay_ms := 30000; udp_flow_idle_timeout_ms := 30000;
     udp_max_datagram_size := TM_DEFAULT_DATAGRAM; udp_max_flows := 1024 |}.

(** [FAULT] is a [memmove] of almost [SIZE_MAX] bytes. *)
Inductive result (A : Type) := OK (a : A) | REFUSED | FAULT.
Arguments OK {A} a.
Arguments REFUSED {A}.
Arguments FAULT {A}.

(** [strtol(s, &end, 10)] of a whole text that must be a port number. *)
Definition port_of (s : bytes) : option Z :=
  match strtoll s with
  | Some (v, []) => if (v <? 1) || (65535 <? v) then None else Some v
  | _ => None
  end.

(** [strncmp(url, prefix, strlen(prefix))]: what follows the prefix. *)
Fixpoint after_prefix (p s : bytes) : option bytes :=
  match p, s with
  | [], _ => Some s
  | x :: p', y :: s' => if x =? y then after_prefix p' s' else None
  | _, [] => None
  end.

(** The host part, with its brackets and port. *)
Definition split_host (host : bytes) : option (bytes * Z) :=
  match host with
  | 91 :: rest =>
      match strchr rest 93 with
      | None => None
      | Some (inner, []) => Some (inner, 7000)
      | Some (inner, 58 :: port) => option_map (fun v => (inner, v)) (port_of port)
      | Some _ => None
      end
  | _ =>
      match strrchr host 58 with
      | Some (before, port) => option_map (fun v => (before, v)) (port_of port)
      | None => Some (host, 7000)
      end
  end.

Definition parse_tunnel_url (cfg : tm_peer_cfg) (url : bytes) : option tm_peer_cfg :=
  match after_prefix (cstr "tunnel://") url with
  | None => None
  | Some rest =>
      match strchr rest 47 with
      | None | Some ([], _) => None
      | Some (hostpart, id) =>
          if (512 <=? blen hostpart) || (blen id =? 0) || (TM_MAX_TUNNEL_ID <? blen id) then None
          else match split_host hostpart with
               | None => None
               | Some (host, port) =>
                   if (blen host =? 0) || (256 <=? blen host) then None
                   else Some (cfg <| broker_host := host |> <| broker_port := u16 port |>
                                  <| tunnel_id := id |>)
               end
      end
  end.

(** A host that begins with a bracket loses its first and last byte; when the bracket
    is all there is, the length of the move wraps around. *)
Definition strip_brackets (host : bytes) : result bytes :=
  match host with
  | 91 :: [] => FAULT
  | 91 :: rest => OK (removelast rest)
  | _ => OK host
  end.

Definition parse_listen (cfg : tm_peer_cfg) (s : bytes) : result tm_peer_cfg :=
  match strrchr s 58 with
  | None | Some ([], _) => REFUSED
  | Some (hostpart, port) =>
      if 256 <=? blen hostpart then REFUSED
      else match strip_brackets hostpart with
           | OK host =>
               match port_of port with
               | None => REFUSED
               | Some v => OK (cfg <| listen_host := host |> <| listen_port := u16 v |>)
               end
           | REFUSED => REFUSED
           | FAULT => FAULT
           end
  end.

(** The options [getopt_long] finds; a token file comes with its content, [None] when
    it cannot be read. *)
Inductive opt :=
  | OPT_TOKEN (arg : bytes)
  | OPT_TOKEN_FILE (content : option bytes)
  | OPT_LISTEN (arg : bytes)
  | OPT_PROTOCOL (arg : bytes)
  | OPT_CA (arg : bytes)
  | OPT_NO_VERIFY_CA
  | OPT_LOG_LEVEL (arg : bytes)
  | OPT_OTHER.

(** [fgets] into the token, cut at the first line end. *)
Fixpoint take_line (s : bytes) : bytes :=
  match s with
  | [] => []
  | c :: s' => if (c =? 10) || (c =? 13) then [] else c :: take_line s'
  end.
Definition token_line (content : bytes) : bytes := take_line (str_trunc (TM_MAX_SECRET + 1) content).

Definition option_step (cfg : tm_peer_cfg) (o : opt) : result tm_peer_cfg :=
  match o with
  | OPT_TOKEN a => OK (cfg <| token := str_trunc (TM_MAX_SECRET + 1) a |>)
  | OPT_TOKEN_FILE None | OPT_TOKEN_FILE (Some []) => REFUSED
  | OPT_TOKEN_FILE (Some s) => OK (cfg <| token := token_line s |>)
  | OPT_LISTEN a => parse_listen cfg a
  | OPT_PROTOCOL a => if streq a (cstr "tcp") then OK (cfg <| proto := TM_PROTO_TCP |>)
                      else if streq a (cstr "udp") then OK (cfg <| proto := TM_PROTO_UDP |>)
                      else REFUSED
  | OPT_CA a => OK (cfg <| ca_path := str_trunc 512 a |>)
  | OPT_NO_VERIFY_CA => OK (cfg <| verify_ca := false |>)
  | OPT_LOG_LEVEL a => match tm_log_level_parse (Some a) with
                       | Some l => OK (cfg <| log_level := l |>)
                       | None => REFUSED
                       end
  | OPT_OTHER => REFUSED
  end.

Fixpoint options (cfg : tm_peer_cfg) (os : list opt) : result tm_peer_cfg :=
  match os with
  | [] => OK cfg
  | o :: os => match option_step cfg o with OK cfg => options cfg os | REFUSED => REFUSED | FAULT => FAULT end
  end.

(** [main] up to the start of the loop; [REFUSED] is the exit with status 1. *)
Definition main_cfg (url : bytes) (os : list opt) : result tm_peer_cfg :=
  match parse_tunnel_url main_defaults url with
  | None => REFUSED
  | Some cfg =>
      match options cfg os with
      | OK cfg =>
          if (blen (token cfg) =? 0) || (listen_port cfg =? 0) then REFUSED
          else OK (match proto cfg with
                   | TM_PROTO_UDP => cfg <| public_port := broker_port cfg |>
                   | TM_PROTO_TCP => cfg
                   end)
      | r => r
      end
  end.

(** *** Addresses read back *)

Lemma strchr_none s c : ~ In c s -> strchr s c = None.
Proof.
  induction s as [|x s IH]; cbn; intros Hn; [done|].
  rewrite (proj2 (Z.eqb_neq x c)) by (intros ->; tauto). by rewrite IH by tauto.
Qed.

Lemma strrchr_none s c : ~ In c s -> strrchr s c = None.
Proof.
  induction s as [|x s IH]; cbn; intros Hn; [done|].
  rewrite IH by tauto. by rewrite (proj2 (Z.eqb_neq x c)) by (intros ->; tauto).
Qed.

Lemma strrchr_app s c t : ~ In c t -> strrchr (s ++ c :: t) c = Some (s, t).
Proof.
  intros Ht. induction s as [|x s IH]; cbn; [by rewrite strrchr_none, Z.eqb_refl|]. by rewrite IH.
Qed.

Lemma after_prefix_app p s : after_prefix p (p ++ s) = Some s.
Proof. induction p as [|x p IH]; cbn; [by destruct s|]. by rewrite Z.eqb_refl. Qed.

Lemma dec_digits n : 0 <= n -> Forall (fun c => isdigit c = true) (dec n).
Proof.
  intros Hn. unfold dec. rewrite (proj2 (Z.ltb_ge n 0)) by lia. unfold dec_pos.
  assert (forall fuel n acc, 0 <= n -> Forall (fun c => isdigit c = true) acc ->
    Forall (fun c => isdigit c = true) (dec_loop fuel n acc)) as Hg; [|by apply Hg].
  induction fuel as [|fuel IH]; intros m acc Hm Ha; cbn [dec_loop]; [done|]. case_match; zb.
  - constructor; [unfold isdigit; zb; lia|done].
  - pose proof (Z.mod_pos_bound m 10 ltac:(lia)). apply IH; [apply Z.div_pos; lia|].
    constructor; [unfold isdigit; zb; lia|done].
Qed.

Lemma dec_not_in n c : 0 <= n -> isdigit c = false -> ~ In c (dec n).
Proof.
  intros Hn Hc Hi. pose proof (proj1 (List.Forall_forall _ _) (dec_digits n Hn) c Hi). congruence.
Qed.

Lemma port_of_dec n : 1 <= n <= 65535 -> port_of (dec n) = Some n.
Proof.
  intros Hn. unfold port_of. rewrite strtoll_dec.
  assert (clamp_ll n = n) as -> by (unfold clamp_ll, LLONG_MAX, LLONG_MIN; lia).
  by rewrite (proj2 (Z.ltb_ge n 1)), (proj2 (Z.ltb_ge 65535 n)) by lia.
Qed.

(** How a host is written in an address: as it is, or in brackets. *)
Inductive spelled : bytes -> bytes -> Prop :=
  | spelled_plain h : h <> [] -> ~ In 58 h -> ~ In 47 h -> hd 0 h <> 91 -> spelled h h
  | spelled_bracket h : h <> [] -> ~ In 93 h -> ~ In 47 h -> spelled h (91 :: h ++ [93]).

Lemma split_host_port h w n : spelled h w -> 1 <= n <= 65535 ->
  split_host (w ++ 58 :: dec n) = Some (h, n).
Proof.
  intros [h' Hne Hc Hs Hb|h' Hne Hc Hs] Hn; unfold split_host.
  - rewrite strrchr_app by (apply dec_not_in; done || lia). rewrite port_of_dec by done. cbn.
    destruct h' as [|x h']; [done|]. cbn in Hb |- *.
    destruct x as [|p|p]; try done. do 7 (destruct p as [p|p|]; try done).
  - rewrite <- app_comm_cons, <- app_assoc. cbn [app]. rewrite strchr_app by done.
    by rewrite port_of_dec by done.
Qed.

Lemma split_host_default h w : spelled h w -> split_host w = Some (h, 7000).
Proof.
  intros [h' Hne Hc Hs Hb|h' Hne Hc Hs]; unfold split_host.
  - rewrite strrchr_none by done. destruct h' as [|x h']; [done|]. cbn in Hb |- *.
    destruct x as [|p|p]; try done. do 7 (destruct p as [p|p|]; try done).
  - by rewrite strchr_app by done.
Qed.

(** What the tests use: a written host has no slash. *)
Lemma spelled_slash h w : spelled h w -> ~ In 47 w /\ w <> [] /\ blen h <= blen w <= blen h + 2.
Proof.
  intros [h' Hne Hc Hs Hb|h' Hne Hc Hs]; split_and!; try done; try lia.
  - cbn. rewrite in_app_iff. cbn. intros [?|[?|[?|?]]]; lia || tauto.
  - rewrite blen_cons, blen_app. change (blen [93]) with 1. lia.
  - rewrite blen_cons, blen_app. change (blen [93]) with 1. lia.
Qed.

Lemma dec_length n : 0 <= n <= 65535 -> blen (dec n) <= 17.
Proof.
  intros Hn. unfold dec. rewrite (proj2 (Z.ltb_ge n 0)) by lia. unfold dec_pos.
  assert (forall fuel n acc, (length (dec_loop fuel n acc) <= fuel + length acc)%nat) as Hg.
  { induction fuel as [|fuel IH]; intros m acc; cbn [dec_loop]; [lia|].
    case_match; [cbn; lia|]. etrans; [apply IH|]. cbn. lia. }
  specialize (Hg (S (Z.to_nat (Z.log2 n))) n []). pose proof (Z.log2_le_mono n 65535 ltac:(lia)).
  change (Z.log2 65535) with 15 in *. unfold blen. cbn [length] in Hg. lia.
Qed.

(** The part of an address that gives the port. *)
Definition port_suffix (port : option Z) : bytes :=
  match port with Some n => 58 :: dec n | None => [] end.
Definition url (w : bytes) (port : option Z) (id : bytes) : bytes :=
  cstr "tunnel://" ++ w ++ port_suffix port ++ 47 :: id.

(** The peer reads an address back: a URL made of a host, plain or in brackets, an
    optional port and a tunnel id sets exactly these (7000 without a port), and a
    listening address sets the host and port it was made of.  An id may hold any byte,
    a bracketed host also colons. *)
Theorem peer_address_roundtrip cfg h w port id n :
  spelled h w -> blen w < 256 -> 0 < blen id <= TM_MAX_TUNNEL_ID ->
  (forall m, port = Some m -> 1 <= m <= 65535) -> 1 <= n <= 65535 ->
  parse_tunnel_url cfg (url w port id) =
    Some (cfg <| broker_host := h |> <| broker_port := default 7000 port |> <| tunnel_id := id |>) /\
  parse_listen cfg (w ++ 58 :: dec n) = OK (cfg <| listen_host := h |> <| listen_port := n |>).
Proof.
  intros Hw Hl Hid Hp Hn. pose proof (spelled_slash h w Hw) as (Hs & Hne & Hlen).
  assert (1 <= default 7000 port <= 65535) as Hd by (destruct port; cbn; [by apply Hp|lia]).
  assert (blen (port_suffix port) <= 18 /\ ~ In 47 (port_suffix port)) as [Hps Hpn].
  { destruct port as [m|]; cbn; [|split; [done|tauto]]. specialize (Hp m eq_refl).
    pose proof (dec_length m ltac:(lia)). rewrite blen_cons. split; [lia|].
    intros [?|Hi]; [lia|]. apply (dec_not_in m 47 ltac:(lia) eq_refl Hi). }
  assert (split_host (w ++ port_suffix port) = Some (h, default 7000 port)) as Hsp.
  { destruct port as [m|]; cbn; [by apply split_host_port|]. rewrite app_nil_r. by apply split_host_default. }
  assert (0 < blen h) as Hh by (destruct Hw; [destruct h; [done|]..]; rewrite blen_cons; pose proof (blen_nonneg h); lia).
  split.
  - unfold parse_tunnel_url, url. rewrite after_prefix_app, app_assoc.
    rewrite strchr_app by (rewrite in_app_iff; tauto).
    destruct (w ++ port_suffix port) as [|x l] eqn:E; [by apply app_eq_nil in E as [? _]|].
    rewrite <- E, blen_app in *.
    rewrite (proj2 (Z.leb_gt 512 _)), (proj2 (Z.eqb_neq (blen id) 0)), (proj2 (Z.ltb_ge _ _)) by lia.
    cbn [orb]. rewrite Hsp. rewrite (proj2 (Z.eqb_neq (blen h) 0)), (proj2 (Z.leb_gt 256 _)) by lia.
    cbn [orb]. by rewrite (wrap_small 16) by (split; [lia|]; change (2 ^ 16) with 65536; lia).
  - unfold parse_listen. rewrite strrchr_app by (apply dec_not_in; done || lia).
    destruct w as [|x l] eqn:E; [done|]. rewrite <- E in *.
    rewrite (proj2 (Z.leb_gt 256 _)) by lia.
    assert (strip_brackets w = OK h) as ->.
    { destruct Hw as [h' ? _ _ Hb|h' Hne' _ _]; unfold strip_brackets.
      - destruct h' as [|y h']; [done|]. cbn in Hb. destruct y as [|p|p]; try done.
        do 7 (destruct p as [p|p|]; try done).
      - rewrite removelast_last. by destruct h'. }
    rewrite port_of_dec by done.
    by rewrite (wrap_small 16) by (split; [lia|]; change (2 ^ 16) with 65536; lia).
Qed.

Lemma peer_address_roundtrip_witness :
  parse_tunnel_url main_defaults (cstr "tunnel://[::1]:7001/web") =
    Some (main_defaults <| broker_host := cstr "::1" |> <| broker_port := 7001 |> <| tunnel_id := cstr "web" |>) /\
  parse_listen main_defaults (cstr "[::1]:8080") =
    OK (main_defaults <| listen_host := cstr "::1" |> <| listen_port := 8080 |>).
Proof.
  apply (peer_address_roundtrip main_defaults (cstr "::1") (cstr "[::1]") (Some 7001) (cstr "web") 8080).
  - apply (spelled_bracket (cstr "::1")); [done|vm_compute; lia|vm_compute; lia].
  - vm_compute. reflexivity.
  - split; vm_compute; done.
  - intros m [= <-]. lia.
  - lia.
Defined.

(** A listening address whose host is a lone bracket. *)
Lemma listen_bracket_faults cfg n : 0 <= n -> parse_listen cfg (91 :: 58 :: dec n) = FAULT.
Proof.
  intros Hn. unfold parse_listen. change (91 :: 58 :: dec n) with ([91] ++ 58 :: dec n).
  by rewrite strrchr_app by by apply dec_not_in.
Qed.

(** *** Accepted settings *)

(** The strings fit their arrays, the required ones are there, and ports are in range. *)
Record peer_ok (g : tm_peer_cfg) : Prop := {
  pk_id : 1 <= blen (tunnel_id g) <= TM_MAX_TUNNEL_ID;
  pk_token : 1 <= blen (token g) <= TM_MAX_SECRET;
  pk_host : 1 <= blen (broker_host g) < 256 /\ blen (listen_host g) < 256 /\ blen (ca_path g) < 512;
  pk_ports : 0 <= broker_port g < 65536 /\ 1 <= listen_port g < 65536;
  pk_udp : proto g = TM_PROTO_UDP -> public_port g = broker_port g;
  pk_times : handshake_timeout_ms g = 10000 /\ idle_timeout_ms g = 90000;
}.

(** What every option keeps. *)
Record options_ok (g : tm_peer_cfg) : Prop := {
  po_id : 1 <= blen (tunnel_id g) <= TM_MAX_TUNNEL_ID;
  po_token : blen (token g) <= TM_MAX_SECRET;
  po_host : 1 <= blen (broker_host g) < 256 /\ blen (listen_host g) < 256 /\ blen (ca_path g) < 512;
  po_ports : 0 <= broker_port g < 65536 /\ 0 <= listen_port g < 65536;
  po_times : handshake_timeout_ms g = 10000 /\ idle_timeout_ms g = 90000;
}.

Lemma take_line_len s : blen (take_line s) <= blen s.
Proof. induction s as [|c s IH]; cbn; [lia|]. destruct (_ || _); autorewrite with blen; pose proof (blen_nonneg s); change (blen []) with 0; lia. Qed.

Lemma strip_len h h' : strip_brackets h = OK h' -> blen h' <= blen h.
Proof.
  assert (forall l : bytes, (length (removelast l) <= length l)%nat) as Hl.
  { induction l as [|x [|y l] IH]; cbn in *; lia. }
  unfold strip_brackets. intros E. destruct h as [|x h]; [by injection E as <-|].
  destruct (decide (x = 91)) as [->|Hn].
  - destruct h as [|y l]; [done|]. assert (h' = removelast (y :: l)) as -> by (by injection E).
    specialize (Hl (y :: l)). unfold blen. change (length (91 :: y :: l)) with (S (length (y :: l))). lia.
  - assert (h' = x :: h) as -> by (repeat case_match; simplify_eq; done). lia.
Qed.

Lemma option_ok g o g' : options_ok g -> option_step g o = OK g' -> options_ok g'.
Proof.
  intros [H1 H2 H3 H4 H5] E. pose proof (wrap_range 16) as Hw. unfold in_width in Hw. change (2 ^ 16) with 65536 in Hw.
  destruct o as [a|[[|c s]|]|a|a|a| |a|]; cbn [option_step] in E; try done.
  - injection E as <-. constructor; try done. cbn. pose proof (blen_str_trunc (TM_MAX_SECRET + 1) a). unfold TM_MAX_SECRET in *. lia.
  - injection E as <-. constructor; try done. change (blen (token_line (c :: s)) <= TM_MAX_SECRET). unfold token_line.
    pose proof (take_line_len (str_trunc (TM_MAX_SECRET + 1) (c :: s))).
    pose proof (blen_str_trunc (TM_MAX_SECRET + 1) (c :: s)). unfold TM_MAX_SECRET in *. lia.
  - unfold parse_listen in E. destruct (strrchr a 58) as [[[|x h] port]|]; try done. destruct (_ <=? _) eqn:El; zb; [done|].
    destruct (strip_brackets (x :: h)) as [h'| |] eqn:Es; try done. destruct (port_of port) as [v|]; [|done].
    injection E as <-. apply strip_len in Es. constructor; cbn; try done.
    + destruct H3 as (? & ? & ?). split_and!; try lia.
    + destruct H4. split; [done|]. apply Hw. lia.
  - destruct (streq _ _); [injection E as <-; by constructor|]. destruct (streq _ _); [injection E as <-; by constructor|done].
  - injection E as <-. constructor; try done. cbn. pose proof (blen_str_trunc 512 a). lia.
  - injection E as <-. by constructor.
  - destruct (tm_log_level_parse _); [injection E as <-; by constructor|done].
Qed.

Lemma url_ok url g : parse_tunnel_url main_defaults url = Some g -> options_ok g.
Proof.
  pose proof (wrap_range 16) as Hw. unfold in_width in Hw. change (2 ^ 16) with 65536 in Hw.
  unfold parse_tunnel_url. destruct (after_prefix _ _) as [rest|]; [|done]. destruct (strchr rest 47) as [[[|x h] id]|]; try done.
  destruct (_ || (TM_MAX_TUNNEL_ID <? _)) eqn:E1; [done|]. destruct (split_host _) as [[host port]|]; [|done].
  destruct (_ || (256 <=? _)) eqn:E2; [done|]. intros E. injection E as <-. zb. pose proof (blen_nonneg id). pose proof (blen_nonneg host).
  assert (0 <= u16 port < 65536) by (apply Hw; lia).
  constructor; cbn; try done; unfold TM_MAX_TUNNEL_ID, TM_MAX_SECRET in *; change (blen []) with 0; lia.
Qed.

(** The settings with which the peer starts are well formed: whatever the command line,
    the name and the token of the tunnel are there and fit the buffer of the AUTH
    frame, strings fit their arrays, and ports are in range. *)
Theorem peer_cfg_ok url os g : main_cfg url os = OK g -> peer_ok g.
Proof.
  unfold main_cfg. destruct (parse_tunnel_url main_defaults url) as [g0|] eqn:Eu; [|done]. apply url_ok in Eu.
  destruct (options g0 os) as [g1| |] eqn:Eo; try done. destruct (_ || _) eqn:E; [done|]. intros [= <-]. zb.
  assert (options_ok g1) as [H1 H2 H3 H4 H5].
  { clear E. revert g0 Eu Eo. induction os as [|o os IH]; cbn; intros g0 Hg Eo; [by injection Eo as <-|].
    destruct (option_step g0 o) as [g2| |] eqn:E2; try done. apply (IH g2); [by apply (option_ok g0 o)|done]. }
  pose proof (blen_nonneg (token g1)).
  destruct (proto g1) eqn:Ep; constructor; cbn; try done; try lia; congruence.
Qed.

End PeerCfg.
