(* ===== verification/ClientUdp.v ===== *)
(** * The UDP planes of the agent and the peer

    src/agent/src/udp.c and src/peer/src/udp.c: one DTLS client session to the tunnel's
    public port, over which envelopes travel.  [plane] is the part both programs have
    in common, written twice in the code: the engine, the outbound queue and the
    datagrams sent.  AgentUdp.v and PeerUdp.v hold what each program makes of it.

    OpenSSL is the class [DTLS] of the broker's plane with what a client adds to it.
    The clock and the results of opening a local socket are functions of how often they
    were used. *)

From S2P Require Import Prelude.
From S2P Require Import Wire.
From S2P Require Import Net.
From S2P Require Import Udp.
From S2P Require Import ClientCfg.

#[local] Arguments Z.of_nat : simpl never.

(** [waiting] bounds the datagrams in the write BIO. *)
Class DTLSClient `{DTLS} := {
  SSL_connect : SSL -> ssl_io * SSL;
  SSL_is_init_finished : SSL -> bool;
  waiting : SSL -> nat;
  waiting_read s d s' : BIO_read s = (Some d, s') -> (waiting s' < waiting s)%nat;
}.

(** ** What both programs share *)

Section Plane.
Context `{DTLSClient}.

(** The fields below the line are ghosts: the datagrams handed to [uv_udp_send] on the
    session's socket, and the envelopes taken by [udp_queue] and by [SSL_write] since
    the session was started. *)
Record plane := Plane {
  udp_ssl : option SSL;
  udp_outq : bytes;
  udp_outq_cap : Z;
  udp_outq_off : Z;
  udp_outq_packets : Z;
  udp_authed : bool;
  udp_closing : bool;
  (* ---- *)
  raw_sent : list bytes;
  admitted : list bytes;
  written : list bytes;
}.
#[global] Instance eta_plane : Eta plane :=
  settable! Plane <udp_ssl; udp_outq; udp_outq_cap; udp_outq_off; udp_outq_packets; udp_authed;
    udp_closing; raw_sent; admitted; written>.

Definition plane_new : plane := Plane None [] 0 0 0 false false [] [] [].

Definition outq_len (p : plane) : Z := blen (udp_outq p).

Definition udp_send_raw (data : bytes) (p : plane) : plane :=
  if udp_closing p then p else p <| raw_sent ::= fun l => l ++ [data] |>.

(** What [pump_out] makes of the head of the queue: it returns, stops the plane, or
    goes on to the BIO. *)
Inductive pumped := PumpWait | PumpStop | PumpOn.

Definition queue_pop (plen : Z) (env : bytes) (p : plane) : plane :=
  let p := p <| udp_outq_off ::= fun o => o + 4 + plen |>
             <| udp_outq_packets ::= fun n => if n =? 0 then n else n - 1 |>
             <| written ::= fun l => l ++ [env] |> in
  if udp_outq_off p =? outq_len p then p <| udp_outq := [] |> <| udp_outq_off := 0 |> else p.

Definition pump_head (x : SSL) (p : plane) : pumped * plane :=
  if udp_outq_off p <? outq_len p then
    if outq_len p - udp_outq_off p <? 4 then (PumpWait, p)
    else
      let rest := drop (Z.to_nat (udp_outq_off p)) (udp_outq p) in
      let plen := rd_u32 rest in
      if outq_len p - udp_outq_off p - 4 <? plen then (PumpWait, p)
      else
        let env := take (Z.to_nat plen) (drop 4 rest) in
        let '(w, x) := SSL_write x env in
        let p := p <| udp_ssl := Some x |> in
        match w with
        | SSL_WANT => (PumpWait, p)
        | SSL_FAILED => (PumpStop, p)
        | SSL_DONE n => if negb (u32 n =? plen) then (PumpWait, p) else (PumpOn, queue_pop plen env p)
        end
  else (PumpOn, p).

(** The loop over [BIO_read]. *)
Fixpoint flush_bio_n (fuel : nat) (x : SSL) (p : plane) : option plane :=
  match fuel with
  | O => None
  | S fuel' =>
      let '(c, x) := BIO_read x in
      let p := p <| udp_ssl := Some x |> in
      match c with
      | None => Some p
      | Some d => flush_bio_n fuel' x (udp_send_raw d p)
      end
  end.
Definition flush_bio (p : plane) : plane :=
  match udp_ssl p with
  | None => p
  | Some x => default p (flush_bio_n (S (waiting x)) x p)
  end.

(** The flag asks the owner to stop the plane. *)
Fixpoint pump_out_n (fuel : nat) (p : plane) : option (bool * plane) :=
  match fuel with
  | O => None
  | S fuel' =>
      match udp_ssl p with
      | None => Some (false, p)
      | Some x =>
          if udp_closing p then Some (false, p)
          else match pump_head x p with
               | (PumpWait, p) => Some (false, p)
               | (PumpStop, p) => Some (true, p)
               | (PumpOn, p) =>
                   let p := flush_bio p in
                   if udp_outq_off p <? outq_len p then pump_out_n fuel' p else Some (false, p)
               end
      end
  end.

(** A round that is not the last takes an envelope, at least four bytes, off the
    queue. *)
Definition pump_out (p : plane) : bool * plane :=
  default (false, p) (pump_out_n (S (length (udp_outq p))) p).

Variable max_datagram : Z.

Definition size_of (z : Z) : Z := u64 z.
Definition max_bytes : Z := u64 (256 * u64 (size_of max_datagram + 15)).

Definition make_room (need : Z) (p : plane) : plane :=
  if udp_outq_cap p <? outq_len p + need then
    let p := if udp_outq_off p =? 0 then p
             else p <| udp_outq := drop (Z.to_nat (udp_outq_off p)) (udp_outq p) |> <| udp_outq_off := 0 |> in
    if udp_outq_cap p <? outq_len p + need
    then p <| udp_outq_cap :=
             grow (if udp_outq_cap p =? 0 then 4096 else udp_outq_cap p * 2) (outq_len p + need) |>
    else p
  else p.

Definition queue_refuses (data : bytes) (p : plane) : bool :=
  (256 <=? udp_outq_packets p) || (2 ^ 32 - 1 <? blen data) ||
  (max_bytes <? outq_len p - udp_outq_off p + 4 + blen data).

Definition queue_push (data : bytes) (p : plane) : plane :=
  make_room (4 + blen data) p <| udp_outq ::= fun q => q ++ wr_u32 (blen data) ++ data |>
    <| udp_outq_packets ::= Z.add 1 |> <| admitted ::= fun l => l ++ [data] |>.

Definition udp_queue (data : bytes) (p : plane) : bool * plane :=
  match udp_ssl p with
  | None => (false, p)
  | Some _ =>
      if udp_closing p then (false, p)
      else if queue_refuses data p then (false, p)
      else pump_out (queue_push data p)
  end.

(** Releasing the session: the part of [tm_agent_udp_stop] and [tm_peer_udp_stop] that
    concerns the plane. *)
Definition plane_stop (p : plane) : plane :=
  p <| udp_ssl := None |> <| udp_outq := [] |> <| udp_outq_cap := 0 |> <| udp_outq_off := 0 |>
    <| udp_outq_packets := 0 |> <| udp_authed := false |> <| admitted := [] |> <| written := [] |>.

(** The handshake at the head of [udp_recv_cb]: [secret] is sent once it is done. *)
Definition handshake (secret : bytes) (x : SSL) (p : plane) : bool * plane :=
  let '(r, x) := SSL_connect x in
  let p := p <| udp_ssl := Some x |> in
  match r with
  | SSL_WANT => pump_out p
  | SSL_FAILED => (true, p)
  | SSL_DONE _ =>
      if SSL_is_init_finished x then
        let '(stop, p) := udp_queue (tm_env_encode 0 TM_ENV_FLAG_AUTH_REQ secret) p in
        if stop then (true, p) else pump_out p
      else pump_out p
  end.

(** *** The queue is a bounded FIFO of whole envelopes *)

Record queue_ok (ps : list bytes) (p : plane) : Prop := {
  qo_log : admitted p = written p ++ ps;
  qo_bytes : drop (Z.to_nat (udp_outq_off p)) (udp_outq p) = queue_bytes ps;
  qo_off : 0 <= udp_outq_off p <= outq_len p;
  qo_packets : udp_outq_packets p = blen ps;
  qo_len : Forall (fun d => blen d < 2 ^ 32) ps;
  qo_limit : blen ps <= 256;
  qo_max : blen (queue_bytes ps) <= max_bytes;
  qo_cap : outq_len p <= udp_outq_cap p <= Z.max 4096 (2 * max_bytes);
}.
Definition plane_ok (p : plane) : Prop := exists ps, queue_ok ps p.

(** What sending leaves alone. *)
Record same (p p' : plane) : Prop := {
  sm_authed : udp_authed p' = udp_authed p;
  sm_closing : udp_closing p' = udp_closing p;
  sm_ssl : is_Some (udp_ssl p') <-> is_Some (udp_ssl p);
  sm_raw : raw_sent p `prefix_of` raw_sent p';
}.

Record pstep (p p' : plane) : Prop := {
  ps_same : same p p';
  ps_ok : plane_ok p -> plane_ok p';
  ps_admitted : admitted p' = admitted p;
}.

Lemma same_refl p : same p p.
Proof. by constructor. Qed.
Lemma plane_same_trans a b c : same a b -> same b c -> same a c.
Proof. intros [] []. constructor; try congruence; [tauto|by etrans]. Qed.
Lemma pstep_refl p : pstep p p.
Proof. constructor; [apply same_refl|done|done]. Qed.
Lemma pstep_trans a b c : pstep a b -> pstep b c -> pstep a c.
Proof. intros [] []. constructor; [by eapply plane_same_trans|auto|congruence]. Qed.

Lemma plane_max_bytes_range : 0 <= max_bytes < 2 ^ 64.
Proof. apply (wrap_range 64); lia. Qed.

Lemma pstep_ssl x p : is_Some (udp_ssl p) -> pstep p (p <| udp_ssl := Some x |>).
Proof.
  intros Hs. constructor; [constructor; try done; cbn; split; auto| |done].
  intros [ps []]. exists ps. by constructor.
Qed.

Lemma send_raw_step d p : pstep p (udp_send_raw d p).
Proof.
  unfold udp_send_raw. case_match; [apply pstep_refl|].
  constructor; [constructor; try done; cbn; by apply prefix_app_r| |done]. intros [ps []]. exists ps. by constructor.
Qed.

Lemma flush_bio_n_step fuel : forall x p, udp_ssl p = Some x -> (waiting x < fuel)%nat ->
  exists p', flush_bio_n fuel x p = Some p' /\ pstep p p' /\ udp_outq p' = udp_outq p /\
    udp_outq_off p' = udp_outq_off p.
Proof.
  induction fuel as [|fuel IH]; intros x p Hx Hf; [lia|]. cbn [flush_bio_n].
  destruct (BIO_read x) as [[d|] y] eqn:E.
  - pose proof (waiting_read _ _ _ E).
    destruct (IH y (udp_send_raw d (p <| udp_ssl := Some y |>))) as (p' & -> & Hs & Hq & Ho).
    + unfold udp_send_raw. by case_match.
    + lia.
    + exists p'. split; [done|]. split.
      * eapply pstep_trans; [apply (pstep_ssl y p); by rewrite Hx|]. eapply pstep_trans; [|exact Hs]. apply send_raw_step.
      * rewrite Hq, Ho. unfold udp_send_raw. by case_match.
  - eexists. split; [reflexivity|]. split; [apply pstep_ssl; by rewrite Hx|done].
Qed.

Lemma flush_bio_step p : pstep p (flush_bio p) /\ udp_outq (flush_bio p) = udp_outq p /\
  udp_outq_off (flush_bio p) = udp_outq_off p.
Proof.
  unfold flush_bio. destruct (udp_ssl p) as [x|] eqn:E; [|split; [apply pstep_refl|done]].
  destruct (flush_bio_n_step (S (waiting x)) x p E) as (p' & -> & ?); [lia|done].
Qed.

Lemma queue_pop_ok plen env p ps : queue_ok (env :: ps) p -> plen = blen env ->
  queue_ok ps (queue_pop plen env p).
Proof.
  intros Hq ->. pose proof Hq as [].
  pose proof (queue_bytes_head _ _ _ qo_bytes0 qo_off0 qo_len0) as Hh. fold (outq_len p) in Hh.
  destruct (udp_outq_off p <? outq_len p) eqn:E1; [|done].
  destruct Hh as (env' & ps' & [= <- <-] & H4 & Hp & Hle & He & Hd).
  apply Forall_cons in qo_len0 as [_ Hl]. pose proof (blen_nonneg env). pose proof (blen_nonneg ps).
  rewrite queue_bytes_cons in *. autorewrite with blen in *. change (blen (wr_u32 _)) with 4 in *.
  unfold queue_pop.
  assert (queue_ok ps (p <| udp_outq_off ::= fun o => o + 4 + blen env |>
    <| udp_outq_packets ::= fun n => if n =? 0 then n else n - 1 |> <| written ::= fun l => l ++ [env] |>)) as Hq'.
  { constructor; cbn [admitted written udp_outq udp_outq_off udp_outq_packets udp_outq_cap upd]; auto; try lia.
    - by rewrite qo_log0, <- app_assoc.
    - change (outq_len _) with (outq_len p). lia.
    - rewrite qo_packets0. destruct (1 + blen ps =? 0) eqn:E; zb; lia. }
  set (q := p <| udp_outq_off ::= _ |> <| udp_outq_packets ::= _ |> <| written ::= _ |>) in *. clearbody q. cbv zeta.
  destruct (udp_outq_off q =? outq_len q) eqn:E; [|done]. zb.
  destruct Hq' as [A B C D F G I J]. assert (ps = []) as ->.
  { pose proof (queue_bytes_head _ _ _ B C F) as Hx. fold (outq_len q) in Hx.
    by rewrite (proj2 (Z.ltb_ge _ _)) in Hx by lia. }
  pose proof (blen_nonneg (udp_outq q)).
  constructor; cbn [admitted written udp_outq udp_outq_off udp_outq_packets udp_outq_cap upd]; try done.
  - change (outq_len _) with 0. cbn. unfold outq_len in *. lia.
Qed.

Lemma queue_pop_frame plen env p :
  same p (queue_pop plen env p) /\ admitted (queue_pop plen env p) = admitted p /\
  udp_ssl (queue_pop plen env p) = udp_ssl p.
Proof. unfold queue_pop. cbn. case_match; (split_and!; [constructor; done|done|done]). Qed.

(** Bytes that wait. *)
Definition backlog (p : plane) : nat := Z.to_nat (outq_len p - udp_outq_off p).

Lemma pump_head_step x p : udp_ssl p = Some x ->
  pstep p (pump_head x p).2 /\
  (plane_ok p -> (pump_head x p).1 = PumpOn ->
   if udp_outq_off p <? outq_len p then (backlog (pump_head x p).2 < backlog p)%nat
   else (pump_head x p).2 = p).
Proof.
  intros Hx. unfold pump_head. destruct (udp_outq_off p <? outq_len p) eqn:E1; [|split; [apply pstep_refl|done]].
  destruct (_ <? 4); [split; [apply pstep_refl|done]|].
  set (plen := rd_u32 _). destruct (_ <? plen) eqn:E3; [split; [apply pstep_refl|done]|].
  set (env := take _ _). destruct (SSL_write x env) as [w y].
  pose proof (pstep_ssl y p ltac:(by rewrite Hx)) as Hs.
  destruct w as [n| |]; [|split; done..]. destruct (u32 n =? plen); [|split; done]. cbn [negb fst snd].
  set (u := p <| udp_ssl := Some y |>) in *.
  assert (forall ps, queue_ok ps p -> exists ps', ps = env :: ps' /\ plen = blen env /\ queue_ok ps u) as Hq.
  { intros ps Hq. pose proof Hq as []. pose proof (queue_bytes_head _ _ _ qo_bytes0 qo_off0 qo_len0) as Hh.
    fold (outq_len p) in Hh. rewrite E1 in Hh. destruct Hh as (q & ps' & -> & H4 & Hp & Hle & He & Hd).
    fold plen in Hp. subst env. rewrite Hp, He. exists ps'. split_and!; [done|done|by constructor]. }
  destruct (queue_pop_frame plen env u) as (Hf & Ha & Hss). split.
  - constructor; [by eapply plane_same_trans; [exact (ps_same _ _ Hs)|]| |done].
    intros [ps Hps]. destruct (Hq ps Hps) as (ps' & -> & Hpl & Hqu). exists ps'. by apply queue_pop_ok.
  - intros [ps Hps] _. destruct (Hq ps Hps) as (ps' & -> & Hpl & Hqu).
    pose proof (queue_pop_ok plen env u ps' Hqu Hpl) as [A B C D F G I J].
    pose proof (qo_off _ _ Hps) as Ho. pose proof (qo_bytes _ _ Hps) as Hb.
    assert (blen (drop (Z.to_nat (udp_outq_off p)) (udp_outq p)) = blen (queue_bytes (env :: ps'))) as Hl by by rewrite Hb.
    assert (blen (drop (Z.to_nat (udp_outq_off (queue_pop plen env u))) (udp_outq (queue_pop plen env u))) =
      blen (queue_bytes ps')) as Hl' by by rewrite B.
    rewrite blen_drop in Hl, Hl' by done. fold (outq_len p) in Hl. fold (outq_len (queue_pop plen env u)) in Hl'.
    rewrite queue_bytes_cons in Hl. autorewrite with blen in Hl. change (blen (wr_u32 _)) with 4 in Hl.
    unfold backlog. pose proof (blen_nonneg env). pose proof (blen_nonneg (queue_bytes ps')). lia.
Qed.

Lemma pump_out_n_step fuel : forall p, plane_ok p -> (backlog p < fuel)%nat ->
  exists r, pump_out_n fuel p = Some r /\ pstep p r.2.
Proof.
  induction fuel as [|fuel IH]; intros p Hok Hf; [lia|]. cbn [pump_out_n].
  destruct (udp_ssl p) as [x|] eqn:Ex; [|eexists; split; [reflexivity|apply pstep_refl]].
  destruct (udp_closing p); [eexists; split; [reflexivity|apply pstep_refl]|].
  destruct (pump_head_step x p Ex) as [Hs Hb]. specialize (Hb Hok).
  destruct (pump_head x p) as [[] q]; cbn [fst snd] in *; [eexists; split; [reflexivity|done]..|].
  specialize (Hb eq_refl). destruct (flush_bio_step q) as (Hfl & Hq & Ho).
  pose proof (pstep_trans _ _ _ Hs Hfl) as Hst. cbv zeta.
  assert (backlog (flush_bio q) = backlog q) as Hbk by (unfold backlog, outq_len; by rewrite Hq, Ho).
  assert (udp_outq_off (flush_bio q) = udp_outq_off q /\ outq_len (flush_bio q) = outq_len q) as [-> ->]
    by (unfold outq_len; by rewrite Hq).
  destruct (udp_outq_off q <? outq_len q) eqn:E; [|eexists; split; [reflexivity|done]].
  destruct (IH (flush_bio q)) as (r & -> & Hr).
  - by apply Hst.
  - destruct (udp_outq_off p <? outq_len p) eqn:E'; [lia|]. subst q. congruence.
  - exists r. split; [done|]. by eapply pstep_trans.
Qed.

Lemma pump_out_step p : plane_ok p -> pstep p (pump_out p).2.
Proof.
  intros Hok. unfold pump_out.
  destruct (pump_out_n_step (S (length (udp_outq p))) p Hok) as (r & -> & Hr); [|done].
  destruct Hok as [ps []]. unfold backlog, outq_len, blen in *. lia.
Qed.

Lemma plane_room_ok ps p need :
  queue_ok ps p -> 0 <= need -> blen (queue_bytes ps) + need <= max_bytes ->
  queue_ok ps (make_room need p) /\ outq_len (make_room need p) + need <= udp_outq_cap (make_room need p).
Proof.
  intros Hq Hn Hm. pose proof plane_max_bytes_range as Hmb. unfold make_room.
  pose proof Hq as []. pose proof (blen_drop (udp_outq_off p) (udp_outq p) qo_off0) as Hd. rewrite qo_bytes0 in Hd.
  destruct (udp_outq_cap p <? outq_len p + need) eqn:E1; zb; [|auto].
  set (u := if udp_outq_off p =? 0 then p else _).
  assert (queue_ok ps u /\ outq_len u = blen (queue_bytes ps) /\ udp_outq_cap u = udp_outq_cap p) as (Hu & Hl & Hc).
  { subst u. destruct (udp_outq_off p =? 0) eqn:E0; zb; [unfold outq_len in *; split_and!; auto; lia|].
    assert (outq_len (p <| udp_outq := drop (Z.to_nat (udp_outq_off p)) (udp_outq p) |> <| udp_outq_off := 0 |>) =
      blen (queue_bytes ps)) as Hl by (unfold outq_len; cbn; by rewrite qo_bytes0).
    split_and!; [|done|done]. pose proof (blen_nonneg (queue_bytes ps)). unfold outq_len in qo_off0, qo_cap0.
    constructor; auto; rewrite ?Hl; cbn; auto; lia. }
  clearbody u. rewrite Hc, Hl.
  destruct (udp_outq_cap p <? blen (queue_bytes ps) + need) eqn:E2; zb; [|rewrite Hl, Hc; split; [done|lia]].
  set (base := if udp_outq_cap p =? 0 then 4096 else udp_outq_cap p * 2).
  assert (1 <= base <= Z.max 4096 (2 * max_bytes)) as Hb.
  { subst base. pose proof (blen_nonneg (udp_outq p)). unfold outq_len in *. destruct (udp_outq_cap p =? 0) eqn:E3; zb; lia. }
  pose proof (grow_bound base (blen (queue_bytes ps) + need) ltac:(lia)).
  pose proof (grow_fits base (blen (queue_bytes ps) + need) ltac:(lia) ltac:(lia)).
  set (g := grow base _) in *. clearbody g.
  assert (outq_len (u <| udp_outq_cap := g |>) = outq_len u) as Hlu by done.
  split; [|rewrite Hlu; cbn; lia]. destruct Hu as [A B C D F G I J]. constructor; auto. rewrite Hlu. cbn. lia.
Qed.

Lemma make_room_frame need p :
  same p (make_room need p) /\ admitted (make_room need p) = admitted p /\ udp_ssl (make_room need p) = udp_ssl p.
Proof.
  unfold make_room. destruct (_ <? _); [|split_and!; [apply same_refl|done|done]].
  destruct (udp_outq_off p =? 0); (destruct (_ <? _); (split_and!; [constructor; done|done|done])).
Qed.

Lemma queue_push_ok data p : queue_refuses data p = false -> plane_ok p ->
  same p (queue_push data p) /\ plane_ok (queue_push data p) /\
  admitted (queue_push data p) = admitted p ++ [data].
Proof.
  intros Hr [ps Hq]. unfold queue_refuses in Hr. zb. destruct Hr as [[R1 R2] R3].
  destruct (make_room_frame (4 + blen data) p) as (Hs & Ha & _). pose proof (blen_nonneg data) as Hd.
  assert (outq_len p - udp_outq_off p = blen (queue_bytes ps)) as Hl.
  { destruct Hq. rewrite <- qo_bytes0, blen_drop by done. unfold outq_len. lia. }
  destruct (plane_room_ok ps p (4 + blen data) Hq ltac:(lia) ltac:(lia)) as [Hm Hroom].
  assert (udp_outq_packets p = blen ps) as Hp by (by destruct Hq).
  unfold queue_push. set (u := make_room (4 + blen data) p) in *. clearbody u.
  split_and!; [destruct Hs; by constructor| |cbn; by rewrite Ha].
  exists (ps ++ [data]). destruct Hm as [L B O P F M X C]. pose proof (blen_nonneg (udp_outq u)).
  unfold outq_len in *.
  constructor; unfold outq_len; cbn [admitted written udp_outq udp_outq_off udp_outq_packets udp_outq_cap upd];
    rewrite ?queue_bytes_snoc; autorewrite with blen; change (blen (wr_u32 _)) with 4; try lia.
  - by rewrite L, app_assoc.
  - rewrite drop_app_le by (unfold blen in *; lia). by rewrite B.
  - apply Forall_app_2; [done|]. constructor; [lia|done].
Qed.

(** What [udp_queue] does with an envelope: dropped as a whole, or put last in the
    queue. *)
Lemma udp_queue_ok data p : plane_ok p ->
  plane_ok (udp_queue data p).2 /\ same p (udp_queue data p).2 /\
  admitted (udp_queue data p).2 =
    if match udp_ssl p with None => true | Some _ => false end || udp_closing p || queue_refuses data p
    then admitted p else admitted p ++ [data].
Proof.
  intros Hok. unfold udp_queue. destruct (udp_ssl p); [|split_and!; [done|apply same_refl|done]]. cbn [orb].
  destruct (udp_closing p); [split_and!; [done|apply same_refl|done]|].
  destruct (queue_refuses data p) eqn:E; [split_and!; [done|apply same_refl|done]|]. cbn [orb].
  destruct (queue_push_ok data p E Hok) as (Hs & Ho & Ha).
  destruct (pump_out_step _ Ho) as [Hs' Ho' Ha']. split_and!; [by apply Ho'|by eapply plane_same_trans|congruence].
Qed.

Lemma plane_stop_ok p : plane_ok (plane_stop p).
Proof.
  exists []. pose proof plane_max_bytes_range.
  constructor; try done; change (outq_len _) with 0; change (blen (queue_bytes [])) with 0; cbn [plane_stop udp_outq_cap upd]; try lia.
Qed.

Lemma handshake_ok secret x p : plane_ok p -> udp_ssl p = Some x ->
  let p' := (handshake secret x p).2 in
  plane_ok p' /\ same p p' /\
  (admitted p' = admitted p \/ admitted p' = admitted p ++ [tm_env_encode 0 TM_ENV_FLAG_AUTH_REQ secret]).
Proof.
  intros Hok Hx. unfold handshake. destruct (SSL_connect x) as [r y].
  pose proof (pstep_ssl y p ltac:(by rewrite Hx)) as Hs. set (u := p <| udp_ssl := Some y |>) in *. clearbody u.
  destruct Hs as [Hs Hu Ha]. specialize (Hu Hok).
  assert (forall v, plane_ok v -> same p v ->
    plane_ok (pump_out v).2 /\ same p (pump_out v).2 /\ admitted (pump_out v).2 = admitted v) as Hpump.
  { intros v Hv Hsv. destruct (pump_out_step v Hv) as [Hs' Ho' Ha'].
    split_and!; [by apply Ho'|by eapply plane_same_trans|done]. }
  destruct (Hpump u Hu Hs) as (P1 & P2 & P3).
  assert (admitted (pump_out u).2 = admitted p) as P4 by congruence.
  destruct r; cbn [snd]; [|by auto|by auto].
  destruct (SSL_is_init_finished y); [|by auto].
  destruct (udp_queue_ok (tm_env_encode 0 TM_ENV_FLAG_AUTH_REQ secret) u Hu) as (Hv & Hsv & Hav).
  pose proof (plane_same_trans _ _ _ Hs Hsv) as Hpv. rewrite Ha in Hav.
  destruct (udp_queue _ u) as [[] v]; cbn [snd] in *.
  - split_and!; [done|done|]. rewrite Hav. case_match; auto.
  - destruct (Hpump v Hv Hpv) as (Q1 & Q2 & Q3). split_and!; [done|done|]. rewrite Q3, Hav. case_match; auto.
Qed.

End Plane.

(** The life of a libuv handle. *)
Inductive handle := H_NONE | H_LIVE | H_CLOSING.

(** ** A concrete engine *)

Module ClientSample.

(** Records pass in and out unchanged; the first datagram received ends the
    handshake. *)
Record engine := Engine { e_done : bool; e_in : list bytes; e_out : list bytes }.

Definition read_in (s : engine) : option bytes * engine :=
  match e_in s with d :: l => (Some d, Engine (e_done s) l (e_out s)) | [] => (None, s) end.
Definition read_out (s : engine) : option bytes * engine :=
  match e_out s with d :: l => (Some d, Engine (e_done s) (e_in s) l) | [] => (None, s) end.
Definition connect (s : engine) : ssl_io * engine :=
  match e_in s with
  | _ :: l => (SSL_DONE 1, Engine true l (e_out s))
  | [] => (SSL_WANT, s)
  end.

Lemma plane_read_in_some s d s' : read_in s = (Some d, s') -> (length (e_in s') < length (e_in s))%nat.
Proof. destruct s as [b [|x i] o]; cbn; intros [= <- <-]; cbn; lia. Qed.
Lemma plane_read_in_none s s' : read_in s = (None, s') -> (length (e_in s') <= length (e_in s))%nat.
Proof. destruct s as [b [|x i] o]; cbn; intros [= <-]; cbn; lia. Qed.
Lemma plane_read_out_in s : (length (e_in (read_out s).2) <= length (e_in s))%nat.
Proof. destruct s as [b i [|x o]]; cbn; lia. Qed.
Lemma read_out_some s d s' : read_out s = (Some d, s') -> (length (e_out s') < length (e_out s))%nat.
Proof. destruct s as [b i [|x o]]; cbn; intros [= <- <-]; cbn; lia. Qed.

#[export] Instance plain : DTLS := {|
  SSL := engine;
  SSL_write s d := (SSL_DONE (blen d), Engine (e_done s) (e_in s) (e_out s ++ [d]));
  SSL_read := read_in;
  SSL_accept s := (SSL_FAILED, s);
  BIO_write s d := Engine (e_done s) (e_in s ++ [d]) (e_out s);
  BIO_read := read_out;
  DTLSv1_handle_timeout s := s;
  DTLSv1_get_timeout s := None;
  unread s := length (e_in s);
  unread_read := plane_read_in_some;
  unread_read_none := plane_read_in_none;
  unread_write s d := le_n _;
  unread_bio_read := plane_read_out_in;
|}.
#[export] Instance plain_client : DTLSClient := {|
  SSL_connect := connect; SSL_is_init_finished := e_done; waiting s := length (e_out s);
  waiting_read := read_out_some;
|}.

Definition clock (n : nat) : Z := Z.of_nat n.
Definition sockets (n : nat) : bool := true.
Definition fresh : SSL := (Engine false [] [] : SSL).
Definition auth_ok : bytes := tm_env_encode 0 TM_ENV_FLAG_AUTH_OK [].
Definition auth_err : bytes := tm_env_encode 0 TM_ENV_FLAG_AUTH_ERR [].

End ClientSample.
