(* ===== verification/AgentUdp.v ===== *)
(** * The UDP plane of the agent

    src/agent/src/udp.c over the plane of ClientUdp.v: the broker's flow ids are mapped to
    connected local sockets, whose datagrams go back under the same id. *)

From S2P Require Import Prelude.
From S2P Require Import Wire.
From S2P Require Import Net.
From S2P Require Import Udp.
From S2P Require Import ClientCfg.
From S2P Require Import ClientUdp.

#[local] Arguments Z.of_nat : simpl never.

Module AgentUdp.
Import AgentCfg.

Section Agent.
Context `{DTLSClient} (cfg : tm_agent_cfg) (clock : nat -> Z) (connect_ok : nat -> bool).

Record tm_alflow := AlFlow {
  flow_id : Z;
  last_seen_ms : Z;
  pkt_win_start : Z;
  pkt_win_count : Z;
}.
#[global] Instance eta_alflow : Eta tm_alflow :=
  settable! AlFlow <flow_id; last_seen_ms; pkt_win_start; pkt_win_count>.

(** [to_local] are the datagrams sent to the local service, each with the flow whose
    socket carried it; [ticks] and [opens] how often the clock was read and a local
    socket opened. *)
Record agent_udp := AgentPlane {
  pl : plane;
  udp_flows : list tm_alflow;
  udp_sock : handle;
  udp_timer : handle;
  ticks : nat;
  opens : nat;
  to_local : list (Z * bytes);
  fault : bool;
}.
#[global] Instance eta_agent_udp : Eta agent_udp :=
  settable! AgentPlane <pl; udp_flows; udp_sock; udp_timer; ticks; opens; to_local; fault>.

Definition agent_udp_new : agent_udp := AgentPlane plane_new [] H_NONE H_NONE 0 0 [] false.

Definition tm_now_ms (a : agent_udp) : Z * agent_udp := (clock (ticks a), a <| ticks ::= S |>).

Definition uv_close_if_open (h : handle) : handle :=
  match h with H_LIVE => H_CLOSING | h => h end.

(** *** Local flows *)

Definition flow_find (a : agent_udp) (fid : Z) : option tm_alflow :=
  List.find (fun f => flow_id f =? fid) (udp_flows a).

(** Unlinking; the socket is closed and releases the flow. *)
Fixpoint flow_close (fid : Z) (fs : list tm_alflow) : list tm_alflow :=
  match fs with
  | [] => []
  | f :: fs => if flow_id f =? fid then fs else f :: flow_close fid fs
  end.

Definition flow_upd (fid : Z) (g : tm_alflow -> tm_alflow) (a : agent_udp) : agent_udp :=
  a <| udp_flows ::= map (fun f => if flow_id f =? fid then g f else f) |>.

Definition tm_agent_udp_stop (a : agent_udp) : agent_udp :=
  if negb (bool_decide (is_Some (udp_ssl (pl a)))) && (blen (udp_flows a) =? 0) &&
     (udp_outq_cap (pl a) =? 0)
  then a
  else a <| udp_sock ::= uv_close_if_open |> <| udp_timer ::= uv_close_if_open |>
         <| udp_flows := [] |> <| pl ::= plane_stop |>.

(** A step of the plane, and the stop it may ask for. *)
Definition with_plane (r : bool * plane) (a : agent_udp) : agent_udp :=
  let '(stop, p) := r in
  let a := a <| pl := p |> in
  if stop then tm_agent_udp_stop a else a.

(** A datagram of the local service on the socket of a flow; [None] is a read error or
    nothing more to read. *)
Definition flow_recv_cb (fid : Z) (nread : option bytes) (a : agent_udp) : agent_udp :=
  match nread, flow_find a fid with
  | Some data, Some f =>
      if udp_closing (pl a) || negb (udp_authed (pl a)) then a
      else
        let '(now, a) := tm_now_ms a in
        let f := if 1000 <=? u64 (now - pkt_win_start f)
                 then f <| pkt_win_start := now |> <| pkt_win_count := 0 |> else f in
        if udp_max_packets_per_flow cfg <=? pkt_win_count f then flow_upd fid (fun _ => f) a
        else
          let f := f <| pkt_win_count ::= Z.add 1 |> <| last_seen_ms := now |> in
          let a := flow_upd fid (fun _ => f) a in
          if size_of (udp_max_datagram_size cfg) <? blen data then a
          else with_plane (udp_queue (udp_max_datagram_size cfg) (tm_env_encode fid 0 data) (pl a)) a
  | _, _ => a
  end.

Definition deliver (fid : Z) (payload : bytes) (a : agent_udp) : agent_udp :=
  let '(now, a) := tm_now_ms a in
  flow_upd fid (fun f => f <| last_seen_ms := now |>) a <| to_local ::= fun l => l ++ [(fid, payload)] |>.

Definition handle_broker_env (fid : Z) (payload : bytes) (a : agent_udp) : agent_udp :=
  if fid =? 0 then a
  else if u32 (udp_max_datagram_size cfg) <? blen payload then a
  else match flow_find a fid with
       | Some _ => deliver fid payload a
       | None =>
           if udp_max_flows cfg <=? blen (udp_flows a) then a
           else
             let ok := connect_ok (opens a) in
             let a := a <| opens ::= S |> in
             if negb ok then a
             else
               let '(now, a) := tm_now_ms a in
               deliver fid payload (a <| udp_flows ::= cons (AlFlow fid now 0 0) |>)
       end.

Definition flow_sweep_cb (a : agent_udp) : agent_udp :=
  let '(now, a) := tm_now_ms a in
  a <| udp_flows ::= List.filter
         (fun f => negb (u64 (udp_flow_idle_timeout_ms cfg) <? u64 (now - last_seen_ms f))) |>.

(** *** Inbound records *)

(** The loop over [SSL_read]; the flag says that [udp_recv_cb] goes on to [pump_out]. *)
Fixpoint read_envs (fuel : nat) (x : SSL) (a : agent_udp) : option (bool * agent_udp) :=
  match fuel with
  | O => None
  | S fuel' =>
      let '(r, x) := SSL_read x in
      let a := a <| pl ::= fun p => p <| udp_ssl := Some x |> |> in
      match r with
      | None => Some (true, a)
      | Some d =>
          match tm_env_decode d with
          | None => read_envs fuel' x a
          | Some (fid, flags, payload) =>
              if flags =? TM_ENV_FLAG_AUTH_OK
              then read_envs fuel' x (a <| pl ::= fun p => p <| udp_authed := true |> |>)
              else if flags =? TM_ENV_FLAG_AUTH_ERR then Some (false, tm_agent_udp_stop a)
              else if flags =? 0 then read_envs fuel' x (handle_broker_env fid payload a)
              else read_envs fuel' x a
          end
      end
  end.

Definition udp_recv_cb (data : bytes) (a : agent_udp) : agent_udp :=
  if (blen data =? 0) || udp_closing (pl a) then a
  else match udp_ssl (pl a) with
       | None => a <| fault := true |>
       | Some x =>
           let x := BIO_write x data in
           let a := a <| pl ::= fun p => p <| udp_ssl := Some x |> |> in
           if negb (SSL_is_init_finished x)
           then with_plane (handshake (udp_max_datagram_size cfg) (agent_secret cfg) x (pl a)) a
           else
             let '(go_on, a) := default (false, a) (read_envs (S (unread x)) x a) in
             if go_on then with_plane (pump_out (pl a)) a else a
       end.

(** [r] is the connection made for the session, [None] when the address, the socket or
    the connection could not be had. *)
Definition tm_agent_udp_start (r : option SSL) (a : agent_udp) : agent_udp :=
  if bool_decide (is_Some (udp_ssl (pl a))) then a
  else
    let a := match udp_sock a with
             | H_NONE => a <| udp_sock := H_LIVE |>
             | _ => a <| fault := true |> <| udp_sock := H_LIVE |>
             end in
    match r with
    | None => a <| udp_sock := H_CLOSING |>
    | Some x =>
        let a := match udp_timer a with
                 | H_NONE => a <| udp_timer := H_LIVE |>
                 | _ => a <| fault := true |> <| udp_timer := H_LIVE |>
                 end in
        let '(_, x) := SSL_connect x in
        let p := pl a <| udp_ssl := Some x |> in
        with_plane (pump_out p) a
    end.

(** The events of the loop.  A flow that is closed gets no more datagrams, and the
    socket none while it is not open. *)
Inductive agent_event :=
  | A_RECV (data : bytes) | A_FLOW (fid : Z) (nread : option bytes) | A_SWEEP
  | A_START (r : option SSL) | A_STOP | A_CLOSED.

Definition handle_event (e : agent_event) (a : agent_udp) : agent_udp :=
  match e with
  | A_RECV d => match udp_sock a with H_LIVE => udp_recv_cb d a | _ => a end
  | A_FLOW fid r => flow_recv_cb fid r a
  | A_SWEEP => flow_sweep_cb a
  | A_START r => tm_agent_udp_start r a
  | A_STOP => tm_agent_udp_stop a
  | A_CLOSED => let f h := match h with H_CLOSING => H_NONE | h => h end in
                a <| udp_sock ::= f |> <| udp_timer ::= f |>
  end.
Definition handle_events (es : list agent_event) (a : agent_udp) : agent_udp :=
  fold_left (fun a e => handle_event e a) es a.

(** *** The invariant *)

Definition auth_req : bytes := tm_env_encode 0 TM_ENV_FLAG_AUTH_REQ (agent_secret cfg).

Record agent_ok (a : agent_udp) : Prop := {
  ag_plane : plane_ok (udp_max_datagram_size cfg) (pl a);
  ag_ids : NoDup (map flow_id (udp_flows a));
  ag_nz : Forall (fun f => flow_id f <> 0) (udp_flows a);
  ag_count : blen (udp_flows a) <= Z.max 0 (udp_max_flows cfg);
  ag_open : udp_closing (pl a) = false;
  ag_auth : udp_authed (pl a) = false -> Forall (eq auth_req) (admitted (pl a));
}.

(** The plane replaced by one that is in order. *)
Lemma set_plane_ok p a : agent_ok a -> plane_ok (udp_max_datagram_size cfg) p -> udp_closing p = false ->
  (udp_authed p = false -> Forall (eq auth_req) (admitted p)) -> agent_ok (a <| pl := p |>).
Proof. intros [] Hp Hc Ha. by constructor. Qed.

Lemma stop_ok a : agent_ok a -> agent_ok (tm_agent_udp_stop a).
Proof.
  intros Hok. unfold tm_agent_udp_stop. destruct (_ && _ && _); [done|]. destruct Hok.
  constructor; cbn; try done; [apply plane_stop_ok|constructor|change (blen []) with 0; lia].
Qed.

Lemma with_plane_ok r a : agent_ok a -> plane_ok (udp_max_datagram_size cfg) r.2 -> udp_closing r.2 = false ->
  (udp_authed r.2 = false -> Forall (eq auth_req) (admitted r.2)) -> agent_ok (with_plane r a).
Proof.
  intros Hok Hp Hc Ha. destruct r as [stop p]. pose proof (set_plane_ok p a Hok Hp Hc Ha).
  unfold with_plane. destruct stop; [by apply stop_ok|done].
Qed.

Lemma pump_plane_ok p a : agent_ok a -> plane_ok (udp_max_datagram_size cfg) p -> udp_closing p = false ->
  (udp_authed p = false -> Forall (eq auth_req) (admitted p)) -> agent_ok (with_plane (pump_out p) a).
Proof.
  intros Hok Hp Hc Ha. destruct (pump_out_step _ p Hp) as [[S1 S2 _ _] Ho Had].
  apply with_plane_ok; [done|by apply Ho|congruence|]. rewrite S1, Had. done.
Qed.

Lemma ssl_ok x a : agent_ok a -> agent_ok (a <| pl ::= fun p => p <| udp_ssl := Some x |> |>).
Proof.
  intros Hok. pose proof Hok as []. apply (set_plane_ok _ a Hok); try done.
  destruct ag_plane0 as [ps []]. exists ps. by constructor.
Qed.

Lemma flows_ok fs a : agent_ok a -> NoDup (map flow_id fs) -> Forall (fun f => flow_id f <> 0) fs ->
  blen fs <= Z.max 0 (udp_max_flows cfg) -> agent_ok (a <| udp_flows := fs |>).
Proof. intros [] Hn Hz Hc. by constructor. Qed.

Lemma tick_ok a : agent_ok a -> agent_ok (tm_now_ms a).2.
Proof. intros []. by constructor. Qed.

Lemma map_upd_ids fid g fs : (forall f, flow_id (g f) = flow_id f) ->
  map flow_id (map (fun f => if flow_id f =? fid then g f else f) fs) = map flow_id fs.
Proof. intros Hg. rewrite map_map. apply map_ext. intros f. case_match; auto. Qed.

(** Replacing a flow by one with the same id. *)
Lemma map_set_ids fid f0 fs : flow_id f0 = fid ->
  map flow_id (map (fun f => if flow_id f =? fid then f0 else f) fs) = map flow_id fs.
Proof. intros Hg. rewrite map_map. apply map_ext. intros f. case_match; zb; congruence. Qed.

Lemma same_ids_ok fs a : agent_ok a -> map flow_id fs = map flow_id (udp_flows a) ->
  agent_ok (a <| udp_flows := fs |>).
Proof.
  intros Hok E. pose proof Hok as []. apply flows_ok; [done|by rewrite E| |].
  - apply (proj1 (List.Forall_map flow_id (fun i => i <> 0) fs)). rewrite E. by apply List.Forall_map.
  - unfold blen in *. rewrite <- (length_map flow_id fs), E, length_map. done.
Qed.

Lemma flow_find_some a fid f : flow_find a fid = Some f -> In f (udp_flows a) /\ flow_id f = fid.
Proof. intros Hf. apply find_some_in in Hf as [? ?]. zb. done. Qed.

Lemma flow_recv_ok fid r a : agent_ok a -> agent_ok (flow_recv_cb fid r a).
Proof.
  intros Hok. unfold flow_recv_cb. destruct r as [data|]; [|done].
  destruct (flow_find a fid) as [f|] eqn:Ef; [|done]. apply flow_find_some in Ef as [Hin Hid].
  destruct (udp_closing (pl a) || negb (udp_authed (pl a))) eqn:Eg; [done|].
  pose proof (tick_ok a Hok) as Ht. destruct (tm_now_ms a) as [now b] eqn:Eb. cbn [snd] in Ht.
  assert (pl b = pl a) as Epl by (unfold tm_now_ms in Eb; by simplify_eq).
  assert (udp_flows b = udp_flows a) as Efl by (unfold tm_now_ms in Eb; by simplify_eq).
  set (f1 := if 1000 <=? _ then _ else f). assert (flow_id f1 = fid) as H1 by (subst f1; by case_match).
  clearbody f1. assert (forall f2, flow_id f2 = fid -> agent_ok (flow_upd fid (fun _ => f2) b)) as Hu.
  { intros f2 E2. unfold flow_upd. apply (same_ids_ok _ b Ht). by apply map_set_ids. }
  destruct (_ <=? pkt_win_count f1); [by apply Hu|].
  set (f2 := f1 <| pkt_win_count ::= Z.add 1 |> <| last_seen_ms := now |>). specialize (Hu f2 H1).
  destruct (_ <? blen data); [exact Hu|].
  set (c := flow_upd fid (fun _ => f2) b) in *. assert (pl c = pl a) as Ec by (by rewrite <- Epl).
  clearbody c. rewrite Ec in *. pose proof Hok as [].
  destruct (udp_queue_ok _ (tm_env_encode fid 0 data) (pl a) ag_plane0) as (Q1 & [S1 S2 _ _] & _).
  zb. destruct Eg as [Eg1 Eg2]. apply with_plane_ok; [done|done|congruence|]. rewrite S1, Eg2. done.
Qed.

Lemma deliver_ok fid payload a : agent_ok a -> agent_ok (deliver fid payload a).
Proof.
  intros Hok. unfold deliver. pose proof (tick_ok a Hok) as Ht. destruct (tm_now_ms a) as [now b]. cbn [snd] in Ht.
  assert (agent_ok (flow_upd fid (fun f => f <| last_seen_ms := now |>) b)) as Hu.
  { unfold flow_upd. apply (same_ids_ok _ b Ht). by apply map_upd_ids. }
  destruct Hu. by constructor.
Qed.

Lemma handle_env_ok fid payload a : agent_ok a -> agent_ok (handle_broker_env fid payload a).
Proof.
  intros Hok. unfold handle_broker_env. destruct (fid =? 0) eqn:E0; [done|]. zb.
  destruct (_ <? blen payload); [done|].
  destruct (flow_find a fid) eqn:Ef; [by apply deliver_ok|].
  destruct (udp_max_flows cfg <=? blen (udp_flows a)) eqn:Ec; [done|]. zb.
  set (b := a <| opens ::= S |>). assert (agent_ok b) as Hb by (destruct Hok; by constructor).
  assert (udp_flows b = udp_flows a) as Efl by done. clearbody b. destruct (connect_ok (opens a)); [|done].
  cbn [negb]. pose proof (tick_ok b Hb) as Ht. destruct (tm_now_ms b) as [now c] eqn:Et. cbn [snd] in Ht.
  assert (udp_flows c = udp_flows a) as Efc by (unfold tm_now_ms in Et; by simplify_eq).
  apply deliver_ok. apply (flows_ok _ c Ht); rewrite Efc; pose proof Hok as [].
  - cbn. constructor; [|done]. intros Hi. apply list_elem_of_In, in_map_iff in Hi as (f & Hf & Hi).
    pose proof (proj1 (find_none_all _ _) Ef f Hi) as Hx. cbn in Hx. zb. done.
  - constructor; [exact E0|done].
  - rewrite blen_cons. lia.
Qed.

Lemma sweep_ok a : agent_ok a -> agent_ok (flow_sweep_cb a).
Proof.
  intros Hok. unfold flow_sweep_cb. pose proof (tick_ok a Hok) as Ht.
  destruct (tm_now_ms a) as [now b]. cbn [snd] in Ht. pose proof Ht as []. apply (flows_ok _ b Ht).
  - clear -ag_ids0. induction (udp_flows b) as [|f fs IH]; cbn in *; [constructor|].
    apply NoDup_cons in ag_ids0 as [Hn Hd]. case_match; [|by apply IH]. cbn. constructor; [|by apply IH].
    intros Hi. apply Hn. apply list_elem_of_In, in_map_iff in Hi as (g & Hg & Hi). apply filter_In in Hi as [Hi _].
    apply list_elem_of_In, in_map_iff. eauto.
  - apply List.Forall_forall. intros f Hi. apply filter_In in Hi as [Hi _].
    exact (proj1 (List.Forall_forall _ _) ag_nz0 f Hi).
  - etrans; [|exact ag_count0]. unfold blen. pose proof (List.filter_length_le
      (fun f => negb (u64 (udp_flow_idle_timeout_ms cfg) <? u64 (now - last_seen_ms f))) (udp_flows b)). lia.
Qed.

Lemma read_envs_ok fuel : forall x a, agent_ok a -> (unread x < fuel)%nat ->
  exists r, read_envs fuel x a = Some r /\ agent_ok r.2.
Proof.
  induction fuel as [|fuel IH]; intros x a Hok Hf; [lia|]. cbn [read_envs].
  destruct (SSL_read x) as [[d|] y] eqn:E; [|eexists; split; [reflexivity|by apply ssl_ok]].
  pose proof (unread_read _ _ _ E). pose proof (ssl_ok y a Hok) as Hb.
  set (b := a <| pl ::= _ |>) in *. clearbody b.
  destruct (tm_env_decode d) as [[[fid flags] payload]|]; [|apply IH; [done|lia]].
  destruct (flags =? TM_ENV_FLAG_AUTH_OK).
  { apply IH; [|lia]. pose proof Hb as []. apply (set_plane_ok _ b Hb); try done.
    destruct ag_plane0 as [ps []]. exists ps. by constructor. }
  destruct (flags =? TM_ENV_FLAG_AUTH_ERR); [eexists; split; [reflexivity|by apply stop_ok]|].
  destruct (flags =? 0); apply IH; try lia; [by apply handle_env_ok|done].
Qed.

Lemma recv_ok d a : agent_ok a -> agent_ok (udp_recv_cb d a).
Proof.
  intros Hok. unfold udp_recv_cb. destruct (_ || _); [done|].
  destruct (udp_ssl (pl a)) as [x|] eqn:Ex; [|destruct Hok; by constructor].
  pose proof (ssl_ok (BIO_write x d) a Hok) as Hb. set (b := a <| pl ::= _ |>) in *.
  assert (udp_ssl (pl b) = Some (BIO_write x d)) as Eb by done. clearbody b. pose proof Hb as [].
  destruct (negb (SSL_is_init_finished (BIO_write x d))).
  - destruct (handshake_ok _ (agent_secret cfg) (BIO_write x d) (pl b) ag_plane0 Eb) as (Q1 & [S1 S2 _ _] & Q3).
    apply with_plane_ok; [done|done|congruence|]. rewrite S1. intros Hau. specialize (ag_auth0 Hau).
    destruct Q3 as [-> | ->]; [done|]. apply Forall_app_2; [done|]. by constructor.
  - destruct (read_envs_ok (S (unread (BIO_write x d))) (BIO_write x d) b Hb) as ([go c] & -> & Hc); [lia|].
    cbn [default snd] in *. destruct go; [|done]. destruct Hc. by apply pump_plane_ok.
Qed.

Lemma start_ok r a : agent_ok a -> agent_ok (tm_agent_udp_start r a).
Proof.
  intros Hok. unfold tm_agent_udp_start. destruct (bool_decide _); [done|].
  set (b := match udp_sock a with H_NONE => _ | _ => _ end).
  assert (agent_ok b) as Hb by (subst b; destruct Hok, (udp_sock a); by constructor). clearbody b.
  destruct r as [x|]; [|destruct Hb; by constructor].
  set (c := match udp_timer b with H_NONE => _ | _ => _ end).
  assert (agent_ok c) as Hc by (subst c; destruct Hb, (udp_timer b); by constructor). clearbody c. cbv zeta.
  destruct (SSL_connect x) as [q y]. pose proof (ssl_ok y c Hc) as Hd. destruct Hd. by apply pump_plane_ok.
Qed.

Lemma agent_new_ok : agent_ok agent_udp_new.
Proof.
  constructor; try done; [exact (plane_stop_ok _ plane_new)|apply NoDup_nil_2|].
  change (blen (udp_flows agent_udp_new)) with 0. lia.
Qed.

Lemma events_ok es : forall a, agent_ok a -> agent_ok (handle_events es a).
Proof.
  induction es as [|e es IH]; intros a Hok; [done|]. cbn. apply IH. destruct e; cbn.
  - destruct (udp_sock a); [done|by apply recv_ok|done].
  - by apply flow_recv_ok.
  - by apply sweep_ok.
  - by apply start_ok.
  - by apply stop_ok.
  - destruct Hok. by constructor.
Qed.

(** C25: Whatever the broker, the local service and the timers do, the agent's plane
    keeps its tables in order: flow ids are distinct and never 0, there are at most
    [udp_max_flows] flows, the outbound queue is a FIFO of at most 256 whole envelopes
    in a buffer of bounded size, and until the broker has confirmed the secret nothing
    but the authentication request is queued. *)
Theorem agent_udp_in_order es :
  let a := handle_events es agent_udp_new in
  NoDup (map flow_id (udp_flows a)) /\ Forall (fun f => flow_id f <> 0) (udp_flows a) /\
  blen (udp_flows a) <= Z.max 0 (udp_max_flows cfg) /\
  (exists ps, admitted (pl a) = written (pl a) ++ ps /\ blen ps <= 256 /\
     drop (Z.to_nat (udp_outq_off (pl a))) (udp_outq (pl a)) = queue_bytes ps) /\
  udp_outq_cap (pl a) <= Z.max 4096 (2 * max_bytes (udp_max_datagram_size cfg)) /\
  (udp_authed (pl a) = false -> Forall (eq auth_req) (admitted (pl a))).
Proof.
  destruct (events_ok es _ agent_new_ok) as [[ps []] ? ? ? ? ?]. cbv zeta.
  split_and!; try done; [by exists ps|lia].
Qed.

(** *** A datagram and its answer *)

Lemma deliver_local fid payload a :
  to_local (deliver fid payload a) = to_local a ++ [(fid, payload)] /\ pl (deliver fid payload a) = pl a /\
  (is_Some (flow_find a fid) -> is_Some (flow_find (deliver fid payload a) fid)).
Proof.
  split_and!; [done|done|]. unfold flow_find, deliver, flow_upd. cbn.
  induction (udp_flows a) as [|f fs IH]; cbn; [done|]. intros Hf.
  destruct (flow_id f =? fid) eqn:E; cbn; rewrite E; [done|]. by apply IH.
Qed.

Lemma env_forwarded fid payload a :
  fid <> 0 -> blen payload <= u32 (udp_max_datagram_size cfg) ->
  is_Some (flow_find a fid) \/ (blen (udp_flows a) < udp_max_flows cfg /\ connect_ok (opens a) = true) ->
  let b := handle_broker_env fid payload a in
  to_local b = to_local a ++ [(fid, payload)] /\ pl b = pl a /\ is_Some (flow_find b fid).
Proof.
  intros Hz Hl Hf. unfold handle_broker_env.
  rewrite (proj2 (Z.eqb_neq _ _)), (proj2 (Z.ltb_ge _ _)) by done.
  destruct (flow_find a fid) as [f|] eqn:E.
  - destruct (deliver_local fid payload a) as (? & ? & Hx). split_and!; [done|done|]. apply Hx. by rewrite E.
  - destruct Hf as [[? ?]|[Hc Ho]]; [done|]. rewrite (proj2 (Z.leb_gt _ _)) by done. rewrite Ho. cbn [negb].
    unfold tm_now_ms. cbv beta iota zeta.
    match goal with |- context [deliver fid payload ?b] =>
      destruct (deliver_local fid payload b) as (E1 & E2 & E3) end. split_and!; [done|done|]. apply E3.
    unfold flow_find. cbn. by rewrite Z.eqb_refl.
Qed.

(** Whether a flow may send one more datagram at [now]. *)
Definition rate_ok (f : tm_alflow) (now : Z) : bool :=
  (if 1000 <=? u64 (now - pkt_win_start f) then 0 else pkt_win_count f) <? udp_max_packets_per_flow cfg.

Lemma stop_local a : to_local (tm_agent_udp_stop a) = to_local a.
Proof. unfold tm_agent_udp_stop. by case_match. Qed.

Lemma reply_queued fid reply f a :
  agent_ok a -> flow_find a fid = Some f -> udp_authed (pl a) = true -> is_Some (udp_ssl (pl a)) ->
  rate_ok f (clock (ticks a)) = true -> blen reply <= size_of (udp_max_datagram_size cfg) ->
  queue_refuses (udp_max_datagram_size cfg) (tm_env_encode fid 0 reply) (pl a) = false ->
  let c := flow_recv_cb fid (Some reply) a in
  to_local c = to_local a /\
  (udp_ssl (pl c) = None \/ admitted (pl c) = admitted (pl a) ++ [tm_env_encode fid 0 reply]).
Proof.
  intros Hok Hf Ha Hs Hr Hl Hq. unfold flow_recv_cb. rewrite Hf, (ag_open _ Hok), Ha. cbn [orb negb].
  cbn [tm_now_ms]. unfold rate_ok in Hr. set (now := clock (ticks a)) in *.
  set (f1 := if 1000 <=? u64 (now - pkt_win_start f) then _ else f).
  assert (pkt_win_count f1 < udp_max_packets_per_flow cfg) as Hc by (subst f1; case_match; cbn; zb; lia).
  clearbody f1. rewrite (proj2 (Z.leb_gt _ _)) by done. rewrite (proj2 (Z.ltb_ge _ _)) by done.
  set (b := flow_upd fid _ _). assert (pl b = pl a /\ to_local b = to_local a) as [Eb El] by done. clearbody b.
  rewrite Eb. destruct (udp_queue_ok _ (tm_env_encode fid 0 reply) (pl a) (ag_plane _ Hok)) as (_ & _ & Had).
  rewrite Hq, (ag_open _ Hok) in Had. destruct Hs as [x Hx]. rewrite Hx in Had. cbn [orb] in Had.
  destruct (udp_queue _ _ (pl a)) as [stop p]. cbn [snd] in Had. unfold with_plane.
  destruct stop; [|by split; [|right]]. split; [rewrite stop_local; exact El|].
  unfold tm_agent_udp_stop. destruct (_ && _ && _) eqn:E; [|by left]. left. cbn in E |- *. zb.
  destruct E as [[E _] _]. by destruct (udp_ssl p); [destruct E|].
Qed.

(** C23: A datagram and its answer keep their flow.  An envelope of the broker is handed
    to the local service unchanged, once, on the socket of its flow, which is opened if
    it is new; an answer on that socket is queued for the broker, unchanged, in an
    envelope with the same flow id, and nothing else is sent. *)
Theorem agent_flow_roundtrip es fid payload reply :
  let a := handle_events es agent_udp_new in
  let b := handle_broker_env fid payload a in
  in_width 64 fid -> fid <> 0 -> blen payload <= u32 (udp_max_datagram_size cfg) ->
  is_Some (flow_find a fid) \/ (blen (udp_flows a) < udp_max_flows cfg /\ connect_ok (opens a) = true) ->
  to_local b = to_local a ++ [(fid, payload)] /\ pl b = pl a /\
  exists f, flow_find b fid = Some f /\
    (udp_authed (pl b) = true -> is_Some (udp_ssl (pl b)) -> rate_ok f (clock (ticks b)) = true ->
     blen reply <= size_of (udp_max_datagram_size cfg) ->
     queue_refuses (udp_max_datagram_size cfg) (tm_env_encode fid 0 reply) (pl b) = false ->
     let c := flow_recv_cb fid (Some reply) b in
     to_local c = to_local b /\
     (udp_ssl (pl c) = None \/ admitted (pl c) = admitted (pl b) ++ [tm_env_encode fid 0 reply]) /\
     tm_env_decode (tm_env_encode fid 0 reply) = Some (fid, 0, reply)).
Proof.
  intros a b Hw Hz Hl Hf. destruct (env_forwarded fid payload a Hz Hl Hf) as (E1 & E2 & [f Ef]).
  split_and!; [done|done|]. exists f. split; [done|]. intros Ha Hs Hr Hrl Hq.
  destruct (reply_queued fid reply f b) as [R1 R2]; try done.
  { apply handle_env_ok, events_ok, agent_new_ok. }
  split_and!; [done|done|]. apply env_decode_encode; [done|]. split; vm_compute; done.
Qed.

End Agent.
End AgentUdp.

(** ** A concrete run *)

Module AgentUdpSample.
Import ClientSample.

(** The agent authenticates. *)
Definition agent_events : list AgentUdp.agent_event :=
  [AgentUdp.A_START (Some fresh); AgentUdp.A_RECV [1]; AgentUdp.A_RECV auth_ok].

Lemma agent_flow_roundtrip_witness :
  let a := AgentUdp.handle_events AgentCfg.sample_cfg clock sockets agent_events AgentUdp.agent_udp_new in
  let b := AgentUdp.handle_broker_env AgentCfg.sample_cfg clock sockets 5 [1; 2] a in
  AgentUdp.to_local b = [(5, [1; 2])] /\ udp_authed (AgentUdp.pl a) = true.
Proof.
  intros a b. split; [|vm_compute; reflexivity].
  exact (proj1 (AgentUdp.agent_flow_roundtrip AgentCfg.sample_cfg clock sockets agent_events 5 [1; 2] [3]
    ltac:(split; vm_compute; done) ltac:(done) ltac:(vm_compute; done)
    ltac:(right; split; vm_compute; done))).
Defined.

End AgentUdpSample.
