(* ===== verification/PeerUdp.v ===== *)
(** * The UDP plane of the peer

    src/peer/src/udp.c over the plane of ClientUdp.v: the source addresses of the local
    application are mapped to flow ids of the peer's own, and the peer reconnects by
    itself. *)

From S2P Require Import Prelude.
From S2P Require Import Wire.
From S2P Require Import Net.
From S2P Require Import Udp.
From S2P Require Import ClientCfg.
From S2P Require Import ClientUdp.

#[local] Arguments Z.of_nat : simpl never.

Module PeerUdp.
Import PeerCfg.

Section Peer.
Context `{DTLSClient} (cfg : tm_peer_cfg) (clock : nat -> Z).

Record tm_pflow := PFlow { flow_id : Z; src : sockaddr; last_seen_ms : Z }.
#[global] Instance eta_pflow : Eta tm_pflow := settable! PFlow <flow_id; src; last_seen_ms>.

(** [to_local] are the datagrams sent to the local application; [reconnect_in] is the
    delay the reconnect timer was last started with. *)
Record peer_udp := PeerPlane {
  pl : plane;
  udp_flows : list tm_pflow;
  next_flow_id : Z;
  broker_udp : handle;
  local_udp : handle;
  udp_timer : handle;
  udp_flow_timer : handle;
  reconnect_timer : handle;
  reconnect_delay_ms : Z;
  reconnect_in : option Z;
  shutting_down : bool;
  ticks : nat;
  to_local : list (sockaddr * bytes);
  fault : bool;
}.
#[global] Instance eta_peer_udp : Eta peer_udp :=
  settable! PeerPlane <pl; udp_flows; next_flow_id; broker_udp; local_udp; udp_timer; udp_flow_timer;
    reconnect_timer; reconnect_delay_ms; reconnect_in; shutting_down; ticks; to_local; fault>.

(** [memset(&peer, 0, sizeof(peer))] *)
Definition peer_udp_new : peer_udp :=
  PeerPlane plane_new [] 0 H_NONE H_NONE H_NONE H_NONE H_NONE 0 None false 0 [] false.

Definition tm_now_ms (p : peer_udp) : Z * peer_udp := (clock (ticks p), p <| ticks ::= S |>).

Definition uv_close_if_open (h : handle) : handle :=
  match h with H_LIVE => H_CLOSING | h => h end.
(** Initialising a handle that libuv still holds. *)
Definition init_fault (h : handle) : bool := match h with H_NONE => false | _ => true end.

(** *** Flows *)

Definition flow_find (fs : list tm_pflow) (fid : Z) : option tm_pflow :=
  List.find (fun f => flow_id f =? fid) fs.
Definition flow_find_src (fs : list tm_pflow) (addr : sockaddr) : option tm_pflow :=
  List.find (fun f => tm_addr_eq (Some (src f)) (Some addr)) fs.

(** One round of the loop: the id tried and the counter after it. *)
Definition try_id (next : Z) : Z * Z :=
  let id := next in
  let next := u64 (next + 1) in
  if id =? 0 then (next, u64 (next + 1)) else (id, next).

Fixpoint flow_id_new_n (fuel : nat) (fs : list tm_pflow) (next : Z) : option (Z * Z) :=
  match fuel with
  | O => None
  | S fuel' =>
      let '(id, next) := try_id next in
      match flow_find fs id with
      | Some _ => flow_id_new_n fuel' fs next
      | None => Some (id, next)
      end
  end.
Definition flow_id_new (fs : list tm_pflow) (next : Z) : Z * Z :=
  default (0, next) (flow_id_new_n (S (length fs)) fs next).

Definition seen (fid now : Z) : list tm_pflow -> list tm_pflow :=
  map (fun f => if flow_id f =? fid then f <| last_seen_ms := now |> else f).

(** *** Stopping and starting *)

(** The delay of the next attempt, with its jitter. *)
Definition jittered (d now : Z) : Z :=
  let jitter := d / 5 in u64 (d + u64 (now mod (2 * jitter + 1) - jitter)).

Definition tm_peer_udp_stop (p : peer_udp) : peer_udp :=
  if negb (bool_decide (is_Some (udp_ssl (pl p)))) && (blen (udp_flows p) =? 0) &&
     (udp_outq_cap (pl p) =? 0)
  then p
  else
    let p := p <| broker_udp ::= uv_close_if_open |> <| local_udp ::= uv_close_if_open |>
               <| udp_flows := [] |> <| pl ::= fun q => plane_stop q <| udp_closing := true |> |> in
    if shutting_down p then p
    else
      let d := u64 (reconnect_delay_ms p * 2) in
      let d := if u64 (reconnect_max_delay_ms cfg) <? d then u64 (reconnect_max_delay_ms cfg) else d in
      let '(now, p) := tm_now_ms (p <| reconnect_delay_ms := d |>) in
      p <| fault := fault p || init_fault (reconnect_timer p) |> <| reconnect_timer := H_LIVE |>
        <| reconnect_in := Some (jittered d now) |>.

Definition with_plane (r : bool * plane) (p : peer_udp) : peer_udp :=
  let '(stop, q) := r in
  let p := p <| pl := q |> in
  if stop then tm_peer_udp_stop p else p.

(** How far [tm_peer_udp_start] gets: the local address cannot be resolved or bound,
    the broker's cannot be resolved, no session can be made, or [x] is the session. *)
Inductive start_result := BAD_LISTEN | BIND_FAILED | BAD_BROKER | NO_SESSION | STARTED (x : SSL).

Definition tm_peer_udp_start (r : start_result) (p : peer_udp) : peer_udp :=
  if bool_decide (is_Some (udp_ssl (pl p))) || shutting_down p then p
  else
    let p := p <| fault := fault p || init_fault (local_udp p) |> <| local_udp := H_LIVE |> in
    match r with
    | BAD_LISTEN => p
    | BIND_FAILED => p <| local_udp := H_CLOSING |>
    | _ =>
        let p := p <| fault := fault p || init_fault (broker_udp p) |> <| broker_udp := H_LIVE |> in
        match r with
        | NO_SESSION => p <| broker_udp := H_CLOSING |>
        | STARTED x =>
            let p := p <| fault := fault p || init_fault (udp_flow_timer p) || init_fault (udp_timer p) |>
                       <| udp_flow_timer := H_LIVE |> <| udp_timer := H_LIVE |> in
            let '(_, x) := SSL_connect x in
            with_plane (pump_out (pl p <| udp_closing := false |> <| udp_ssl := Some x |>)) p
        | _ => p
        end
    end.

Definition udp_reconnect (r : start_result) (p : peer_udp) : peer_udp :=
  if shutting_down p then p
  else tm_peer_udp_start r (p <| reconnect_timer ::= uv_close_if_open |>).

(** *** Traffic *)

(** A new flow for an address that has none. *)
Definition add_flow (addr : sockaddr) (p : peer_udp) : Z * peer_udp :=
  let '(fid, next) := flow_id_new (udp_flows p) (next_flow_id p) in
  let '(now, p) := tm_now_ms (p <| next_flow_id := next |>) in
  (fid, p <| udp_flows ::= cons (PFlow fid addr now) |>).

(** The datagram of a flow that is in the table. *)
Definition send_flow (fid : Z) (data : bytes) (p : peer_udp) : peer_udp :=
  let '(now, p) := tm_now_ms p in
  let p := p <| udp_flows ::= seen fid now |> in
  with_plane (udp_queue (udp_max_datagram_size cfg) (tm_env_encode fid 0 data) (pl p)) p.

Definition local_recv_cb (addr : sockaddr) (nread : option bytes) (p : peer_udp) : peer_udp :=
  match nread with
  | None => p
  | Some data =>
      if udp_closing (pl p) || negb (udp_authed (pl p)) then p
      else if size_of (udp_max_datagram_size cfg) <? blen data then p
      else match flow_find_src (udp_flows p) addr with
           | Some f => send_flow (flow_id f) data p
           | None =>
               if udp_max_flows cfg <=? blen (udp_flows p) then p
               else let '(fid, p) := add_flow addr p in send_flow fid data p
           end
  end.

Definition handle_broker_env (fid : Z) (payload : bytes) (p : peer_udp) : peer_udp :=
  if fid =? 0 then p
  else if u32 (udp_max_datagram_size cfg) <? blen payload then p
  else match flow_find (udp_flows p) fid with
       | None => p
       | Some f =>
           let '(now, p) := tm_now_ms p in
           p <| udp_flows ::= seen fid now |> <| to_local ::= fun l => l ++ [(src f, payload)] |>
       end.

Definition flow_sweep_cb (p : peer_udp) : peer_udp :=
  let '(now, p) := tm_now_ms p in
  p <| udp_flows ::= List.filter
         (fun f => negb (u64 (udp_flow_idle_timeout_ms cfg) <? u64 (now - last_seen_ms f))) |>.

Definition keepalive_cb (p : peer_udp) : peer_udp :=
  if udp_closing (pl p) || negb (udp_authed (pl p)) then p
  else with_plane (udp_queue (udp_max_datagram_size cfg) (tm_env_encode 0 0 []) (pl p)) p.

Fixpoint read_envs (fuel : nat) (x : SSL) (p : peer_udp) : option (bool * peer_udp) :=
  match fuel with
  | O => None
  | S fuel' =>
      let '(r, x) := SSL_read x in
      let p := p <| pl ::= fun q => q <| udp_ssl := Some x |> |> in
      match r with
      | None => Some (true, p)
      | Some d =>
          match tm_env_decode d with
          | None => read_envs fuel' x p
          | Some (fid, flags, payload) =>
              if flags =? TM_ENV_FLAG_AUTH_OK
              then read_envs fuel' x (p <| pl ::= fun q => q <| udp_authed := true |> |>)
              else if flags =? TM_ENV_FLAG_AUTH_ERR then Some (false, tm_peer_udp_stop p)
              else if flags =? 0 then read_envs fuel' x (handle_broker_env fid payload p)
              else read_envs fuel' x p
          end
      end
  end.

Definition udp_recv_cb (data : bytes) (p : peer_udp) : peer_udp :=
  if (blen data =? 0) || udp_closing (pl p) then p
  else match udp_ssl (pl p) with
       | None => p <| fault := true |>
       | Some x =>
           let x := BIO_write x data in
           let p := p <| pl ::= fun q => q <| udp_ssl := Some x |> |> in
           if negb (SSL_is_init_finished x)
           then with_plane (handshake (udp_max_datagram_size cfg) (token cfg) x (pl p)) p
           else
             let '(go_on, p) := default (false, p) (read_envs (S (unread x)) x p) in
             if go_on then with_plane (pump_out (pl p)) p else p
       end.

(** [tm_peer_shutdown] in UDP mode, without the TCP listener and its sessions. *)
Definition udp_shutdown (p : peer_udp) : peer_udp :=
  if shutting_down p then p else tm_peer_udp_stop (p <| shutting_down := true |>).

Inductive peer_event :=
  | P_LOCAL (addr : sockaddr) (nread : option bytes) | P_RECV (data : bytes) | P_SWEEP | P_KEEPALIVE
  | P_START (r : start_result) | P_RECONNECT (r : start_result) | P_SHUTDOWN | P_CLOSED.

(** Sockets deliver while they are open, and the reconnect timer fires once. *)
Definition handle_event (e : peer_event) (p : peer_udp) : peer_udp :=
  match e with
  | P_LOCAL addr r => match local_udp p with H_LIVE => local_recv_cb addr r p | _ => p end
  | P_RECV d => match broker_udp p with H_LIVE => udp_recv_cb d p | _ => p end
  | P_SWEEP => flow_sweep_cb p
  | P_KEEPALIVE => keepalive_cb p
  | P_START r => tm_peer_udp_start r p
  | P_RECONNECT r => match reconnect_timer p with H_LIVE => udp_reconnect r p | _ => p end
  | P_SHUTDOWN => udp_shutdown p
  | P_CLOSED =>
      let f h := match h with H_CLOSING => H_NONE | h => h end in
      p <| broker_udp ::= f |> <| local_udp ::= f |> <| reconnect_timer ::= f |>
  end.
Definition handle_events (es : list peer_event) (p : peer_udp) : peer_udp :=
  fold_left (fun p e => handle_event e p) es p.

(** *** Fresh flow ids *)

(** The [k]-th id tried: the counter goes round without 0. *)
Definition nth_id (next : Z) (k : nat) : Z :=
  1 + ((if next =? 0 then 0 else next - 1) + Z.of_nat k) mod (2 ^ 64 - 1).

Lemma try_id_range next : 0 <= next < 2 ^ 64 ->
  0 < (try_id next).1 < 2 ^ 64 /\ 0 <= (try_id next).2 < 2 ^ 64 /\ (try_id next).1 = nth_id next 0.
Proof.
  intros Hn. unfold try_id, nth_id. rewrite Z.add_0_r.
  destruct (Z.eqb_spec next 0) as [->|Hz]; [done|]. cbn [fst snd].
  pose proof (wrap_range 64 (next + 1) ltac:(lia)) as Hw. unfold in_width in Hw.
  rewrite Z.mod_small by lia. lia.
Qed.

Lemma nth_id_next next k : 0 <= next < 2 ^ 64 -> nth_id (try_id next).2 k = nth_id next (S k).
Proof.
  intros Hn. unfold try_id. destruct (Z.eqb_spec next 0) as [->|Hz]; cbn [snd].
  { change (u64 (u64 (0 + 1) + 1)) with 2. unfold nth_id. cbn [Z.eqb]. do 2 f_equal. lia. }
  unfold nth_id. rewrite (proj2 (Z.eqb_neq next 0)) by done.
  destruct (Z.eq_dec next (2 ^ 64 - 1)) as [->|Hm].
  - change (u64 (2 ^ 64 - 1 + 1)) with 0. cbn [Z.eqb].
    replace (2 ^ 64 - 1 - 1 + Z.of_nat (S k)) with (0 + Z.of_nat k + 1 * (2 ^ 64 - 1)) by lia.
    rewrite Z.mod_add by lia. done.
  - rewrite (wrap_small 64 (next + 1)) by (unfold in_width; lia).
    rewrite (proj2 (Z.eqb_neq (next + 1) 0)) by lia. do 2 f_equal. lia.
Qed.

Lemma nth_id_inj next i j : 0 <= next < 2 ^ 64 -> (i < j)%nat -> Z.of_nat j < 2 ^ 64 - 1 ->
  nth_id next i <> nth_id next j.
Proof.
  intros Hn Hij Hj. unfold nth_id. set (c := if next =? 0 then 0 else next - 1).
  assert (0 <= c) as Hc by (subst c; cm; lia). clearbody c. intros E.
  assert ((c + Z.of_nat i) mod (2 ^ 64 - 1) = (c + Z.of_nat j) mod (2 ^ 64 - 1)) as E' by lia.
  pose proof (Z.div_mod (c + Z.of_nat i) (2 ^ 64 - 1) ltac:(lia)).
  pose proof (Z.div_mod (c + Z.of_nat j) (2 ^ 64 - 1) ltac:(lia)).
  assert ((c + Z.of_nat j) / (2 ^ 64 - 1) = (c + Z.of_nat i) / (2 ^ 64 - 1)); nia.
Qed.

Lemma flow_id_new_n_none fuel : forall fs next, 0 <= next < 2 ^ 64 -> flow_id_new_n fuel fs next = None ->
  forall k, (k < fuel)%nat -> In (nth_id next k) (map flow_id fs).
Proof.
  induction fuel as [|fuel IH]; intros fs next Hn E k Hk; [lia|]. cbn [flow_id_new_n] in E.
  pose proof (try_id_range next Hn) as (_ & Hr & Hfst). pose proof (nth_id_next next) as Hnx.
  destruct (try_id next) as [id nx]. cbn [fst snd] in *.
  destruct (flow_find fs id) as [f|] eqn:Ef; [|done].
  apply find_some_in in Ef as [Hi Hid]. zb. destruct k as [|k].
  - rewrite <- Hfst, <- Hid. by apply in_map.
  - rewrite <- Hnx by done. apply IH; [done|done|lia].
Qed.

Lemma flow_id_new_n_some fuel : forall fs next id nx, 0 <= next < 2 ^ 64 ->
  flow_id_new_n fuel fs next = Some (id, nx) ->
  0 < id < 2 ^ 64 /\ 0 <= nx < 2 ^ 64 /\ ~ In id (map flow_id fs).
Proof.
  induction fuel as [|fuel IH]; intros fs next id nx Hn E; [done|]. cbn [flow_id_new_n] in E.
  pose proof (try_id_range next Hn) as (Hi & Hr & _). destruct (try_id next) as [id' nx']. cbn [fst snd] in *.
  destruct (flow_find fs id') as [f|] eqn:Ef; [by eapply IH|]. simplify_eq. split_and!; try lia.
  intros Hin. apply in_map_iff in Hin as (f & Hf & Hin).
  pose proof (proj1 (find_none_all _ _) Ef f Hin) as Hx. cbn in Hx. zb. done.
Qed.

(** A free id is found before the counter comes round. *)
Lemma flow_id_new_ok fs next : 0 <= next < 2 ^ 64 -> blen fs < 2 ^ 64 - 1 ->
  let '(id, nx) := flow_id_new fs next in
  0 < id < 2 ^ 64 /\ 0 <= nx < 2 ^ 64 /\ ~ In id (map flow_id fs).
Proof.
  intros Hn Hl. unfold flow_id_new. destruct (flow_id_new_n _ fs next) as [[id nx]|] eqn:E;
    [by eapply flow_id_new_n_some|]. exfalso.
  assert (NoDup (map (nth_id next) (seq 0 (S (length fs))))) as Hd.
  { apply NoDup_fmap_2_strong; [|apply NoDup_seq].
    intros i j Hi Hj Eij. apply elem_of_seq in Hi, Hj. unfold blen in Hl.
    destruct (Nat.lt_trichotomy i j) as [?|[?|?]]; [|done|]; exfalso.
    - eapply (nth_id_inj next i j); eauto; lia.
    - eapply (nth_id_inj next j i); eauto; lia. }
  assert (incl (map (nth_id next) (seq 0 (S (length fs)))) (map flow_id fs)) as Hi.
  { intros id Hid. apply in_map_iff in Hid as (k & <- & Hk). apply in_seq in Hk.
    eapply flow_id_new_n_none; eauto; lia. }
  apply (NoDup_incl_length (proj1 (NoDup_ListNoDup _) Hd)) in Hi. rewrite !length_map, length_seq in Hi. lia.
Qed.

(** *** The invariant *)

Context (Hmax : udp_max_flows cfg < 2 ^ 63).

Definition auth_req : bytes := tm_env_encode 0 TM_ENV_FLAG_AUTH_REQ (token cfg).

(** Flows of the table are told apart by their address. *)
Definition srcs_ok (fs : list tm_pflow) : Prop :=
  forall f g, In f fs -> In g fs -> tm_addr_eq (Some (src f)) (Some (src g)) = true -> flow_id f = flow_id g.

Record peer_ok (p : peer_udp) : Prop := {
  pr_plane : plane_ok (udp_max_datagram_size cfg) (pl p);
  pr_ids : NoDup (map flow_id (udp_flows p));
  pr_nz : Forall (fun f => 0 < flow_id f < 2 ^ 64) (udp_flows p);
  pr_src : srcs_ok (udp_flows p);
  pr_count : blen (udp_flows p) <= Z.max 0 (udp_max_flows cfg);
  pr_next : 0 <= next_flow_id p < 2 ^ 64;
  pr_auth : udp_authed (pl p) = false -> Forall (eq auth_req) (admitted (pl p));
  pr_delay : reconnect_delay_ms p = 0;
  pr_in : forall d, reconnect_in p = Some d -> d = 0;
}.

Lemma addr_eq_sym x y : tm_addr_eq (Some x) (Some y) = tm_addr_eq (Some y) (Some x).
Proof.
  destruct x, y; cbn; try done; rewrite (Z.eqb_sym sin_port) || rewrite (Z.eqb_sym sin6_port).
  - by rewrite (Z.eqb_sym s_addr).
  - f_equal. by apply bool_decide_ext.
Qed.

Lemma peer_set_plane_ok q p : peer_ok p -> plane_ok (udp_max_datagram_size cfg) q ->
  (udp_authed q = false -> Forall (eq auth_req) (admitted q)) -> peer_ok (p <| pl := q |>).
Proof. intros [] Hq Ha. by constructor. Qed.

Lemma peer_flows_ok fs p : peer_ok p -> NoDup (map flow_id fs) -> Forall (fun f => 0 < flow_id f < 2 ^ 64) fs ->
  srcs_ok fs -> blen fs <= Z.max 0 (udp_max_flows cfg) -> peer_ok (p <| udp_flows := fs |>).
Proof. intros [] Hn Hz Hs Hc. by constructor. Qed.

Lemma peer_tick_ok p : peer_ok p -> peer_ok (tm_now_ms p).2.
Proof. intros []. by constructor. Qed.

(** With a zero delay the jitter is zero too. *)
Lemma jittered_zero now : jittered 0 now = 0.
Proof. unfold jittered. cbn. by rewrite Z.mod_1_r. Qed.

Lemma peer_stop_ok p : peer_ok p -> peer_ok (tm_peer_udp_stop p).
Proof.
  intros Hok. unfold tm_peer_udp_stop. destruct (_ && _ && _); [done|].
  set (u := p <| broker_udp ::= _ |> <| local_udp ::= _ |> <| udp_flows := [] |> <| pl ::= _ |>).
  assert (peer_ok u) as Hu.
  { destruct Hok. constructor; cbn; try done;
      [|apply NoDup_nil_2|intros ? ? []|change (blen []) with 0; lia].
    destruct (plane_stop_ok (udp_max_datagram_size cfg) (pl p)) as [ps []]. exists ps. by constructor. }
  clearbody u. cbv zeta. destruct (shutting_down u); [done|].
  assert (u64 (reconnect_delay_ms u * 2) = 0) as -> by by rewrite (pr_delay _ Hu).
  assert ((if u64 (reconnect_max_delay_ms cfg) <? 0 then u64 (reconnect_max_delay_ms cfg) else 0) = 0) as ->.
  { pose proof (wrap_range 64 (reconnect_max_delay_ms cfg) ltac:(lia)) as Hw. unfold in_width in Hw.
    by rewrite (proj2 (Z.ltb_ge _ _)) by lia. }
  destruct Hu. constructor; try done. cbn. intros d [= <-]. apply jittered_zero.
Qed.

Lemma peer_with_plane_ok r p : peer_ok p -> plane_ok (udp_max_datagram_size cfg) r.2 ->
  (udp_authed r.2 = false -> Forall (eq auth_req) (admitted r.2)) -> peer_ok (with_plane r p).
Proof.
  intros Hok Hp Ha. destruct r as [stop q]. pose proof (peer_set_plane_ok q p Hok Hp Ha).
  unfold with_plane. destruct stop; [by apply peer_stop_ok|done].
Qed.

Lemma peer_pump_plane_ok q p : peer_ok p -> plane_ok (udp_max_datagram_size cfg) q ->
  (udp_authed q = false -> Forall (eq auth_req) (admitted q)) -> peer_ok (with_plane (pump_out q) p).
Proof.
  intros Hok Hp Ha. destruct (pump_out_step _ q Hp) as [[S1 S2 _ _] Ho Had].
  apply peer_with_plane_ok; [done|by apply Ho|]. rewrite S1, Had. done.
Qed.

Lemma peer_ssl_ok x p : peer_ok p -> peer_ok (p <| pl ::= fun q => q <| udp_ssl := Some x |> |>).
Proof.
  intros Hok. pose proof Hok as []. apply (peer_set_plane_ok _ p Hok); try done.
  destruct pr_plane0 as [ps []]. exists ps. by constructor.
Qed.

(** Touching a flow keeps ids and addresses. *)
Lemma seen_keys fid now fs : map (fun f => (flow_id f, src f)) (seen fid now fs) = map (fun f => (flow_id f, src f)) fs.
Proof. unfold seen. rewrite map_map. apply map_ext. intros f. by case_match. Qed.

Lemma seen_ids fid now fs : map flow_id (seen fid now fs) = map flow_id fs.
Proof. unfold seen. rewrite map_map. apply map_ext. intros f. by case_match. Qed.

Lemma seen_in f fid now fs : In f (seen fid now fs) -> exists g, In g fs /\ flow_id g = flow_id f /\ src g = src f.
Proof. intros Hi. apply in_map_iff in Hi as (g & <- & Hg). exists g. by case_match. Qed.

Lemma seen_ok fid now p : peer_ok p -> peer_ok (p <| udp_flows ::= seen fid now |>).
Proof.
  intros Hok. pose proof Hok as []. apply (peer_flows_ok _ p Hok).
  - by rewrite seen_ids.
  - apply List.Forall_forall. intros f Hi. apply seen_in in Hi as (g & Hg & <- & _).
    exact (proj1 (List.Forall_forall _ _) pr_nz0 g Hg).
  - intros f g Hf Hg. apply seen_in in Hf as (f' & Hf & <- & <-). apply seen_in in Hg as (g' & Hg & <- & <-). auto.
  - unfold blen, seen in *. by rewrite length_map.
Qed.

Lemma send_flow_ok fid data p : peer_ok p -> udp_authed (pl p) = true -> peer_ok (send_flow fid data p).
Proof.
  intros Hok Ha. unfold send_flow. pose proof (peer_tick_ok p Hok) as Ht. destruct (tm_now_ms p) as [now q] eqn:Eq.
  assert (pl q = pl p) as Epl by (unfold tm_now_ms in Eq; by simplify_eq). cbn [snd] in Ht.
  pose proof (seen_ok fid now q Ht) as Hs. set (r := q <| udp_flows ::= seen fid now |>) in *.
  assert (pl r = pl p) as Er by done. clearbody r. rewrite Er.
  destruct (udp_queue_ok _ (tm_env_encode fid 0 data) (pl p) (pr_plane _ Hok)) as (Q1 & [S1 _ _ _] & _).
  apply peer_with_plane_ok; [done|done|]. rewrite S1, Ha. done.
Qed.

Lemma add_flow_ok addr p : peer_ok p -> flow_find_src (udp_flows p) addr = None ->
  blen (udp_flows p) < udp_max_flows cfg ->
  let '(fid, q) := add_flow addr p in
  peer_ok q /\ pl q = pl p /\ to_local q = to_local p /\
  exists now, udp_flows q = PFlow fid addr now :: udp_flows p.
Proof.
  intros Hok Hn Hc. pose proof Hok as []. unfold add_flow.
  pose proof (flow_id_new_ok (udp_flows p) (next_flow_id p) pr_next0 ltac:(lia)) as Hid.
  destruct (flow_id_new (udp_flows p) (next_flow_id p)) as [fid nx]. destruct Hid as (Hr & Hnx & Hni).
  assert (peer_ok (p <| next_flow_id := nx |>)) as Hp by by constructor.
  pose proof (peer_tick_ok _ Hp) as Ht. set (q := (tm_now_ms (p <| next_flow_id := nx |>)).2) in *.
  change (tm_now_ms (p <| next_flow_id := nx |>)) with (clock (ticks p), q).
  assert (udp_flows q = udp_flows p /\ pl q = pl p /\ to_local q = to_local p) as (Eq & Epl & Etl) by done.
  clearbody q. split_and!; [|done|done|eexists; cbn; by rewrite Eq].
  apply (peer_flows_ok _ q Ht); rewrite Eq.
  - cbn. constructor; [|done]. intros Hi. apply Hni. by apply list_elem_of_In.
  - by constructor.
  - intros f g [<-|Hf] [<-|Hg] E; [done|..|by apply pr_src0]; cbn [src] in E.
    + rewrite addr_eq_sym in E. pose proof (proj1 (find_none_all _ _) Hn g Hg) as Hx. cbv beta in Hx. congruence.
    + pose proof (proj1 (find_none_all _ _) Hn f Hf) as Hx. cbv beta in Hx. congruence.
  - rewrite blen_cons. lia.
Qed.

Lemma local_recv_ok addr r p : peer_ok p -> peer_ok (local_recv_cb addr r p).
Proof.
  intros Hok. unfold local_recv_cb. destruct r as [data|]; [|done].
  destruct (udp_closing (pl p) || negb (udp_authed (pl p))) eqn:Eg; [done|]. zb. destruct Eg as [_ Ha].
  destruct (_ <? blen data); [done|].
  destruct (flow_find_src (udp_flows p) addr) eqn:Ef; [by apply send_flow_ok|].
  destruct (udp_max_flows cfg <=? blen (udp_flows p)) eqn:Ec; [done|]. zb.
  pose proof (add_flow_ok addr p Hok Ef Ec) as Hadd. destruct (add_flow addr p) as [fid q].
  destruct Hadd as (Hq & Epl & _). apply send_flow_ok; [done|by rewrite Epl].
Qed.

Lemma peer_handle_env_ok fid payload p : peer_ok p -> peer_ok (handle_broker_env fid payload p).
Proof.
  intros Hok. unfold handle_broker_env. destruct (fid =? 0); [done|]. destruct (_ <? _); [done|].
  destruct (flow_find _ fid); [|done]. pose proof (peer_tick_ok p Hok) as Ht. destruct (tm_now_ms p) as [now q].
  cbn [snd] in Ht. pose proof (seen_ok fid now q Ht) as []. by constructor.
Qed.

Lemma peer_sweep_ok p : peer_ok p -> peer_ok (flow_sweep_cb p).
Proof.
  intros Hok. unfold flow_sweep_cb. pose proof (peer_tick_ok p Hok) as Ht.
  destruct (tm_now_ms p) as [now q]. cbn [snd] in Ht. pose proof Ht as []. apply (peer_flows_ok _ q Ht).
  - clear -pr_ids0. induction (udp_flows q) as [|f fs IH]; cbn in *; [constructor|].
    apply NoDup_cons in pr_ids0 as [Hn Hd]. case_match; [|by apply IH]. cbn. constructor; [|by apply IH].
    intros Hi. apply Hn. apply list_elem_of_In, in_map_iff in Hi as (g & Hg & Hi). apply filter_In in Hi as [Hi _].
    apply list_elem_of_In, in_map_iff. eauto.
  - apply List.Forall_forall. intros f Hi. apply filter_In in Hi as [Hi _].
    exact (proj1 (List.Forall_forall _ _) pr_nz0 f Hi).
  - intros f g Hf Hg. apply filter_In in Hf as [Hf _], Hg as [Hg _]. auto.
  - etrans; [|exact pr_count0]. unfold blen. pose proof (List.filter_length_le
      (fun f => negb (u64 (udp_flow_idle_timeout_ms cfg) <? u64 (now - last_seen_ms f))) (udp_flows q)). lia.
Qed.

Lemma keepalive_ok p : peer_ok p -> peer_ok (keepalive_cb p).
Proof.
  intros Hok. unfold keepalive_cb. destruct (udp_closing (pl p) || negb (udp_authed (pl p))) eqn:Eg; [done|].
  zb. destruct Eg as [_ Ha].
  destruct (udp_queue_ok _ (tm_env_encode 0 0 []) (pl p) (pr_plane _ Hok)) as (Q1 & [S1 _ _ _] & _).
  apply peer_with_plane_ok; [done|done|]. rewrite S1, Ha. done.
Qed.

Lemma peer_read_envs_ok fuel : forall x p, peer_ok p -> (unread x < fuel)%nat ->
  exists r, read_envs fuel x p = Some r /\ peer_ok r.2.
Proof.
  induction fuel as [|fuel IH]; intros x p Hok Hf; [lia|]. cbn [read_envs].
  destruct (SSL_read x) as [[d|] y] eqn:E; [|eexists; split; [reflexivity|by apply peer_ssl_ok]].
  pose proof (unread_read _ _ _ E). pose proof (peer_ssl_ok y p Hok) as Hb.
  set (b := p <| pl ::= _ |>) in *. clearbody b.
  destruct (tm_env_decode d) as [[[fid flags] payload]|]; [|apply IH; [done|lia]].
  destruct (flags =? TM_ENV_FLAG_AUTH_OK).
  { apply IH; [|lia]. pose proof Hb as []. apply (peer_set_plane_ok _ b Hb); try done.
    destruct pr_plane0 as [ps []]. exists ps. by constructor. }
  destruct (flags =? TM_ENV_FLAG_AUTH_ERR); [eexists; split; [reflexivity|by apply peer_stop_ok]|].
  destruct (flags =? 0); apply IH; try lia; [by apply peer_handle_env_ok|done].
Qed.

Lemma peer_recv_ok d p : peer_ok p -> peer_ok (udp_recv_cb d p).
Proof.
  intros Hok. unfold udp_recv_cb. destruct (_ || _); [done|].
  destruct (udp_ssl (pl p)) as [x|] eqn:Ex; [|destruct Hok; by constructor].
  pose proof (peer_ssl_ok (BIO_write x d) p Hok) as Hb. set (b := p <| pl ::= _ |>) in *.
  assert (udp_ssl (pl b) = Some (BIO_write x d)) as Eb by done. clearbody b. pose proof Hb as [].
  destruct (negb (SSL_is_init_finished (BIO_write x d))).
  - destruct (handshake_ok _ (token cfg) (BIO_write x d) (pl b) pr_plane0 Eb) as (Q1 & [S1 _ _ _] & Q3).
    apply peer_with_plane_ok; [done|done|]. rewrite S1. intros Hau. specialize (pr_auth0 Hau).
    destruct Q3 as [-> | ->]; [done|]. apply Forall_app_2; [done|]. by constructor.
  - destruct (peer_read_envs_ok (S (unread (BIO_write x d))) (BIO_write x d) b Hb) as ([go c] & -> & Hc); [lia|].
    cbn [default snd] in *. destruct go; [|done]. destruct Hc. by apply peer_pump_plane_ok.
Qed.

Lemma peer_start_ok r p : peer_ok p -> peer_ok (tm_peer_udp_start r p).
Proof.
  intros Hok. unfold tm_peer_udp_start. destruct (_ || _); [done|].
  set (b := p <| fault := _ |> <| local_udp := H_LIVE |>). assert (peer_ok b) as Hb by (destruct Hok; by constructor).
  clearbody b. destruct r; try done; [destruct Hb; by constructor..|]. cbv zeta.
  set (c := b <| fault := _ |> <| broker_udp := _ |> <| fault := _ |> <| udp_flow_timer := _ |> <| udp_timer := _ |>).
  assert (peer_ok c) as Hc by (destruct Hb; by constructor). clearbody c.
  destruct (SSL_connect x) as [q y]. pose proof Hc as []. apply peer_pump_plane_ok; [done| |done].
  destruct pr_plane0 as [ps []]. exists ps. by constructor.
Qed.

Lemma peer_new_ok : peer_ok peer_udp_new.
Proof.
  constructor; try done.
  - exact (plane_stop_ok _ plane_new).
  - apply NoDup_nil_2.
  - intros ? ? [].
  - change (blen (udp_flows peer_udp_new)) with 0. lia.
Qed.

Lemma peer_events_ok es : forall p, peer_ok p -> peer_ok (handle_events es p).
Proof.
  induction es as [|e es IH]; intros p Hok; [done|]. cbn. apply IH. destruct e; cbn.
  - destruct (local_udp p); [done|by apply local_recv_ok|done].
  - destruct (broker_udp p); [done|by apply peer_recv_ok|done].
  - by apply peer_sweep_ok.
  - by apply keepalive_ok.
  - by apply peer_start_ok.
  - destruct (reconnect_timer p); [done| |done]. unfold udp_reconnect. case_match; [done|].
    apply peer_start_ok. destruct Hok. by constructor.
  - unfold udp_shutdown. case_match; [done|]. apply peer_stop_ok. destruct Hok. by constructor.
  - destruct Hok. by constructor.
Qed.

(** C26: Whatever the broker, the local applications and the timers do, the peer's plane
    keeps its tables in order: flow ids are distinct 64-bit numbers and never 0, no two
    flows belong to the same address, there are at most [udp_max_flows] flows, the
    outbound queue is a FIFO of at most 256 whole envelopes, and until the broker has
    confirmed the token nothing but the authentication request is queued. *)
Theorem peer_udp_in_order es :
  let p := handle_events es peer_udp_new in
  NoDup (map flow_id (udp_flows p)) /\ Forall (fun f => 0 < flow_id f < 2 ^ 64) (udp_flows p) /\
  (forall f g, In f (udp_flows p) -> In g (udp_flows p) ->
     tm_addr_eq (Some (src f)) (Some (src g)) = true -> flow_id f = flow_id g) /\
  blen (udp_flows p) <= Z.max 0 (udp_max_flows cfg) /\
  (exists ps, admitted (pl p) = written (pl p) ++ ps /\ blen ps <= 256 /\
     drop (Z.to_nat (udp_outq_off (pl p))) (udp_outq (pl p)) = queue_bytes ps) /\
  (udp_authed (pl p) = false -> Forall (eq auth_req) (admitted (pl p))).
Proof.
  destruct (peer_events_ok es _ peer_new_ok) as [[ps []] ? ? ? ? ? ? ? ?]. cbv zeta. split_and!; try done. by exists ps.
Qed.

(** The back-off of the peer never takes effect.  The delay is never initialised
    from the settings, doubling leaves it 0, and so does the jitter: in every state the
    next attempt is scheduled at once. *)
Theorem peer_never_backs_off es :
  let p := handle_events es peer_udp_new in
  reconnect_delay_ms p = 0 /\ forall d, reconnect_in p = Some d -> d = 0.
Proof. destruct (peer_events_ok es _ peer_new_ok) as [? ? ? ? ? ? ? ? ?]. done. Qed.

(** *** A datagram and its answer *)

Lemma flow_find_in fs f : NoDup (map flow_id fs) -> In f fs -> flow_find fs (flow_id f) = Some f.
Proof.
  induction fs as [|g fs IH]; cbn; [done|]. intros Hd Hi. apply NoDup_cons in Hd as [Hn Hd].
  destruct Hi as [->|Hi]; [by rewrite Z.eqb_refl|].
  rewrite (proj2 (Z.eqb_neq _ _)); [by apply IH|]. intros E. apply Hn. rewrite E.
  apply list_elem_of_In. by apply in_map.
Qed.

Lemma reply_returned f reply p : peer_ok p -> In f (udp_flows p) ->
  blen reply <= u32 (udp_max_datagram_size cfg) ->
  to_local (handle_broker_env (flow_id f) reply p) = to_local p ++ [(src f, reply)].
Proof.
  intros Hok Hi Hl. pose proof Hok as []. unfold handle_broker_env.
  pose proof (proj1 (List.Forall_forall _ _) pr_nz0 f Hi) as Hz. cbv beta in Hz.
  rewrite (proj2 (Z.eqb_neq _ _)), (proj2 (Z.ltb_ge _ _)) by lia. by rewrite flow_find_in.
Qed.

Lemma env_len fid data : blen (tm_env_encode fid 0 data) = 11 + blen data.
Proof. unfold tm_env_encode. rewrite !blen_app. change (blen (wr_u16 11)) with 2.
  change (blen (wr_u64 fid)) with 8. change (blen [u8 0]) with 1. lia. Qed.

(** What sending does to the table and the queue, unless the engine failed. *)
Lemma send_flow_spec f data p : peer_ok p -> In f (udp_flows p) -> udp_closing (pl p) = false ->
  is_Some (udp_ssl (pl p)) -> queue_refuses (udp_max_datagram_size cfg) (tm_env_encode (flow_id f) 0 data) (pl p) = false ->
  let b := send_flow (flow_id f) data p in
  udp_ssl (pl b) = None \/
  (exists g, In g (udp_flows b) /\ flow_id g = flow_id f /\ src g = src f) /\
  admitted (pl b) = admitted (pl p) ++ [tm_env_encode (flow_id f) 0 data].
Proof.
  intros Hok Hi Hc Hs Hq. unfold send_flow, tm_now_ms. cbv beta iota zeta.
  set (q := p <| ticks ::= S |> <| udp_flows ::= seen _ _ |>).
  assert (pl q = pl p) as Epl by done.
  assert (exists g, In g (udp_flows q) /\ flow_id g = flow_id f /\ src g = src f) as Hg.
  { exists (f <| last_seen_ms := clock (ticks p) |>). split; [|done].
    change (udp_flows q) with (seen (flow_id f) (clock (ticks p)) (udp_flows p)).
    apply in_map_iff. exists f. by rewrite Z.eqb_refl. }
  clearbody q. rewrite Epl.
  destruct (udp_queue_ok _ (tm_env_encode (flow_id f) 0 data) (pl p) (pr_plane _ Hok)) as (_ & _ & Had).
  rewrite Hq, Hc in Had. destruct Hs as [x Hx]. rewrite Hx in Had. cbn [orb] in Had.
  destruct (udp_queue _ _ (pl p)) as [stop r]. cbn [snd] in Had. unfold with_plane.
  destruct stop; [|right; by split]. left.
  unfold tm_peer_udp_stop. destruct (_ && _ && _) eqn:E.
  - cbn in E |- *. zb. destruct E as [[E _] _]. by destruct (udp_ssl r); [destruct E|].
  - cbv zeta. by destruct (shutting_down _).
Qed.

(** C24: A local application gets the answers to its own datagrams.  A datagram from an
    address is queued for the broker, unchanged, under the flow of that address, which
    is made if it is new; and an answer the broker sends on this flow is handed to that
    address, unchanged, once. *)
Theorem peer_reply_returns es addr data reply :
  let p := handle_events es peer_udp_new in
  let b := local_recv_cb addr (Some data) p in
  udp_authed (pl p) = true -> udp_closing (pl p) = false -> is_Some (udp_ssl (pl p)) ->
  blen data <= size_of (udp_max_datagram_size cfg) ->
  queue_refuses (udp_max_datagram_size cfg) (tm_env_encode 1 0 data) (pl p) = false ->
  is_Some (flow_find_src (udp_flows p) addr) \/ blen (udp_flows p) < udp_max_flows cfg ->
  udp_ssl (pl b) = None \/
  exists f, In f (udp_flows b) /\ (src f = addr \/ tm_addr_eq (Some (src f)) (Some addr) = true) /\
    admitted (pl b) = admitted (pl p) ++ [tm_env_encode (flow_id f) 0 data] /\
    (blen reply <= u32 (udp_max_datagram_size cfg) ->
     to_local (handle_broker_env (flow_id f) reply b) = to_local b ++ [(src f, reply)]).
Proof.
  intros p b Ha Hc Hs Hl Hq Hf.
  assert (peer_ok p) as Hok by apply peer_events_ok, peer_new_ok.
  assert (peer_ok b) as Hb by by apply local_recv_ok.
  assert (forall fid, queue_refuses (udp_max_datagram_size cfg) (tm_env_encode fid 0 data) (pl p) = false) as Hqa.
  { intros fid. revert Hq. unfold queue_refuses. by rewrite !env_len. }
  assert (forall f q, peer_ok q -> pl q = pl p -> In f (udp_flows q) -> b = send_flow (flow_id f) data q ->
    (src f = addr \/ tm_addr_eq (Some (src f)) (Some addr) = true) ->
    udp_ssl (pl b) = None \/ exists f, In f (udp_flows b) /\
      (src f = addr \/ tm_addr_eq (Some (src f)) (Some addr) = true) /\
      admitted (pl b) = admitted (pl p) ++ [tm_env_encode (flow_id f) 0 data] /\
      (blen reply <= u32 (udp_max_datagram_size cfg) ->
       to_local (handle_broker_env (flow_id f) reply b) = to_local b ++ [(src f, reply)])) as Hgo.
  { intros f q Hq' Epl Hi E Hsrc. rewrite <- Epl in Hc, Hs. specialize (Hqa (flow_id f)). rewrite <- Epl in Hqa.
    destruct (send_flow_spec f data q Hq' Hi Hc Hs Hqa) as [Hx|[(g & Hg & Eg & Egs) Had]]; rewrite <- E in *; [by left|].
    right. exists g. rewrite Eg, Egs, <- Epl. split_and!; try done.
    intros Hrl. pose proof (reply_returned g reply b Hb Hg Hrl) as Hr. by rewrite Eg, Egs in Hr. }
  unfold b in *. unfold local_recv_cb in *. rewrite Hc, Ha in *. cbn [orb negb] in *.
  rewrite (proj2 (Z.ltb_ge _ _)) in * by done.
  destruct (flow_find_src (udp_flows p) addr) as [f|] eqn:Ef.
  - apply find_some_in in Ef as [Hi Ee]. apply (Hgo f p); auto.
  - destruct Hf as [[? ?]|Hn]; [done|]. rewrite (proj2 (Z.leb_gt _ _)) in * by done.
    pose proof (add_flow_ok addr p Hok Ef Hn) as Hadd. destruct (add_flow addr p) as [fid q].
    destruct Hadd as (Hq' & Epl & _ & now & Eq). apply (Hgo (PFlow fid addr now) q); auto. rewrite Eq. by left.
Qed.

End Peer.
End PeerUdp.

(** ** Concrete runs *)

Module PeerUdpSample.
Import ClientSample.

Definition peer_cfg : PeerCfg.tm_peer_cfg := PeerCfg.main_defaults <| PeerCfg.token := [7; 7] |>.
Definition app : sockaddr := AF_INET 6000 2.

(** The peer authenticates. *)
Definition peer_events : list PeerUdp.peer_event :=
  [PeerUdp.P_START (PeerUdp.STARTED fresh); PeerUdp.P_RECV [1]; PeerUdp.P_RECV auth_ok].

Lemma peer_max : PeerCfg.udp_max_flows peer_cfg < 2 ^ 63.
Proof. vm_compute. reflexivity. Defined.

Lemma peer_udp_in_order_witness :
  let p := PeerUdp.handle_events peer_cfg clock
    (peer_events ++ [PeerUdp.P_LOCAL app (Some [104; 105])]) PeerUdp.peer_udp_new in
  length (PeerUdp.udp_flows p) = 1%nat /\ NoDup (map PeerUdp.flow_id (PeerUdp.udp_flows p)).
Proof.
  intros p. split; [vm_compute; reflexivity|].
  exact (proj1 (PeerUdp.peer_udp_in_order peer_cfg clock peer_max
    (peer_events ++ [PeerUdp.P_LOCAL app (Some [104; 105])]))).
Defined.

Lemma peer_reply_returns_witness :
  let p := PeerUdp.handle_events peer_cfg clock peer_events PeerUdp.peer_udp_new in
  let b := PeerUdp.local_recv_cb peer_cfg clock app (Some [104; 105]) p in
  udp_ssl (PeerUdp.pl b) = None \/
  exists f, In f (PeerUdp.udp_flows b) /\
    (PeerUdp.src f = app \/ tm_addr_eq (Some (PeerUdp.src f)) (Some app) = true) /\
    admitted (PeerUdp.pl b) = admitted (PeerUdp.pl p) ++ [tm_env_encode (PeerUdp.flow_id f) 0 [104; 105]] /\
    (blen [104] <= u32 (PeerCfg.udp_max_datagram_size peer_cfg) ->
     PeerUdp.to_local (PeerUdp.handle_broker_env peer_cfg clock (PeerUdp.flow_id f) [104] b) =
     PeerUdp.to_local b ++ [(PeerUdp.src f, [104])]).
Proof.
  apply (PeerUdp.peer_reply_returns peer_cfg clock peer_max peer_events app [104; 105] [104]).
  - vm_compute. reflexivity.
  - vm_compute. reflexivity.
  - exists (Engine true [] [] : @SSL plain). vm_compute. reflexivity.
  - vm_compute. done.
  - vm_compute. reflexivity.
  - right. vm_compute. reflexivity.
Defined.

(** A refused token, and the attempt that follows. *)
Definition refused : list PeerUdp.peer_event :=
  [PeerUdp.P_START (PeerUdp.STARTED fresh); PeerUdp.P_RECV [1]; PeerUdp.P_RECV auth_err].

Lemma peer_never_backs_off_witness :
  let p := PeerUdp.handle_events peer_cfg clock refused PeerUdp.peer_udp_new in
  PeerUdp.reconnect_in p = Some 0 /\ PeerUdp.reconnect_delay_ms p = 0.
Proof.
  intros p. split; [vm_compute; reflexivity|].
  exact (proj1 (PeerUdp.peer_never_backs_off peer_cfg clock peer_max refused)).
Defined.

(** The second start initialises the two timers again, which were stopped but never
    closed. *)
Lemma peer_restart_faults :
  let again := [PeerUdp.P_CLOSED; PeerUdp.P_RECONNECT (PeerUdp.STARTED fresh)] in
  PeerUdp.fault (PeerUdp.handle_events peer_cfg clock refused PeerUdp.peer_udp_new) = false /\
  PeerUdp.fault (PeerUdp.handle_events peer_cfg clock (refused ++ again) PeerUdp.peer_udp_new) = true.
Proof. split; vm_compute; reflexivity. Qed.

End PeerUdpSample.
