(* ===== verification/Agent.v ===== *)
(** * The agent

    src/agent/src/control.c, the stream table and the data connections of
    src/agent/src/tcp.c, and the start and the shutdown of src/agent/src/main.c: the
    control session with the broker (connect, HELLO, REGISTER, heartbeat, reconnect),
    and a relayed stream per OPEN_STREAM.

    A stream is a relay of Endpoint.v with the reader and the flags of its handshake;
    the UDP plane is that of ClientUdp.v; the settings are those of ClientCfg.v.  Timers
    are the delay they are armed with.  A stream that was closed is unlinked and has no
    effect any more: its callbacks return at once, so only the linked ones are kept.
    The clocks and the results of making TLS objects and of connecting are functions of
    how often they were used, or come with the event; the callbacks of a write run when
    it returns. *)

From S2P Require Import Prelude.
From S2P Require Import Wire.
From S2P Require Import Net.
From S2P Require Import Io.
From S2P Require Import Udp.
From S2P Require Import ClientCfg.
From S2P Require Import ClientUdp.
From S2P Require Import AgentUdp.
From S2P Require Import Relay.
From S2P Require Import Endpoint.
Import AgentCfg.

#[local] Arguments Z.of_nat : simpl never.

(** An embedded libuv handle: zeroed, initialised, being closed, closed. *)
Inductive uv_sock := S_ZERO | S_LIVE | S_CLOSING | S_CLOSED.

(** What becomes of a new data connection: no TLS object, no host name check, no
    address or no connection attempt, or a leg on a connecting socket. *)
Inductive conn_result {io : Type} :=
  | NO_SSL | BAD_VERIFY | NO_CONNECT (i : io) | CONNECTING (i : io).
Arguments conn_result : clear implicits.

(** The outcome of the control connection: refused, no TLS object, no host name check,
    or a leg, whose first handshake step may have failed. *)
Inductive ctl_result {io : Type} :=
  | CTL_FAILED | CTL_NO_SSL | CTL_BAD_VERIFY | CTL_CONNECTED (i : io) (failed : bool).
Arguments ctl_result : clear implicits.

(** The outcome of [tm_tcp_connect] on the control socket: the address lookup or the
    attempt failed, or it is under way. *)
Inductive connect_start := NO_ADDR | NO_ATTEMPT | UNDER_WAY.

(** ** State *)

Section Agent.
Context {io : Type} `{TmIo io} `{DTLSClient}.
Abbreviation stream := (@tm_stream io).

(** [st_started]: the connection to the broker is there; [st_accepted]: the callbacks of
    the relay are installed.  The flag [connecting] of the struct is never read. *)
Record tm_astream := AStream {
  sid : Z;
  st : stream;
  st_fr : tm_frame_reader;
  st_started : bool;
  st_accepted : bool;
}.
#[global] Instance eta_astream : Eta tm_astream := settable! AStream <sid; st; st_fr; st_started; st_accepted>.

(** [ticks], [hr_ticks], [udp_starts] and [opened] count the uses of the clocks, of the
    UDP session and of the data connections; [sent] are the frames written on the present
    control connection; [fault] is a misuse of a libuv handle, [stuck] a loop that did
    not end. *)
Record tm_agent_app := App {
  ctl_sock : uv_sock;
  ctl_io : option io;
  ctl_fr : tm_frame_reader;
  hb_timer : option Z;
  hs_timer : option Z;
  connected : bool;
  connecting : bool;
  got_hello : bool;
  registered : bool;
  last_rx_ms : Z;
  last_ping_ms : Z;
  reconnect_timer : option Z;
  reconnect_delay : Z;
  streams : list tm_astream;
  stream_count : Z;
  udp : AgentUdp.agent_udp;
  shutting_down : bool;
  (* ---- *)
  ticks : nat;
  hr_ticks : nat;
  udp_starts : nat;
  opened : nat;
  sent : list tm_frame;
  fault : bool;
  a_stuck : bool;
}.
#[global] Instance eta_app : Eta tm_agent_app :=
  settable! App <ctl_sock; ctl_io; ctl_fr; hb_timer; hs_timer; connected; connecting; got_hello; registered;
    last_rx_ms; last_ping_ms; reconnect_timer; reconnect_delay; streams; stream_count; udp; shutting_down;
    ticks; hr_ticks; udp_starts; opened; sent; fault; a_stuck>.

Context (cfg : tm_agent_cfg) (clock hrtime : nat -> Z) (udp_connect_ok : nat -> bool)
  (udp_session : nat -> option SSL) (data_conn : nat -> conn_result io).
Abbreviation eup := (ep_upcall ep_depth).

Definition tm_now_ms (a : tm_agent_app) : Z * tm_agent_app := (u64 (clock (ticks a)), a <| ticks ::= S |>).
Definition uv_hrtime (a : tm_agent_app) : Z * tm_agent_app := (u64 (hrtime (hr_ticks a)), a <| hr_ticks ::= S |>).

(** [uv_is_closing] or [uv_close]; closing a handle that was never initialised ends the
    program. *)
Definition close_ctl_sock (a : tm_agent_app) : tm_agent_app :=
  match ctl_sock a with
  | S_ZERO => a <| fault := true |>
  | S_LIVE => a <| ctl_sock := S_CLOSING |>
  | S_CLOSING | S_CLOSED => a
  end.

(** [uv_tcp_init]; a handle that is in use or still closing must not be initialised. *)
Definition init_ctl_sock (a : tm_agent_app) : tm_agent_app :=
  match ctl_sock a with
  | S_ZERO | S_CLOSED => a <| ctl_sock := S_LIVE |>
  | S_LIVE | S_CLOSING => a <| ctl_sock := S_LIVE |> <| fault := true |>
  end.

(** ** The stream table *)

Definition tm_astream_find (a : tm_agent_app) (n : Z) : option tm_astream :=
  List.find (fun x => sid x =? n) (streams a).

Fixpoint unlink_sid (n : Z) (l : list tm_astream) : list tm_astream :=
  match l with
  | [] => []
  | x :: l => if sid x =? n then l else x :: unlink_sid n l
  end.
Definition astream_unlink (n : Z) (a : tm_agent_app) : tm_agent_app :=
  a <| streams ::= unlink_sid n |> <| stream_count ::= fun c => if 0 <? c then c - 1 else c |>.

(** A callback of the linked stream [n]; a stream that closes itself is unlinked. *)
Definition on_astream (n : Z) (f : tm_astream -> tm_astream) (a : tm_agent_app) : tm_agent_app :=
  match tm_astream_find a n with
  | None => a
  | Some x =>
      let y := f x in
      if Relay.closing (st y) then astream_unlink n a
      else a <| streams ::= map (fun z => if sid z =? n then y else z) |>
  end.

Definition on_relay (n : Z) (f : stream -> stream) : tm_agent_app -> tm_agent_app :=
  on_astream n (fun x => x <| st ::= f |>).

Definition tm_astream_close (n : Z) (a : tm_agent_app) : tm_agent_app := on_relay n tm_stream_close a.

(** The loop over [a->streams]. *)
Definition close_streams (a : tm_agent_app) : tm_agent_app :=
  fold_left (fun a x => tm_astream_close (sid x) a) (streams a) a.

(** ** The control session *)

Definition reconnect_with_jitter (a : tm_agent_app) : Z * tm_agent_app :=
  let delay := reconnect_delay a in
  let spread := delay / 5 in
  if spread =? 0 then (delay, a)
  else
    let '(sample, a) := uv_hrtime a in
    (u64 (delay - spread + sample mod u64 (spread * 2 + 1)), a).

Definition arm_reconnect (a : tm_agent_app) : tm_agent_app :=
  let '(d, a) := reconnect_with_jitter a in a <| reconnect_timer := Some d |>.

(** The back-off of [tm_agent_disconnect]. *)
Definition back_off (a : tm_agent_app) : tm_agent_app :=
  let d := u64 (reconnect_delay a * 2) in
  a <| reconnect_delay := if u64 (reconnect_max_delay_ms cfg) <? d then u64 (reconnect_max_delay_ms cfg) else d |>.

Definition udp_stop (a : tm_agent_app) : tm_agent_app := a <| udp ::= AgentUdp.tm_agent_udp_stop |>.
Definition udp_start (a : tm_agent_app) : tm_agent_app :=
  a <| udp ::= AgentUdp.tm_agent_udp_start (udp_session (udp_starts a)) |> <| udp_starts ::= S |>.

Definition tm_agent_disconnect (a : tm_agent_app) : tm_agent_app :=
  if negb (connecting a) && negb (connected a) && negb (registered a) then a
  else
    let was_registered := registered a in
    let a := close_ctl_sock (a <| ctl_io := None |> <| sent := [] |>) in
    let a := a <| ctl_fr := tm_frame_reader_new |> <| hb_timer := None |> <| hs_timer := None |>
               <| connected := false |> <| connecting := false |> <| registered := false |>
               <| got_hello := false |> in
    let a := if was_registered then
               let a := close_streams a in
               if bool_decide (proto cfg = TM_PROTO_UDP) then udp_stop a else a
             else a in
    if shutting_down a then a else arm_reconnect (back_off a).

Definition ctl_eof (a : tm_agent_app) : tm_agent_app := tm_agent_disconnect a.
Definition ctl_error (a : tm_agent_app) : tm_agent_app := tm_agent_disconnect a.

(** The callbacks that ran inside a write to the control connection. *)
Definition ctl_ups (us : list upcall) (a : tm_agent_app) : tm_agent_app :=
  fold_left (fun a u => match u with
                        | UpLow => a
                        | UpError => if ctl_io a then ctl_error a else a
                        end) us a.

Definition tm_agent_send_frame (f : option tm_frame) (a : tm_agent_app) : tm_agent_app :=
  match ctl_io a, f with
  | Some i, Some f =>
      match tm_frame_encode f with
      | None => a
      | Some buf =>
          let '(r, us, i') := io_write i buf in
          let a := a <| ctl_io := Some i' |> in
          match r with
          | TM_OK => ctl_ups us (a <| sent ::= fun l => l ++ [f] |>)
          | _ => tm_agent_disconnect (ctl_ups us a)
          end
      end
  | _, _ => a
  end.

Definition send_msg (type n : Z) (payload : bytes) (a : tm_agent_app) : tm_agent_app :=
  tm_agent_send_frame (tm_frame_make type n payload (blen payload)) a.

Definition ctl_handshake_timeout (a : tm_agent_app) : tm_agent_app :=
  if connected a then tm_agent_disconnect a else a.

(** A failure of the first handshake step is reported while neither flag is set, and
    changes nothing. *)
Definition ctl_connected (r : ctl_result io) (a : tm_agent_app) : tm_agent_app :=
  match r with
  | CTL_FAILED => tm_agent_disconnect a
  | CTL_NO_SSL | CTL_BAD_VERIFY => tm_agent_disconnect (a <| connecting := false |>)
  | CTL_CONNECTED i failed =>
      let a := a <| connecting := false |> <| ctl_io := Some (io_start i) |> <| sent := [] |> in
      let a := if failed then ctl_error a else a in
      a <| hs_timer := Some (u64 (handshake_timeout_ms cfg)) |> <| connected := true |>
  end.

Definition hello : option tm_frame :=
  tm_frame_make TM_MSG_HELLO 0 (take (Z.to_nat TM_PROTO_STRING_LEN) TM_PROTO_STRING) TM_PROTO_STRING_LEN.

Definition ctl_handshake_done (a : tm_agent_app) : tm_agent_app :=
  let '(now, a) := tm_now_ms (a <| hs_timer := None |>) in
  tm_agent_send_frame hello (a <| last_rx_ms := now |> <| last_ping_ms := now |>).

(** The shutdown; the loop is stopped and ends after the present turn. *)
Definition tm_agent_shutdown (a : tm_agent_app) : tm_agent_app :=
  if shutting_down a then a
  else
    let a := a <| shutting_down := true |> <| reconnect_timer := None |> <| ctl_io := None |> <| sent := [] |> in
    let a := close_ctl_sock a in
    let a := a <| hb_timer := None |> <| hs_timer := None |> in
    udp_stop (close_streams a).

(** [u16 idlen][tunnel_id][agent_secret] *)
Definition register_payload : bytes := wr_u16 (u16 (blen (tunnel_id cfg))) ++ tunnel_id cfg ++ agent_secret cfg.
Definition register : option tm_frame := tm_frame_make TM_MSG_REGISTER 0 register_payload (blen register_payload).

(** The flag says that [ctl_read] returns. *)
Definition on_hello_ack (a : tm_agent_app) : bool * tm_agent_app :=
  if got_hello a then (false, a)
  else
    let a := a <| got_hello := true |> in
    if (blen (tunnel_id cfg) =? 0) || (TM_TUNNEL_ID_LEN <? blen (tunnel_id cfg)) || (blen (agent_secret cfg) =? 0)
    then (true, tm_agent_shutdown a)
    else (false, tm_agent_send_frame register a).

Definition on_register_ok (a : tm_agent_app) : tm_agent_app :=
  if registered a then a
  else
    let a := a <| registered := true |> <| reconnect_delay := u64 (reconnect_delay_ms cfg) |> in
    let a := if bool_decide (proto cfg = TM_PROTO_UDP) then udp_start a else a in
    a <| hb_timer := Some (u64 (heartbeat_interval_ms cfg)) |>.

Definition astream_new (n now : Z) (l : option io) : tm_astream :=
  AStream n (Stream n (new_dir l (match l with Some i => io_log i | None => [] end)) (new_dir None []) Open Open
             false false false false now 0 0 [] 0 true (Shared 0 0 0 0 0 0 0) false false)
    tm_frame_reader_new false false.

Definition link_astream (x : tm_astream) (a : tm_agent_app) : tm_agent_app :=
  a <| streams ::= cons x |> <| stream_count ::= Z.add 1 |>.

Definition tm_astream_open (n : Z) (a : tm_agent_app) : tm_agent_app :=
  match tm_astream_find a n with
  | Some _ => a
  | None =>
      let '(now, a) := tm_now_ms a in
      let r := data_conn (opened a) in
      let a := a <| opened ::= S |> in
      match r with
      | NO_SSL | BAD_VERIFY => tm_astream_close n (link_astream (astream_new n now None) a)
      | NO_CONNECT i => tm_astream_close n (link_astream (astream_new n now (Some i)) a)
      | CONNECTING i => link_astream (astream_new n now (Some i)) a
      end
  end.

Definition ctl_frame (f : tm_frame) (a : tm_agent_app) : bool * tm_agent_app :=
  let t := f_type f in
  if t =? TM_MSG_HELLO_ACK then on_hello_ack a
  else if t =? TM_MSG_REGISTER_OK then (false, on_register_ok a)
  else if t =? TM_MSG_REGISTER_ERROR then (false, tm_agent_disconnect a)
  else if t =? TM_MSG_PING then (false, send_msg TM_MSG_PONG 0 [] a)
  else if t =? TM_MSG_OPEN_STREAM then
    (false, if registered a then tm_astream_open (f_stream_id f) a else a)
  else if t =? TM_MSG_CLOSE_STREAM then (false, tm_astream_close (f_stream_id f) a)
  else if t =? TM_MSG_GOING_AWAY then (true, tm_agent_disconnect a)
  else (false, a).

(** The loop feeds the reader of the session, a new one once the session is gone. *)
Fixpoint ctl_loop (fuel : nat) (data : bytes) (a : tm_agent_app) : tm_agent_app :=
  match fuel with
  | O => a <| a_stuck := true |>
  | S fuel' =>
      let '(r, fr) := tm_frame_reader_feed (ctl_fr a) data in
      let a := a <| ctl_fr := fr |> in
      match r with
      | FeedErr => tm_agent_disconnect a
      | FeedMore => a
      | FeedFrame f =>
          let '(return_, a) := ctl_frame f a in
          if return_ : bool then a else ctl_loop fuel' [] a
      end
  end.

Definition ctl_read (data : bytes) (a : tm_agent_app) : tm_agent_app :=
  let '(now, a) := tm_now_ms a in
  ctl_loop (S (length (fr_buf (ctl_fr a)) + length data)) data (a <| last_rx_ms := now |>).

Definition agent_hb_timer_cb (a : tm_agent_app) : tm_agent_app :=
  if shutting_down a then a
  else
    let '(now, a) := tm_now_ms a in
    if u64 (idle_timeout_ms cfg) <? u64 (now - last_rx_ms a) then tm_agent_disconnect a
    else if u64 (heartbeat_interval_ms cfg) <=? u64 (now - last_ping_ms a)
    then send_msg TM_MSG_PING 0 [] (a <| last_ping_ms := now |>)
    else a.

Definition tm_agent_connect (r : connect_start) (a : tm_agent_app) : tm_agent_app :=
  if shutting_down a || connected a || connecting a then a
  else
    let a := if reconnect_delay a =? 0 then a <| reconnect_delay := u64 (reconnect_delay_ms cfg) |> else a in
    match r with
    | NO_ADDR => arm_reconnect a
    | NO_ATTEMPT => arm_reconnect (init_ctl_sock a)
    | UNDER_WAY => init_ctl_sock a <| connecting := true |>
    end.

Definition reconnect_timer_cb (r : connect_start) (a : tm_agent_app) : tm_agent_app :=
  if shutting_down a then a else tm_agent_connect r a.

(** ** Data connections *)

Definition open_stream_error (n : Z) (msg : bytes) (a : tm_agent_app) : tm_agent_app :=
  tm_astream_close n (send_msg TM_MSG_OPEN_STREAM_ERROR n msg a).

(** [status] is 0, or the first handshake step failed ([Some true]), or the connection
    ([None]). *)
Definition data_conn_connected (n : Z) (status : option bool) (a : tm_agent_app) : tm_agent_app :=
  match tm_astream_find a n, status with
  | None, _ => a
  | Some _, None => open_stream_error n (cstr "broker connect failed") a
  | Some _, Some failed =>
      let start (d : dir) := d <| leg ::= fmap io_start |>
                               <| base := match leg d with Some i => io_log (io_start i) | None => [] end |> in
      let a := on_astream n (fun x => x <| st ::= mod_ A start |> <| st_started := true |>) a in
      if failed : bool then tm_astream_close n a else a
  end.

Definition data_bind (n : Z) : option tm_frame :=
  tm_frame_make TM_MSG_DATA_BIND n (agent_secret cfg) (blen (agent_secret cfg)).

Definition data_conn_ready (n : Z) (a : tm_agent_app) : tm_agent_app :=
  on_relay n (fun r => match data_bind n ≫= tm_frame_encode with
                       | None => tm_stream_close r
                       | Some buf => match ep_send eup buf r with
                                     | (TM_OK, r) => r
                                     | (_, r) => tm_stream_close r
                                     end
                       end) a.

Definition data_conn_error (n : Z) (a : tm_agent_app) : tm_agent_app := tm_astream_close n a.

Definition data_conn_eof (n : Z) (a : tm_agent_app) : tm_agent_app :=
  on_relay n (fun r => if negb (Relay.bound r) then tm_stream_close r else relay_broker_eof eup r) a.

(** The frames before DATA_BIND_OK: the stream goes on, closes, or is accepted with the
    bytes that follow. *)
Inductive pre_result := PreMore | PreClose | PreAccept (lo : bytes).

Fixpoint pre_frames (fuel : nat) (n : Z) (data : bytes) (fr : tm_frame_reader) : option pre_result * tm_frame_reader :=
  match fuel with
  | O => (None, fr)
  | S fuel' =>
      let '(r, fr) := tm_frame_reader_feed fr data in
      match r with
      | FeedErr => (Some PreClose, fr)
      | FeedMore => (Some PreMore, fr)
      | FeedFrame f =>
          if (f_type f =? TM_MSG_DATA_BIND_OK) && (f_stream_id f =? n) then
            let '(lo, fr) := tm_frame_reader_drain fr in (Some (PreAccept lo), fr)
          else if (f_type f =? TM_MSG_DATA_BIND_ERROR) || (f_type f =? TM_MSG_DATA_BIND) then (Some PreClose, fr)
          else pre_frames fuel' n [] fr
      end
  end.

(** [local]: the connection to the local service is under way. *)
Definition data_conn_pre_read (n : Z) (data : bytes) (local : bool) (a : tm_agent_app) : tm_agent_app :=
  match tm_astream_find a n with
  | None => a
  | Some x =>
      if Relay.bound (st x) then on_relay n (agent_broker_read eup data) a
      else
        let '(r, fr) := pre_frames (S (length (fr_buf (st_fr x)) + length data)) n data (st_fr x) in
        let a := on_astream n (fun x => x <| st_fr := fr |>) a in
        match r with
        | None => a <| a_stuck := true |>
        | Some PreMore => a
        | Some PreClose => tm_astream_close n a
        | Some (PreAccept lo) =>
            let a := on_astream n (fun x => x <| st ::= agent_accept lo |> <| st_accepted := true |>) a in
            if local then on_relay n (fun r => r <| timer_on := true |>) a
            else open_stream_error n (cstr "local connect failed") a
        end
  end.

(** What the broker leg of a stream delivers, before and after the relay's callbacks are
    installed. *)
Definition broker_leg_read (n : Z) (data : bytes) (local : bool) (a : tm_agent_app) : tm_agent_app :=
  match tm_astream_find a n with
  | None => a
  | Some x => if st_accepted x then on_relay n (agent_broker_read eup data) a
              else data_conn_pre_read n data local a
  end.
Definition broker_leg_eof (n : Z) (a : tm_agent_app) : tm_agent_app :=
  match tm_astream_find a n with
  | None => a
  | Some x => if st_accepted x then on_relay n (relay_broker_eof eup) a else data_conn_eof n a
  end.

Definition local_connected (n : Z) (raw : option io) (a : tm_agent_app) : tm_agent_app :=
  match tm_astream_find a n, raw with
  | None, _ => a
  | Some _, None => open_stream_error n (cstr "local connect failed") a
  | Some _, Some raw => on_relay n (local_bind eup raw) a
  end.

Definition local_connect_timeout (n : Z) (a : tm_agent_app) : tm_agent_app :=
  match tm_astream_find a n with
  | None => a
  | Some x => if Relay.bound (st x) then a else open_stream_error n (cstr "local connect timeout") a
  end.

(** ** Start *)

Definition app_new : tm_agent_app :=
  App S_ZERO None tm_frame_reader_new None None false false false false 0 0 None 0 [] 0 AgentUdp.agent_udp_new
    false 0 0 0 0 [] false false.

(** [main] up to the event loop. *)
Definition agent_main (r : connect_start) : tm_agent_app :=
  let a := tm_agent_connect r app_new in
  if bool_decide (proto cfg = TM_PROTO_UDP) then udp_start a else a.

(** ** Runs

    The events of the loop, in any order.  A callback of a connection comes while the
    connection is open, data only after its handshake, a timer only when armed; a handle
    that is being closed is closed before a timer fires; the pending connect of a closed
    socket is cancelled, and what a leg can still send is that leg's business
    ([io_moves]).  In a [good] run TLS objects can be made, the control socket's connect
    does not fail at once, and the program is not ended before its first attempt. *)

Definition setup_ok (r : ctl_result io) : Prop :=
  match r with CTL_NO_SSL | CTL_BAD_VERIFY => False | _ => True end.
Definition fresh_ctl (r : ctl_result io) : Prop :=
  match r with CTL_CONNECTED i _ => io_fresh i | _ => True end.

Inductive agent_step (good : bool) : tm_agent_app -> tm_agent_app -> Prop :=
  | AsConnected r a : connecting a = true -> fresh_ctl r -> (good = true -> setup_ok r) ->
      (shutting_down a = true -> r = CTL_FAILED) -> agent_step good a (ctl_connected r a)
  | AsReady a : hs_timer a <> None -> agent_step good a (ctl_handshake_done a)
  | AsRead data a : ctl_io a <> None -> hs_timer a = None -> bytes_ok data -> agent_step good a (ctl_read data a)
  | AsEof a : ctl_io a <> None -> agent_step good a (ctl_eof a)
  | AsError a : ctl_io a <> None -> agent_step good a (ctl_error a)
  | AsMove i i' a : ctl_io a = Some i -> io_moves i i' -> agent_step good a (a <| ctl_io := Some i' |>)
  | AsHandshakeTimer a : hs_timer a <> None -> agent_step good a (ctl_handshake_timeout (a <| hs_timer := None |>))
  | AsHeartbeat a : hb_timer a <> None -> agent_step good a (agent_hb_timer_cb (a <| hb_timer := None |>))
  | AsReconnect r a : reconnect_timer a <> None -> ctl_sock a <> S_CLOSING -> (good = true -> r <> NO_ATTEMPT) ->
      agent_step good a (reconnect_timer_cb r (a <| reconnect_timer := None |>))
  | AsSockClosed a : ctl_sock a = S_CLOSING -> agent_step good a (a <| ctl_sock := S_CLOSED |>)
  | AsShutdown a : (good = true -> ctl_sock a <> S_ZERO) -> agent_step good a (tm_agent_shutdown a)
  | AsUdp e a : agent_step good a (a <| udp ::= AgentUdp.handle_event cfg clock udp_connect_ok e |>)
  | AsDataConnected n status x a : tm_astream_find a n = Some x -> st_started x = false ->
      agent_step good a (data_conn_connected n status a)
  | AsDataReady n x a : tm_astream_find a n = Some x -> st_started x = true -> Relay.bound (st x) = false ->
      agent_step good a (data_conn_ready n a)
  | AsBrokerRead n data local x a : tm_astream_find a n = Some x -> st_started x = true ->
      src_eof (to_b (st x)) = false -> bytes_ok data -> agent_step good a (broker_leg_read n data local a)
  | AsBrokerEof n x a : tm_astream_find a n = Some x -> st_started x = true ->
      agent_step good a (broker_leg_eof n a)
  | AsStreamError n a : agent_step good a (data_conn_error n a)
  | AsLocalConnected n raw x a : tm_astream_find a n = Some x -> st_started x = true -> st_accepted x = true ->
      Relay.bound (st x) = false -> (forall i, raw = Some i -> io_fresh i) -> agent_step good a (local_connected n raw a)
  | AsLocalTimer n x a : tm_astream_find a n = Some x -> st_accepted x = true -> agent_step good a (local_connect_timeout n a)
  | AsLocalRead n data x a : tm_astream_find a n = Some x -> st_started x = true -> Relay.bound (st x) = true ->
      src_eof (to_a (st x)) = false -> agent_step good a (on_relay n (agent_local_read eup data) a)
  | AsLocalEof n x a : tm_astream_find a n = Some x -> st_started x = true -> Relay.bound (st x) = true ->
      agent_step good a (on_relay n (relay_local_eof eup) a)
  | AsLow n s x a : tm_astream_find a n = Some x -> st_started x = true ->
      leg (get s (st x)) <> None -> agent_step good a (on_relay n (ep_low eup s) a)
  | AsStreamMove n s i i' x a : tm_astream_find a n = Some x -> st_started x = true ->
      leg (get s (st x)) = Some i -> io_moves i i' ->
      agent_step good a (on_relay n (mod_ s (fun d => d <| leg := Some i' |>)) a).

Definition agent_run (good : bool) (a : tm_agent_app) : Prop :=
  exists r, (good = true -> r <> NO_ATTEMPT) /\ rtc (agent_step good) (agent_main r) a.

(** ** The invariant *)

(** The delay [d] is within a fifth of [delay]. *)
Definition near (delay d : Z) : Prop := delay - delay / 5 <= d <= delay + delay / 5.

Definition sent_bytes (l : list tm_frame) : bytes :=
  concat (map (fun f => default [] (tm_frame_encode f)) l).

(** What a control session says: HELLO, then answers, heartbeats and refusals, and among
    them, once HELLO was acknowledged, at most one REGISTER. *)
Definition small_talk (f : tm_frame) : Prop :=
  f_type f = TM_MSG_PING \/ f_type f = TM_MSG_PONG \/ f_type f = TM_MSG_OPEN_STREAM_ERROR.
Definition session_ok (got : bool) (l : list tm_frame) : Prop :=
  exists h l1 l2, hello = Some h /\ Forall small_talk (l1 ++ l2) /\
    (l = h :: l1 ++ l2 \/ got = true /\ exists g, register = Some g /\ l = h :: l1 ++ g :: l2).

Definition busy (a : tm_agent_app) : Prop := connecting a = true \/ connected a = true.
#[global] Instance busy_dec a : Decision (busy a).
Proof. unfold busy. apply _. Defined.

Record ctl_ok (a : tm_agent_app) : Prop := {
  co_leg i : ctl_io a = Some i -> io_ok i /\ io_log i = sent_bytes (sent a) /\ connected a = true /\ shutting_down a = false;
  co_fr : bytes_ok (fr_buf (ctl_fr a));
  co_hs : hs_timer a <> None -> sent a = [] /\ connected a = true /\ registered a = false;
  co_hb : hb_timer a <> None -> registered a = true;
  co_reg : registered a = true -> connected a = true;
  co_conn : connected a = true -> connecting a = false /\ (shutting_down a = true \/ ctl_io a <> None);
  co_wait : reconnect_timer a <> None -> ~ busy a /\ shutting_down a = false;
  co_delay : 0 <= reconnect_delay a <= Z.max (reconnect_delay_ms cfg) (reconnect_max_delay_ms cfg);
  co_pos : busy a \/ reconnect_timer a <> None -> 1 <= reconnect_delay a;
  co_timer d : reconnect_timer a = Some d -> near (reconnect_delay a) d;
  co_stuck : a_stuck a = false;
}.

Record good_ok (a : tm_agent_app) : Prop := {
  go_fault : fault a = false;
  go_live : shutting_down a = false -> busy a -> ctl_sock a = S_LIVE;
  go_idle : reconnect_timer a <> None -> ctl_sock a <> S_LIVE;
  go_down : shutting_down a = true -> ctl_sock a = S_CLOSING \/ ctl_sock a = S_CLOSED;
  go_retry : shutting_down a = false -> busy a \/ reconnect_timer a <> None;
}.

(** A stream is either waiting for its connection to the broker, or a run of the relay. *)
Definition stream_ok (x : tm_astream) : Prop :=
  Relay.closing (st x) = false /\ reader_wf (st_fr x) /\
  if st_started x
  then exists now i, io_ok i /\ ep_run Endpoint.Agent (new_endpoint (sid x) now i) (st x)
  else exists now i, io_fresh i /\ st x = st (astream_new (sid x) now (Some i)).

Record tab_ok (a : tm_agent_app) : Prop := {
  tb_reg : registered a = false -> streams a = [];
  tb_ids : NoDup (map sid (streams a));
  tb_count : stream_count a = blen (streams a);
  tb_each : Forall stream_ok (streams a);
}.

Definition app_inv (good : bool) (a : tm_agent_app) : Prop :=
  ctl_ok a /\ (good = true -> good_ok a) /\ tab_ok a.
Definition talks (a : tm_agent_app) : Prop :=
  ctl_io a <> None -> hs_timer a = None -> session_ok (got_hello a) (sent a).

(** *** The stream table *)

Lemma find_in n a x : tm_astream_find a n = Some x -> x ∈ streams a /\ sid x = n.
Proof.
  unfold tm_astream_find. intros E. apply List.find_some in E as [Hi Hn]. zb.
  by rewrite <- list_elem_of_In in Hi.
Qed.

Lemma closed_astream (r : stream) : Relay.closing (tm_stream_close r) = true.
Proof. apply close_closing. Qed.

Lemma close_eq n x a : tm_astream_find a n = Some x -> tm_astream_close n a = astream_unlink n a.
Proof.
  unfold tm_astream_close, on_relay, on_astream. intros ->. cbv zeta.
  change (st (x <| st ::= tm_stream_close |>)) with (tm_stream_close (st x)). by rewrite closed_astream.
Qed.

Lemma close_streams_eq a : stream_count a = blen (streams a) ->
  close_streams a = a <| streams := [] |> <| stream_count := 0 |>.
Proof.
  unfold close_streams. intros Hc. remember (streams a) as l eqn:E. revert a Hc E.
  induction l as [|x l IH]; intros a Hc E.
  - cbn. destruct a; cbn in *. by subst.
  - cbn [fold_left]. rewrite (close_eq (sid x) x) by (unfold tm_astream_find; rewrite <- E; cbn; by rewrite Z.eqb_refl).
    rewrite IH.
    + destruct a; done.
    + unfold astream_unlink. cbn. rewrite Hc. unfold blen. cbn [length]. destruct (0 <? Z.of_nat (S (length l))) eqn:L; zb; lia.
    + unfold astream_unlink. cbn. rewrite <- E. cbn. by rewrite Z.eqb_refl.
Qed.

(** *** The end of a session *)

Context (Hcfg : cfg_ok cfg).

Lemma cfg_delays : 0 < reconnect_delay_ms cfg < 2 ^ 63 /\ 0 < reconnect_max_delay_ms cfg < 2 ^ 63.
Proof. pose proof (ok_timers _ Hcfg) as Ht. rewrite !Forall_cons in Ht. by destruct Ht as (_ & _ & ? & ? & _). Qed.

Definition backed (d : Z) : Z := Z.min (2 * d) (reconnect_max_delay_ms cfg).

Lemma back_off_eq a : 0 <= reconnect_delay a < 2 ^ 63 ->
  back_off a = a <| reconnect_delay := backed (reconnect_delay a) |>.
Proof.
  intros Hd. destruct cfg_delays as [_ Hm]. unfold back_off, backed. cbv zeta.
  rewrite (wrap_small 64 (reconnect_max_delay_ms cfg)) by (unfold in_width; lia).
  rewrite (wrap_small 64 (reconnect_delay a * 2)) by (unfold in_width; lia).
  assert ((if reconnect_max_delay_ms cfg <? reconnect_delay a * 2 then reconnect_max_delay_ms cfg else reconnect_delay a * 2)
    = Z.min (2 * reconnect_delay a) (reconnect_max_delay_ms cfg)) as -> by (destruct (_ <? _) eqn:E; zb; lia). done.
Qed.

Lemma arm_near a : 0 <= reconnect_delay a < 2 ^ 63 ->
  exists d k, arm_reconnect a = a <| hr_ticks := k |> <| reconnect_timer := Some d |> /\ near (reconnect_delay a) d.
Proof.
  intros Hd. unfold arm_reconnect, reconnect_with_jitter, near. cbv zeta.
  pose proof (Z.div_le_upper_bound (reconnect_delay a) 5 (reconnect_delay a) ltac:(lia) ltac:(lia)).
  pose proof (Z.div_pos (reconnect_delay a) 5 ltac:(lia) ltac:(lia)). set (sp := reconnect_delay a / 5) in *.
  destruct (sp =? 0) eqn:E; zb.
  - exists (reconnect_delay a), (hr_ticks a). split; [by destruct a|lia].
  - unfold uv_hrtime. cbv zeta. set (h := u64 (hrtime (hr_ticks a))).
    rewrite (wrap_small 64 (sp * 2 + 1)) by (unfold in_width; lia).
    pose proof (Z.mod_pos_bound h (sp * 2 + 1) ltac:(lia)).
    rewrite (wrap_small 64 (_ + _)) by (unfold in_width; lia).
    eexists _, _. split; [reflexivity|]. lia.
Qed.

Lemma delay_small a : ctl_ok a -> 0 <= reconnect_delay a < 2 ^ 63.
Proof. intros Hc. pose proof (co_delay a Hc). destruct cfg_delays. lia. Qed.

(** What a disconnect that takes effect leaves. *)
Record dropped (a a' : tm_agent_app) : Prop := {
  dr_io : ctl_io a' = None;
  dr_sent : sent a' = [];
  dr_fr : ctl_fr a' = tm_frame_reader_new;
  dr_timers : hb_timer a' = None /\ hs_timer a' = None;
  dr_flags : connected a' = false /\ connecting a' = false /\ registered a' = false /\ got_hello a' = false;
  dr_streams : streams a' = [] /\ stream_count a' = 0;
  dr_sock : ctl_sock a' = match ctl_sock a with S_LIVE => S_CLOSING | k => k end;
  dr_fault : ctl_sock a <> S_ZERO -> fault a' = fault a;
  dr_stuck : a_stuck a' = a_stuck a;
  dr_down : shutting_down a' = shutting_down a;
  dr_delay : if shutting_down a
             then reconnect_delay a' = reconnect_delay a /\ reconnect_timer a' = reconnect_timer a
             else reconnect_delay a' = backed (reconnect_delay a) /\
                  exists d, reconnect_timer a' = Some d /\ near (reconnect_delay a') d;
}.

(** The session and its streams gone, before the back-off. *)
Definition cut (a : tm_agent_app) : tm_agent_app :=
  let was_registered := registered a in
  let a := close_ctl_sock (a <| ctl_io := None |> <| sent := [] |>) in
  let a := a <| ctl_fr := tm_frame_reader_new |> <| hb_timer := None |> <| hs_timer := None |>
             <| connected := false |> <| connecting := false |> <| registered := false |>
             <| got_hello := false |> in
  if was_registered then
    let a := close_streams a in
    if bool_decide (proto cfg = TM_PROTO_UDP) then udp_stop a else a
  else a.

Record is_cut (a b : tm_agent_app) : Prop := {
  cu_io : ctl_io b = None;
  cu_sent : sent b = [];
  cu_fr : ctl_fr b = tm_frame_reader_new;
  cu_timers : hb_timer b = None /\ hs_timer b = None;
  cu_flags : connected b = false /\ connecting b = false /\ registered b = false /\ got_hello b = false;
  cu_streams : streams b = [] /\ stream_count b = 0;
  cu_sock : ctl_sock b = match ctl_sock a with S_LIVE => S_CLOSING | k => k end;
  cu_fault : ctl_sock a <> S_ZERO -> fault b = fault a;
  cu_kept : a_stuck b = a_stuck a /\ shutting_down b = shutting_down a /\
            reconnect_delay b = reconnect_delay a /\ reconnect_timer b = reconnect_timer a;
}.

Lemma cut_ok a : tab_ok a -> is_cut a (cut a).
Proof.
  intros [Hr _ Hc _]. unfold cut. cbv zeta.
  set (b := close_ctl_sock _ <| ctl_fr := _ |> <| hb_timer := _ |> <| hs_timer := _ |> <| connected := _ |>
    <| connecting := _ |> <| registered := _ |> <| got_hello := _ |>).
  assert (streams b = streams a /\ stream_count b = stream_count a /\
          is_cut a (b <| streams := [] |> <| stream_count := 0 |>)) as (E1 & E2 & Hcut).
  { unfold b, close_ctl_sock. split_and!; [destruct a as [k]; by destruct k..|].
    constructor; [..|intros Hz|]; destruct a as [k]; destruct k; lazy in *; done. }
  clearbody b. destruct (registered a).
  - rewrite close_streams_eq by congruence.
    set (b' := b <| streams := _ |> <| stream_count := _ |>) in *. clearbody b'.
    destruct (bool_decide _); [|done]. unfold udp_stop. by destruct Hcut.
  - rewrite (Hr eq_refl) in *. change (blen []) with 0 in Hc. rewrite Hc in E2. destruct b; cbn in *; by subst.
Qed.

Lemma disconnect_cut a : busy a \/ registered a = true ->
  tm_agent_disconnect a = if shutting_down (cut a) then cut a else arm_reconnect (back_off (cut a)).
Proof.
  intros Hb. unfold tm_agent_disconnect.
  assert (negb (connecting a) && negb (connected a) && negb (registered a) = false) as ->; [|done].
  destruct Hb as [[-> | ->]| ->]; cbn; rewrite ?andb_false_r; done.
Qed.

Lemma disconnect_dropped a : ctl_ok a -> tab_ok a -> busy a \/ registered a = true -> dropped a (tm_agent_disconnect a).
Proof.
  intros Hc Ht Hb. rewrite disconnect_cut by done. pose proof (delay_small a Hc) as Hd.
  destruct (cut_ok a Ht) as [C1 C2 C3 C4 C5 C6 C7 C8 (C9 & C10 & C11 & C12)]. set (b := cut a) in *. clearbody b. rewrite C10.
  destruct (shutting_down a) eqn:Es.
  - constructor; try done; by rewrite Es.
  - rewrite back_off_eq by (by rewrite C11). rewrite C11.
    set (b' := b <| reconnect_delay := _ |>).
    destruct (arm_near b') as (d & k & -> & Hn).
    { change (reconnect_delay b') with (backed (reconnect_delay a)). unfold backed. destruct cfg_delays. lia. }
    constructor; try done; rewrite Es; [done|]. split; [done|]. by exists d.
Qed.

Lemma disconnect_idle a : ~ (busy a \/ registered a = true) -> tm_agent_disconnect a = a.
Proof.
  intros Hn. unfold tm_agent_disconnect, busy in *.
  destruct (connecting a), (connected a), (registered a); cbn; try done; exfalso; apply Hn; auto.
Qed.

Lemma dropped_inv good a a' : app_inv good a -> dropped a a' -> busy a \/ registered a = true -> app_inv good a'.
Proof.
  intros (Hc & Hg & Ht) [] Hb. destruct dr_timers0 as [T1 T2], dr_flags0 as (F1 & F2 & F3 & F4), dr_streams0 as [S1 S2].
  assert (~ busy a') as Hnb by (unfold busy; naive_solver congruence).
  assert (busy a) as Hba by (destruct Hb as [?|Hr]; [done|right; by apply (co_reg a Hc)]).
  pose proof (delay_small a Hc). pose proof (co_delay a Hc) as Hcd. pose proof (co_pos a Hc (or_introl Hba)). destruct cfg_delays.
  split_and!.
  - constructor; rewrite ?dr_io0, ?dr_fr0, ?T1, ?T2, ?F1, ?F3; try done.
    + by constructor.
    + intros Hw. split; [done|]. rewrite dr_down0. destruct (shutting_down a) eqn:Es; [|done].
      destruct dr_delay0 as [_ Ed]. rewrite Ed in Hw. destruct (co_wait a Hc Hw). congruence.
    + destruct (shutting_down a); destruct dr_delay0 as [-> _]; [done|]. unfold backed. lia.
    + intros [?|Hw]; [done|]. destruct (shutting_down a) eqn:Es; destruct dr_delay0 as [-> E]; [done|]. unfold backed. lia.
    + intros d Ed. destruct (shutting_down a) eqn:Es; destruct dr_delay0 as [E1 E2].
      * rewrite E1. apply (co_timer a Hc). congruence.
      * destruct E2 as (d' & E2 & Hn). congruence.
    + rewrite dr_stuck0. apply (co_stuck a Hc).
  - intros ->. destruct (Hg eq_refl) as [G1 G2 G3 G4 G5].
    assert (ctl_sock a <> S_ZERO) as Hz.
    { destruct (shutting_down a) eqn:Es; [by destruct (G4 eq_refl) as [-> | ->]|]. by rewrite G2. }
    constructor; rewrite ?dr_down0, ?dr_sock0.
    + by rewrite dr_fault0.
    + done.
    + intros _. by destruct (ctl_sock a).
    + intros Es. by destruct (G4 Es) as [-> | ->]; [left|right].
    + intros Es. rewrite Es in dr_delay0. destruct dr_delay0 as (_ & d & -> & _). by right.
  - constructor; rewrite ?S1, ?S2; try done; constructor.
Qed.

Lemma inv_disconnect good a : app_inv good a -> app_inv good (tm_agent_disconnect a).
Proof.
  intros Hi. pose proof Hi as (Hc & _ & Ht). destruct (decide (busy a \/ registered a = true)) as [Hb|Hn].
  - apply (dropped_inv good a); auto. by apply disconnect_dropped.
  - by rewrite disconnect_idle.
Qed.

(** What holds from one point of a callback to a later one: the session goes on with its
    reader, or it is gone. *)
Record later (a a' : tm_agent_app) : Prop := {
  la_hs : hs_timer a = None -> hs_timer a' = None;
  la_fr : (ctl_fr a' = ctl_fr a /\ (ctl_io a' = None <-> ctl_io a = None)) \/
          (fr_buf (ctl_fr a') = [] /\ ctl_io a' = None);
}.
Lemma later_refl a : later a a.
Proof. constructor; [done|]. by left. Qed.
Lemma later_trans a b c : later a b -> later b c -> later a c.
Proof. intros [A1 A2] [B1 B2]. constructor; [auto|]. destruct B2 as [[-> B2]|?]; [|auto]. destruct A2 as [[-> A2]|[A2 A3]]; tauto. Qed.

Lemma later_disconnect a : ctl_ok a -> tab_ok a -> later a (tm_agent_disconnect a).
Proof.
  intros Hc Ht. destruct (decide (busy a \/ registered a = true)) as [Hb|Hn].
  - destruct (disconnect_dropped a Hc Ht Hb) as [D1 _ D3 [_ D4] _ _ _ _ _ _ _]. constructor; [done|]. right. by rewrite D3.
  - rewrite disconnect_idle by done. apply later_refl.
Qed.

(** *** Sending *)

Lemma gone_talks a : ctl_io a = None -> talks a.
Proof. by intros E ?. Qed.

Lemma disconnect_talks a : ctl_ok a -> tab_ok a -> talks a -> talks (tm_agent_disconnect a).
Proof.
  intros Hc Ht Hk. destruct (decide (busy a \/ registered a = true)) as [Hb|Hn]; [|by rewrite disconnect_idle].
  apply gone_talks, (dr_io a), disconnect_dropped; auto.
Qed.

(** The invariant with the protocol of the session, and what a callback may build on. *)
Definition fine (good : bool) (a a' : tm_agent_app) : Prop := app_inv good a' /\ talks a' /\ later a a'.

Lemma fine_disconnect good a : app_inv good a -> talks a -> fine good a (tm_agent_disconnect a).
Proof.
  intros Hi Hk. pose proof Hi as (Hc & _ & Ht). split_and!;
    [by apply inv_disconnect|by apply disconnect_talks|by apply later_disconnect].
Qed.

Lemma app_fine_refl good a : app_inv good a -> talks a -> fine good a a.
Proof. intros. split_and!; auto using later_refl. Qed.
Lemma app_fine_trans good a b c : fine good a b -> fine good b c -> fine good a c.
Proof. intros (_ & _ & L1) (? & ? & L2). split_and!; [done|done|by apply (later_trans a b)]. Qed.

Lemma fine_ups good us : forall a, app_inv good a -> talks a -> fine good a (ctl_ups us a).
Proof.
  induction us as [|u us IH]; intros a Hi Hk; [by apply app_fine_refl|]. unfold ctl_ups. cbn [fold_left].
  destruct u; [by apply IH|]. destruct (ctl_io a); [|by apply IH].
  pose proof (fine_disconnect good a Hi Hk) as (Hi' & Hk' & Hl). apply (app_fine_trans good a (ctl_error a)); [done|]. by apply IH.
Qed.

(** The leg of the session replaced. *)
Lemma inv_leg good i' l a : app_inv good a -> connected a = true -> hs_timer a = None ->
  io_ok i' -> io_log i' = sent_bytes l -> ctl_io a <> None ->
  app_inv good (a <| ctl_io := Some i' |> <| sent := l |>).
Proof.
  intros ([] & Hg & []) Hc Hh Hok Hl Hio. split_and!; [|intros G; destruct (Hg G); by constructor|by constructor].
  constructor; try done.
  - intros j [= <-]. destruct (ctl_io a) as [i|] eqn:Ei; [|done]. by destruct (co_leg0 i eq_refl) as (_ & _ & _ & ?).
  - intros _. split; [|by right]. by apply co_conn0.
Qed.

Lemma sent_bytes_app l l' : sent_bytes (l ++ l') = sent_bytes l ++ sent_bytes l'.
Proof. unfold sent_bytes. by rewrite map_app, concat_app. Qed.
Lemma sent_bytes_one f buf : tm_frame_encode f = Some buf -> sent_bytes [f] = buf.
Proof. unfold sent_bytes. cbn. intros ->. cbn. apply app_nil_r. Qed.

Lemma fine_send good f a : app_inv good a -> is_Some (tm_frame_encode f) ->
  (ctl_io a <> None -> hs_timer a = None /\ session_ok (got_hello a) (sent a ++ [f])) ->
  fine good a (tm_agent_send_frame (Some f) a).
Proof.
  intros Hi [buf Eb] Hs. unfold tm_agent_send_frame. destruct (ctl_io a) as [i|] eqn:Ei;
    [|apply app_fine_refl; [done|by apply gone_talks]]. rewrite Eb. destruct Hs as [Hh Hse]; [done|].
  pose proof Hi as (Hc & _ & Ht). destruct (co_leg a Hc i Ei) as (Hok & Hl & Hco & Hsd).
  pose proof (io_write_law i buf Hok) as (L1 & L2 & _ & _). destruct (io_write i buf) as [[r us] i']. cbn [snd] in L2.
  assert (ctl_io a <> None) as Hne by (by rewrite Ei).
  destruct r.
  all: try (destruct L1 as [L1 ->]; cbn [ctl_ups fold_left];
    assert (app_inv good (a <| ctl_io := Some i' |> <| sent := sent a |>)) as Hi'
      by (apply inv_leg; auto; congruence);
    replace (a <| ctl_io := Some i' |> <| sent := sent a |>) with (a <| ctl_io := Some i' |>) in Hi' by (by destruct a);
    set (b := a <| ctl_io := Some i' |>) in *;
    assert (later a b) as Hlb by (constructor; [done|left; split; [done|by rewrite Ei]]);
    assert (connected b = true) as Hcb by done; clearbody b;
    destruct Hi' as (Hcb' & Hgb' & Htb');
    pose proof (disconnect_dropped b Hcb' Htb' (or_introl (or_intror Hcb))) as Hd; split_and!;
    [by apply inv_disconnect|apply gone_talks, Hd|by apply (later_trans a b), later_disconnect]).
  destruct L1 as [L1 _].
  assert (app_inv good (a <| ctl_io := Some i' |> <| sent := sent a ++ [f] |>)) as Hi'.
  { apply inv_leg; auto. rewrite sent_bytes_app, (sent_bytes_one f buf Eb). congruence. }
  change (a <| ctl_io := Some i' |> <| sent ::= fun l => l ++ [f] |>) with (a <| ctl_io := Some i' |> <| sent := sent a ++ [f] |>).
  set (b := a <| ctl_io := Some i' |> <| sent := sent a ++ [f] |>) in *.
  assert (later a b) as Hlb by (constructor; [done|left; split; [done|by rewrite Ei]]).
  assert (talks b) as Htb by (intros _ _; exact Hse). clearbody b.
  destruct (fine_ups good us b Hi' Htb) as (? & ? & ?). split_and!; [done|done|by apply (later_trans a b)].
Qed.

(** A frame among those exchanged at any time. *)
Lemma session_more got l f : session_ok got l -> small_talk f -> session_ok got (l ++ [f]).
Proof.
  intros (h & l1 & l2 & Eh & Hf & Hl) Hs. exists h, l1, (l2 ++ [f]).
  split_and!; [done|rewrite app_assoc; apply Forall_app; auto|].
  destruct Hl as [->|[-> (g & Eg & ->)]]; [left|right; split; [done|exists g; split; [done|]]];
    cbn [app]; by rewrite <- !app_assoc.
Qed.

Lemma fine_msg good type n payload a : app_inv good a -> talks a -> (ctl_io a <> None -> hs_timer a = None) ->
  type = TM_MSG_PING \/ type = TM_MSG_PONG \/ type = TM_MSG_OPEN_STREAM_ERROR -> blen payload <= TM_MAX_FRAME_PAYLOAD ->
  fine good a (send_msg type n payload a).
Proof.
  intros Hi Hk Hh Ht Hp. unfold send_msg. destruct (tm_frame_make type n payload (blen payload)) as [f|] eqn:E.
  2: { unfold tm_frame_make in E. destruct (_ <? _) eqn:L in E; [zb; lia|done]. }
  destruct (tm_frame_make_wf _ _ _ _ E) as ((_ & _ & _ & _ & Hm) & _ & Et & _). apply fine_send; [done| |].
  - unfold tm_frame_encode. destruct (_ <? _) eqn:L; [zb; lia|done].
  - intros Hio. split; [auto|]. apply session_more; [apply Hk; auto|]. unfold small_talk. rewrite Et.
    destruct Ht as [->|[->| ->]]; auto.
Qed.

(** *** Streams *)

Lemma fine_tab good l c a : app_inv good a -> talks a -> tab_ok (a <| streams := l |> <| stream_count := c |>) ->
  fine good a (a <| streams := l |> <| stream_count := c |>).
Proof.
  intros ([] & Hg & _) Hk Ht. split_and!; [split_and!; [by constructor|intros G; destruct (Hg G); by constructor|done]|done|].
  constructor; [done|by left].
Qed.

Lemma find_split n a x : tm_astream_find a n = Some x ->
  exists l1 l2, streams a = l1 ++ x :: l2 /\ sid x = n /\ Forall (fun z => sid z <> n) l1.
Proof.
  unfold tm_astream_find. generalize (streams a) as l. induction l as [|y l IH]; [done|]. cbn.
  destruct (sid y =? n) eqn:E; zb.
  - intros [= ->]. exists [], l. by split_and!.
  - intros Hf. destruct (IH Hf) as (l1 & l2 & -> & E2 & Hl). exists (y :: l1), l2. split_and!; auto.
Qed.

Lemma unlink_split n l1 x l2 : sid x = n -> Forall (fun z => sid z <> n) l1 -> unlink_sid n (l1 ++ x :: l2) = l1 ++ l2.
Proof.
  intros E. induction 1 as [|y l1 Hy _ IH]; cbn; [by rewrite E, Z.eqb_refl|].
  destruct (sid y =? n) eqn:E'; zb; [done|]. by rewrite IH.
Qed.

Lemma map_split n y l1 x l2 : sid x = n -> NoDup (map sid (l1 ++ x :: l2)) ->
  map (fun z => if sid z =? n then y else z) (l1 ++ x :: l2) = l1 ++ y :: l2.
Proof.
  intros E Hn. rewrite map_app in *. cbn in *. rewrite E, Z.eqb_refl.
  apply NoDup_app in Hn as (_ & Hd & Hn). rewrite E in *. apply NoDup_cons in Hn as [Hn _].
  assert (forall l, n ∉ map sid l -> map (fun z => if sid z =? n then y else z) l = l) as Hid.
  { induction l as [|z l IH]; [done|]. cbn. intros Hni. rewrite not_elem_of_cons in Hni. destruct Hni as [Hz Hni].
    destruct (sid z =? n) eqn:Ez; zb; [congruence|]. by rewrite IH. }
  rewrite !Hid; auto. intros Hin. apply (Hd n Hin). by left.
Qed.

Lemma on_astream_tab n f x a : tab_ok a -> tm_astream_find a n = Some x -> sid (f x) = n ->
  (Relay.closing (st (f x)) = false -> stream_ok (f x)) ->
  exists l, on_astream n f a = a <| streams := l |> <| stream_count := blen l |> /\
    tab_ok (a <| streams := l |> <| stream_count := blen l |>).
Proof.
  intros [Hr Hid Hc He] Ef Es Hok. unfold on_astream. rewrite Ef. cbv zeta.
  destruct (find_split n a x Ef) as (l1 & l2 & El & Ex & Hl1).
  assert (registered a = false -> False) as Hreg by (intros E; apply Hr in E; rewrite El in E; by destruct l1).
  rewrite El in Hid, He, Hc. apply Forall_app in He as [He1 He2]. apply Forall_cons in He2 as [Hx He2].
  destruct (Relay.closing (st (f x))) eqn:Ec.
  - exists (l1 ++ l2). split.
    + unfold astream_unlink. destruct a; cbn in *. subst. rewrite unlink_split by done.
      assert ((if 0 <? blen (l1 ++ x :: l2) then blen (l1 ++ x :: l2) - 1 else blen (l1 ++ x :: l2)) = blen (l1 ++ l2)) as ->.
      { autorewrite with blen. destruct (_ <? _) eqn:L; zb; pose proof (blen_nonneg l1); pose proof (blen_nonneg l2); lia. }
      done.
    + constructor; cbn; [by intros ?%Hreg| |done|by apply Forall_app].
      rewrite map_app in *. cbn in Hid. apply NoDup_app in Hid as (N1 & N2 & N3). apply NoDup_cons in N3 as [_ N3].
      apply NoDup_app. split_and!; auto. intros z Hz Hz'. apply (N2 z Hz). by right.
  - exists (l1 ++ f x :: l2). split.
    + destruct a; cbn in *. subst. rewrite map_split by done. by autorewrite with blen.
    + constructor; cbn; [by intros ?%Hreg| |done|apply Forall_app; split; [done|by constructor; auto]].
      rewrite map_app in *. cbn in *. congruence.
Qed.

Lemma fine_stream good n f a : app_inv good a -> talks a ->
  (forall x, tm_astream_find a n = Some x -> stream_ok x ->
     sid (f x) = n /\ (Relay.closing (st (f x)) = false -> stream_ok (f x))) ->
  fine good a (on_astream n f a).
Proof.
  intros Hi Hk Hf. pose proof Hi as (_ & _ & Ht). destruct (tm_astream_find a n) as [x|] eqn:Ef.
  - destruct (Hf x eq_refl) as [Es Hok].
    { destruct (find_in n a x Ef) as [Hin _]. pose proof (tb_each a Ht) as He. rewrite Forall_forall in He. auto. }
    destruct (on_astream_tab n f x a Ht Ef Es Hok) as (l & -> & Ht'). by apply fine_tab.
  - unfold on_astream. rewrite Ef. by apply app_fine_refl.
Qed.

Lemma app_fine_close good n a : app_inv good a -> talks a -> fine good a (tm_astream_close n a).
Proof.
  intros Hi Hk. apply fine_stream; auto. intros x Ef _. destruct (find_in n a x Ef) as [_ Es]. split; [done|].
  change (st (x <| st ::= tm_stream_close |>)) with (tm_stream_close (st x)). by rewrite closed_astream.
Qed.

Lemma stream_step x y : st_started x = true -> st_started y = true -> stream_ok x -> sid y = sid x -> reader_wf (st_fr y) ->
  rtc (ep_step Endpoint.Agent) (st x) (st y) -> Relay.closing (st y) = false -> stream_ok y.
Proof.
  intros Ux Uy (_ & _ & Hx) Es Hr Hst Hc. rewrite Ux in Hx. destruct Hx as (now & i & Hok & Hrun).
  split_and!; [done|done|]. rewrite Uy. exists now, i. split; [done|]. rewrite Es. unfold ep_run in *. by etransitivity.
Qed.

Lemma fine_relay good n g a : app_inv good a -> talks a ->
  (forall x, tm_astream_find a n = Some x -> st_started x = true /\ ep_step Endpoint.Agent (st x) (g (st x))) ->
  fine good a (on_relay n g a).
Proof.
  intros Hi Hk Hg. apply fine_stream; auto. intros x Ef Hx. destruct (Hg x Ef) as [Hu Hst].
  destruct (find_in n a x Ef) as [_ Es]. split; [done|]. intros Hc. pose proof Hx as (_ & Hr & _).
  apply (stream_step x); auto. by apply rtc_once.
Qed.

Lemma find_reg n x a : tab_ok a -> tm_astream_find a n = Some x -> registered a = true.
Proof.
  intros Ht Ef. destruct (registered a) eqn:E; [done|]. apply (tb_reg a Ht) in E.
  unfold tm_astream_find in Ef. by rewrite E in Ef.
Qed.

(** A refusal to the broker, and the end of the stream. *)
Lemma fine_refuse good n x msg a : app_inv good a -> talks a -> tm_astream_find a n = Some x ->
  blen msg <= TM_MAX_FRAME_PAYLOAD -> fine good a (open_stream_error n msg a).
Proof.
  intros Hi Hk Ef Hm. pose proof Hi as (Hc & _ & Ht). pose proof (find_reg n x a Ht Ef) as Hr. unfold open_stream_error.
  assert (fine good a (send_msg TM_MSG_OPEN_STREAM_ERROR n msg a)) as F.
  { apply fine_msg; auto. intros _. destruct (hs_timer a) eqn:E; [|done].
    destruct (co_hs a Hc) as (_ & _ & ?); [by rewrite E|]. congruence. }
  apply (app_fine_trans good a _ _ F). destruct F as (? & ? & _). by apply app_fine_close.
Qed.

(** *** Frames of the broker *)

(** A new data connection has a new leg. *)
Context (Hdata : forall k i, data_conn k = CONNECTING i -> io_fresh i).

Lemma fine_counts good k1 k2 a : app_inv good a -> talks a -> fine good a (a <| ticks := k1 |> <| opened := k2 |>).
Proof.
  intros ([] & Hg & []) Hk. split_and!; [split_and!; [by constructor|intros G; destruct (Hg G); by constructor|by constructor]|done|].
  constructor; [done|by left].
Qed.

Lemma link_close n x a : sid x = n -> 0 <= stream_count a -> tm_astream_close n (link_astream x a) = a.
Proof.
  intros Es Hc. rewrite (close_eq n x) by (unfold tm_astream_find; cbn; by rewrite Es, Z.eqb_refl).
  unfold astream_unlink, link_astream. destruct a; cbn in *. rewrite Es, Z.eqb_refl.
  destruct (0 <? 1 + stream_count0) eqn:E; zb; [|lia]. by replace (1 + stream_count0 - 1) with stream_count0 by lia.
Qed.

Lemma fine_link good x a : app_inv good a -> talks a -> registered a = true -> tm_astream_find a (sid x) = None ->
  stream_ok x -> fine good a (link_astream x a).
Proof.
  intros Hi Hk Hr Ef Hx. pose proof Hi as (_ & _ & [_ Hid Hc He]). unfold link_astream.
  assert (tab_ok (a <| streams := x :: streams a |> <| stream_count := 1 + stream_count a |>)) as Ht.
  { constructor; cbn; [congruence| |rewrite Hc; by autorewrite with blen|by constructor].
    constructor; [|done]. intros Hin. apply list_elem_of_fmap in Hin as (y & Es & Hy). unfold tm_astream_find in Ef.
    pose proof (List.find_none _ _ Ef y) as Hn. cbn in Hn. rewrite Es, Z.eqb_refl in Hn.
    by discriminate Hn; apply list_elem_of_In. }
  exact (fine_tab good _ _ a Hi Hk Ht).
Qed.

Lemma fine_open good n a : app_inv good a -> talks a -> registered a = true -> fine good a (tm_astream_open n a).
Proof.
  intros Hi Hk Hr. unfold tm_astream_open. destruct (tm_astream_find a n) as [x|] eqn:Ef; [by apply app_fine_refl|].
  unfold tm_now_ms. cbv zeta.
  change (a <| ticks ::= S |> <| opened ::= S |>) with (a <| ticks := S (ticks a) |> <| opened := S (opened a) |>).
  change (opened (a <| ticks ::= S |>)) with (opened a).
  pose proof (fine_counts good (S (ticks a)) (S (opened a)) a Hi Hk) as F.
  set (b := a <| ticks := _ |> <| opened := _ |>) in *.
  assert (tm_astream_find b n = None) as Efb by done. assert (registered b = true) as Hrb by done. clearbody b.
  apply (app_fine_trans good a b _ F). destruct F as (Hib & Hkb & _). pose proof Hib as (_ & _ & Htb).
  assert (0 <= stream_count b) by (rewrite (tb_count b Htb); apply blen_nonneg).
  destruct (data_conn (opened a)) as [| |i|i] eqn:Ed; try (rewrite link_close by done; by apply app_fine_refl).
  apply fine_link; auto. split_and!; [done|apply reader_new_wf|]. exists (u64 (clock (ticks a))), i. split; [|done].
  by apply (Hdata (opened a)).
Qed.

Lemma fine_register_ok good a : app_inv good a -> talks a -> ctl_io a <> None -> hs_timer a = None ->
  fine good a (on_register_ok a).
Proof.
  intros Hi Hk Hio Hh. unfold on_register_ok. destruct (registered a) eqn:Hr; [by apply app_fine_refl|]. cbv zeta.
  pose proof Hi as (Hc & Hg & Ht). destruct (ctl_io a) as [i|] eqn:Ei; [|done]. destruct (co_leg a Hc i Ei) as (Hok & Hl & Hco & Hsd).
  destruct cfg_delays as [D1 D2].
  assert (reconnect_timer a = None) as Hw.
  { destruct (reconnect_timer a) eqn:E; [|done]. destruct (co_wait a Hc) as [Hb _]; [by rewrite E|]. destruct Hb. by right. }
  set (v := u64 (reconnect_delay_ms cfg)). assert (v = reconnect_delay_ms cfg) as Ev by (apply wrap_small; unfold in_width; lia).
  set (hb := u64 _). clearbody v hb. set (b := a <| registered := true |> <| reconnect_delay := v |>).
  assert (exists u k, (if bool_decide (proto cfg = TM_PROTO_UDP) then udp_start b else b) <| hb_timer := Some hb |> =
    a <| registered := true |> <| reconnect_delay := v |> <| udp := u |> <| udp_starts := k |> <| hb_timer := Some hb |>)
    as (u & k & ->).
  { destruct (bool_decide _); [exists (AgentUdp.tm_agent_udp_start (udp_session (udp_starts a)) (udp a)), (S (udp_starts a)); reflexivity|]. exists (udp a), (udp_starts a). by destruct a. }
  clear b. split_and!; [split_and!|done|constructor; [done|left; split; [done|exact (iff_refl (ctl_io a = None))]]].
  - destruct Hc. constructor; cbn; try done; try lia.
    all: try (by rewrite Hw). all: try (by rewrite Hh).
  - intros G. destruct (Hg G). by constructor.
  - destruct Ht as [Hrs ? ? ?]. by constructor.
Qed.

Lemma inv_shutdown good a : app_inv good a -> (good = true -> ctl_sock a <> S_ZERO) ->
  app_inv good (tm_agent_shutdown a) /\ (shutting_down a = false -> talks (tm_agent_shutdown a)).
Proof.
  intros Hi Hz. unfold tm_agent_shutdown. destruct (shutting_down a) eqn:Es; [done|]. cbv zeta.
  pose proof Hi as (Hc & Hg & Ht). unfold udp_stop.
  set (b := close_ctl_sock _ <| hb_timer := None |> <| hs_timer := None |>).
  assert (stream_count b = blen (streams b)) as Eb.
  { unfold b, close_ctl_sock. destruct a as [k]; destruct k; apply (tb_count _ Ht). }
  rewrite close_streams_eq by done. split; [|intros _; apply gone_talks; unfold b, close_ctl_sock; destruct a as [k]; by destruct k].
  split_and!.
  - destruct Hc. unfold b, close_ctl_sock. destruct a as [k]. cbn in co_leg0, co_fr0, co_hs0, co_hb0, co_reg0, co_conn0, co_wait0, co_delay0, co_pos0, co_timer0, co_stuck0.
    destruct k; constructor; cbn; try done; unfold busy in *; cbn in *; try (intros Hx; split; [naive_solver|by left]); naive_solver.
  - intros G. specialize (Hz G). destruct (Hg G). unfold b, close_ctl_sock. destruct a as [k].
    cbn in Es, Hz, go_fault0, go_live0, go_idle0, go_retry0.
    destruct k; constructor; cbn; try done; auto.
  - unfold b, close_ctl_sock. destruct a as [k]. destruct k; constructor; cbn; try done; constructor.
Qed.

Lemma hello_some : exists h, hello = Some h /\ is_Some (tm_frame_encode h).
Proof. eexists. split; [reflexivity|]. by eexists. Qed.

Lemma register_some : exists g, register = Some g /\ is_Some (tm_frame_encode g).
Proof.
  assert (blen register_payload <= TM_MAX_FRAME_PAYLOAD) as Hp.
  { unfold register_payload. autorewrite with blen. change (blen (wr_u16 _)) with 2.
    pose proof (ok_id _ Hcfg). pose proof (ok_secret _ Hcfg).
    unfold TM_TUNNEL_ID_LEN, TM_MAX_SECRET, TM_MAX_FRAME_PAYLOAD in *. lia. }
  unfold register, tm_frame_make. destruct (_ <? _) eqn:E; [zb; lia|]. eexists. split; [done|].
  unfold tm_frame_encode. cbn [f_payload_len]. rewrite E. by eexists.
Qed.

Lemma session_register l g : register = Some g -> session_ok false l -> session_ok true (l ++ [g]).
Proof.
  intros Eg (h & l1 & l2 & Eh & Hf & Hl). destruct Hl as [->|[? _]]; [|done].
  exists h, (l1 ++ l2), []. split_and!; [done|by rewrite app_nil_r|]. right. split; [done|]. by exists g.
Qed.

Lemma inv_got good a : app_inv good a -> app_inv good (a <| got_hello := true |>).
Proof. intros ([] & Hg & []). split_and!; [by constructor|intros G; destruct (Hg G); by constructor|by constructor]. Qed.

(** One frame on a session that is there. *)
Definition framed (good : bool) (a : tm_agent_app) (r : bool * tm_agent_app) : Prop :=
  app_inv good r.2 /\ talks r.2 /\ (r.1 = false -> later a r.2).

Lemma framed_fine good a a' : fine good a a' -> framed good a (false, a').
Proof. intros (? & ? & ?). by split_and!. Qed.

Lemma framed_hello_ack good a : app_inv good a -> talks a -> ctl_io a <> None -> hs_timer a = None ->
  shutting_down a = false -> framed good a (on_hello_ack a).
Proof.
  intros Hi Hk Hio Hh Hs. unfold on_hello_ack. destruct (got_hello a) eqn:Eg; [by apply framed_fine, app_fine_refl|]. cbv zeta.
  pose proof (inv_got good a Hi) as Hi'. destruct register_some as (g & Er & He).
  assert ((ctl_io a <> None -> hs_timer a = None -> session_ok false (sent a))) as Hk' by (rewrite <- Eg; exact Hk).
  assert (later a (a <| got_hello := true |>)) as Hl by (constructor; [done|left; split; [done|exact (iff_refl (ctl_io a = None))]]).
  set (b := a <| got_hello := true |>) in *.
  assert (shutting_down b = false /\ ctl_io b <> None /\ hs_timer b = None /\ got_hello b = true /\ sent b = sent a) as (B1 & B2 & B3 & B4 & B5)
    by done. clearbody b. destruct (_ || _).
  - assert (good = true -> ctl_sock b <> S_ZERO) as Hz.
    { intros ->. destruct Hi' as (Hc & Hg & _). specialize (Hg eq_refl). destruct (ctl_io b) as [i|] eqn:Ei; [|done].
      destruct (co_leg b Hc i Ei) as (_ & _ & Hco & _). rewrite (go_live b Hg) by (try done; by right). done. }
    destruct (inv_shutdown good b Hi' Hz) as [? ?]. split_and!; cbn; auto. done.
  - rewrite Er. apply framed_fine. pose proof (fine_send good g b Hi' He) as Hf.
    destruct Hf as (? & ? & ?).
    { intros _. split; [done|]. rewrite B4, B5. apply session_register; auto. }
    split_and!; [done|done|]. by apply (later_trans a b).
Qed.

Lemma alive_up good a : app_inv good a -> ctl_io a <> None -> connected a = true /\ shutting_down a = false.
Proof. intros (Hc & _ & _) Hio. destruct (ctl_io a) as [i|] eqn:E; [|done]. by destruct (co_leg a Hc i E) as (_ & _ & ?). Qed.

Lemma framed_frame good f a : app_inv good a -> talks a -> ctl_io a <> None -> hs_timer a = None ->
  shutting_down a = false -> framed good a (ctl_frame f a).
Proof.
  intros Hi Hk Hio Hh Hs. unfold ctl_frame. cbv zeta.
  destruct (_ =? TM_MSG_HELLO_ACK); [by apply framed_hello_ack|].
  destruct (_ =? TM_MSG_REGISTER_OK); [by apply framed_fine, fine_register_ok|].
  destruct (_ =? TM_MSG_REGISTER_ERROR); [by apply framed_fine, fine_disconnect|].
  destruct (_ =? TM_MSG_PING).
  { apply framed_fine, fine_msg; auto. unfold blen, TM_MAX_FRAME_PAYLOAD. cbn. lia. }
  destruct (_ =? TM_MSG_OPEN_STREAM).
  { apply framed_fine. destruct (registered a) eqn:Er; [by apply fine_open|by apply app_fine_refl]. }
  destruct (_ =? TM_MSG_CLOSE_STREAM); [by apply framed_fine, app_fine_close|].
  destruct (_ =? TM_MSG_GOING_AWAY); [|by apply framed_fine, app_fine_refl].
  destruct (fine_disconnect good a Hi Hk) as (? & ? & ?). by split_and!.
Qed.

(** The session's reader replaced. *)
Lemma fine_reader good fr a : app_inv good a -> talks a -> bytes_ok (fr_buf fr) ->
  app_inv good (a <| ctl_fr := fr |>) /\ talks (a <| ctl_fr := fr |>).
Proof.
  intros ([] & Hg & []) Hk Hfr. split; [|done].
  split_and!; [by constructor|intros G; destruct (Hg G); by constructor|by constructor].
Qed.

Lemma feed_empty fr : fr_buf fr = [] -> tm_frame_reader_feed fr [] = (FeedMore, fr).
Proof. destruct fr as [buf cap]. cbn. by intros ->. Qed.

Lemma loop_ok good fuel : forall data a, (length (fr_buf (ctl_fr a)) + length data < fuel)%nat -> bytes_ok data ->
  app_inv good a -> talks a -> hs_timer a = None -> (ctl_io a <> None \/ fr_buf (ctl_fr a) = [] /\ data = []) ->
  app_inv good (ctl_loop fuel data a) /\ talks (ctl_loop fuel data a).
Proof.
  induction fuel as [|fuel IH]; intros data a Hfu Hd Hi Hk Hh Hal; [lia|]. cbn [ctl_loop].
  pose proof Hi as (Hc & _ & Ht). destruct Hal as [Hio|[He ->]].
  2: { rewrite feed_empty by done. replace (a <| ctl_fr := ctl_fr a |>) with a by (by destruct a). done. }
  destruct (feed_consumes (ctl_fr a) data (co_fr a Hc) Hd) as [Hb Hlt].
  destruct (tm_frame_reader_feed (ctl_fr a) data) as [r fr]. cbn [fst snd] in Hb, Hlt.
  destruct (fine_reader good fr a Hi Hk Hb) as [Hi' Hk'].
  assert (fr_buf (ctl_fr (a <| ctl_fr := fr |>)) = fr_buf fr) as Eb by done.
  set (b := a <| ctl_fr := fr |>) in *.
  assert (ctl_io b <> None /\ hs_timer b = None) as (B1 & B2) by done. clearbody b.
  destruct (alive_up good b Hi' B1) as [_ B3].
  destruct r as [| |f]; [by destruct (fine_disconnect good b Hi' Hk') as (? & ? & _)|done|].
  pose proof (framed_frame good f b Hi' Hk' B1 B2 B3) as (F1 & F2 & F3).
  destruct (ctl_frame f b) as [ret b']. cbn [fst snd] in *. destruct ret; [done|]. specialize (F3 eq_refl). specialize (Hlt f eq_refl).
  destruct F3 as [L1 L2]. apply IH; auto.
  - cbn. destruct L2 as [[-> _]|[-> _]]; cbn; rewrite ?Eb; lia.
  - by constructor.
  - destruct L2 as [[_ L2]|[? _]]; [left; tauto|by right].
Qed.

(** A reading of the clock, and what is written of it. *)
Lemma fine_stamp good k rx ping a : app_inv good a -> talks a ->
  fine good a (a <| ticks := k |> <| last_rx_ms := rx |> <| last_ping_ms := ping |>).
Proof.
  intros ([] & Hg & []) Hk. split_and!; [split_and!; [by constructor|intros G; destruct (Hg G); by constructor|by constructor]|done|].
  constructor; [done|by left].
Qed.

Lemma read_ok good data a : app_inv good a -> talks a -> ctl_io a <> None -> hs_timer a = None -> bytes_ok data ->
  app_inv good (ctl_read data a) /\ talks (ctl_read data a).
Proof.
  intros Hi Hk Hio Hh Hd. unfold ctl_read, tm_now_ms. cbv zeta.
  destruct (fine_stamp good (S (ticks a)) (u64 (clock (ticks a))) (last_ping_ms a) a Hi Hk) as (Hi' & Hk' & _).
  replace (a <| ticks := S (ticks a) |> <| last_rx_ms := u64 (clock (ticks a)) |> <| last_ping_ms := last_ping_ms a |>)
    with (a <| ticks ::= S |> <| last_rx_ms := u64 (clock (ticks a)) |>) in * by (by destruct a).
  apply loop_ok; auto.
Qed.

(** *** The life of the control connection *)

Lemma ready_ok good a : app_inv good a -> hs_timer a <> None ->
  app_inv good (ctl_handshake_done a) /\ talks (ctl_handshake_done a).
Proof.
  intros Hi Hh. unfold ctl_handshake_done, tm_now_ms. cbv zeta. destruct hello_some as (h & Eh & He). rewrite Eh.
  pose proof Hi as (Hc & Hg & Ht). destruct (co_hs a Hc Hh) as (Hs & Hco & Hr).
  set (now := u64 _). clearbody now.
  set (b := a <| hs_timer := None |> <| ticks ::= S |> <| last_rx_ms := now |> <| last_ping_ms := now |>).
  assert (app_inv good b) as Hi'.
  { destruct Hc, Ht. split_and!; [by constructor|intros G; destruct (Hg G); by constructor|by constructor]. }
  assert (hs_timer b = None /\ sent b = []) as [B1 B2] by done. clearbody b.
  destruct (fine_send good h b Hi' He) as (? & ? & _); [|done]. intros _. split; [done|]. rewrite B2.
  exists h, [], []. split_and!; [done|by constructor|by left].
Qed.

Lemma connecting_only a : ctl_ok a -> connecting a = true ->
  connected a = false /\ registered a = false /\ reconnect_timer a = None /\ ctl_io a = None /\ hs_timer a = None /\ hb_timer a = None.
Proof.
  intros Hco Hc.
  assert (connected a = false) as Hnc by (destruct (connected a) eqn:E; [destruct (co_conn a Hco E); congruence|done]).
  assert (registered a = false) as Hnr by (destruct (registered a) eqn:E; [pose proof (co_reg a Hco E); congruence|done]).
  split_and!; [done|done|..].
  - destruct (reconnect_timer a) eqn:E; [|done]. destruct (co_wait a Hco) as [Hb _]; [by rewrite E|]. destruct Hb. by left.
  - destruct (ctl_io a) as [i|] eqn:E; [|done]. destruct (co_leg a Hco i E) as (_ & _ & ? & _). congruence.
  - destruct (hs_timer a) eqn:E; [|done]. destruct (co_hs a Hco) as (_ & ? & _); [by rewrite E|congruence].
  - destruct (hb_timer a) eqn:E; [|done]. assert (registered a = true) by (apply (co_hb a Hco); by rewrite E). congruence.
Qed.

Lemma connected_ok good r a : app_inv good a -> connecting a = true -> fresh_ctl r -> (good = true -> setup_ok r) ->
  (shutting_down a = true -> r = CTL_FAILED) -> talks a ->
  app_inv good (ctl_connected r a) /\ talks (ctl_connected r a).
Proof.
  intros Hi Hc Hf Hs Hd Hk. pose proof Hi as (Hco & Hg & Ht).
  destruct (connecting_only a Hco Hc) as (Hnc & Hnr & Hw & Hio & Hh & _).
  pose proof (co_pos a Hco (or_introl (or_introl Hc))) as Hpos.
  assert (forall b, connecting b = false -> connected b = false -> registered b = false -> tm_agent_disconnect b = b) as Hid
    by (intros b E1 E2 E3; apply disconnect_idle; unfold busy; naive_solver congruence).
  assert (good = false -> app_inv good (a <| connecting := false |>) /\ talks (a <| connecting := false |>)) as Hbad.
  { intros ->. split; [|done]. destruct Hco, Ht. split_and!; [|done|by constructor]. constructor; try done; unfold busy in *; cbn; naive_solver. }
  unfold ctl_connected. destruct r as [| | |i failed]; cbv zeta.
  - by destruct (fine_disconnect good a Hi Hk) as (? & ? & _).
  - rewrite Hid by done. apply Hbad. destruct good; [by destruct (Hs eq_refl)|done].
  - rewrite Hid by done. apply Hbad. destruct good; [by destruct (Hs eq_refl)|done].
  - assert (shutting_down a = false) as Hsd by (destruct (shutting_down a) eqn:E; [by discriminate (Hd eq_refl)|done]).
    destruct (io_fresh_law i Hf) as (F1 & F2 & _ & _). set (i' := io_start i) in *. clearbody i'.
    unfold ctl_error. rewrite Hid by done. set (v := u64 _). clearbody v.
    assert ((if failed then a <| connecting := false |> <| ctl_io := Some i' |> <| sent := [] |>
             else a <| connecting := false |> <| ctl_io := Some i' |> <| sent := [] |>) =
            a <| connecting := false |> <| ctl_io := Some i' |> <| sent := [] |>) as -> by (by destruct failed).
    split; [|by intros _ ?]. destruct Hco, Ht. split_and!.
    + constructor; cbn; try done.
      * intros j [= <-]. by split_and!.
      * intros _. split; [done|by right].
    + intros G. destruct (Hg G). constructor; cbn; try done.
      * intros _ _. apply go_live0; [done|by left].
      * intros _. left. by right.
    + by constructor.
Qed.

Lemma arm_inv good b : ctl_ok b -> tab_ok b -> ~ busy b -> reconnect_timer b = None -> shutting_down b = false ->
  1 <= reconnect_delay b -> (good = true -> fault b = false /\ ctl_sock b <> S_LIVE) ->
  app_inv good (arm_reconnect b) /\ ctl_io (arm_reconnect b) = ctl_io b.
Proof.
  intros Hc Ht Hb Hw Hs Hp Hg. destruct (arm_near b (delay_small b Hc)) as (d & k & -> & Hn). split; [|done].
  destruct Hc, Ht. split_and!.
  - constructor; try done; cbn. intros d' [= <-]. exact Hn.
  - intros G. destruct (Hg G). constructor; cbn; try done; try congruence. by right.
  - by constructor.
Qed.

Lemma connect_ok good r b : ctl_ok b -> tab_ok b -> ~ busy b -> reconnect_timer b = None -> shutting_down b = false ->
  (good = true -> fault b = false /\ ctl_sock b <> S_LIVE /\ ctl_sock b <> S_CLOSING) -> (good = true -> r <> NO_ATTEMPT) ->
  app_inv good (tm_agent_connect r b) /\ ctl_io (tm_agent_connect r b) = ctl_io b.
Proof.
  intros Hc Ht Hb Hw Hs Hg Hr. unfold tm_agent_connect.
  assert (shutting_down b || connected b || connecting b = false) as ->.
  { rewrite Hs. destruct (connected b) eqn:E1; [destruct Hb; by right|]. destruct (connecting b) eqn:E2; [destruct Hb; by left|done]. }
  destruct cfg_delays as [D1 D2]. rewrite (wrap_small 64 (reconnect_delay_ms cfg)) by (unfold in_width; lia). cbv zeta.
  set (b1 := if reconnect_delay b =? 0 then _ else b).
  assert (ctl_ok b1 /\ tab_ok b1 /\ ~ busy b1 /\ reconnect_timer b1 = None /\ shutting_down b1 = false /\ 1 <= reconnect_delay b1 /\
          fault b1 = fault b /\ ctl_sock b1 = ctl_sock b /\ ctl_io b1 = ctl_io b /\ registered b1 = registered b) as (K1 & K2 & K3 & K4 & K5 & K6 & K7 & K8 & K9 & K10).
  { subst b1. destruct (reconnect_delay b =? 0) eqn:E; zb.
    - split_and!; try done; [|destruct Ht; by constructor|cbn; lia].
      destruct Hc. constructor; try done; cbn; [lia|intros [?|?]; [done|congruence]|congruence].
    - split_and!; try done. pose proof (co_delay b Hc). lia. }
  clearbody b1. rewrite <- K9. clear K9 Hc Ht Hb Hw Hs. rewrite <- K7, <- K8 in Hg. clear K7 K8 K10 b.
  assert (forall f k, ctl_ok (b1 <| ctl_sock := k |> <| fault := f |>) /\ tab_ok (b1 <| ctl_sock := k |> <| fault := f |>)) as Hset
    by (intros f k; destruct K1, K2; split; by constructor).
  assert (exists f, init_ctl_sock b1 = b1 <| ctl_sock := S_LIVE |> <| fault := f |> /\ (good = true -> f = false)) as (f & Ei & Ef).
  { unfold init_ctl_sock. destruct (ctl_sock b1) eqn:E; eexists.
    - split; [|intros G; apply (Hg G)]. by destruct b1.
    - split; [reflexivity|]. intros G. by destruct (Hg G) as (_ & ? & _).
    - split; [reflexivity|]. intros G. by destruct (Hg G) as (_ & _ & ?).
    - split; [|intros G; apply (Hg G)]. by destruct b1. }
  destruct r.
  - apply arm_inv; auto. intros G. by destruct (Hg G) as (? & ? & _).
  - rewrite Ei. destruct (Hset f S_LIVE) as [Hc2 Ht2]. set (b2 := b1 <| ctl_sock := _ |> <| fault := _ |>) in *.
    assert (ctl_io b1 = ctl_io b2) as -> by done. apply arm_inv; auto. intros G. by destruct (Hr G).
  - rewrite Ei. split; [|done]. destruct (Hset f S_LIVE) as [Hc2 Ht2]. set (b2 := b1 <| ctl_sock := _ |> <| fault := _ |>) in *.
    assert (fault b2 = f /\ ctl_sock b2 = S_LIVE /\ 1 <= reconnect_delay b2 /\ shutting_down b2 = false /\ reconnect_timer b2 = None /\ ~ busy b2)
      as (L1 & L2 & L3 & L4 & L5 & L6) by done. clearbody b2. destruct Hc2, Ht2.
    assert (connected b2 = false) as Lc by (destruct (connected b2) eqn:E; [destruct L6; by right|done]).
    split_and!; [constructor; cbn; try done| |by constructor].
    + intros E. exfalso. congruence.
    + intros G. constructor; cbn; try congruence; [rewrite L1; auto|by left; left].
Qed.

(** *** Data connections *)

Lemma pre_ok fuel n : forall data fr, (length (fr_buf fr) + length data < fuel)%nat -> reader_wf fr -> bytes_ok data ->
  reader_wf (pre_frames fuel n data fr).2 /\
  exists r, (pre_frames fuel n data fr).1 = Some r /\ forall lo, r = PreAccept lo -> blen lo <= PEND_MAX.
Proof.
  induction fuel as [|fuel IH]; intros data fr Hf Hr Hd; [lia|]. cbn [pre_frames].
  destruct (feed_consumes fr data (proj1 Hr) Hd) as [_ Hlt]. destruct (feed_bounds fr data Hr Hd) as [Hr' _].
  destruct (tm_frame_reader_feed fr data) as [res fr']. cbn [fst snd] in *. destruct res as [| |f].
  - split; [done|]. by exists PreClose.
  - split; [done|]. by exists PreMore.
  - destruct (_ && _).
    { assert (reader_wf (tm_frame_reader_drain fr').2 /\ (tm_frame_reader_drain fr').1 = fr_buf fr') as [Hdr Elo].
      { unfold tm_frame_reader_drain. destruct (_ =? 0) eqn:E0; zb; [split; [done|]; symmetry; by apply blen_0_nil|].
        split; [|done]. destruct Hr' as (_ & H1' & H2' & H3'). pose proof (blen_nonneg (fr_buf fr')).
        split_and!; cbn; [constructor|change (blen []) with 0; lia..]. }
      destruct (tm_frame_reader_drain fr') as [lo fr2]. cbn [fst snd] in *. split; [done|]. eexists. split; [done|].
      intros lo' [= <-]. subst lo. destruct Hr' as (_ & _ & Hm & _).
      unfold PEND_MAX, TM_IO_HIGH_WATER, TM_MAX_FRAME_PAYLOAD, TM_FRAME_HDR_LEN in *. lia. }
    destruct (_ || _); [split; [done|by exists PreClose]|]. apply IH; [|done|by constructor].
    specialize (Hlt f eq_refl). cbn. lia.
Qed.

Lemma msg_fits (m : bytes) : (length m <= 100)%nat -> blen m <= TM_MAX_FRAME_PAYLOAD.
Proof. unfold blen, TM_MAX_FRAME_PAYLOAD. lia. Qed.

Lemma data_connected_ok good n status x a : app_inv good a -> talks a -> tm_astream_find a n = Some x -> st_started x = false ->
  fine good a (data_conn_connected n status a).
Proof.
  intros Hi Hk Ef Hs. unfold data_conn_connected. rewrite Ef. destruct status as [failed|].
  2: { apply (fine_refuse good n x); auto. apply msg_fits. cbn. lia. }
  cbv zeta. set (g := fun y : tm_astream => y <| st ::= _ |> <| st_started := true |>).
  assert (fine good a (on_astream n g a)) as F.
  { apply fine_stream; auto. intros y Ef' Hy. assert (y = x) as -> by congruence. destruct (find_in n a x Ef) as [_ Es].
    split; [done|]. intros Hc. destruct Hy as (_ & Hr & Hy). rewrite Hs in Hy. destruct Hy as (now & i & Hf & E).
    split_and!; [done|done|]. change (st_started (g x)) with true. cbn match. exists now, (io_start i).
    destruct (io_fresh_law i Hf) as (Hok & Hl & _). split; [done|].
    apply rtc_once. change (st (g x)) with (mod_ A (fun d => d <| leg ::= fmap io_start |>
      <| base := match leg d with Some i => io_log (io_start i) | None => [] end |>) (st x)). rewrite E.
    change (sid (g x)) with (sid x). exact (EsTimer Endpoint.Agent false (new_endpoint (sid x) now (io_start i))). }
  destruct failed; [|done]. apply (app_fine_trans good a _ _ F). destruct F as (? & ? & _). by apply app_fine_close.
Qed.

Lemma find_after n f x a : tab_ok a -> tm_astream_find a n = Some x -> sid (f x) = n -> Relay.closing (st (f x)) = false ->
  tm_astream_find (on_astream n f a) n = Some (f x).
Proof.
  intros Ht Ef Es Hc. unfold on_astream. rewrite Ef. cbv zeta. rewrite Hc.
  destruct (find_split n a x Ef) as (l1 & l2 & El & Ex & Hl1). unfold tm_astream_find. cbn. rewrite El, map_split; auto.
  - clear El. induction Hl1 as [|z l1 Hz _ IH]; cbn; [by rewrite Es, Z.eqb_refl|].
    destruct (sid z =? n) eqn:E; zb; [done|]. by apply IH.
  - rewrite <- El. apply Ht.
Qed.

Lemma data_ready_ok good n x a : app_inv good a -> talks a -> tm_astream_find a n = Some x -> st_started x = true ->
  Relay.bound (st x) = false -> fine good a (data_conn_ready n a).
Proof.
  intros Hi Hk Ef Hs Hb. unfold data_conn_ready. apply fine_stream; auto. intros y Ef' Hy.
  assert (y = x) as -> by congruence. destruct (find_in n a x Ef) as [_ Es]. split; [done|]. intros Hc.
  pose proof Hy as (_ & Hr & _). apply (stream_step x); auto. clear Hc.
  match goal with |- rtc _ _ (st (x <| st ::= ?g |>)) => change (st (x <| st ::= g |>)) with (g (st x)) end. cbv beta.
  destruct (data_bind n ≫= tm_frame_encode) as [buf|]; [|apply rtc_once, EsClose].
  pose proof (EsSend Endpoint.Agent buf (st x) Hb) as Hst.
  destruct (ep_send eup buf (st x)) as [[] r]; cbn [snd] in Hst;
    first [by apply rtc_once|eapply rtc_l; [exact Hst|]; apply rtc_once, EsClose].
Qed.

Lemma data_eof_ok good n x a : app_inv good a -> talks a -> tm_astream_find a n = Some x -> st_started x = true ->
  fine good a (broker_leg_eof n a).
Proof.
  intros Hi Hk Ef Hs. unfold broker_leg_eof, data_conn_eof. rewrite Ef.
  destruct (st_accepted x); apply fine_relay; auto; intros y Ef'; assert (y = x) as -> by congruence; (split; [done|]).
  - apply EsEofBroker. by left.
  - destruct (negb _); [apply EsClose|apply EsEofBroker; by left].
Qed.

Lemma pre_read_ok good n data local x a : app_inv good a -> talks a -> tm_astream_find a n = Some x -> st_started x = true ->
  src_eof (to_b (st x)) = false -> bytes_ok data -> fine good a (broker_leg_read n data local a).
Proof.
  intros Hi Hk Ef Hs He Hd. unfold broker_leg_read, data_conn_pre_read. rewrite Ef.
  assert (fine good a (on_relay n (agent_broker_read eup data) a)) as Frd.
  { apply fine_relay; auto. intros y Ef'. assert (y = x) as -> by congruence. split; [done|].
    exact (EsReadBroker Endpoint.Agent data (st x) He (or_introl eq_refl)). }
  destruct (st_accepted x); [done|]. destruct (Relay.bound (st x)) eqn:Eb; [done|].
  pose proof Hi as (_ & _ & Ht). destruct (find_in n a x Ef) as [Hin Es].
  assert (stream_ok x) as Hx by (pose proof (tb_each a Ht) as Hall; rewrite Forall_forall in Hall; auto).
  destruct (pre_ok (S (length (fr_buf (st_fr x)) + length data)) n data (st_fr x)) as (Hr & r & Er & Hlo); [lia|apply Hx|done|].
  destruct (pre_frames _ n data (st_fr x)) as [r' fr]. cbn [fst snd] in *. subst r'.
  set (g := fun y : tm_astream => y <| st_fr := fr |>).
  assert (stream_ok (g x)) as Hg.
  { apply (stream_step x); auto. apply rtc_refl. apply Hx. }
  assert (fine good a (on_astream n g a)) as F1.
  { apply fine_stream; auto. intros y Ef' _. by assert (y = x) as -> by congruence. }
  assert (tm_astream_find (on_astream n g a) n = Some (g x)) as Ef1 by (apply find_after; auto; apply Hx).
  set (a1 := on_astream n g a) in *. clearbody a1. apply (app_fine_trans good a a1 _ F1). destruct F1 as (Hi1 & Hk1 & _).
  destruct r as [| |lo]; [by apply app_fine_refl|by apply app_fine_close|]. specialize (Hlo lo eq_refl).
  set (k := fun y : tm_astream => y <| st ::= agent_accept lo |> <| st_accepted := true |>).
  assert (stream_ok (k (g x))) as Hkg.
  { apply (stream_step (g x)); auto; [|apply Hx]. apply rtc_once. by apply EsAccept. }
  assert (fine good a1 (on_astream n k a1)) as F2.
  { apply fine_stream; auto. intros y Ef' _. by assert (y = g x) as -> by congruence. }
  assert (tm_astream_find (on_astream n k a1) n = Some (k (g x))) as Ef2
    by (apply find_after; auto; [apply Hi1|apply Hkg]).
  set (a2 := on_astream n k a1) in *. clearbody a2. apply (app_fine_trans good a1 a2 _ F2). destruct F2 as (Hi2 & Hk2 & _).
  destruct local.
  - apply fine_relay; auto. intros y Ef'. assert (y = k (g x)) as -> by congruence. split; [done|]. apply EsTimer.
  - apply (fine_refuse good n (k (g x))); auto. apply msg_fits. cbn. lia.
Qed.

(** *** Every event keeps the invariant *)

Lemma fine_inv good a a' : fine good a a' -> app_inv good a' /\ talks a'.
Proof. by intros (? & ? & _). Qed.

Lemma find_same n (x y : tm_astream) a : tm_astream_find a n = Some x -> tm_astream_find a n = Some y -> y = x.
Proof. congruence. Qed.

Lemma timers_ok good a : app_inv good a -> talks a ->
  (hs_timer a <> None -> app_inv good (ctl_handshake_timeout (a <| hs_timer := None |>)) /\
                         talks (ctl_handshake_timeout (a <| hs_timer := None |>))) /\
  (hb_timer a <> None -> app_inv good (agent_hb_timer_cb (a <| hb_timer := None |>)) /\
                         talks (agent_hb_timer_cb (a <| hb_timer := None |>))).
Proof.
  intros Hi Hk. pose proof Hi as (Hc & Hg & Ht). split; intros Hx.
  - destruct (co_hs a Hc Hx) as (_ & Hco & _). unfold ctl_handshake_timeout. set (b := a <| hs_timer := None |>).
    assert (app_inv good b) as Hib
      by (destruct Hc, Ht; split_and!; [by constructor|intros G; destruct (Hg G); by constructor|by constructor]).
    assert (connected b = true) as Hcb by done. clearbody b. rewrite Hcb. pose proof Hib as (Hcb' & _ & Htb').
    split; [by apply inv_disconnect|]. apply gone_talks, (dr_io b), disconnect_dropped; auto. left. by right.
  - pose proof (co_hb a Hc Hx) as Hr. unfold agent_hb_timer_cb. set (b := a <| hb_timer := None |>).
    assert (app_inv good b) as Hib
      by (destruct Hc, Ht; split_and!; [by constructor|intros G; destruct (Hg G); by constructor|by constructor]).
    assert (talks b) as Hkb by done. assert (registered b = true) as Hrb by done. clearbody b.
    assert (hs_timer b = None) as Hh.
    { destruct Hib as (Hcb & _). destruct (hs_timer b) eqn:E; [|done]. destruct (co_hs b Hcb) as (_ & _ & ?); [by rewrite E|congruence]. }
    destruct (shutting_down b); [done|]. unfold tm_now_ms. cbv zeta. set (now := u64 (clock (ticks b))). clearbody now.
    assert (forall ping, fine good b (b <| ticks ::= S |> <| last_ping_ms := ping |>)) as Fs.
    { intros ping. pose proof (fine_stamp good (S (ticks b)) (last_rx_ms b) ping b Hib Hkb) as F.
      by replace (b <| ticks := S (ticks b) |> <| last_rx_ms := last_rx_ms b |> <| last_ping_ms := ping |>)
        with (b <| ticks ::= S |> <| last_ping_ms := ping |>) in F by (by destruct b). }
    pose proof (Fs (last_ping_ms b)) as F0.
    replace (b <| ticks ::= S |> <| last_ping_ms := last_ping_ms b |>) with (b <| ticks ::= S |>) in F0 by (by destruct b).
    destruct (_ <? _); [apply fine_inv in F0 as [? ?]; apply (fine_inv good (b <| ticks ::= S |>)), fine_disconnect; auto|].
    destruct (_ <=? _); [|by apply fine_inv in F0]. destruct (Fs now) as (Hi2 & Hk2 & [L1 _]).
    apply (fine_inv good (b <| ticks ::= S |> <| last_ping_ms := now |>)), fine_msg; auto.
    apply msg_fits. cbn. lia.
Qed.

Lemma reconnect_ok good r a : app_inv good a -> talks a -> reconnect_timer a <> None -> ctl_sock a <> S_CLOSING ->
  (good = true -> r <> NO_ATTEMPT) ->
  app_inv good (reconnect_timer_cb r (a <| reconnect_timer := None |>)) /\
  talks (reconnect_timer_cb r (a <| reconnect_timer := None |>)).
Proof.
  intros (Hc & Hg & Ht) Hk Hw Hk2 Hr. destruct (co_wait a Hc Hw) as [Hb Hs].
  assert (ctl_io a = None) as Hio.
  { destruct (ctl_io a) as [i|] eqn:E; [|done]. destruct (co_leg a Hc i E) as (_ & _ & ? & _). destruct Hb. by right. }
  unfold reconnect_timer_cb. set (b := a <| reconnect_timer := None |>).
  assert (shutting_down b = false /\ ~ busy b /\ ctl_io b = None /\ ctl_sock b = ctl_sock a /\ fault b = fault a /\ reconnect_timer b = None)
    as (B1 & B2 & B3 & B4 & B5 & B6) by done.
  assert (ctl_ok b /\ tab_ok b) as [Hcb Htb].
  { destruct Hc, Ht. split; constructor; try done. intros [?|?]; [done|]. apply co_pos0. by right. }
  clearbody b. rewrite B1. destruct (connect_ok good r b) as [? E]; auto.
  - intros G. rewrite B4, B5. destruct (Hg G) as [? ? Hid _ _]. split_and!; auto.
  - split; [done|]. apply gone_talks. congruence.
Qed.

Lemma inv_step good a a' : agent_step good a a' -> app_inv good a -> talks a -> app_inv good a' /\ talks a'.
Proof.
  intros Hst Hi Hk. pose proof Hi as (Hc & Hg & Ht).
  destruct Hst as [r a E1 E2 E3 E4|a E|data a E1 E2 E3|a E|a E|i i' a E1 E2|a E|a E|r a E1 E2 E3|a E|a E|e a
    |n status x a Ef Hs|n x a Ef Hs Hb|n data local x a Ef Hs He Hd|n x a Ef Hs|n a|n raw x a Ef Hs Hac Hb Hf|n x a Ef Hac
    |n data x a Ef Hs Hb He|n x a Ef Hs Hb|n s x a Ef Hs Hl|n s i i' x a Ef Hs Hl Hm].
  - by apply connected_ok.
  - by apply ready_ok.
  - by apply read_ok.
  - by apply (fine_inv good a), fine_disconnect.
  - by apply (fine_inv good a), fine_disconnect.
  - destruct (co_leg a Hc i E1) as (Hok & Hlog & Hco & Hsd). destruct (io_moves_law i i' E2 Hok) as (M1 & _ & M3 & _).
    split; [|intros _ Hh; apply Hk; [by rewrite E1|done]]. destruct Hc, Ht.
    split_and!; [|intros G; destruct (Hg G); by constructor|by constructor]. constructor; try done; cbn.
    + intros j [= <-]. split_and!; [done|by rewrite M1|done|done].
    + intros _. split; [by apply co_conn0|by right].
  - by apply timers_ok.
  - by apply timers_ok.
  - by apply reconnect_ok.
  - split; [|done]. destruct Hc, Ht. split_and!; [by constructor| |by constructor].
    intros G. destruct (Hg G). constructor; cbn; try done; [|by right].
    intros Hsd Hbu. pose proof (go_live0 Hsd Hbu). congruence.
  - destruct (inv_shutdown good a Hi E) as [? Hts]. split; [done|]. destruct (shutting_down a) eqn:Es; [|auto].
    unfold tm_agent_shutdown. by rewrite Es.
  - split; [|done]. destruct Hc, Ht. split_and!; [by constructor|intros G; destruct (Hg G); by constructor|by constructor].
  - by apply (fine_inv good a), (data_connected_ok good n status x).
  - by apply (fine_inv good a), (data_ready_ok good n x).
  - by apply (fine_inv good a), (pre_read_ok good n data local x).
  - by apply (fine_inv good a), (data_eof_ok good n x).
  - by apply (fine_inv good a), app_fine_close.
  - apply (fine_inv good a). unfold local_connected. rewrite Ef. destruct raw as [raw|].
    + apply fine_relay; auto. intros y Ef'. rewrite (find_same n x y a) by done. split; [done|].
      destruct (find_in n a x Ef) as [Hin _]. pose proof (tb_each a Ht) as Hall. rewrite Forall_forall in Hall.
      apply EsBind; auto. by apply Hall.
    + apply (fine_refuse good n x); auto. apply msg_fits. cbn. lia.
  - apply (fine_inv good a). unfold local_connect_timeout. rewrite Ef. destruct (Relay.bound _); [by apply app_fine_refl|].
    apply (fine_refuse good n x); auto. apply msg_fits. cbn. lia.
  - apply (fine_inv good a), fine_relay; auto. intros y Ef'. rewrite (find_same n x y a) by done. split; [done|].
    exact (EsReadLocal Endpoint.Agent data (st x) He Hb).
  - apply (fine_inv good a), fine_relay; auto. intros y Ef'. rewrite (find_same n x y a) by done. split; [done|]. apply EsEofLocal.
  - apply (fine_inv good a), fine_relay; auto. intros y Ef'. rewrite (find_same n x y a) by done. split; [done|]. by apply EsLow.
  - apply (fine_inv good a), fine_relay; auto. intros y Ef'. rewrite (find_same n x y a) by done. split; [done|]. by apply (EsMove _ s i).
Qed.

Lemma main_ok good r : (good = true -> r <> NO_ATTEMPT) -> app_inv good (agent_main r) /\ talks (agent_main r).
Proof.
  intros Hr. destruct cfg_delays as [D1 D2].
  assert (ctl_ok app_new) as Hc.
  { constructor; cbn; try done; try lia. constructor. unfold busy. cbn. naive_solver. }
  assert (tab_ok app_new) as Ht by (constructor; cbn; try done; constructor).
  destruct (connect_ok good r app_new Hc Ht) as [Hi Hio]; auto.
  { unfold busy. cbn. naive_solver. }
  unfold agent_main. cbv zeta. set (b := tm_agent_connect r app_new) in *. clearbody b.
  assert (talks b) as Hk by (by apply gone_talks). destruct (bool_decide _); [|done]. split; [|done].
  destruct Hi as (Hcb & Hg & Htb). destruct Hcb, Htb.
  split_and!; [by constructor|intros G; destruct (Hg G); by constructor|by constructor].
Qed.

Lemma run_ok good a : agent_run good a -> app_inv good a /\ talks a.
Proof.
  intros (r & Hr & Hrun). destruct (main_ok good r Hr) as [H1' H2'].
  induction Hrun as [|a1 a2 a3 Hst _ IH]; [done|]. destruct (inv_step good a1 a2 Hst H1' H2'). by apply IH.
Qed.

(** ** Theorems *)


(** C10: A control session follows the protocol.  What the agent wrote on its present
    control connection is a sequence of whole frames: nothing before the TLS handshake
    ended; then HELLO first, later only PING, PONG and OPEN_STREAM_ERROR, and among them
    at most one REGISTER with the tunnel's name and secret, sent only after HELLO was
    acknowledged.  The loops over received frames end. *)
Theorem agent_session_order good a i : agent_run good a -> ctl_io a = Some i ->
  io_log i = sent_bytes (sent a) /\ (hs_timer a <> None -> sent a = []) /\
  (hs_timer a = None -> session_ok (got_hello a) (sent a)) /\ a_stuck a = false.
Proof.
  intros Hr Ei. destruct (run_ok good a Hr) as [(Hc & _ & _) Hk]. destruct (co_leg a Hc i Ei) as (_ & Hl & _).
  split_and!; [done|by intros Hh; apply (co_hs a Hc)| |apply Hc]. intros Hh. apply Hk; [by rewrite Ei|done].
Qed.

(** C12: The stream table refines the relay.  In every reachable state the streams have
    distinct ids, [stream_count] is their number, there are none without a registration,
    and each stream whose connection to the broker is there is in a state that the relay
    of Endpoint.v reaches from a new endpoint with its id, so that what is proved of the
    relay's order of bytes and memory holds of it. *)
Theorem agent_streams_relay good a : agent_run good a ->
  NoDup (map sid (streams a)) /\ stream_count a = blen (streams a) /\
  (registered a = false -> streams a = []) /\
  (forall x, x ∈ streams a -> Relay.closing (st x) = false /\
     (st_started x = true -> exists now i, io_ok i /\ ep_run Endpoint.Agent (new_endpoint (sid x) now i) (st x))).
Proof.
  intros Hr. destruct (run_ok good a Hr) as [(_ & _ & [T1 T2 T3 T4]) _]. split_and!; auto. intros x Hx.
  rewrite Forall_forall in T4. destruct (T4 x Hx) as (Hc & _ & Hs). split; [done|]. intros E. by rewrite E in Hs.
Qed.

(** One more attempt that fails: the timer fires, the connection is refused, its socket
    is closed. *)
Definition failed_attempt (a : tm_agent_app) : tm_agent_app :=
  ctl_connected CTL_FAILED (reconnect_timer_cb UNDER_WAY (a <| reconnect_timer := None |>)) <| ctl_sock := S_CLOSED |>.

Lemma attempt_run a : agent_run true a -> reconnect_timer a <> None -> ctl_sock a <> S_CLOSING ->
  agent_run true (failed_attempt a) /\ reconnect_timer (failed_attempt a) <> None /\
  reconnect_delay (failed_attempt a) = backed (reconnect_delay a).
Proof.
  intros Hr Hw Hk. unfold failed_attempt. destruct (run_ok true a Hr) as [Hi Hta]. pose proof Hi as (Hc & Hg & Ht).
  destruct (co_wait a Hc Hw) as [Hb Hs]. pose proof (co_pos a Hc (or_intror Hw)) as Hp.
  set (b := reconnect_timer_cb UNDER_WAY (a <| reconnect_timer := None |>)).
  assert (agent_step true a b) as S1 by (by apply AsReconnect).
  assert (connecting b = true /\ reconnect_delay b = reconnect_delay a /\ ctl_sock b = S_LIVE /\ shutting_down b = false) as (B1 & B2 & B3 & B4).
  { assert (shutting_down a || connected a || connecting a = false) as Hn.
    { rewrite Hs. destruct (connected a) eqn:E1; [destruct Hb; by right|]. destruct (connecting a) eqn:E2; [destruct Hb; by left|done]. }
    assert (reconnect_delay a =? 0 = false) as Hz by (zb; lia).
    unfold b, reconnect_timer_cb. change (shutting_down (a <| reconnect_timer := None |>)) with (shutting_down a). rewrite Hs.
    unfold tm_agent_connect. set (a1 := a <| reconnect_timer := None |>).
    change (shutting_down a1 || connected a1 || connecting a1) with (shutting_down a || connected a || connecting a). rewrite Hn.
    change (reconnect_delay a1) with (reconnect_delay a). rewrite Hz. cbv zeta. unfold init_ctl_sock.
    change (ctl_sock a1) with (ctl_sock a). by destruct (ctl_sock a). }
  clearbody b. destruct (inv_step true a b S1 Hi Hta) as [Hib Hkb]. pose proof Hib as (Hcb & _ & Htb).
  assert (agent_step true b (ctl_connected CTL_FAILED b)) as S2 by (by apply AsConnected).
  pose proof (disconnect_dropped b Hcb Htb (or_introl (or_introl B1))) as [D1 D2 D3 D4 D5 D6 D7 D8 D9 D10 D11].
  rewrite B4 in D11. destruct D11 as (E1 & d & E2 & _). rewrite B3 in D7.
  change (ctl_connected CTL_FAILED b) with (tm_agent_disconnect b) in *.
  set (c := tm_agent_disconnect b) in *. clearbody c.
  assert (agent_step true c (c <| ctl_sock := S_CLOSED |>)) as S3 by (by apply AsSockClosed).
  split_and!.
  - destruct Hr as (r & Hr1 & Hr2). exists r. split; [done|]. transitivity a; [exact Hr2|].
    eapply rtc_l; [exact S1|]. eapply rtc_l; [exact S2|]. by apply rtc_once.
  - cbn. congruence.
  - cbn. congruence.
Qed.

(** The agent backs off exponentially.  A registration sets the delay to the
    configured one, and [n] failed attempts in a row multiply it by two to the [n], up to
    the configured maximum, with the timer armed again after each. *)
Theorem agent_backoff n a : agent_run true a -> reconnect_timer a <> None -> ctl_sock a <> S_CLOSING ->
  let a' := Nat.iter (S n) failed_attempt a in
  reconnect_timer a' <> None /\
  reconnect_delay a' = Z.min (2 ^ Z.of_nat (S n) * reconnect_delay a) (reconnect_max_delay_ms cfg).
Proof.
  intros Hr Hw Hk. cbv zeta.
  enough (agent_run true (Nat.iter (S n) failed_attempt a) /\ reconnect_timer (Nat.iter (S n) failed_attempt a) <> None /\
          reconnect_delay (Nat.iter (S n) failed_attempt a) =
            Z.min (2 ^ Z.of_nat (S n) * reconnect_delay a) (reconnect_max_delay_ms cfg)) by tauto.
  destruct cfg_delays as [_ Hm]. induction n as [|n IH].
  - change (Nat.iter 1 failed_attempt a) with (failed_attempt a).
    destruct (attempt_run a Hr Hw Hk) as (? & ? & ->). split_and!; [done..|]. unfold backed. lia.
  - destruct IH as (I1 & I2 & I3). cbn [Nat.iter nat_rect] in *. set (b := failed_attempt (nat_rect _ _ _ _)) in *.
    assert (ctl_sock b <> S_CLOSING) as Hkb by done. clearbody b.
    destruct (attempt_run b I1 I2 Hkb) as (? & ? & ->). split_and!; [done..|]. rewrite I3. unfold backed.
    rewrite (Nat2Z.inj_succ (S n)), Z.pow_succ_r by lia. lia.
Qed.

(** A state in which nothing is under way and no timer is armed. *)
Definition idle (a : tm_agent_app) : Prop :=
  ~ busy a /\ registered a = false /\ reconnect_timer a = None /\ hs_timer a = None /\ hb_timer a = None /\
  ctl_io a = None /\ streams a = [].

Lemma idle_step a a' : agent_step false a a' -> idle a -> idle a'.
Proof.
  intros Hst (I1 & I2 & I3 & I4 & I5 & I6 & I7).
  assert (forall n, tm_astream_find a n = None) as Hno by (intros n; unfold tm_astream_find; by rewrite I7).
  destruct Hst; try congruence.
  - destruct I1. by left.
  - done.
  - unfold tm_agent_shutdown. destruct (shutting_down a) eqn:Es; [done|]. cbv zeta.
    unfold udp_stop, close_streams. unfold close_ctl_sock. destruct a as [k]. cbn in I1, I2, I3, I4, I5, I6, I7. subst. by destruct k.
  - done.
  - unfold data_conn_error, tm_astream_close, on_relay, on_astream. by rewrite Hno.
Qed.

(** C40: Two failures the agent does not recover from.  When the control connection is
    made but its TLS object or its host name check cannot be set up, [tm_agent_disconnect]
    returns at once, because [connecting] was reset just before: no timer is armed and no
    session is under way, and whatever happens later the agent never connects again.  And
    a signal that arrives while the broker's address never resolved makes the shutdown
    close a handle that was never initialised. *)
Theorem agent_setup_failures a : agent_run false a -> connecting a = true ->
  (forall a', rtc (agent_step false) (ctl_connected CTL_NO_SSL a) a' ->
     connecting a' = false /\ connected a' = false /\ reconnect_timer a' = None) /\
  fault (tm_agent_shutdown (agent_main NO_ADDR)) = true.
Proof.
  intros Hr Hc. destruct (run_ok false a Hr) as [(Hco & _ & Ht) _]. split.
  - assert (idle (ctl_connected CTL_NO_SSL a)) as Hi.
    { destruct (connecting_only a Hco Hc) as (E1 & E2 & E3 & E4 & E5 & E6).
      unfold ctl_connected. rewrite disconnect_idle by (unfold busy; cbn; rewrite E1, E2; naive_solver).
      unfold idle, busy. cbn. rewrite E1, E2. split_and!; auto; [naive_solver|by apply (tb_reg a Ht)]. }
    intros a' Hst. assert (idle a') as (Hb & _ & Hw & _).
    { induction Hst as [|b1 b2 b3 Hs _ IH]; [done|]. by apply IH, (idle_step b1). }
    unfold busy in Hb. split_and!; [destruct (connecting a')|destruct (connected a')|done]; naive_solver.
  - destruct cfg_delays as [D1 D2]. unfold agent_main. cbv zeta.
    set (b := tm_agent_connect NO_ADDR app_new).
    assert (ctl_sock b = S_ZERO /\ shutting_down b = false /\ streams b = [] /\ stream_count b = 0) as (B1 & B2 & B3 & B4).
    { unfold b, tm_agent_connect. cbn -[arm_reconnect].
      match goal with |- context [arm_reconnect ?x] => destruct (arm_near x) as (d & k & -> & _) end; [|done].
      cbn. rewrite wrap_small by (unfold in_width; lia). lia. }
    clearbody b. set (c := if bool_decide _ then udp_start b else b).
    assert (ctl_sock c = S_ZERO /\ shutting_down c = false /\ streams c = [] /\ stream_count c = 0) as (C1 & C2 & C3 & C4)
      by (unfold c; by destruct (bool_decide _)).
    clearbody c. clear - C1 C2 C3 C4. unfold tm_agent_shutdown. rewrite C2. cbv zeta. unfold udp_stop.
    rewrite close_streams_eq; unfold close_ctl_sock; destruct c as [k]; cbn in *; by subst.
Qed.

End Agent.

(** ** Concrete runs *)

Module AgentSample.
#[local] Existing Instance ClientSample.plain.
#[local] Existing Instance ClientSample.plain_client.
#[local] Existing Instance EndpointSample.sure_leg | 0.

Lemma app_sample_ok : cfg_ok sample_cfg.
Proof.
  assert (sample_cfg = ltac:(let v := eval vm_compute in sample_cfg in exact v)) as -> by (vm_compute; reflexivity).
  constructor; cbn [broker_host broker_port broker_udp_port proto tunnel_id agent_secret local_host local_port name ca_path].
  1,2,4,5: split; vm_compute; (reflexivity || discriminate).
  - discriminate.
  - split; split; vm_compute; reflexivity.
  - split; vm_compute; reflexivity.
  - repeat (constructor; [split; vm_compute; reflexivity|]). constructor.
Qed.

Definition clock (n : nat) : Z := Z.of_nat n.
Definition udp_ok (n : nat) : bool := true.
Definition udp_session (n : nat) : option SSL := None.
Definition data_conn (n : nat) : conn_result Tcp.tm_io_tcp := CONNECTING (Tcp.tm_io_tcp_new []).
Lemma data_fresh k i : data_conn k = CONNECTING i -> io_fresh i.
Proof. intros [= <-]. by eexists. Qed.

Abbreviation app := (@tm_agent_app Tcp.tm_io_tcp ClientSample.plain).
Abbreviation step := (agent_step sample_cfg clock clock udp_ok udp_session data_conn).
Abbreviation run := (agent_run sample_cfg clock clock udp_ok udp_session data_conn).

Definition bytes_of (f : option tm_frame) : bytes := default [] (f ≫= tm_frame_encode).
Definition hello_ack : bytes := bytes_of (tm_frame_make TM_MSG_HELLO_ACK 0 [] 0).
Definition register_ok : bytes := bytes_of (tm_frame_make TM_MSG_REGISTER_OK 0 [] 0).
Definition open_stream : bytes := bytes_of (tm_frame_make TM_MSG_OPEN_STREAM 5 [] 0).
Definition bind_ok : bytes := bytes_of (tm_frame_make TM_MSG_DATA_BIND_OK 5 [] 0) ++ [1; 2; 3].

(** The agent connects, registers, and opens stream 5, whose first three bytes arrive
    with DATA_BIND_OK. *)
Definition a0 : app := agent_main sample_cfg clock udp_session UNDER_WAY.
Definition a1 : app := ctl_connected sample_cfg clock (CTL_CONNECTED (Tcp.tm_io_tcp_new []) false) a0.
Definition a2 : app := ctl_handshake_done sample_cfg clock clock a1.
Definition a3 : app := ctl_read sample_cfg clock clock udp_session data_conn hello_ack a2.
Definition a4 : app := ctl_read sample_cfg clock clock udp_session data_conn (register_ok ++ open_stream) a3.
Definition a5 : app := data_conn_connected sample_cfg clock 5 (Some false) a4.
Definition a6 : app := data_conn_ready sample_cfg 5 a5.
Definition a7 : app := broker_leg_read sample_cfg clock 5 bind_ok true a6.

Lemma chunk_ok (l : bytes) : forallb (fun b => (0 <=? b) && (b <? 256)) l = true -> bytes_ok l.
Proof.
  intros Hl. rewrite List.forallb_forall in Hl. apply Forall_forall. intros b Hb. apply list_elem_of_In, Hl in Hb. zb.
  unfold byte_ok, in_width. change (2 ^ 8) with 256. lia.
Qed.

Definition none_or {A} (o : option A) : bool := if o then false else true.
Lemma not_none {A} (o : option A) : none_or o = false -> o <> None.
Proof. by destruct o. Qed.

Ltac now_none := apply not_none; vm_compute; reflexivity.

Lemma run3 g : rtc (step g) a0 a3.
Proof.
  eapply rtc_l with a1; [apply AsConnected; [vm_compute; reflexivity|by eexists|done|intros Hx; vm_compute in Hx; discriminate]|].
  eapply rtc_l with a2; [apply AsReady; now_none|].
  eapply rtc_l with a3; [|apply rtc_refl].
  apply AsRead; [now_none|vm_compute; reflexivity|apply chunk_ok; vm_compute; reflexivity].
Qed.

Lemma run7 g : rtc (step g) a3 a7.
Proof.
  eapply rtc_l with a4; [apply AsRead; [now_none|vm_compute; reflexivity|apply chunk_ok; vm_compute; reflexivity]|].
  eapply rtc_l with a5; [eapply AsDataConnected; vm_compute; reflexivity|].
  eapply rtc_l with a6; [eapply AsDataReady; vm_compute; reflexivity|].
  eapply rtc_l with a7; [|apply rtc_refl].
  eapply AsBrokerRead; [vm_compute; reflexivity..|apply chunk_ok; vm_compute; reflexivity].
Qed.

Lemma starts g b : rtc (step g) a0 b -> run g b.
Proof. intros Hr. exists UNDER_WAY. by split. Qed.

Lemma agent_session_order_witness :
  exists i, ctl_io a3 = Some i /\ io_log i = sent_bytes (sent a3) /\ map f_type (sent a3) = [TM_MSG_HELLO; TM_MSG_REGISTER].
Proof.
  eexists. split; [vm_compute; reflexivity|]. split; [|vm_compute; reflexivity].
  eapply (proj1 (agent_session_order sample_cfg clock clock udp_ok udp_session data_conn app_sample_ok data_fresh true a3 _
    (starts true a3 (run3 true)) ltac:(vm_compute; reflexivity))).
Defined.

Lemma agent_streams_relay_witness : NoDup (map sid (streams a7)) /\ map sid (streams a7) = [5] /\
  map (fun x => preq (st x)) (streams a7) = [[1; 2; 3]].
Proof.
  split; [|split; vm_compute; reflexivity].
  refine (proj1 (agent_streams_relay sample_cfg clock clock udp_ok udp_session data_conn app_sample_ok data_fresh true a7
    (starts true a7 _))).
  exact (rtc_trans _ _ _ (run3 true) (run7 true)).
Defined.

(** The first attempt is refused. *)
Definition f1 : app := ctl_connected sample_cfg clock CTL_FAILED a0.
Definition f2 : app := f1 <| ctl_sock := S_CLOSED |>.

Lemma run_f2 : rtc (step true) a0 f2.
Proof.
  eapply rtc_l with f1; [apply AsConnected; [vm_compute; reflexivity|done|done|done]|].
  eapply rtc_l with f2; [|apply rtc_refl]. apply AsSockClosed. vm_compute. reflexivity.
Qed.


Lemma agent_backoff_witness : reconnect_delay (Nat.iter 5 (failed_attempt sample_cfg clock) f2) = 30000.
Proof.
  rewrite (proj2 (agent_backoff sample_cfg clock clock udp_ok udp_session data_conn app_sample_ok data_fresh 4 f2
    (starts true f2 run_f2) ltac:(now_none) ltac:(vm_compute; discriminate))).
  vm_compute. reflexivity.
Defined.

Lemma agent_setup_failures_witness : connecting (ctl_connected sample_cfg clock CTL_NO_SSL a0) = false /\
  reconnect_timer (ctl_connected sample_cfg clock CTL_NO_SSL a0) = None.
Proof.
  destruct (proj1 (agent_setup_failures sample_cfg clock clock udp_ok udp_session data_conn app_sample_ok data_fresh a0
    (starts false a0 (rtc_refl _ _)) ltac:(vm_compute; reflexivity)) _ (rtc_refl _ _)) as (? & _ & ?). by split.
Defined.

End AgentSample.
