(* ===== verification/Peer.v ===== *)
(** * The TCP sessions of the peer

    src/peer/src/tcp.c without its relay callbacks, which are in Endpoint.v, and the
    shutdown of src/peer/src/main.c: a session per local connection, from its accept over
    the HELLO, AUTH and DATA_BIND frames on its own connection to the broker to the
    relay, and its release.

    Sessions are heap objects that the callbacks of their handles refer to, so the model
    keeps them under addresses: a callback that finds its session released is a [fault].
    The event loop runs the callbacks of the handles it holds ([loop]).  A session holds a
    relay of Endpoint.v for its legs and queues.  What [tm_psess_close]
    does beyond the relay, [psess_closed], takes effect when the call that closed the
    relay returns.  The results of accepting, connecting and making a TLS object come
    with the event. *)

From S2P Require Import Prelude.
From S2P Require Import Wire.
From S2P Require Import Io.
From S2P Require Import ClientCfg.
From S2P Require Import Relay.
From S2P Require Import Endpoint.
From S2P Require Import Agent.

#[local] Arguments Z.of_nat : simpl never.
#[local] Arguments sent_bytes : simpl never.

(** ** What the relay leaves alone

    Apart from the handshake, no operation changes what counts as the start of a leg;
    a low-water mark neither sets an end nor, while the broker has not ended, closes the
    stream, and it loses nothing of an empty queue. *)

Section Marks.
Context {io : Type} `{TmIo io}.
Abbreviation stream := (@tm_stream io).

Record marks (r r' : stream) : Prop := {
  ma_base t : base (get t r') = base (get t r);
  ma_in t : src_in (get t r') = src_in (get t r);
  ma_eof t : src_eof (get t r') = src_eof (get t r);
  ma_lost t : pend (get t r) = [] -> pend (get t r') = [] /\ lost (get t r') = lost (get t r);
  ma_open : src_eof (to_b r) = false -> Relay.closing r' = Relay.closing r;
}.

Lemma marks_refl r : marks r r.
Proof. by constructor. Qed.

Lemma marks_trans r1 r2 r3 : marks r1 r2 -> marks r2 r3 -> marks r1 r3.
Proof.
  intros [A1 A5 A2 A3 A4] [B1 B5 B2 B3 B4]. constructor.
  - intros t. congruence.
  - intros t. congruence.
  - intros t. congruence.
  - intros t Ht. destruct (A3 t Ht) as [E1 E2]. destruct (B3 t E1) as [E3 E4]. split; congruence.
  - intros Hb. rewrite B4; [auto|]. by rewrite (A2 B : src_eof (to_b r2) = _).
Qed.

Definition plain (f : @dir io -> @dir io) (d : @dir io) : Prop :=
  base (f d) = base d /\ src_in (f d) = src_in d /\ src_eof (f d) = src_eof d /\ (pend d = [] -> pend (f d) = [] /\ lost (f d) = lost d).

Lemma marks_mod s f r : plain f (get s r) -> marks r (mod_ s f r).
Proof.
  intros (F1 & F4 & F2 & F3). constructor; [| | | |by rewrite closing_mod]; intros t;
    (destruct (decide (t = s)) as [->|Hts];
     [rewrite get_mod|assert (t = other s) as -> by (by destruct s, t); rewrite get_mod_other]; auto).
Qed.

(** The queue of [s] was not empty, so nothing is promised of it. *)
Lemma marks_queue s f r r1 : marks r r1 -> pend (get s r) <> [] ->
  base (f (get s r1)) = base (get s r1) -> src_in (f (get s r1)) = src_in (get s r1) -> src_eof (f (get s r1)) = src_eof (get s r1) -> marks r (mod_ s f r1).
Proof.
  intros [A1 A5 A2 A3 A4] Hne F1 F4 F2. constructor; [| | | |intros Hb; rewrite closing_mod; auto]; intros t;
    (destruct (decide (t = s)) as [->|Hts];
     [rewrite get_mod|assert (t = other s) as -> by (by destruct s, t); rewrite get_mod_other]; auto; congruence).
Qed.

Lemma marks_maybe_close r : marks r (stream_maybe_close r).
Proof.
  unfold stream_maybe_close. destruct (_ || _ || _) eqn:E; [apply marks_refl|].
  repeat (case_match; [apply marks_refl|]). unfold tm_stream_close. zb. destruct (Relay.closing r) eqn:Ec; [apply marks_refl|].
  constructor; try (by intros []). intros Hb. naive_solver congruence.
Qed.

Section Up.
Context (up : side -> upcall -> stream -> stream) (Hup : forall s u r, marks r (up s u r)).

Lemma marks_run_up s us : forall r, marks r (run_up up s us r).
Proof.
  induction us as [|u us IH]; intros r; [apply marks_refl|]. unfold run_up in *. cbn [fold_left].
  destruct (leg (get s r)); [|apply IH]. eapply marks_trans; [apply Hup|apply IH].
Qed.

Lemma marks_write s d r : marks r (leg_write up s d r).2.
Proof.
  unfold leg_write. destruct (leg (get s r)) as [i|]; [|apply marks_refl].
  destruct (io_write i d) as [[st us] i']. eapply marks_trans; [|apply marks_run_up]. by apply marks_mod.
Qed.

Lemma marks_shutdown s r : marks r (leg_shutdown up s r).
Proof.
  unfold leg_shutdown. destruct (leg (get s r)) as [i|]; [|apply marks_refl].
  destruct (io_shutdown_send i) as [us i']. eapply marks_trans; [|apply marks_run_up]. by apply marks_mod.
Qed.

Lemma marks_flags r r' : (forall t, get t r' = get t r) -> Relay.closing r' = Relay.closing r -> marks r r'.
Proof. intros Hg Hc. constructor; intros; rewrite ?Hg; auto. Qed.

Lemma marks_flush_loop fuel s : forall r, marks r (flush_loop up fuel s r).
Proof.
  induction fuel as [|fuel IH]; intros r; cbn [flush_loop]; [by apply marks_flags; [intros []|]|].
  destruct (_ =? 0) eqn:E0; zb; [apply marks_refl|].
  assert (pend (get s r) <> []) as Hne by (intros E; by rewrite E in E0).
  destruct (leg (get s r)); [|by apply marks_flags; [intros []|]].
  match goal with |- context [leg_write up s ?d r] => pose proof (marks_write s d r) as Hw; destruct (leg_write up s d r) as [st r1] end.
  cbn [snd] in Hw. destruct st; try done; try (by apply marks_queue).
  destruct (Relay.closing r1); [eapply marks_trans; [exact Hw|]; by apply marks_flags; [intros []|]|].
  eapply marks_trans; [|apply IH]. eapply marks_trans; [exact Hw|].
  assert (marks r1 (mod_ s (fun d => d <| pend ::= drop (Z.to_nat (if blen (pend (get s r)) <? 65536 then blen (pend (get s r)) else 65536)) |>) r1)) as Hm.
  { apply marks_mod. unfold plain. cbn. split_and!; [done..|]. intros ->. by rewrite drop_nil. }
  destruct (_ =? 0); [|done]. eapply marks_trans; [exact Hm|]. by apply marks_mod.
Qed.

Lemma marks_ep_flush s r : marks r (ep_flush up s r).
Proof.
  unfold ep_flush, flush_pend. destruct (leg (get s r)) as [i|].
  - destruct (flushing _); [apply marks_refl|]. cbv zeta.
    eapply marks_trans; [by apply (marks_mod s (fun d => d <| flushing := true |>))|].
    eapply marks_trans; [apply marks_flush_loop|]. by apply marks_mod.
  - destruct (_ || _) eqn:E; [apply marks_refl|]. zb. destruct E as [_ E].
    apply marks_queue; [apply marks_refl| |done..]. intros E'. by rewrite E' in E.
Qed.

Lemma marks_low s r : marks r (ep_low up s r).
Proof.
  unfold ep_low. destruct (Relay.closing r); [apply marks_refl|]. cbv zeta.
  pose proof (marks_ep_flush s r) as Hf. set (r1 := ep_flush up s r) in *. clearbody r1. apply (marks_trans _ r1 _ Hf).
  destruct (negb _); [apply marks_maybe_close|]. eapply marks_trans; [|apply marks_maybe_close].
  assert (forall q, marks q (leg_resume (other s) (mod_ s (fun d => d <| src_paused := false |>) q))) as Hres.
  { intros q. apply (marks_trans _ (mod_ s (fun d => d <| src_paused := false |>) q)); by apply marks_mod. }
  assert (forall q, marks q (leg_shutdown up s (mod_ s (fun d => d <| src_fin := true |>) q))) as Hfin.
  { intros q. apply (marks_trans _ (mod_ s (fun d => d <| src_fin := true |>) q)); [by apply marks_mod|apply marks_shutdown]. }
  destruct (_ && _); destruct (src_paused _); auto using marks_refl.
  eapply marks_trans; [apply Hfin|apply Hres].
Qed.
End Up.

Lemma marks_sure n : forall s u r, marks r (sure_upcall n s u r).
Proof.
  induction n as [|n IH]; intros s u r; cbn [sure_upcall]; [by apply marks_flags; [intros []|]|].
  destruct (leg (get s r)); [|apply marks_refl]. destruct u; [|apply marks_refl]. by apply marks_low.
Qed.

(** The weaker statement that every operation of a session satisfies. *)
Definition based (r r' : stream) : Prop :=
  base (to_a r') = base (to_a r) /\ (base (to_b r) = [] -> base (to_b r') = []) /\ src_in (to_b r') = src_in (to_b r).

Lemma based_trans r1 r2 r3 : based r1 r2 -> based r2 r3 -> based r1 r3.
Proof. intros (A1 & A2 & A3) (B1 & B2 & B3). split_and!; [congruence|auto|congruence]. Qed.
Lemma marks_based r r' : marks r r' -> based r r'.
Proof. intros [Hb Hi _ _ _]. split_and!; [apply (Hb A)| |apply (Hi B)]. intros E. rewrite <- E. apply (Hb B). Qed.
Lemma based_mod s f (r : stream) : base (f (get s r)) = base (get s r) -> (s = B -> src_in (f (get s r)) = src_in (get s r)) ->
  based r (mod_ s f r).
Proof. intros Hf Hi. destruct s; cbn in *; split_and!; cbn; try congruence. by apply Hi. Qed.
Lemma based_close (r : stream) : based r (tm_stream_close r).
Proof. unfold tm_stream_close. by destruct (Relay.closing r). Qed.

Section Ops.
Context (up : side -> upcall -> stream -> stream) (Hup : forall s u r, marks r (up s u r)).

Lemma based_forward s d r : based r (forward up s d r).
Proof.
  unfold forward. cbv zeta.
  assert (forall q, based q (queue_pend s d q)) as Hq.
  { intros q. unfold queue_pend, leg_pause. cbv zeta.
    eapply based_trans; [|by apply based_mod]. eapply based_trans; [|by apply based_mod]. by apply based_mod. }
  destruct (negb _); [apply Hq|].
  pose proof (marks_based _ _ (marks_write up Hup s d r)) as Hw. destruct (leg_write up s d r) as [st r1]. cbn in Hw.
  destruct st; auto; eapply based_trans; eauto using based_close.
Qed.

Lemma based_broker_read d r : Relay.closing r = false ->
  based (mod_ B (fun x => x <| src_in ::= fun b => b ++ d |>) r) (peer_broker_read up d r).
Proof.
  intros Hc. unfold peer_broker_read. rewrite Hc. cbv zeta. destruct (leg _); [apply based_forward|].
  destruct (_ <? _); [apply based_close|]. by split.
Qed.

Lemma based_local_read d r : based r (peer_local_read up d r).
Proof.
  unfold peer_local_read. destruct (Relay.closing r); [by split|].
  eapply based_trans; [by apply (based_mod A (fun x => x <| src_in ::= fun b => b ++ d |>))|]. apply based_forward.
Qed.

Lemma based_fin s r : based r (stream_maybe_close (leg_shutdown up s (mod_ s (fun d => d <| src_fin := true |>) r))).
Proof.
  eapply based_trans; [|apply marks_based, marks_maybe_close]. eapply based_trans; [|by apply marks_based, marks_shutdown].
  by apply based_mod.
Qed.

Lemma based_local_eof r : based r (relay_local_eof up r).
Proof.
  unfold relay_local_eof. destruct (Relay.closing r); [by split|]. cbv zeta.
  eapply based_trans; [by apply (based_mod A (fun d => d <| src_eof := true |>))|].
  eapply based_trans; [by apply marks_based, (marks_ep_flush up Hup A)|].
  destruct (negb _); [apply marks_based, marks_maybe_close|apply based_fin].
Qed.

Lemma based_broker_eof r : based r (relay_broker_eof up r).
Proof.
  unfold relay_broker_eof. destruct (Relay.closing r); [by split|]. cbv zeta.
  eapply based_trans; [by apply (based_mod B (fun d => d <| src_eof := true |>))|]. destruct (leg _); [|by split].
  eapply based_trans; [by apply marks_based, (marks_ep_flush up Hup B)|].
  eapply based_trans; [by apply marks_based, (marks_ep_flush up Hup A)|].
  destruct (negb _); [apply marks_based, marks_maybe_close|apply based_fin].
Qed.
End Ops.

End Marks.

Module PeerTcp.

(** ** State *)

Section Peer.
Context {io : Type} `{TmIo io}.
Abbreviation stream := (@tm_stream io).

(** [said] are the frames written in the handshake, [taken] the bytes the connection to
    the broker delivered and [heard] the frames read of them; [unsaid]: a frame was not
    taken; [bad]: a released or uninitialised object was used; [endless]: a loop did not
    end. *)
Record tm_psess := PSess {
  local_sock : uv_sock;
  broker_sock : uv_sock;
  hs_timer : uv_sock;
  fr : option tm_frame_reader;
  relay : stream;
  connecting : bool;
  closing_refs : Z;
  got_hello : bool;
  (* ---- *)
  said : list tm_frame;
  taken : bytes;
  heard : list tm_frame;
  unsaid : bool;
  bad : bool;
  endless : bool;
}.
#[global] Instance eta_psess : Eta tm_psess :=
  settable! PSess <local_sock; broker_sock; hs_timer; fr; relay; connecting; closing_refs; got_hello;
    said; taken; heard; unsaid; bad; endless>.

Inductive sess_handle := LOCAL | BROKER | TIMER.
Definition handle (h : sess_handle) (s : tm_psess) : uv_sock :=
  match h with LOCAL => local_sock s | BROKER => broker_sock s | TIMER => hs_timer s end.
#[global] Instance sess_handle_eq_dec : EqDecision sess_handle.
Proof. solve_decision. Defined.

(** [loop] are the handles of sessions that the event loop holds, from their
    initialisation to their close callback; [next] is the address of the next session;
    [failed], [fault] and [stuck] are those of all sessions so far. *)
Record tm_peer := Peer {
  listener : uv_sock;
  listening : bool;
  sessions : list Z;
  shutting_down : bool;
  (* ---- *)
  heap : gmap Z tm_psess;
  loop : list (Z * sess_handle);
  next : Z;
  failed : bool;
  fault : bool;
  stuck : bool;
}.
#[global] Instance eta_peer : Eta tm_peer :=
  settable! Peer <listener; listening; sessions; shutting_down; heap; loop; next; failed; fault; stuck>.

Context (cfg : PeerCfg.tm_peer_cfg).
Abbreviation eup := (ep_upcall ep_depth).

(** ** Sessions *)

(** [uv_close]; a handle that was never initialised, or is closed already, must not be
    closed. *)
Definition uv_close (k : uv_sock) : uv_sock := match k with S_LIVE => S_CLOSING | k => k end.
Definition closable (k : uv_sock) : bool := match k with S_LIVE => true | _ => false end.

(** The reader and the handles of a session whose relay was just closed. *)
Definition psess_closed (s : tm_psess) : tm_psess :=
  if Relay.closing (relay s) && (closing_refs s =? 0) then
    s <| fr := None |> <| closing_refs := 3 |>
      <| bad ::= orb (negb (closable (broker_sock s) && closable (local_sock s) && closable (hs_timer s))) |>
      <| broker_sock ::= uv_close |> <| local_sock ::= uv_close |> <| hs_timer ::= uv_close |>
  else s.

Definition with_relay (f : stream -> stream) (s : tm_psess) : tm_psess := psess_closed (s <| relay ::= f |>).

Definition tm_psess_close (s : tm_psess) : tm_psess := with_relay tm_stream_close s.

(** A frame that [tm_frame_make] did not make is dereferenced. *)
Definition sess_send_frame (f : option tm_frame) (s : tm_psess) : tm_psess :=
  if Relay.closing (relay s) || negb (bool_decide (is_Some (leg (to_a (relay s))))) then s
  else match f with
  | None => s <| bad := true |>
  | Some f =>
      match tm_frame_encode f with
      | None => s
      | Some buf =>
          let '(st, r) := ep_send eup buf (relay s) in
          let s := psess_closed (s <| relay := r |>) in
          match st with
          | TM_OK => s <| said ::= fun l => l ++ [f] |>
          | _ => tm_psess_close (s <| unsaid := true |>)
          end
      end
  end.

(** [u16 idlen][tunnel_id][token] *)
Definition auth_payload : bytes :=
  wr_u16 (u16 (blen (PeerCfg.tunnel_id cfg))) ++ PeerCfg.tunnel_id cfg ++ PeerCfg.token cfg.
Definition auth : option tm_frame := tm_frame_make TM_MSG_AUTH 0 auth_payload (u32 (blen auth_payload)).
Definition data_bind : option tm_frame := tm_frame_make TM_MSG_DATA_BIND 0 [] 0.

(** DATA_BIND_OK: what follows it in the reader goes to the local leg [raw]. *)
Definition sess_bind (raw : io) (s : tm_psess) : tm_psess :=
  match fr s with
  | None => s <| bad := true |>
  | Some rd =>
      let '(lo, rd) := tm_frame_reader_drain rd in
      with_relay (peer_bind eup raw lo) (s <| fr := Some rd |>)
  end.

(** A frame of the broker before the bind; the flag says that [sess_pre_read] returns. *)
Definition pre_frame (raw : io) (f : tm_frame) (s : tm_psess) : bool * tm_psess :=
  let t := f_type f in
  if t =? TM_MSG_HELLO_ACK then
    (false, if got_hello s then s else sess_send_frame auth (s <| got_hello := true |>))
  else if t =? TM_MSG_AUTH_OK then (false, if got_hello s then sess_send_frame data_bind s else s)
  else if t =? TM_MSG_DATA_BIND_OK then
    if (f_stream_id f =? 0) && got_hello s then (true, sess_bind raw s) else (false, s)
  else if (t =? TM_MSG_AUTH_ERROR) || (t =? TM_MSG_DATA_BIND_ERROR) || (t =? TM_MSG_GOING_AWAY) ||
          (t =? TM_MSG_ERROR) then (true, tm_psess_close s)
  else (false, s).

(** The loop of [sess_pre_read]; closing the session releases the reader it goes on to
    feed. *)
Fixpoint pre_loop (fuel : nat) (raw : io) (data : bytes) (s : tm_psess) : tm_psess :=
  match fuel with
  | O => s <| endless := true |>
  | S fuel' =>
      match fr s with
      | None => s <| bad := true |>
      | Some rd =>
          let '(r, rd) := tm_frame_reader_feed rd data in
          let s := s <| fr := Some rd |> <| taken ::= fun b => b ++ data |> in
          match r with
          | FeedErr => tm_psess_close s
          | FeedMore => s
          | FeedFrame f =>
              let '(return_, s) := pre_frame raw f (s <| heard ::= fun l => l ++ [f] |>) in
              if return_ : bool then s else pre_loop fuel' raw [] s
          end
      end
  end.

Definition buffered (s : tm_psess) : nat := match fr s with Some rd => length (fr_buf rd) | None => 0 end.

Definition sess_pre_read (raw : io) (data : bytes) (s : tm_psess) : tm_psess :=
  if Relay.bound (relay s) then with_relay (peer_broker_read eup data) (s <| taken ::= fun b => b ++ data |>)
  else pre_loop (S (buffered s + length data)) raw data s.

(** What the broker leg delivers; the callbacks of the relay are installed at the bind. *)
Definition broker_leg_read (raw : io) (data : bytes) (s : tm_psess) : tm_psess :=
  if Relay.bound (relay s) then with_relay (peer_broker_read eup data) (s <| taken ::= fun b => b ++ data |>)
  else sess_pre_read raw data s.

Definition sess_ready (s : tm_psess) : tm_psess := sess_send_frame hello s.

Definition sess_hs_timeout (s : tm_psess) : tm_psess :=
  if negb (Relay.bound (relay s)) && negb (Relay.closing (relay s)) then tm_psess_close s else s.

Definition sess_eof (s : tm_psess) : tm_psess :=
  if negb (Relay.bound (relay s)) then tm_psess_close s else with_relay (relay_broker_eof eup) s.

Definition sess_error (s : tm_psess) : tm_psess := tm_psess_close s.

(** The connection to the broker is there, or not; [failed]: the first step of the TLS
    handshake reports an error before the timer is started, which a closing handle
    refuses. *)
Definition broker_connected (r : ctl_result io) (s : tm_psess) : tm_psess :=
  let s := s <| connecting := false |> in
  if Relay.closing (relay s) then s
  else match r with
  | CTL_FAILED | CTL_NO_SSL | CTL_BAD_VERIFY => tm_psess_close s
  | CTL_CONNECTED i failed =>
      let i := io_start i in
      let s := s <| relay ::= mod_ A (fun d => d <| leg := Some i |> <| base := io_log i |>) |> in
      let s := if failed : bool then sess_error s else s in
      if closable (hs_timer s) then s <| relay ::= fun r => r <| timer_on := true |> |> else s
  end.

(** ** The peer *)

Definition sess_unlink (z : Z) (p : tm_peer) : tm_peer := p <| sessions ::= filter (fun y => y <> z) |>.

Definition put (z : Z) (s : tm_psess) (p : tm_peer) : tm_peer :=
  let p := p <| heap ::= <[z := s]> |> <| failed ::= orb (unsaid s) |> <| fault ::= orb (bad s || Relay.uaf (relay s)) |>
             <| stuck ::= orb (endless s || Relay.stuck (relay s)) |> in
  if Relay.closing (relay s) then sess_unlink z p else p.

(** A callback of the session at [z]. *)
Definition on_sess (z : Z) (f : tm_psess -> tm_psess) (p : tm_peer) : tm_peer :=
  match heap p !! z with
  | None => p <| fault := true |>
  | Some s => put z (f s) p
  end.

Definition set_closed (h : sess_handle) (s : tm_psess) : tm_psess :=
  match h with
  | LOCAL => s <| local_sock := S_CLOSED |>
  | BROKER => s <| broker_sock := S_CLOSED |>
  | TIMER => s <| hs_timer := S_CLOSED |>
  end.

Definition sess_sock_closed (h : sess_handle) (z : Z) (p : tm_peer) : tm_peer :=
  let p := p <| loop ::= filter (fun k => k <> (z, h)) |> in
  match heap p !! z with
  | None => p <| fault := true |>
  | Some s =>
      let s := set_closed h s <| closing_refs ::= fun n => n - 1 |> in
      if closing_refs s =? 0 then p <| heap ::= delete z |> else p <| heap ::= <[z := s]> |>
  end.

Definition psess_new (z : Z) (broker : uv_sock) : tm_psess :=
  PSess S_LIVE broker S_LIVE (Some tm_frame_reader_new)
    (Stream z (new_dir None []) (new_dir None []) Open Open false false false false 0 0 0 [] 0 true
       (Shared 0 0 0 0 0 0 0) false false)
    true 0 false [] [] [] false false false.

(** [accepted]: [uv_accept] succeeded; otherwise the session is released with its handles
    still in the loop.  A failed address lookup leaves the broker socket zeroed. *)
Definition on_local_accept (status : Z) (accepted : bool) (r : connect_start) (p : tm_peer) : tm_peer :=
  if negb (status =? 0) || shutting_down p then p
  else
    let z := next p in
    let p := p <| next ::= Z.succ |> <| loop ::= fun l => (z, LOCAL) :: (z, TIMER) :: l |> in
    if negb accepted then p <| fault := true |>
    else match r with
    | NO_ADDR => put z (tm_psess_close (psess_new z S_ZERO)) p
    | NO_ATTEMPT => put z (tm_psess_close (psess_new z S_LIVE)) (p <| loop ::= cons (z, BROKER) |>)
    | UNDER_WAY => put z (psess_new z S_LIVE) (p <| loop ::= cons (z, BROKER) |>) <| sessions ::= cons z |>
    end.

Inductive listen_result := BAD_HOST | BIND_FAILED | LISTEN_FAILED | LISTENS.

Definition tm_peer_tcp_listen (r : listen_result) (p : tm_peer) : Z * tm_peer :=
  let p := p <| listener := S_LIVE |> in
  match r with
  | LISTENS => (0, p <| listening := true |>)
  | _ => (1, p)
  end.

(** [while (p->sessions) tm_psess_close(p, p->sessions)] *)
Fixpoint close_sessions (fuel : nat) (p : tm_peer) : tm_peer :=
  match sessions p with
  | [] => p
  | z :: _ => match fuel with
              | O => p <| stuck := true |>
              | S fuel' => close_sessions fuel' (on_sess z tm_psess_close p)
              end
  end.

(** [tm_peer_shutdown] in TCP mode. *)
Definition tm_peer_shutdown (p : tm_peer) : tm_peer :=
  if shutting_down p then p
  else
    let p := p <| shutting_down := true |> in
    let p := if listening p then p <| listener ::= uv_close |> <| listening := false |> else p in
    close_sessions (length (sessions p)) p.

Definition peer_new : tm_peer := Peer S_ZERO false [] false ∅ [] 1 false false false.

(** [main] in TCP mode up to the event loop; a peer that cannot listen exits. *)
Definition peer_main (r : listen_result) : option tm_peer :=
  match tm_peer_tcp_listen r peer_new with
  | (0, p) => Some p
  | _ => None
  end.

(** ** Runs

    The events of the loop, in any order.  The loop runs callbacks of the handles it
    holds, whether or not their session still exists; what else it takes to run one
    depends on the session: a leg calls back while it is there, delivers data only after
    its handshake and nothing after its end, and a handle is closed after [uv_close].  In
    a [good] run accepting a connection and looking up the broker's address do not fail. *)

Definition live_at (p : tm_peer) (z : Z) (s : tm_psess) : Prop :=
  heap p !! z = Some s /\ Relay.closing (relay s) = false.
Definition calls (p : tm_peer) (z : Z) (h : sess_handle) (ready : tm_psess -> Prop) : Prop :=
  (z, h) ∈ loop p /\ forall s, heap p !! z = Some s -> ready s.
Definition on_leg (x : side) (s : tm_psess) : Prop := Relay.closing (relay s) = false /\ leg (get x (relay s)) <> None.
Definition sock_of (x : side) : sess_handle := match x with A => BROKER | B => LOCAL end.
Definition fresh_conn (r : ctl_result io) : Prop :=
  match r with CTL_CONNECTED i _ => io_fresh i | _ => True end.

Inductive peer_step (good : bool) : tm_peer -> tm_peer -> Prop :=
  | PsAccept status accepted r p : listening p = true -> (good = true -> accepted = true /\ r <> NO_ADDR) ->
      peer_step good p (on_local_accept status accepted r p)
  | PsConnected z r p : calls p z BROKER (fun s => connecting s = true) -> fresh_conn r ->
      peer_step good p (on_sess z (broker_connected r) p)
  | PsReady z p : calls p z BROKER (fun s => on_leg A s /\ said s = []) -> peer_step good p (on_sess z sess_ready p)
  | PsBrokerRead z raw data p :
      calls p z BROKER (fun s => on_leg A s /\ said s <> [] /\ src_eof (to_b (relay s)) = false) -> io_fresh raw -> bytes_ok data ->
      peer_step good p (on_sess z (broker_leg_read raw data) p)
  | PsBrokerEof z p : calls p z BROKER (on_leg A) -> peer_step good p (on_sess z sess_eof p)
  | PsError z x p : calls p z (sock_of x) (on_leg x) -> peer_step good p (on_sess z sess_error p)
  | PsTimer z p : calls p z TIMER (fun s => Relay.closing (relay s) = false /\ timer_on (relay s) = true) ->
      peer_step good p (on_sess z (fun s => sess_hs_timeout (s <| relay ::= fun r => r <| timer_on := false |> |>)) p)
  | PsLocalRead z data p : calls p z LOCAL (fun s => on_leg B s /\ src_eof (to_a (relay s)) = false) ->
      peer_step good p (on_sess z (with_relay (peer_local_read eup data)) p)
  | PsLocalEof z p : calls p z LOCAL (on_leg B) -> peer_step good p (on_sess z (with_relay (relay_local_eof eup)) p)
  | PsLow z x p : calls p z (sock_of x) (on_leg x) -> peer_step good p (on_sess z (with_relay (ep_low eup x)) p)
  | PsMove z x i i' p : calls p z (sock_of x) (fun s => Relay.closing (relay s) = false /\ leg (get x (relay s)) = Some i) -> io_moves i i' ->
      peer_step good p (on_sess z (with_relay (mod_ x (fun d => d <| leg := Some i' |>))) p)
  | PsSockClosed h z p : calls p z h (fun s => handle h s = S_CLOSING) -> peer_step good p (sess_sock_closed h z p)
  | PsShutdown p : peer_step good p (tm_peer_shutdown p).

Definition peer_run (good : bool) (p : tm_peer) : Prop :=
  exists p0, peer_main LISTENS = Some p0 /\ rtc (peer_step good) p0 p.

(** ** The invariant *)

(** The handshake as the broker sees it: HELLO; once a HELLO_ACK was read, AUTH; then one
    DATA_BIND per AUTH_OK read after the first HELLO_ACK. *)
Definition is_type (t : Z) (f : tm_frame) : bool := f_type f =? t.
Definition acked (l : list tm_frame) : bool := existsb (is_type TM_MSG_HELLO_ACK) l.
Fixpoint binds_due (l : list tm_frame) : nat :=
  match l with
  | [] => 0
  | f :: l => if is_type TM_MSG_HELLO_ACK f then length (List.filter (is_type TM_MSG_AUTH_OK) l) else binds_due l
  end.
Definition said_ok (heard l : list tm_frame) : Prop :=
  (l = [] /\ heard = []) \/
  exists h a d, hello = Some h /\ auth = Some a /\ data_bind = Some d /\
    l = h :: if acked heard then a :: repeat d (binds_due heard) else [].

(** The frame that binds the stream was read. *)
Definition bind_read (l : list tm_frame) : Prop :=
  exists l0 f, l = l0 ++ [f] /\ f_type f = TM_MSG_DATA_BIND_OK /\ f_stream_id f = 0 /\ acked l0 = true.

(** What was read of the broker's connection behind the frames: it waits in the reader
    until the bind and then goes to the local connection. *)
Definition behind (s : tm_psess) (rest : bytes) : Prop := taken s = sent_bytes (heard s) ++ rest.

(** A session with its connection to the broker that has answered the frames [l] so far. *)
Record half_ok (z : Z) (l : list tm_frame) (s : tm_psess) : Prop := {
  op_open : Relay.closing (relay s) = false;
  op_run : exists i, io_ok i /\ ep_run Endpoint.Peer (new_endpoint z 0 i) (relay s);
  op_pre : Relay.bound (relay s) = false ->
    src_eof (to_b (relay s)) = false /\ lost (to_a (relay s)) = false /\ src_in (to_b (relay s)) = [];
  op_base : base (to_a (relay s)) = sent_bytes (said s) /\ base (to_b (relay s)) = [];
  op_said : said_ok l (said s) /\ got_hello s = acked l;
  op_bound : Relay.bound (relay s) = true -> bind_read (heard s) /\ behind s (src_in (to_b (relay s)));
  op_fr : exists rd, fr s = Some rd /\ reader_wf rd /\ (Relay.bound (relay s) = false -> behind s (fr_buf rd));
  op_handles : forall h, handle h s = S_LIVE;
  op_refs : closing_refs s = 0 /\ connecting s = false;
}.
#[local] Arguments op_open z {l} s _.
#[local] Arguments op_run z {l} s _.
#[local] Arguments op_pre z {l} s _.
#[local] Arguments op_base z {l} s _.
#[local] Arguments op_said z {l} s _.
#[local] Arguments op_bound z {l} s _.
#[local] Arguments op_fr z {l} s _.
#[local] Arguments op_handles z {l} s _.
#[local] Arguments op_refs z {l} s _.
Definition open_ok (z : Z) (s : tm_psess) : Prop := half_ok z (heard s) s.

(** A session that waits for its connection. *)
Definition waiting (z : Z) (s : tm_psess) : Prop := s = psess_new z S_LIVE.

(** How many close callbacks are still to come. *)
Definition pending (k : uv_sock) : Z := match k with S_CLOSING => 1 | _ => 0 end.
Definition to_come (s : tm_psess) : Z := pending (local_sock s) + pending (broker_sock s) + pending (hs_timer s).

Record closed_ok (s : tm_psess) : Prop := {
  cl_closing : Relay.closing (relay s) = true;
  cl_fr : fr s = None;
  cl_refs : closing_refs s = to_come s /\ 1 <= closing_refs s;
  cl_handles : forall h, handle h s = S_CLOSING \/ handle h s = S_CLOSED;
}.

Record clean (s : tm_psess) : Prop := {
  cn_unsaid : unsaid s = false;
  cn_bad : bad s = false /\ Relay.uaf (relay s) = false;
  cn_endless : endless s = false /\ Relay.stuck (relay s) = false;
}.

Definition sess_ok (z : Z) (s : tm_psess) : Prop := clean s /\ (waiting z s \/ open_ok z s \/ closed_ok s).

(** The loop holds the handles of allocated sessions, and no others. *)
Definition held (k : uv_sock) : bool := match k with S_LIVE | S_CLOSING => true | _ => false end.

Record peer_inv (p : tm_peer) : Prop := {
  pi_sess z s : heap p !! z = Some s -> sess_ok z s;
  pi_loop z h : (z, h) ∈ loop p <-> exists s, heap p !! z = Some s /\ held (handle h s) = true;
  pi_linked z : z ∈ sessions p <-> exists s, live_at p z s;
  pi_nodup : NoDup (sessions p);
  pi_next z : is_Some (heap p !! z) -> z < next p;
  pi_flags : fault p = false /\ stuck p = false;
}.
Definition down_ok (p : tm_peer) : Prop := shutting_down p = true -> sessions p = [].

(** *** Sessions *)

Section Sure.
Context `{!SureIo} (Hcfg : PeerCfg.peer_ok cfg).
Abbreviation sup := (sure_upcall ep_depth).

Lemma auth_some : exists f buf, auth = Some f /\ tm_frame_encode f = Some buf.
Proof.
  assert (blen auth_payload = 2 + blen (PeerCfg.tunnel_id cfg) + blen (PeerCfg.token cfg)) as Hl.
  { unfold auth_payload. autorewrite with blen. change (blen (wr_u16 _)) with 2. lia. }
  pose proof (PeerCfg.pk_id _ Hcfg). pose proof (PeerCfg.pk_token _ Hcfg). unfold TM_MAX_TUNNEL_ID, TM_MAX_SECRET in *.
  unfold auth, tm_frame_make. rewrite wrap_small by (unfold in_width; lia).
  destruct (_ <? _) eqn:E; zb; [unfold TM_MAX_FRAME_PAYLOAD in *; lia|]. eexists _, _. split; [reflexivity|].
  unfold tm_frame_encode. cbn [f_payload_len]. destruct (_ <? _) eqn:E'; zb; [unfold TM_MAX_FRAME_PAYLOAD in *; lia|done].
Qed.

Lemma bind_some : exists f buf, data_bind = Some f /\ tm_frame_encode f = Some buf.
Proof. by eexists _, _. Qed.

Lemma open_settled z l s : half_ok z l s -> settled Endpoint.Peer (relay s) /\ Relay.uaf (relay s) = false.
Proof.
  intros Ho. destruct (op_run z s Ho) as (i & Hi & Hr).
  destruct (run_settled Endpoint.Peer _ _ Hr (endpoint_settled Endpoint.Peer z 0 i Hi)) as [? ->]. by split.
Qed.

Lemma open_live z l s : half_ok z l s -> live (relay s) /\ leg (to_a (relay s)) <> None /\
  (leg (to_b (relay s)) <> None -> Relay.bound (relay s) = true).
Proof.
  intros Ho. destruct (open_settled z l s Ho) as [[[Hi _ _] Hg _] _]. pose proof (op_open z s Ho) as Hc.
  destruct Hi as [[? _]|Hl]; [congruence|]. split; [done|]. split; [by apply Hg|]. intros Hb.
  destruct (Relay.bound (relay s)) eqn:E; [done|]. by destruct (li_pre _ Hl E) as [? _].
Qed.

(** A session that has just been closed. *)
Lemma closed_now s : (forall h, handle h s = S_LIVE) -> closing_refs s = 0 -> Relay.closing (relay s) = true -> clean s ->
  clean (psess_closed s) /\ closed_ok (psess_closed s).
Proof.
  intros Hh Hr Hc [C1 [C2 C2'] C3]. unfold psess_closed. rewrite Hc, Hr. cbn [andb Z.eqb].
  pose proof (Hh LOCAL) as H1. pose proof (Hh BROKER) as H2. pose proof (Hh TIMER) as H3. cbn in H1, H2, H3.
  rewrite H1, H2, H3. cbn [closable andb negb orb]. split.
  - constructor; cbn; auto.
  - constructor; cbn; auto; unfold to_come; cbn; rewrite ?H1, ?H2, ?H3; cbn; auto; [lia|].
    intros []; cbn; rewrite ?H1, ?H2, ?H3; auto.
Qed.

Lemma closed_not s : Relay.closing (relay s) = false -> psess_closed s = s.
Proof. unfold psess_closed. by intros ->. Qed.

Lemma with_relay_eq f s : with_relay f s = psess_closed (s <| relay := f (relay s) |>).
Proof. done. Qed.

Lemma clean_relay z s r' : open_ok z s -> clean s -> ep_run Endpoint.Peer (relay s) r' -> clean (s <| relay := r' |>).
Proof.
  intros Ho [C1 [C2 _] [C3 _]] Hrun. destruct (op_run z s Ho) as (i & Hi & Hr).
  destruct (run_settled Endpoint.Peer _ _ (rtc_trans _ _ _ Hr Hrun) (endpoint_settled Endpoint.Peer z 0 i Hi)) as [[[_ _ Hst] _ _] Hu].
  constructor; cbn; auto.
Qed.

(** A session after its relay ran on, with [t] read of its connection and the reader [x],
    which only the bind changes. *)
Lemma relay_out z s x t r' : open_ok z s -> clean s -> ep_run Endpoint.Peer (relay s) r' ->
  (x = fr s \/ Relay.bound r' = true /\ exists rd, x = Some rd /\ reader_wf rd) ->
  base (to_a r') = base (to_a (relay s)) -> base (to_b r') = [] ->
  (Relay.closing r' = false -> Relay.bound r' = false ->
     src_eof (to_b r') = false /\ lost (to_a r') = false /\ src_in (to_b r') = [] /\ Relay.bound (relay s) = false /\ t = taken s) ->
  (Relay.bound r' = true -> bind_read (heard s) /\ t = sent_bytes (heard s) ++ src_in (to_b r')) ->
  sess_ok z (psess_closed (s <| fr := x |> <| taken := t |> <| relay := r' |>)).
Proof.
  intros Ho Hc Hrun Hx B1 B2 Hp Hb. pose proof Ho as [_ (i & Hi & Hr) _ [B3 B4] Hsd _ Hfr Hh [R1 R2]].
  assert (clean (s <| fr := x |> <| taken := t |> <| relay := r' |>)) as Hcl by (by destruct (clean_relay z s r' Ho Hc Hrun)).
  destruct (Relay.closing r') eqn:Ec.
  - destruct (closed_now (s <| fr := x |> <| taken := t |> <| relay := r' |>)) as [? ?]; auto. by split; [|auto].
  - rewrite closed_not by done. split; [done|]. right. left. constructor; cbn; auto.
    + exists i. split; [done|]. by apply (rtc_trans _ (relay s)).
    + intros Hn. by destruct (Hp eq_refl Hn) as (? & ? & ? & _).
    + by rewrite B1.
    + destruct Hx as [->|(Ebd & rd & -> & Hwf)]; [|exists rd; split_and!; auto; congruence].
      destruct Hfr as (rd & Efr & Hwf & Hbe). exists rd. split_and!; auto. intros Hn.
      destruct (Hp eq_refl Hn) as (_ & _ & _ & Hn' & ->). by apply Hbe.
Qed.

(** A session that is closed, whatever became of its reader. *)
Lemma drop_out z s x t : open_ok z s -> clean s -> sess_ok z (tm_psess_close (s <| fr := x |> <| taken := t |>)).
Proof.
  intros Ho Hc. pose proof (clean_relay z s (tm_stream_close (relay s)) Ho Hc ltac:(apply rtc_once, EsClose)) as [C1 C2 C3].
  pose proof (op_handles z s Ho) as Hh. pose proof (op_refs z s Ho) as [Hr _].
  destruct (closed_now (s <| fr := x |> <| taken := t |> <| relay := tm_stream_close (relay s) |>)) as [? ?]; auto.
  - apply close_closing.
  - by constructor.
  - by split; [|auto].
Qed.

Lemma close_out z s : open_ok z s -> clean s -> sess_ok z (tm_psess_close s).
Proof. intros Ho Hc. exact (drop_out z s (fr s) (taken s) Ho Hc). Qed.

(** An operation of a bound relay. *)
Lemma bound_out z s f : open_ok z s -> clean s -> ep_step Endpoint.Peer (relay s) (f (relay s)) ->
  based (relay s) (f (relay s)) -> Relay.bound (relay s) = true -> Relay.bound (f (relay s)) = true ->
  sess_ok z (with_relay f s).
Proof.
  intros Ho Hc Hst (B1 & B2 & B3) E1 E2. destruct (op_base z s Ho) as [_ B4]. destruct (op_bound z s Ho E1) as [Hr Hbe].
  apply (relay_out z s (fr s) (taken s) (f (relay s))); auto; [by apply rtc_once|congruence|]. intros _. split; [done|]. by rewrite B3.
Qed.

(** *** The handshake *)

(** What a write that was taken leaves of an unbound relay. *)
Lemma sent_relay z l s i buf us i' : half_ok z l s -> Relay.bound (relay s) = false -> leg (to_a (relay s)) = Some i ->
  io_write i buf = (TM_OK, us, i') ->
  let r' := run_up sup A us (mod_ A (fun d => d <| leg := Some i' |> <| base := io_log i' |>) (relay s)) in
  Relay.closing r' = false /\ Relay.bound r' = false /\ src_eof (to_b r') = false /\ lost (to_a r') = false /\
  base (to_a r') = base (to_a (relay s)) ++ buf /\ base (to_b r') = base (to_b (relay s)) /\ src_in (to_b r') = [].
Proof.
  intros Ho Hb El Ew. cbv zeta. destruct (open_live z l s Ho) as (Hl & _). destruct (op_pre z s Ho Hb) as (He & Hlo & Hsi).
  destruct (li_pre _ Hl Hb) as (_ & _ & _ & _ & _ & Hpa & Hin & _). pose proof (li_dir _ Hl A) as Hd. cbn [get] in Hd.
  destruct (open_settled z l s Ho) as [[[_ Hfl _] _ _] _].
  pose proof (di_fifo _ _ Hd (Hfl A) i El Hlo) as Hlog. rewrite Hpa, Hin, !app_nil_r in Hlog.
  pose proof (io_write_law i buf (di_ok _ _ Hd i El)) as (L & _). rewrite Ew in L. destruct L as [L _].
  set (r1 := mod_ A _ (relay s)).
  pose proof (marks_run_up sup (marks_sure ep_depth) A us r1) as [M1 M5 M2 M3 M4].
  destruct (kept_run_up sup (kept_sure ep_depth) A us r1) as (_ & Kb & _).
  assert (src_eof (to_b r1) = false) as Er by exact He. assert (pend (get A r1) = []) as Ep by exact Hpa.
  assert (lost (get A r1) = false) as Elo by exact Hlo. assert (base (get A r1) = io_log i') as Eb by done.
  assert (Relay.closing r1 = false) as Ec by exact (op_open z s Ho). assert (Relay.bound r1 = false) as Ebd by exact Hb.
  assert (base (get B r1) = base (to_b (relay s)) /\ src_in (get B r1) = []) as [Ebb Esi] by done.
  set (r2 := run_up sup A us r1) in *. clearbody r1 r2. split_and!.
  - by rewrite M4.
  - congruence.
  - by rewrite (M2 B : src_eof (to_b r2) = _).
  - destruct (M3 A Ep) as [_ M6]. rewrite Elo in M6. exact M6.
  - rewrite (M1 A : base (to_a r2) = _), Eb, L. by rewrite Hlog.
  - by rewrite (M1 B : base (to_b r2) = _).
  - by rewrite (M5 B : src_in (to_b r2) = _).
Qed.

(** The outcome of a frame that is sent: the write failed, or the session goes on. *)
Definition goes_on (z : Z) (s s' : tm_psess) : Prop :=
  unsaid s' = true \/
  clean s' /\ open_ok z s' /\ fr s' = fr s /\ Relay.bound (relay s') = false /\ said s' <> [].

Lemma send_out z l s f buf g : half_ok z l s -> clean s -> Relay.bound (relay s) = false -> tm_frame_encode f = Some buf ->
  said_ok (heard s) (said s ++ [f]) -> g = acked (heard s) -> goes_on z s (sess_send_frame (Some f) (s <| got_hello := g |>)).
Proof.
  intros Ho Hc Hb Ef Hs Hg. pose proof Hc as [C1 [C2 C3] [C4 C5]]. destruct (open_live z l s Ho) as (Hl & Hleg & _).
  unfold sess_send_frame. change (relay (s <| got_hello := g |>)) with (relay s). rewrite (op_open z s Ho). cbn [orb].
  destruct (leg (to_a (relay s))) as [i|] eqn:El; [|done]. rewrite bool_decide_true by done. cbn [negb]. rewrite Ef.
  pose proof (EsSend Endpoint.Peer buf (relay s) Hb) as Hst. revert Hst.
  rewrite (ep_send_ext _ _ (upcall_sure ep_depth)). unfold ep_send. rewrite El.
  pose proof (fun us i' => sent_relay z l s i buf us i' Ho Hb El) as Hsent.
  destruct (io_write i buf) as [[st us] i'] eqn:Ew. cbn [snd]. set (r' := run_up sup A us _). intros Hst.
  destruct st; try (left; unfold tm_psess_close, with_relay, psess_closed; by repeat case_match).
  specialize (Hsent us i' eq_refl). cbv zeta in Hsent. fold r' in Hsent. destruct Hsent as (S1 & S2 & S3 & S4 & S5 & S6 & S7).
  right. rewrite closed_not by exact S1. destruct (op_run z s Ho) as (i0 & Hi0 & Hr0).
  assert (ep_run Endpoint.Peer (new_endpoint z 0 i0) r') as Hr' by (apply (rtc_r _ (relay s)); auto).
  destruct (run_settled Endpoint.Peer _ _ Hr' (endpoint_settled Endpoint.Peer z 0 i0 Hi0)) as [[[_ _ Hst'] _ _] Hu].
  destruct Ho as [_ _ _ [B3 B4] _ _ (rd & Efr & Hwf & Hbe) Hh Hrf]. split_and!; [constructor; cbn; auto| |done|exact S2|].
  - constructor; cbn; auto.
    + eauto.
    + by rewrite S5, S6, B3, sent_bytes_app, (sent_bytes_one f buf Ef).
    + by rewrite S2.
    + eauto 6.
  - cbn. by destruct (said s).
Qed.

(** DATA_BIND_OK. *)
Lemma bind_out z raw s : open_ok z s -> clean s -> Relay.bound (relay s) = false -> bind_read (heard s) -> io_fresh raw ->
  sess_ok z (sess_bind raw s).
Proof.
  intros Ho Hc Hb Hg Hraw. pose proof (op_open z s Ho) as Hcl. destruct (op_fr z s Ho) as (rd & Efr & Hwf & Hbe).
  specialize (Hbe Hb). destruct (op_pre z s Ho Hb) as (_ & _ & Hin). unfold sess_bind. rewrite Efr.
  assert ((tm_frame_reader_drain rd).1 = fr_buf rd) as Elo.
  { unfold tm_frame_reader_drain. destruct (_ =? 0) eqn:E; zb; [|done]. by apply blen_0_nil in E as ->. }
  assert (reader_wf (tm_frame_reader_drain rd).2) as Hdr.
  { unfold tm_frame_reader_drain. destruct (_ =? 0); [done|]. destruct Hwf as (_ & H1 & H2 & H3).
    pose proof (blen_nonneg (fr_buf rd)). split_and!; cbn; [constructor|change (blen []) with 0; lia..]. }
  destruct (tm_frame_reader_drain rd) as [lo rd']. cbn [fst snd] in *. subst lo.
  destruct (open_settled z _ s Ho) as [Hs _]. destruct (op_base z s Ho) as [B1 B2].
  destruct (peer_bind_eq eup raw (fr_buf rd) (relay s) Hs Hcl Hb Hraw) as (us & i1 & st & Ew & Eq).
  pose proof (EsPeerBind Endpoint.Peer raw (fr_buf rd) (relay s) eq_refl Hcl Hb Hraw) as Hst.
  rewrite with_relay_eq. change (relay (s <| fr := Some rd' |>)) with (relay s).
  set (r' := peer_bind eup raw (fr_buf rd) (relay s)) in *. clearbody r'.
  assert (Relay.bound r' = true /\ base (to_a r') = base (to_a (relay s)) /\ base (to_b r') = [] /\ src_in (to_b r') = fr_buf rd)
    as (R1 & R2 & R3 & R4).
  { rewrite Eq. destruct (_ =? 0) eqn:E0; cbn; rewrite Hin; [|done]. zb. apply blen_0_nil in E0. by rewrite E0. }
  apply (relay_out z s (Some rd') (taken s) r'); auto; [by apply rtc_once|by eauto|congruence|].
  intros _. by rewrite R4.
Qed.

(** A failed write is not forgotten. *)
Lemma unsaid_closed s : unsaid (psess_closed s) = unsaid s.
Proof. unfold psess_closed. by destruct (_ && _). Qed.

Lemma unsaid_send f s : unsaid s = true -> unsaid (sess_send_frame f s) = true.
Proof.
  intros Hu. unfold sess_send_frame. destruct (_ || _); [done|]. destruct f as [f|]; [|done]. destruct (tm_frame_encode f); [|done].
  destruct (ep_send _ _ _) as [st r]. unfold tm_psess_close, with_relay.
  assert (unsaid (psess_closed (s <| relay := r |>)) = true) as H1 by (by rewrite unsaid_closed).
  destruct st; try done; by rewrite unsaid_closed.
Qed.

Lemma unsaid_frame raw f s : unsaid s = true -> unsaid (pre_frame raw f s).2 = true.
Proof.
  intros Hu. unfold pre_frame, sess_bind, tm_psess_close, with_relay.
  repeat match goal with |- context [if ?b then _ else _] => destruct b end; cbn [snd]; auto using unsaid_send;
    try (by rewrite unsaid_closed). destruct (fr s) as [rd|]; [|done]. destruct (tm_frame_reader_drain rd). by rewrite unsaid_closed.
Qed.

Lemma unsaid_loop fuel raw : forall data s, unsaid s = true -> unsaid (pre_loop fuel raw data s) = true.
Proof.
  induction fuel as [|fuel IH]; intros data s Hu; [done|]. cbn [pre_loop]. destruct (fr s) as [rd|]; [|done].
  destruct (tm_frame_reader_feed rd data) as [r rd']. cbv zeta. set (s1 := s <| fr := Some rd' |> <| taken ::= _ |>).
  assert (unsaid s1 = true) as H1 by done. clearbody s1. destruct r as [| |f]; [|done|].
  - unfold tm_psess_close, with_relay. by rewrite unsaid_closed.
  - set (s2 := s1 <| heard ::= _ |>). assert (unsaid s2 = true) as H2 by done. clearbody s2.
    pose proof (unsaid_frame raw f s2 H2) as H3. destruct (pre_frame raw f s2) as [[] s3]; [done|]. by apply IH.
Qed.

(** What is due after one more frame. *)
Lemma acked_app l f : acked (l ++ [f]) = acked l || is_type TM_MSG_HELLO_ACK f.
Proof. unfold acked. rewrite existsb_app. cbn. by rewrite orb_false_r. Qed.

Lemma binds_app l f :
  binds_due (l ++ [f]) = (binds_due l + if acked l && is_type TM_MSG_AUTH_OK f then 1 else 0)%nat.
Proof.
  unfold acked. induction l as [|g l IH]; cbn; [by destruct (is_type _ f)|].
  destruct (is_type TM_MSG_HELLO_ACK g); cbn; [|done]. rewrite List.filter_app, length_app. cbn. by destruct (is_type TM_MSG_AUTH_OK f).
Qed.

Lemma binds_none l : acked l = false -> binds_due l = 0%nat.
Proof. unfold acked. induction l as [|g l IH]; cbn; [done|]. by destruct (is_type TM_MSG_HELLO_ACK g). Qed.

(** A frame that asks for no answer. *)
Lemma no_answer z l f s : half_ok z l s -> said s <> [] -> heard s = l ++ [f] ->
  is_type TM_MSG_HELLO_ACK f && negb (acked l) = false -> acked l && is_type TM_MSG_AUTH_OK f = false -> open_ok z s.
Proof.
  intros [O1 O2 O3 O4 [O5 O5'] O6 O7 O8 O9] Hne Eh E1 E2. constructor; auto.
  assert (acked (l ++ [f]) = acked l) as Ea by (rewrite acked_app; destruct (acked l), (is_type TM_MSG_HELLO_ACK f); done).
  rewrite Eh, Ea. split; [|done]. destruct O5 as [[? _]|(h & a & d & E)]; [done|]. right. exists h, a, d.
  by rewrite Ea, binds_app, E2, Nat.add_0_r.
Qed.

(** A frame before the bind: the session goes on, or is in order when the loop returns. *)
Lemma frame_out z raw l f s : half_ok z l s -> heard s = l ++ [f] -> clean s -> Relay.bound (relay s) = false -> said s <> [] ->
  io_fresh raw -> if (pre_frame raw f s).1 then sess_ok z (pre_frame raw f s).2 else goes_on z s (pre_frame raw f s).2.
Proof.
  intros Ho Hh Hc Hb Hne Hraw. pose proof (no_answer z l f s Ho Hne Hh) as Hno.
  assert (open_ok z s -> goes_on z s s) as Hsame by (right; auto).
  destruct (op_said z s Ho) as [[[? _]|(h & a & d & Eh & Ea & Ed & El)] Eg]; [done|].
  destruct auth_some as (a' & ab & Ea' & Eab). rewrite Ea in Ea'. injection Ea' as <-.
  destruct bind_some as (d' & db & Ed' & Edb). rewrite Ed in Ed'. injection Ed' as <-.
  unfold pre_frame. fold (is_type TM_MSG_HELLO_ACK f) (is_type TM_MSG_AUTH_OK f).
  destruct (is_type TM_MSG_HELLO_ACK f) eqn:E1; cbn [fst snd].
  { assert (is_type TM_MSG_AUTH_OK f = false) as E2 by (unfold is_type in *; zb; by rewrite E1).
    destruct (got_hello s) eqn:Eg'; [apply Hsame, Hno; by rewrite <- Eg, ?E2|].
    rewrite Ea. apply (send_out z l s a ab true); auto; rewrite Hh; [|by rewrite acked_app, E1, orb_true_r].
    right. exists h, a, d. rewrite acked_app, E1, orb_true_r, binds_app, E2, andb_false_r, El, <- Eg. split_and!; auto.
    assert (binds_due l = 0%nat) as -> by (apply binds_none; congruence). done. }
  destruct (is_type TM_MSG_AUTH_OK f) eqn:E2; cbn [fst snd].
  { destruct (got_hello s) eqn:Eg'; [|apply Hsame, Hno; by rewrite <- Eg].
    rewrite Ed. replace s with (s <| got_hello := true |>) at 2 by (destruct s; cbn in *; congruence).
    apply (send_out z l s d db true); auto; rewrite Hh; [|by rewrite acked_app, <- Eg].
    right. exists h, a, d. rewrite acked_app, binds_app, <- Eg, E2, El, <- Eg. split_and!; auto. cbn.
    by rewrite Nat.add_1_r, <- repeat_cons. }
  assert (open_ok z s) as Hop by (apply Hno; [done|by rewrite andb_false_r]). clear Hno.
  destruct (_ =? _) eqn:E3; cbn [fst snd].
  { destruct (_ && _) eqn:E4; cbn [fst snd]; [|auto]. zb. destruct E4 as [E4 E5]. apply bind_out; auto.
    exists l, f. split_and!; auto; congruence. }
  destruct (_ || _); cbn [fst snd]; [by apply close_out|auto].
Qed.

Lemma loop_out fuel z raw : io_fresh raw -> forall data s, open_ok z s -> clean s -> Relay.bound (relay s) = false -> said s <> [] ->
  bytes_ok data -> (buffered s + length data < fuel)%nat ->
  unsaid (pre_loop fuel raw data s) = true \/ sess_ok z (pre_loop fuel raw data s).
Proof.
  intros Hraw. induction fuel as [|fuel IH]; intros data s Ho Hc Hb Hne Hd Hf; [lia|]. cbn [pre_loop].
  destruct (op_fr z s Ho) as (rd & Efr & Hwf & Hbe). specialize (Hbe Hb). unfold behind in Hbe. unfold buffered in Hf. rewrite Efr in *.
  destruct (feed_consumes rd data (proj1 Hwf) Hd) as [_ Hlt]. destruct (feed_bounds rd data Hwf Hd) as [Hwf' _].
  pose proof (feed_image rd data Hwf Hd) as Him. destruct (tm_frame_reader_feed rd data) as [r rd']. cbn [fst snd] in *. cbv zeta.
  destruct r as [| |f].
  - right. by apply drop_out.
  - right. split; [by destruct Hc|]. right. left. destruct Ho. constructor; cbn; auto; [by rewrite Hb|].
    exists rd'. split_and!; auto. intros _. unfold behind. cbn. by rewrite Hbe, Him, app_assoc.
  - set (s1 := s <| fr := Some rd' |> <| taken ::= _ |> <| heard ::= _ |>).
    assert (half_ok z (heard s) s1) as Ho1.
    { destruct Ho. constructor; cbn; auto; [by rewrite Hb|]. exists rd'. split_and!; auto. intros _. unfold behind. cbn.
      destruct Him as (bs & Eb & Him). by rewrite Hbe, sent_bytes_app, (sent_bytes_one f bs Eb), <- !app_assoc, Him. }
    assert (heard s1 = heard s ++ [f] /\ fr s1 = Some rd' /\ Relay.bound (relay s1) = false /\ said s1 <> []) as (E0 & E1 & E2 & E3) by done.
    assert (clean s1) as Hc1 by (by destruct Hc). clearbody s1.
    pose proof (frame_out z raw (heard s) f s1 Ho1 E0 Hc1 E2 E3 Hraw) as Hfr.
    destruct (pre_frame raw f s1) as [[] s2]; cbn [fst snd] in Hfr; [by right|].
    destruct Hfr as [Hu|(G1 & G2 & G3 & G4 & G5)]; [left; by apply unsaid_loop|].
    apply IH; auto; [constructor|]. unfold buffered. rewrite G3, E1. specialize (Hlt f eq_refl). cbn. lia.
Qed.

(** *** Events of a session *)

(** A write failed, or the session is in order. *)
Definition fair (z : Z) (s : tm_psess) : Prop := unsaid s = true \/ sess_ok z s.

Lemma live_open z s x : sess_ok z s -> Relay.closing (relay s) = false -> leg (get x (relay s)) <> None -> clean s /\ open_ok z s.
Proof.
  intros (Hc & [->|[Ho|Hcl]]) Hn Hl; [by destruct x|done|]. rewrite (cl_closing s Hcl) in Hn. done.
Qed.

Lemma waiting_close z b : sess_ok z (tm_psess_close (psess_new z S_LIVE <| connecting := b |>)).
Proof.
  unfold tm_psess_close, with_relay.
  destruct (closed_now (psess_new z S_LIVE <| connecting := b |> <| relay ::= tm_stream_close |>)) as [? ?].
  - by intros [].
  - done.
  - apply close_closing.
  - by constructor.
  - by split; [|auto].
Qed.

(** The relay of a session whose connection is there. *)
Lemma waiting_open z i : io_fresh i ->
  let s := psess_new z S_LIVE <| connecting := false |> <| relay := new_endpoint z 0 (io_start i) |> in clean s /\ open_ok z s.
Proof.
  intros Hf. destruct (io_fresh_law i Hf) as (Hok & Hlog & _). cbv zeta. split; [by constructor|]. constructor; cbn; auto.
  - exists (io_start i). split; [done|]. apply rtc_refl.
  - by split; [left|].
  - done.
  - exists tm_frame_reader_new. split_and!; [done|apply reader_new_wf|done].
  - by intros [].
Qed.

Lemma connected_out z r s : sess_ok z s -> connecting s = true -> fresh_conn r -> fair z (broker_connected r s).
Proof.
  intros (Hc & [->|[Ho|Hcl]]) Hcn Hf; right; [|destruct (op_refs z s Ho); congruence|].
  2: { unfold broker_connected. cbv zeta. change (relay (s <| connecting := false |>)) with (relay s). rewrite (cl_closing s Hcl).
       split; [by destruct Hc|]. right. right. destruct Hcl. by constructor. }
  pose proof (waiting_close z false) as Hclose.
  unfold broker_connected. cbv zeta. assert (Relay.closing (relay (psess_new z S_LIVE <| connecting := false |>)) = false) as -> by done.
  destruct r as [| | |i failed]; auto.
  destruct (waiting_open z i Hf) as [Hc' Ho'].
  set (s1 := psess_new z S_LIVE <| connecting := false |> <| relay := new_endpoint z 0 (io_start i) |>) in *.
  destruct failed.
  - change (sess_error _) with (tm_psess_close (s1 <| relay ::= fun r => r <| timer_on := false |> |>)).
    set (s2 := s1 <| relay ::= _ |>). assert (sess_ok z (tm_psess_close s2)) as Hs2.
    { assert (clean s2 /\ open_ok z s2) as [? ?]; [|by apply close_out]. split; [by constructor|].
      destruct Ho' as [P1 (j & Hj & Hr) P3 P4 P5 P6 P7 P8 P9]. constructor; auto.
      exists j. split; [done|]. apply (rtc_r _ (relay s1)); [done|]. apply (EsTimer Endpoint.Peer false). }
    assert (closable (hs_timer (tm_psess_close s2)) = false) as -> by done. done.
  - change (closable _) with true. cbn match. split; auto.
Qed.

Lemma ready_out z s : sess_ok z s -> Relay.closing (relay s) = false -> leg (to_a (relay s)) <> None -> said s = [] -> fair z (sess_ready s).
Proof.
  intros Hs Hn Hl He. destruct (live_open z s A Hs Hn Hl) as [Hc Ho].
  destruct (op_said z s Ho) as [[[_ Hh]|(h & a & d & _ & _ & _ & El)] Hg]; [|by rewrite El in He].
  rewrite Hh in Hg. cbn in Hg.
  destruct hello_some as (h & Eh & hb & Ehb). destruct auth_some as (a & ab & Ea & _). destruct bind_some as (d & db & Ed & _).
  assert (Relay.bound (relay s) = false) as Hb.
  { destruct (Relay.bound (relay s)) eqn:E; [|done]. destruct (op_bound z s Ho E) as [(l0 & f & Ef & _) _]. rewrite Hh in Ef.
    by destruct l0. }
  unfold sess_ready. rewrite Eh. replace s with (s <| got_hello := false |>) by (destruct s; cbn in *; congruence).
  destruct (send_out z (heard s) s h hb false) as [?|(G1 & G2 & _)]; auto.
  - right. exists h, a, d. by rewrite He, Hh.
  - by rewrite Hh.
  - by left.
  - right. split; auto.
Qed.

Lemma read_out z raw data s : sess_ok z s -> Relay.closing (relay s) = false -> leg (to_a (relay s)) <> None -> said s <> [] ->
  src_eof (to_b (relay s)) = false -> io_fresh raw -> bytes_ok data -> fair z (broker_leg_read raw data s).
Proof.
  intros Hs Hn Hl Hne He Hraw Hd. destruct (live_open z s A Hs Hn Hl) as [Hc Ho]. unfold broker_leg_read, sess_pre_read.
  destruct (Relay.bound (relay s)) eqn:Hb; [|apply loop_out; auto; lia].
  right. destruct (op_bound z s Ho Hb) as [Hbr Hbe]. destruct (op_base z s Ho) as [B1 B2].
  pose proof (EsReadBroker Endpoint.Peer data (relay s)) as Hst. cbn [broker_read] in Hst.
  rewrite with_relay_eq. change (relay (s <| taken ::= _ |>)) with (relay s).
  rewrite (peer_broker_read_ext _ _ (upcall_sure ep_depth)) in *.
  destruct (based_broker_read sup (marks_sure ep_depth) data (relay s) Hn) as (C1 & C2 & C3).
  set (r' := peer_broker_read sup data (relay s)) in *.
  assert (Relay.bound r' = true) as Hbd.
  { unfold r', peer_broker_read. rewrite Hn. cbv zeta.
    set (q := mod_ B _ (relay s)). assert (Relay.bound q = true) as Hq by (unfold q; by rewrite bound_mod). clearbody q.
    destruct (leg (to_b q)).
    + by destruct (kept_forward sup (kept_sure ep_depth) B data q) as (_ & -> & _).
    + destruct (_ <? _); [|done]. by destruct (kept_close q) as (_ & -> & _). }
  clearbody r'. cbn in C1, C2, C3. apply (relay_out z s (fr s) (taken s ++ data) r'); auto.
  - apply rtc_once, Hst; auto.
  - congruence.
  - intros _. split; [done|]. by rewrite C3, Hbe, app_assoc.
Qed.

Lemma eof_out z s : sess_ok z s -> Relay.closing (relay s) = false -> leg (to_a (relay s)) <> None -> fair z (sess_eof s).
Proof.
  intros Hs Hn Hl. destruct (live_open z s A Hs Hn Hl) as [Hc Ho]. right. unfold sess_eof.
  destruct (Relay.bound (relay s)) eqn:Hb; cbn [negb]; [|by apply close_out]. apply bound_out; auto.
  - apply EsEofBroker. by right.
  - rewrite (relay_broker_eof_ext _ _ (upcall_sure ep_depth)). apply based_broker_eof, marks_sure.
  - rewrite (relay_broker_eof_ext _ _ (upcall_sure ep_depth)).
    by destruct (kept_broker_eof sup (kept_sure ep_depth) (relay s)) as (_ & -> & _).
Qed.

Lemma local_out z s data : sess_ok z s -> Relay.closing (relay s) = false -> leg (to_b (relay s)) <> None ->
  (src_eof (to_a (relay s)) = false -> fair z (with_relay (peer_local_read eup data) s)) /\
  fair z (with_relay (relay_local_eof eup) s).
Proof.
  intros Hs Hn Hl. destruct (live_open z s B Hs Hn Hl) as [Hc Ho]. destruct (open_live z _ s Ho) as (_ & _ & Hb). specialize (Hb Hl).
  split; [intros He|]; right; apply bound_out; auto.
  - by apply (EsReadLocal Endpoint.Peer).
  - rewrite (peer_local_read_ext _ _ (upcall_sure ep_depth)). apply based_local_read, marks_sure.
  - rewrite (peer_local_read_ext _ _ (upcall_sure ep_depth)). unfold peer_local_read. rewrite Hn.
    destruct (kept_forward sup (kept_sure ep_depth) A data (mod_ A (fun d => d <| src_in ::= fun b => b ++ data |>) (relay s))) as (_ & -> & _).
    by rewrite bound_mod.
  - apply EsEofLocal.
  - rewrite (relay_local_eof_ext _ _ (upcall_sure ep_depth)). apply based_local_eof, marks_sure.
  - rewrite (relay_local_eof_ext _ _ (upcall_sure ep_depth)).
    by destruct (kept_local_eof sup (kept_sure ep_depth) (relay s)) as (_ & -> & _).
Qed.

(** An operation that leaves the marks of the relay alone. *)
Lemma marked_out z s f : open_ok z s -> clean s -> ep_step Endpoint.Peer (relay s) (f (relay s)) -> marks (relay s) (f (relay s)) ->
  Relay.bound (f (relay s)) = Relay.bound (relay s) -> sess_ok z (with_relay f s).
Proof.
  intros Ho Hc Hst Hm Eb. rewrite with_relay_eq. destruct (open_live z _ s Ho) as (Hl & _).
  destruct (marks_based _ _ Hm) as (B1 & B2 & B3). destruct (op_base z s Ho) as [_ B4].
  apply (relay_out z s (fr s) (taken s)); auto; [by apply rtc_once| |].
  2: { rewrite Eb, B3. apply (op_bound z s Ho). }
  intros _ Hb. rewrite Eb in Hb. destruct (op_pre z s Ho Hb) as (He & Hlo & Hsi). rewrite B3.
  destruct (li_pre _ Hl Hb) as (_ & _ & _ & _ & _ & Hpa & _). destruct Hm as [_ _ M2 M3 _].
  rewrite (M2 B : src_eof (to_b _) = _). destruct (M3 A Hpa) as [_ M]. cbn [get] in M. rewrite M. done.
Qed.

Lemma low_out z x s : sess_ok z s -> Relay.closing (relay s) = false -> leg (get x (relay s)) <> None -> fair z (with_relay (ep_low eup x) s).
Proof.
  intros Hs Hn Hl. destruct (live_open z s x Hs Hn Hl) as [Hc Ho]. right. apply marked_out; auto.
  - by apply EsLow.
  - rewrite (ep_low_ext _ _ (upcall_sure ep_depth)). apply marks_low, marks_sure.
  - rewrite (ep_low_ext _ _ (upcall_sure ep_depth)). by destruct (kept_low sup (kept_sure ep_depth) x (relay s)) as (_ & -> & _).
Qed.

Lemma move_out z x i i' s : sess_ok z s -> Relay.closing (relay s) = false -> leg (get x (relay s)) = Some i -> io_moves i i' ->
  fair z (with_relay (mod_ x (fun d => d <| leg := Some i' |>)) s).
Proof.
  intros Hs Hn Hl Hm. destruct (live_open z s x Hs Hn ltac:(by rewrite Hl)) as [Hc Ho]. right. apply marked_out; auto.
  - by apply (EsMove _ x i).
  - by apply marks_mod.
  - by rewrite bound_mod.
Qed.

(** The timer runs only once the connection is there. *)
Lemma timer_out z s : sess_ok z s -> Relay.closing (relay s) = false -> timer_on (relay s) = true ->
  fair z (sess_hs_timeout (s <| relay ::= fun r => r <| timer_on := false |> |>)).
Proof.
  intros (Hc & [->|[Ho|Hcl]]) Hn Ht; [done| |rewrite (cl_closing s Hcl) in Hn; done]. right.
  set (s1 := s <| relay ::= _ |>). assert (sess_ok z s1) as Hs1.
  { assert (with_relay (fun r => r <| timer_on := false |>) s = s1) as <- by (unfold with_relay; by apply closed_not).
    apply marked_out; auto; [apply EsTimer|by apply marks_flags; [intros []|]]. }
  unfold sess_hs_timeout. destruct (_ && _); [|done]. assert (leg (get A (relay s1)) <> None) as Hl by (by apply (open_live z _ s Ho)).
  destruct (live_open z s1 A Hs1 Hn Hl). by apply close_out.
Qed.

(** *** Events of the peer *)

(** A callback neither opens a handle nor ends its closing. *)
Definition holds (s s' : tm_psess) : Prop := forall h, held (handle h s') = held (handle h s).

Lemma holds_trans s1 s2 s3 : holds s1 s2 -> holds s2 s3 -> holds s1 s3.
Proof. intros H1 H2 h. by rewrite H2. Qed.

Lemma holds_closed s : holds s (psess_closed s).
Proof.
  unfold psess_closed. destruct (_ && _); [|done]. destruct s as [l b t]. intros []; cbn; [by destruct l|by destruct b|by destruct t].
Qed.

Lemma holds_relay f s : holds s (with_relay f s).
Proof. unfold with_relay. apply (holds_trans _ (s <| relay ::= f |>)); [by intros []|apply holds_closed]. Qed.

Lemma holds_send f s : holds s (sess_send_frame f s).
Proof.
  unfold sess_send_frame. destruct (_ || _); [done|]. destruct f as [f|]; [|by intros []]. destruct (tm_frame_encode f); [|done].
  destruct (ep_send _ _ _) as [st r]. set (s1 := psess_closed (s <| relay := r |>)).
  assert (holds s s1) as H1 by (apply (holds_trans _ (s <| relay := r |>)); [by intros []|apply holds_closed]).
  destruct st; try (apply (holds_trans _ (s1 <| unsaid := true |>)); [exact H1|apply holds_relay]). exact H1.
Qed.

Lemma holds_frame raw f s : holds s (pre_frame raw f s).2.
Proof.
  unfold pre_frame. repeat match goal with |- context [if ?b then _ else _] => destruct b end; cbn [snd]; try done; try apply holds_send;
    try apply holds_relay.
  - apply (holds_trans _ (s <| got_hello := true |>)); [by intros []|apply holds_send].
  - unfold sess_bind. destruct (fr s) as [rd|]; [|by intros []]. destruct (tm_frame_reader_drain rd) as [lo rd'].
    apply (holds_trans _ (s <| fr := Some rd' |>)); [by intros []|apply holds_relay].
Qed.

Lemma holds_loop fuel raw : forall data s, holds s (pre_loop fuel raw data s).
Proof.
  induction fuel as [|fuel IH]; intros data s; cbn [pre_loop]; [by intros []|]. destruct (fr s) as [rd|]; [|by intros []].
  destruct (tm_frame_reader_feed rd data) as [r rd']. cbv zeta. set (s1 := s <| fr := Some rd' |> <| taken ::= _ |>).
  assert (holds s s1) as H1 by (by intros []). clearbody s1. apply (holds_trans _ _ _ H1).
  destruct r as [| |f]; [apply holds_relay|done|]. set (s2 := s1 <| heard ::= _ |>).
  assert (holds s1 s2) as H2 by (by intros []). clearbody s2. apply (holds_trans _ _ _ H2). pose proof (holds_frame raw f s2) as H3.
  destruct (pre_frame raw f s2) as [[] s3]; [done|]. exact (holds_trans _ _ _ H3 (IH [] s3)).
Qed.

Lemma holds_read raw data s : holds s (broker_leg_read raw data s).
Proof.
  unfold broker_leg_read, sess_pre_read. destruct (Relay.bound _); [|apply holds_loop].
  apply (holds_trans _ (s <| taken ::= fun b => b ++ data |>)); [by intros []|apply holds_relay].
Qed.

Lemma holds_timeout s : holds s (sess_hs_timeout (s <| relay ::= fun r => r <| timer_on := false |> |>)).
Proof.
  apply (holds_trans _ (s <| relay ::= fun r => r <| timer_on := false |> |>)); [by intros []|].
  unfold sess_hs_timeout. destruct (_ && _); [apply holds_relay|done].
Qed.

Lemma holds_connected r s : holds s (broker_connected r s).
Proof.
  unfold broker_connected. cbv zeta. set (s1 := s <| connecting := false |>). assert (holds s s1) as H1 by (by intros []).
  clearbody s1. apply (holds_trans _ _ _ H1). destruct (Relay.closing _); [done|]. destruct r as [| | |i failed]; try apply holds_relay.
  set (s2 := s1 <| relay ::= _ |>). assert (holds s1 s2) as H2 by (by intros []). clearbody s2. apply (holds_trans _ _ _ H2).
  set (s3 := if failed then _ else _). assert (holds s2 s3) as H3 by (unfold s3; destruct failed; [apply holds_relay|done]).
  clearbody s3. apply (holds_trans _ _ _ H3). destruct (closable _); [by intros []|done].
Qed.

Lemma live_put p z s y t : live_at (put z s p) y t <-> (y = z /\ t = s /\ Relay.closing (relay s) = false) \/ (y <> z /\ live_at p y t).
Proof.
  assert (heap (put z s p) = <[z := s]> (heap p)) as E by (unfold put, sess_unlink; by destruct (Relay.closing _)).
  unfold live_at. rewrite E. destruct (decide (y = z)) as [->|Hn].
  - rewrite lookup_insert_eq. naive_solver.
  - rewrite lookup_insert_ne by done. naive_solver.
Qed.

(** A session that ran is put back. *)
Lemma put_sess_ok p z s0 s : peer_inv p -> heap p !! z = Some s0 -> (Relay.closing (relay s) = false -> Relay.closing (relay s0) = false) ->
  sess_ok z s -> holds s0 s -> peer_inv (put z s p).
Proof.
  intros [P1 PL P2 P3 P4 [P5 P5']] E0 Hop Hs Hh. pose proof Hs as ([C1 [C2 C3] [C4 C5]] & _).
  assert (heap (put z s p) = <[z := s]> (heap p) /\ next (put z s p) = next p /\
          fault (put z s p) = false /\ stuck (put z s p) = false /\ loop (put z s p) = loop p) as (E1 & E2 & E4 & E5 & E7).
  { unfold put, sess_unlink. rewrite C2, C3, C4, C5. by destruct (Relay.closing _). }
  assert (sessions (put z s p) = if Relay.closing (relay s) then filter (fun y => y <> z) (sessions p) else sessions p) as E6.
  { unfold put, sess_unlink. by destruct (Relay.closing _). }
  constructor.
  - intros y t Hy. rewrite E1 in Hy. destruct (decide (y = z)) as [->|Hn].
    + rewrite lookup_insert_eq in Hy. by injection Hy as <-.
    + rewrite lookup_insert_ne in Hy by done. eauto.
  - intros y h. rewrite E1, E7, PL. destruct (decide (y = z)) as [->|Hn]; [|by setoid_rewrite lookup_insert_ne].
    rewrite E0, lookup_insert_eq. specialize (Hh h). naive_solver congruence.
  - intros y. setoid_rewrite live_put. rewrite E6. destruct (Relay.closing (relay s)) eqn:Ec.
    + rewrite list_elem_of_filter, P2. naive_solver.
    + rewrite P2. destruct (decide (y = z)) as [->|Hn]; [|naive_solver]. split; [eauto|]. intros _. exists s0. split; auto.
  - rewrite E6. destruct (Relay.closing _); [|done]. by apply NoDup_filter.
  - intros y. rewrite E1, E2. destruct (decide (y = z)) as [->|Hn]; [|rewrite lookup_insert_ne by done; auto]. intros _. apply P4. eauto.
  - by rewrite E4, E5.
Qed.

(** A session does not reopen. *)
Lemma on_sess_ok z f s p : peer_inv p -> heap p !! z = Some s -> fair z (f s) -> holds s (f s) ->
  (Relay.closing (relay (f s)) = false -> Relay.closing (relay s) = false) ->
  failed (on_sess z f p) = false -> peer_inv (on_sess z f p).
Proof.
  intros Hi Ez Hf Hh Hop Hfl. unfold on_sess in *. rewrite Ez in *. destruct Hf as [Hu|Hs].
  - unfold put, sess_unlink in Hfl. rewrite Hu in Hfl. destruct (Relay.closing _); done.
  - by apply (put_sess_ok p z s).
Qed.

Lemma live_sess_ok z f s p : peer_inv p -> live_at p z s -> fair z (f s) -> holds s (f s) ->
  failed (on_sess z f p) = false -> peer_inv (on_sess z f p).
Proof. intros Hi [Ez Hn] Hf Hh. by apply on_sess_ok with s. Qed.

Lemma down_put z s p : down_ok p -> down_ok (put z s p).
Proof.
  intros Hd. unfold down_ok, put, sess_unlink. destruct (Relay.closing _); [|done]. cbn. intros E. by rewrite (Hd E).
Qed.
Lemma down_sess z f p : down_ok p -> down_ok (on_sess z f p).
Proof. intros Hd. unfold on_sess. destruct (heap p !! z); [by apply down_put|done]. Qed.

(** A new session. *)
Lemma accept_ok p s : peer_inv p -> sess_ok (next p) s -> (forall h, held (handle h s) = true) ->
  let q := put (next p) s (p <| next ::= Z.succ |> <| loop ::= fun l => (next p, LOCAL) :: (next p, TIMER) :: l |>
                             <| loop ::= cons (next p, BROKER) |>) in
  peer_inv (if Relay.closing (relay s) then q else q <| sessions ::= cons (next p) |>).
Proof.
  intros [P1 PL P2 P3 P4 [P5 P5']] Hs Hh. cbv zeta. pose proof Hs as ([C1 [C2 C3] [C4 C5]] & _). set (z := next p) in *.
  assert (heap p !! z = None) as Ez.
  { destruct (heap p !! z) as [t|] eqn:E; [|done]. assert (z < z) by (apply P4; eauto). lia. }
  assert (z ∉ sessions p) as Hz by (rewrite P2; intros (t & Ht & _); congruence).
  assert (filter (fun y => y <> z) (sessions p) = sessions p) as Ef.
  { clear -Hz. induction (sessions p) as [|x l IH]; [done|]. apply not_elem_of_cons in Hz as [? ?].
    rewrite filter_cons_True by done. by rewrite IH. }
  set (q := put z s _). set (q' := if Relay.closing (relay s) then q else _).
  assert (heap q' = <[z := s]> (heap p) /\ next q' = z + 1 /\ fault q' = false /\ stuck q' = false /\
          loop q' = (z, BROKER) :: (z, LOCAL) :: (z, TIMER) :: loop p /\
          sessions q' = if Relay.closing (relay s) then sessions p else z :: sessions p) as (E1 & E2 & E4 & E5 & E7 & E6).
  { unfold q', q, put, sess_unlink. rewrite C2, C3, C4, C5. destruct (Relay.closing _); cbn; rewrite ?Ef; done. }
  clearbody q' q. constructor.
  - intros y t Hy. rewrite E1 in Hy. destruct (decide (y = z)) as [->|Hn].
    + rewrite lookup_insert_eq in Hy. by injection Hy as <-.
    + rewrite lookup_insert_ne in Hy by done. eauto.
  - intros y h. rewrite E1, E7, !elem_of_cons, PL. destruct (decide (y = z)) as [->|Hn].
    + rewrite lookup_insert_eq. split; [eauto|]. intros _. destruct h; auto.
    + rewrite lookup_insert_ne by done. naive_solver.
  - intros y. unfold live_at. rewrite E1, E6. destruct (decide (y = z)) as [->|Hn].
    + rewrite lookup_insert_eq. destruct (Relay.closing (relay s)) eqn:Ec; [naive_solver congruence|]. split; [eauto|]. intros _. by left.
    + rewrite lookup_insert_ne by done. destruct (Relay.closing (relay s)); [apply P2|]. rewrite elem_of_cons, P2. unfold live_at. naive_solver.
  - rewrite E6. destruct (Relay.closing _); [done|]. by constructor.
  - intros y. rewrite E1, E2. destruct (decide (y = z)) as [->|Hn]; [lia|]. rewrite lookup_insert_ne by done.
    intros Hy. specialize (P4 y Hy). lia.
  - by rewrite E4, E5.
Qed.

Lemma closing_close s : Relay.closing (relay (tm_psess_close s)) = true.
Proof.
  unfold tm_psess_close, with_relay, psess_closed. set (b := _ && _). assert (Relay.closing (tm_stream_close (relay s)) = true) as E by apply close_closing.
  destruct b; exact E.
Qed.

Lemma local_accept_ok status r p : peer_inv p -> down_ok p -> r <> NO_ADDR ->
  peer_inv (on_local_accept status true r p) /\ down_ok (on_local_accept status true r p).
Proof.
  intros Hi Hd Hr. unfold on_local_accept. destruct (_ || _) eqn:E; [done|]. zb. destruct E as [_ Hs]. cbn [negb].
  destruct r; [done| |].
  - pose proof (accept_ok p _ Hi (waiting_close (next p) true)) as H1. specialize (H1 ltac:(by intros [])). cbv zeta in H1. rewrite closing_close in H1.
    split; [exact H1|]. apply down_put. exact Hd.
  - assert (sess_ok (next p) (psess_new (next p) S_LIVE)) as Hok by (split; [by constructor|by left]).
    split; [exact (accept_ok p _ Hi Hok ltac:(by intros []))|]. unfold down_ok. intros E. exfalso.
    assert (shutting_down p = true) by exact E. congruence.
Qed.

(** The close callback of a handle. *)
Lemma sock_closed_ok h z s p : peer_inv p -> heap p !! z = Some s -> handle h s = S_CLOSING ->
  peer_inv (sess_sock_closed h z p).
Proof.
  intros [P1 PL P2 P3 P4 P5] Ez Eh. unfold sess_sock_closed. cbv zeta. set (p' := p <| loop ::= _ |>). change (heap p') with (heap p). rewrite Ez.
  destruct (P1 z s Ez) as ([C1 C2 C3] & [->|[Ho|[Q1 Q2 [Q3 Q4] Q5]]]); [by destruct h|pose proof (op_handles z s Ho h); congruence|].
  assert (forall q, sessions q = sessions p -> (forall y t, y <> z -> heap q !! y = Some t <-> heap p !! y = Some t) ->
            (forall t, heap q !! z = Some t -> sess_ok z t /\ Relay.closing (relay t) = true) ->
            (forall k, k <> h -> held (handle k s) = true <-> exists t, heap q !! z = Some t /\ held (handle k t) = true) ->
            (forall t, heap q !! z = Some t -> held (handle h t) = false) -> loop q = loop p' ->
            next q = next p -> fault q = fault p /\ stuck q = stuck p -> peer_inv q) as Hq.
  { intros q H1 H2 H3 H6 H7 H8 H4 [H5 H5']. constructor; rewrite ?H1, ?H5, ?H5'; auto.
    2: { intros y k. rewrite H8. unfold p'. cbn. rewrite list_elem_of_filter, PL. destruct (decide (y = z)) as [->|Hn].
         - destruct (decide (k = h)) as [->|Hk].
           + split; [naive_solver|]. intros (t & Ht & Hx). rewrite (H7 t Ht) in Hx. done.
           + rewrite Ez, <- (H6 k Hk). naive_solver.
         - setoid_rewrite (fun t => H2 y t Hn). naive_solver. }
    - intros y t Hy. destruct (decide (y = z)) as [->|Hn]; [by apply H3|]. apply P1. by apply H2.
    - intros y. rewrite P2. unfold live_at. destruct (decide (y = z)) as [->|Hn].
      + split; intros (t & Ht & Hc); exfalso; [congruence|]. destruct (H3 t Ht). congruence.
      + split; intros (t & Ht & Hc); exists t; (split; [by apply H2|done]).
    - intros y [t Hy]. rewrite H4. apply P4. destruct (decide (y = z)) as [->|Hn]; [eauto|]. exists t. by apply H2. }
  set (s' := set_closed h s <| closing_refs ::= fun n => n - 1 |>).
  assert (closing_refs s' = closing_refs s - 1 /\ to_come s' = to_come s - 1 /\ handle h s' = S_CLOSED) as (F1 & F2 & F3).
  { unfold to_come, s'. destruct h; cbn in *; rewrite Eh; split_and!; try done; cbn; lia. }
  assert (forall k, k <> h -> handle k s' = handle k s) as F4 by (by intros [] ?; destruct h).
  assert (clean s' /\ Relay.closing (relay s') = true /\ fr s' = None) as (F5 & F6 & F7) by (by destruct h; split_and!; try constructor).
  clearbody s'. destruct (_ =? 0) eqn:E0; zb; apply Hq; auto; cbn.
  - intros y t Hn. by rewrite lookup_delete_ne.
  - intros t. by rewrite lookup_delete_eq.
  - intros k Hk. rewrite lookup_delete_eq. split; [|naive_solver]. intros Hx. exfalso.
    assert (to_come s = 1) as Ht by lia. destruct (Q5 k) as [E|E]; [|by rewrite E in Hx]. unfold to_come in Ht.
    assert (forall x, 0 <= pending x) as Hp by (by intros []). pose proof (Hp (local_sock s)). pose proof (Hp (broker_sock s)).
    pose proof (Hp (hs_timer s)). destruct h, k; cbn in Eh, E; try done; rewrite ?Eh, ?E in Ht; cbn in Ht; lia.
  - intros t. by rewrite lookup_delete_eq.
  - intros y t Hn. by rewrite lookup_insert_ne.
  - intros t. rewrite lookup_insert_eq. intros [= <-]. split; [|done]. split; [done|]. right. right. constructor; auto; [lia|].
    intros k. destruct (decide (k = h)) as [->|Hk]; [auto|]. rewrite F4 by done. apply Q5.
  - intros k Hk. rewrite lookup_insert_eq. rewrite <- (F4 k Hk). naive_solver.
  - intros t. rewrite lookup_insert_eq. intros [= <-]. by rewrite F3.
Qed.

(** The shutdown closes one session after the other. *)
Lemma close_live z s p : peer_inv p -> live_at p z s -> peer_inv (on_sess z tm_psess_close p).
Proof.
  intros Hi [Ez Hn]. unfold on_sess. rewrite Ez. apply (put_sess_ok p z s); auto; [|apply holds_relay].
  destruct (pi_sess p Hi z s Ez) as (Hc & [->|[Ho|Hcl]]).
  - exact (waiting_close z true).
  - by apply close_out.
  - rewrite (cl_closing s Hcl) in Hn. done.
Qed.

Lemma close_sessions_ok fuel : forall p, peer_inv p -> (length (sessions p) <= fuel)%nat ->
  peer_inv (close_sessions fuel p) /\ sessions (close_sessions fuel p) = [].
Proof.
  assert (forall p z l, peer_inv p -> sessions p = z :: l ->
    peer_inv (on_sess z tm_psess_close p) /\ (length (sessions (on_sess z tm_psess_close p)) <= length l)%nat) as Hstep.
  { intros p z l Hi E. destruct (proj1 (pi_linked p Hi z)) as (s & Hl); [rewrite E; by left|].
    split; [by apply (close_live z s)|]. unfold on_sess. destruct Hl as [-> _]. unfold put, sess_unlink. rewrite closing_close. cbn.
    rewrite E, filter_cons_False by (intros Hz; by apply Hz). apply length_filter. }
  induction fuel as [|fuel IH]; intros p Hi Hf; cbn [close_sessions]; destruct (sessions p) as [|z l] eqn:E; try done; cbn in Hf; [lia|].
  destruct (Hstep p z l Hi E) as [H1 H2]. apply IH; [done|lia].
Qed.

Lemma shutdown_ok p : peer_inv p -> down_ok p -> peer_inv (tm_peer_shutdown p) /\ down_ok (tm_peer_shutdown p).
Proof.
  intros Hi Hd. unfold tm_peer_shutdown. destruct (shutting_down p); [done|]. cbv zeta. set (q := if listening _ then _ else _).
  assert (peer_inv q) as Hq by (unfold q; destruct Hi; destruct (listening _); by constructor). clearbody q.
  destruct (close_sessions_ok (length (sessions q)) q Hq) as [H1 H2]; [lia|]. split; [done|]. by intros _.
Qed.

Lemma down_closed h z p : down_ok p -> down_ok (sess_sock_closed h z p).
Proof.
  unfold sess_sock_closed. intros Hd. cbv zeta. set (q := p <| loop ::= _ |>). assert (down_ok q) as Hq by exact Hd. clearbody q.
  destruct (heap q !! z); [|done]. by destruct (_ =? 0).
Qed.

(** The session of a handle that the loop holds. *)
Lemma calls_sess p z h ready : peer_inv p -> calls p z h ready -> exists s, heap p !! z = Some s /\ ready s /\ sess_ok z s.
Proof.
  intros Hi [Hin Hr]. destruct (proj1 (pi_loop p Hi z h) Hin) as (s & Ez & _). exists s.
  split_and!; auto. by apply (pi_sess p Hi).
Qed.

(** Every event keeps the invariant unless a write of a handshake failed. *)
Lemma peer_step_ok p p' : peer_step true p p' -> peer_inv p -> down_ok p -> failed p' = false -> peer_inv p' /\ down_ok p'.
Proof.
  intros Hst Hi Hd.
  assert (forall z h ready f, calls p z h ready ->
    (forall s, sess_ok z s -> ready s -> Relay.closing (relay s) = false /\ fair z (f s) /\ holds s (f s)) ->
    failed (on_sess z f p) = false -> peer_inv (on_sess z f p) /\ down_ok (on_sess z f p)) as Hev.
  { intros z h ready f Hc Hf Hfl. split; [|by apply down_sess]. destruct (calls_sess p z h ready Hi Hc) as (s & Ez & Hr & Hs).
    destruct (Hf s Hs Hr) as (Hn & Hfair & Hh). by apply (live_sess_ok z f s). }
  destruct Hst as [status accepted r p E1 E2|z r p E1 E2|z p E1|z raw data p E1 E2 E3|z p E1|z x p E1|z p E1|z data p E1|z p E1|z x p E1
    |z x i i' p E1 E2|h z p E1|p]; intros Hf.
  - destruct (E2 eq_refl) as [-> Hr]. by apply local_accept_ok.
  - split; [|by apply down_sess]. destruct (calls_sess p z _ _ Hi E1) as (s & Ez & Hc & Hs).
    apply (on_sess_ok z _ s); auto; [by apply connected_out|apply holds_connected|].
    unfold broker_connected. cbv zeta. change (relay (s <| connecting := false |>)) with (relay s).
    destruct (Relay.closing (relay s)) eqn:Ec; [intros E; change (Relay.closing (relay s) = false) in E; congruence|done].
  - apply (Hev _ _ _ _ E1); auto. intros s Hs [[Hn Hl] He]. split_and!; [done|by apply ready_out|apply holds_send].
  - apply (Hev _ _ _ _ E1); auto. intros s Hs ([Hn Hl] & Hne & He). split_and!; [done|by apply read_out|apply holds_read].
  - apply (Hev _ _ _ _ E1); auto. intros s Hs [Hn Hl]. split_and!; [done|by apply eof_out|].
    unfold sess_eof. destruct (negb _); apply holds_relay.
  - apply (Hev _ _ _ _ E1); auto. intros s Hs [Hn Hl]. split_and!; [done| |apply holds_relay].
    right. destruct (live_open z s x Hs Hn Hl). by apply close_out.
  - apply (Hev _ _ _ _ E1); auto. intros s Hs [Hn Ht]. split_and!; [done|by apply timer_out|apply holds_timeout].
  - apply (Hev _ _ _ _ E1); auto. intros s Hs [[Hn Hl] He]. split_and!; [done|by apply local_out|apply holds_relay].
  - apply (Hev _ _ _ _ E1); auto. intros s Hs [Hn Hl]. split_and!; [done|by apply (local_out z s [])|apply holds_relay].
  - apply (Hev _ _ _ _ E1); auto. intros s Hs [Hn Hl]. split_and!; [done|by apply low_out|apply holds_relay].
  - apply (Hev _ _ _ _ E1); auto. intros s Hs [Hn Hl]. split_and!; [done|by apply (move_out z x i)|apply holds_relay].
  - destruct (calls_sess p z h _ Hi E1) as (s & Ez & Hc & _). split; [by apply (sock_closed_ok h z s)|by apply down_closed].
  - by apply shutdown_ok.
Qed.

Lemma failed_put z s p : failed (put z s p) = false -> failed p = false.
Proof. unfold put, sess_unlink. destruct (Relay.closing _); cbn; by intros [_ ?]%orb_false_iff. Qed.
Lemma failed_sess z f p : failed (on_sess z f p) = false -> failed p = false.
Proof. unfold on_sess. destruct (heap p !! z); [apply failed_put|done]. Qed.

Lemma failed_step p p' : peer_step true p p' -> failed p' = false -> failed p = false.
Proof.
  assert (forall fuel q, failed (close_sessions fuel q) = false -> failed q = false) as Hcl.
  { induction fuel as [|fuel IH]; intros q; cbn [close_sessions]; destruct (sessions q); try done.
    intros Hq. by apply IH, failed_sess in Hq. }
  destruct 1; try apply failed_sess.
  - unfold on_local_accept. destruct (_ || _); [done|]. destruct (negb _); [done|]. cbv zeta.
    destruct r; intros E; exact (failed_put _ _ _ E).
  - unfold sess_sock_closed. cbv zeta. set (q := p <| loop ::= _ |>). assert (failed q = failed p) as <- by done. clearbody q.
    destruct (heap q !! z); [|done]. by destruct (_ =? 0).
  - unfold tm_peer_shutdown. destruct (shutting_down p); [done|]. cbv zeta. intros E. apply Hcl in E. revert E. by destruct (listening _).
Qed.

Lemma peer_run_ok p : peer_run true p -> failed p = false -> peer_inv p /\ down_ok p.
Proof.
  intros (p0 & E & Hr) Hf. injection E as <-.
  assert (peer_inv (peer_new <| listener := S_LIVE |> <| listening := true |>) /\ down_ok (peer_new <| listener := S_LIVE |> <| listening := true |>)) as H0'.
  { split; [|done]. constructor; [| | | | |done].
    - intros z s Hz. cbn in Hz. by rewrite lookup_empty in Hz.
    - intros z h. split; [by intros Hz%elem_of_nil|]. intros (s & Hz & _). cbn in Hz. by rewrite lookup_empty in Hz.
    - intros z. split; [by intros Hz%elem_of_nil|]. intros (s & Hz & _). cbn in Hz. by rewrite lookup_empty in Hz.
    - constructor.
    - intros z [s Hz]. cbn in Hz. by rewrite lookup_empty in Hz. }
  change (rtc (peer_step true) (peer_new <| listener := S_LIVE |> <| listening := true |>) p) in Hr.
  set (q := peer_new <| listener := S_LIVE |> <| listening := true |>) in *. clearbody q.
  induction Hr as [|q q1 q2 Hst Hr IH]; [done|]. apply IH; [done|]. apply (peer_step_ok q); [done|apply H0'..|].
  clear -Hr Hf. induction Hr as [|q q1 q2 Hst _ IH]; [done|]. by apply (failed_step q q1), IH.
Qed.

(** ** Theorems *)

(** C13: The sessions of the peer are managed without error.  Unless accepting a connection
    or the lookup of the broker fails, and as long as no frame of a handshake is refused
    by its leg: whatever callbacks the event loop runs for the handles it holds, none
    finds its session released, no handle is closed before it was initialised or twice,
    no released reader or buffer is used, and every loop ends.  A session is allocated
    exactly as long as the loop holds one of its handles; the list of sessions has each
    open session once and nothing else, and none after the shutdown; the count of a
    closed session is the number of close callbacks to come. *)
Theorem peer_sessions_safe p : peer_run true p -> failed p = false ->
  fault p = false /\ stuck p = false /\ (forall z, is_Some (heap p !! z) <-> exists h, (z, h) ∈ loop p) /\
  NoDup (sessions p) /\ (forall z, z ∈ sessions p <-> exists s, live_at p z s) /\
  (shutting_down p = true -> sessions p = []) /\
  (forall z s, heap p !! z = Some s -> Relay.closing (relay s) = true -> closing_refs s = to_come s /\ 1 <= to_come s <= 3).
Proof.
  intros Hr Hf. destruct (peer_run_ok p Hr Hf) as [[P1 PL P2 P3 P4 [P5 P5']] Hd].
  assert (forall z s, heap p !! z = Some s -> Relay.closing (relay s) = true -> closed_ok s) as Hcl.
  { intros z s Ez Hc. destruct (P1 z s Ez) as (_ & [->|[Ho|Hcl]]); [done|rewrite (op_open z s Ho) in Hc; done|done]. }
  assert (forall x, 0 <= pending x <= 1) as Hp by (by intros []; cbn).
  split_and!; auto.
  - intros z. setoid_rewrite PL. split; [|naive_solver]. intros [s Ez]. setoid_rewrite Ez. destruct (P1 z s Ez) as (_ & [Hw|[Ho|Hc]]).
    + exists LOCAL, s. by rewrite Hw.
    + exists LOCAL, s. by rewrite (op_handles z s Ho).
    + destruct (cl_refs s Hc) as [Q1 Q2]. unfold to_come, pending in Q1.
      destruct (local_sock s) eqn:E1, (broker_sock s) eqn:E2, (hs_timer s) eqn:E3; try lia;
        first [exists LOCAL, s; cbn; by rewrite E1|exists BROKER, s; cbn; by rewrite E2|exists TIMER, s; cbn; by rewrite E3].
  - intros z s Ez Hc. destruct (cl_refs s (Hcl z s Ez Hc)) as [Q1 Q2]. rewrite Q1 in Q2. split; [done|].
    pose proof (Hp (local_sock s)). pose proof (Hp (broker_sock s)). pose proof (Hp (hs_timer s)). unfold to_come in *. lia.
Qed.

(** C14: A session speaks the protocol and then relays.  Unless accepting a connection or
    the lookup of the broker fails, and as long as no frame of a handshake is refused by
    its leg: what an open session, of whose bytes for the broker none was lost, wrote to
    the broker is nothing before it has read anything, otherwise HELLO, then, exactly if
    it has read HELLO_ACK, one AUTH with the name and the token of the tunnel and a
    DATA_BIND for each AUTH_OK read after the first HELLO_ACK, followed by exactly the
    bytes of the local connection in order, of which none is read before the bind.  The
    stream is bound only once the last of these frames, after HELLO_ACK, was
    DATA_BIND_OK of stream 0; from then on the local connection gets, if its leg lost
    nothing, exactly the bytes of the broker's connection that follow that frame; until
    then it has no leg and those bytes wait in the reader. *)
Theorem peer_session_order p z s i : peer_run true p -> failed p = false -> live_at p z s ->
  leg (to_a (relay s)) = Some i -> lost (to_a (relay s)) = false ->
  said_ok (heard s) (said s) /\
  io_log i ++ pend (to_a (relay s)) = sent_bytes (said s) ++ src_in (to_a (relay s)) /\
  (Relay.bound (relay s) = false -> src_in (to_a (relay s)) = [] /\ io_log i = sent_bytes (said s) /\ leg (to_b (relay s)) = None /\
     exists rd, fr s = Some rd /\ taken s = sent_bytes (heard s) ++ fr_buf rd) /\
  (Relay.bound (relay s) = true -> bind_read (heard s) /\
     forall j, leg (to_b (relay s)) = Some j -> lost (to_b (relay s)) = false ->
       taken s = sent_bytes (heard s) ++ io_log j ++ pend (to_b (relay s))).
Proof.
  intros Hr Hf [Ez Hn] El Hlo. destruct (peer_run_ok p Hr Hf) as [Hi _].
  destruct (live_open z s A (pi_sess p Hi z s Ez) Hn ltac:(cbn; by rewrite El)) as [_ Ho].
  destruct (open_live z _ s Ho) as (Hl & _). destruct (open_settled z _ s Ho) as [[[_ Hfl _] _ _] _]. destruct (op_base z s Ho) as [B1 B2].
  pose proof (di_fifo _ _ (li_dir _ Hl A) (Hfl A) i El Hlo) as Fa. cbn [get] in Fa. rewrite B1 in Fa. split_and!; auto.
  - by destruct (op_said z s Ho).
  - intros Hb. destruct (li_pre _ Hl Hb) as (L1 & _ & _ & _ & _ & L6 & L7 & _). destruct (op_fr z s Ho) as (rd & Efr & _ & Hbe).
    split_and!; [done|by rewrite L6, L7, !app_nil_r in Fa|done|]. exists rd. split; [done|by apply Hbe].
  - intros Hb. destruct (op_bound z s Ho Hb) as [Hbr Hbe]. split; [done|]. intros j Ej Hlj.
    pose proof (di_fifo _ _ (li_dir _ Hl B) (Hfl B) j Ej Hlj) as Fb. cbn [get] in Fb. by rewrite Fb, B2.
Qed.

End Sure.

(** ** Failures *)

(** Three failures the peer does not survive.  A connection that cannot be accepted
    releases its session while its handles are in the loop; a broker whose address
    cannot be looked up makes the close of the session close a socket that was never
    initialised; and when the leg refuses the AUTH frame, the session is closed and the
    loop that reads the frames of the broker goes on with the released reader. *)
Theorem peer_setup_failures p z s i i' raw cap f buf bs :
  shutting_down p = false -> heap p !! z = Some s -> Relay.closing (relay s) = false -> Relay.bound (relay s) = false ->
  got_hello s = false -> fr s = Some (Reader [] cap) -> closing_refs s = 0 -> leg (to_a (relay s)) = Some i ->
  auth = Some f -> tm_frame_encode f = Some buf -> io_write i buf = (TM_ERR, [], i') ->
  tm_frame_encode (Frame TM_PROTO_VERSION TM_MSG_HELLO_ACK 0 0 []) = Some bs ->
  (forall r, fault (on_local_accept 0 false r p) = true) /\
  fault (on_local_accept 0 true NO_ADDR p) = true /\
  fault (on_sess z (broker_leg_read raw bs) p) = true.
Proof.
  intros Hd Ez Hc Hb Hg Hfr Hrf El Ea Eb Ew Ebs. unfold on_local_accept. rewrite Hd. cbn [Z.eqb negb orb]. split_and!; [done| |].
  { unfold put, sess_unlink. rewrite closing_close. reflexivity. }
  unfold on_sess. rewrite Ez. assert (bad (broker_leg_read raw bs s) = true) as Hbad.
  2: { set (t := broker_leg_read raw bs s) in *. clearbody t. unfold put, sess_unlink. rewrite Hbad.
       destruct (Relay.closing (relay t)); reflexivity. }
  destruct (frame_roundtrip (Frame TM_PROTO_VERSION TM_MSG_HELLO_ACK 0 0 []) bs [] cap) as (rd & Ef & _); auto.
  { repeat split; vm_compute; congruence. }
  { injection Ebs as <-. vm_compute. discriminate. }
  assert (length bs = 10%nat) as Hlen by (by injection Ebs as <-). rewrite app_nil_r in Ef.
  unfold broker_leg_read, sess_pre_read, buffered. rewrite Hb, Hfr, Hlen. cbn [length fr_buf Nat.add pre_loop]. rewrite Hfr, Ef. cbv zeta.
  unfold pre_frame. cbn [f_type]. rewrite Z.eqb_refl. change (got_hello (s <| fr := Some rd |> <| taken ::= _ |> <| heard ::= _ |>)) with (got_hello s).
  rewrite Hg, Ea. unfold sess_send_frame. set (s1 := s <| fr := Some rd |> <| taken ::= _ |> <| heard ::= _ |> <| got_hello := true |>). change (relay s1) with (relay s).
  rewrite Hc, El. cbn [orb]. rewrite bool_decide_true by done. cbn [negb]. rewrite Eb. unfold ep_send. rewrite El, Ew. cbn [run_up fold_left].
  assert (fr (tm_psess_close (psess_closed (s1 <| relay := mod_ A (fun d => d <| leg := Some i' |> <| base := io_log i' |>) (relay s) |>)
    <| unsaid := true |>)) = None) as ->; [|done].
  rewrite closed_not by exact Hc. unfold tm_psess_close, with_relay, psess_closed.
  set (b := Relay.closing _). assert (b = true) as -> by apply close_closing. cbn. by rewrite Hrf.
Qed.

End Peer.
End PeerTcp.

(** ** A concrete session *)

Module PeerSample.
Import PeerTcp EndpointSample.
#[local] Existing Instance sure_leg | 0.

Definition peer_cfg : PeerCfg.tm_peer_cfg :=
  PeerCfg.main_defaults <| PeerCfg.broker_host := cstr "broker.example" |> <| PeerCfg.broker_port := 7000 |>
    <| PeerCfg.tunnel_id := cstr "tun" |> <| PeerCfg.token := [7; 7] |> <| PeerCfg.listen_host := cstr "127.0.0.1" |>
    <| PeerCfg.listen_port := 9000 |>.

(** The same settings from a command line. *)
Lemma peer_cfg_ok_witness : PeerCfg.peer_ok peer_cfg.
Proof.
  apply (PeerCfg.peer_cfg_ok (cstr "tunnel://broker.example/tun")
    [PeerCfg.OPT_TOKEN [7; 7]; PeerCfg.OPT_LISTEN (cstr "127.0.0.1:9000")]).
  vm_compute. reflexivity.
Defined.

Abbreviation peer := (@tm_peer Tcp.tm_io_tcp).
Abbreviation step := (peer_step peer_cfg true).

Definition bytes_of (f : option tm_frame) : bytes := default [] (f ≫= tm_frame_encode).
Definition hello_ack : bytes := bytes_of (tm_frame_make TM_MSG_HELLO_ACK 0 [] 0).
Definition auth_ok : bytes := bytes_of (tm_frame_make TM_MSG_AUTH_OK 0 [] 0).
Definition bind_ok : bytes := bytes_of (tm_frame_make TM_MSG_DATA_BIND_OK 0 [] 0) ++ [1; 2; 3].
Definition raw : Tcp.tm_io_tcp := Tcp.tm_io_tcp_new [].

(** A local connection is accepted, the peer authenticates, and the stream is bound with
    three bytes behind DATA_BIND_OK; then the local application sends two. *)
Definition p0 : peer := peer_new <| listener := S_LIVE |> <| listening := true |>.
Definition p1 : peer := on_local_accept 0 true UNDER_WAY p0.
Definition p2 : peer := on_sess 1 (broker_connected (CTL_CONNECTED (Tcp.tm_io_tcp_new []) false)) p1.
Definition p3 : peer := on_sess 1 sess_ready p2.
Definition p4 : peer := on_sess 1 (broker_leg_read peer_cfg raw hello_ack) p3.
Definition p5 : peer := on_sess 1 (broker_leg_read peer_cfg raw (auth_ok ++ bind_ok)) p4.
Definition p6 : peer := on_sess 1 (with_relay (peer_local_read (ep_upcall ep_depth) [9; 8])) p5.

Definition sess (p : peer) : tm_psess := default (psess_new 1 S_LIVE) (heap p !! 1).

Definition some {A} (o : option A) : bool := if o then true else false.
Lemma some_leg {A} (o : option A) : some o = true -> o <> None.
Proof. by destruct o. Qed.
Lemma not_nil {A} (l : list A) : negb (length l =? 0)%nat = true -> l <> [].
Proof. by destruct l. Qed.

(** The loop holds the handles of session 1, whose state is [sess p]. *)
Lemma runs (p : peer) h (ready : tm_psess -> Prop) :
  bool_decide ((1, h) ∈ loop p) = true -> ready (sess p) -> calls p 1 h ready.
Proof. intros Hl Hr. split; [by apply bool_decide_eq_true in Hl|]. intros s Es. unfold sess in Hr. by rewrite Es in Hr. Qed.

Ltac there := split; [vm_compute; reflexivity|apply some_leg; vm_compute; reflexivity].

Lemma run6 : rtc step p0 p6.
Proof.
  eapply rtc_l with p1; [unfold p1; apply PsAccept; [done|by split]|].
  eapply rtc_l with p2; [unfold p2; apply PsConnected; [apply runs; vm_compute; reflexivity|by eexists]|].
  eapply rtc_l with p3; [unfold p3; apply PsReady, runs; [vm_compute; reflexivity|split; [there|vm_compute; reflexivity]]|].
  eapply rtc_l with p4; [unfold p4; apply PsBrokerRead;
    [apply runs; [vm_compute; reflexivity|split_and!; [there|apply not_nil; vm_compute; reflexivity|vm_compute; reflexivity]]
    |by eexists|apply AgentSample.chunk_ok; vm_compute; reflexivity]|].
  eapply rtc_l with p5; [unfold p5; apply PsBrokerRead;
    [apply runs; [vm_compute; reflexivity|split_and!; [there|apply not_nil; vm_compute; reflexivity|vm_compute; reflexivity]]
    |by eexists|apply AgentSample.chunk_ok; vm_compute; reflexivity]|].
  eapply rtc_l with p6; [|apply rtc_refl]. unfold p6. apply PsLocalRead, runs; [vm_compute; reflexivity|].
  split; [there|vm_compute; reflexivity].
Qed.

Lemma run_p6 : peer_run peer_cfg true p6.
Proof. exists p0. split; [done|exact run6]. Qed.

Definition broker6 : Tcp.tm_io_tcp := default raw (leg (to_a (relay (sess p6)))).
Definition local6 : Tcp.tm_io_tcp := default raw (leg (to_b (relay (sess p6)))).

Lemma peer_session_order_witness :
  map f_type (said (sess p6)) = [TM_MSG_HELLO; TM_MSG_AUTH; TM_MSG_DATA_BIND] /\
  io_log broker6 ++ pend (to_a (relay (sess p6))) = sent_bytes (said (sess p6)) ++ [9; 8] /\
  taken (sess p6) = sent_bytes (heard (sess p6)) ++ io_log local6 ++ pend (to_b (relay (sess p6))) /\ io_log local6 = [1; 2; 3].
Proof.
  split; [vm_compute; reflexivity|].
  assert (live_at p6 1 (sess p6)) as Hl by (split; vm_compute; reflexivity).
  destruct (peer_session_order peer_cfg peer_cfg_ok_witness p6 1 (sess p6) broker6 run_p6 ltac:(vm_compute; reflexivity) Hl
    ltac:(vm_compute; reflexivity) ltac:(vm_compute; reflexivity)) as (_ & E & _ & F).
  destruct (F ltac:(vm_compute; reflexivity)) as [_ G].
  split; [rewrite E; f_equal|]. split; [apply G; vm_compute; reflexivity|vm_compute; reflexivity].
Defined.

(** The peer is ended; the close callback of the timer comes. *)
Definition p7 : peer := tm_peer_shutdown p6.
Definition p8 : peer := sess_sock_closed TIMER 1 p7.

Lemma peer_sessions_safe_witness : fault p8 = false /\ sessions p8 = [] /\ closing_refs (sess p8) = 2 /\ to_come (sess p8) = 2.
Proof.
  assert (peer_run peer_cfg true p8) as Hr.
  { exists p0. split; [done|]. apply (rtc_r _ p7); [apply (rtc_r _ p6); [exact run6|unfold p7; apply PsShutdown]|].
    unfold p8. apply PsSockClosed, runs; vm_compute; reflexivity. }
  destruct (peer_sessions_safe peer_cfg peer_cfg_ok_witness p8 Hr ltac:(vm_compute; reflexivity)) as (F & _ & _ & _ & _ & D & _).
  split; [exact F|]. split; [apply D; vm_compute; reflexivity|]. split; vm_compute; reflexivity.
Defined.

(** A leg that refuses AUTH: its write side is shut. *)
Definition shut_sess : tm_psess := sess p3 <| relay ::= leg_shutdown (ep_upcall ep_depth) A |>.
Definition p3' : peer := put 1 shut_sess p3.

Lemma peer_setup_failures_witness : fault (on_local_accept 0 true NO_ADDR p3') = true /\
  fault (on_sess 1 (broker_leg_read peer_cfg raw hello_ack) p3') = true.
Proof.
  edestruct (peer_setup_failures peer_cfg p3' 1 shut_sess) as (_ & F1 & F2);
    [vm_compute; reflexivity..|]. split; [exact F1|exact F2].
Defined.

End PeerSample.
