(* ===== verification/Broker.v ===== *)
(** * The broker: tunnels, streams and public connections

    The state of src/broker/src/broker.h as one record: tunnels, agent sessions,
    pending control connections and streams are heap objects that refer to each other
    by address, so that a pointer that outlives its object shows ([fault]).  On it the
    tunnel registry of registry.c, the public accept of tcp.c, and the calls of
    relay.c on a stream of the heap.

    A stream of Relay.v carries the counters of its tunnel and of the broker in its
    field [sh]; [on_stream] loads them from the broker before a call and stores them
    after it.  The results of system calls are arguments. *)

From S2P Require Import Prelude.
From S2P Require Import Wire.
From S2P Require Import Text.
From S2P Require Import Config.
From S2P Require Import Net.
From S2P Require Import Io.
From S2P Require Import Relay.
From S2P Require Import Registry.
From S2P Require Import Udp.
Import Crypto.

#[local] Arguments Z.of_nat : simpl never.

Section Broker.
Context {io : Type} `{TmIo io} `{OpenSSL} `{DTLS}.
Abbreviation stream := (@Relay.tm_stream io).

Record tm_tunnel := Tunnel {
  t_id : bytes;
  t_proto : tm_proto;
  t_closed : bool;
  t_enabled : bool;
  public_port : Z;
  t_agent_hmac : bytes;          (* agent_secret_hmac *)
  t_token_hmac : bytes;          (* shared_token_hmac *)
  created_at_ms : Z;
  last_seen_ms : Z;
  t_agent : option Z;
  agent_online : bool;
  t_udp : udp;                   (* the socket, sessions and flows *)
  t_streams : list Z;
  t_streams_active : Z;
  rx_bytes : Z;
  tx_bytes : Z;
  t_streams_total : Z;
  conns_rejected_offline : Z;
}.
#[global] Instance eta_tunnel : Eta tm_tunnel :=
  settable! Tunnel <t_id; t_proto; t_closed; t_enabled; public_port; t_agent_hmac; t_token_hmac;
    created_at_ms; last_seen_ms; t_agent; agent_online; t_udp; t_streams; t_streams_active; rx_bytes;
    tx_bytes; t_streams_total; conns_rejected_offline>.

(** An agent's control session.  [tm_agent_drop] frees it in the call that sets
    [closing], so no allocated session is closing. *)
Record tm_agent := Agent {
  a_tun : Z;
  a_io : io;
  a_fr : tm_frame_reader;
  a_last_rx_ms : Z;
  a_last_ping_ms : Z;
  a_remote : bytes;
}.
#[global] Instance eta_agent : Eta tm_agent :=
  settable! Agent <a_tun; a_io; a_fr; a_last_rx_ms; a_last_ping_ms; a_remote>.

(** A pending control-port connection.  [hs_closing]: its embedded timer is closing,
    after which the connection is freed. *)
Record tm_conn := Conn {
  c_io : option io;
  c_fr : option tm_frame_reader;
  c_sock : bool;
  c_last_rx_ms : Z;
  c_remote : bytes;
  got_hello : bool;
  peer_authed : bool;
  peer_tun : option Z;
  c_closing : bool;
  hs_closing : bool;
}.
#[global] Instance eta_conn : Eta tm_conn :=
  settable! Conn <c_io; c_fr; c_sock; c_last_rx_ms; c_remote; got_hello; peer_authed; peer_tun;
    c_closing; hs_closing>.

(** [strs] holds each stream with the address of its tunnel.  [fault]: an object was
    used after its release or a handle closed twice; [overflow]: a copy left its
    buffer; [stuck]: the fuel of a loop of the model ran out.  [b_next], [b_ticks] and
    [b_draws]: the next address, how often the clock was read, and how often random
    bytes were drawn or a socket was opened. *)
Record broker := Broker {
  b_cfg : BrokerCfg.tm_broker_cfg;
  b_hmac_key : bytes;
  tuns : gmap Z tm_tunnel;
  tunnels : list Z;
  tunnel_count : Z;
  agents : gmap Z tm_agent;
  conns : gmap Z tm_conn;
  conn_list : list Z;
  strs : gmap Z (Z * stream);
  b_stream_count : Z;
  b_streams_total : Z;
  b_sid_counter : Z;
  b_sid_counter2 : Z;
  b_stream_errors : Z;
  b_rx_bytes_total : Z;
  b_tx_bytes_total : Z;
  b_ports : Ports.ports;
  b_limiter : Rate.limiter;
  b_failed_auths : Z;
  b_protocol_errors : Z;
  agent_reconnects : Z;
  conns_total : Z;
  b_udp_totals : stats;
  b_start_ms : Z;
  b_shutting_down : bool;
  b_next : Z;
  b_ticks : nat;
  b_draws : nat;
  b_fault : bool;
  overflow : bool;
  b_stuck : bool;
}.
#[global] Instance eta_broker : Eta broker :=
  settable! Broker <b_cfg; b_hmac_key; tuns; tunnels; tunnel_count; agents; conns; conn_list; strs;
    b_stream_count; b_streams_total; b_sid_counter; b_sid_counter2; b_stream_errors; b_rx_bytes_total;
    b_tx_bytes_total; b_ports; b_limiter; b_failed_auths; b_protocol_errors; agent_reconnects; conns_total;
    b_udp_totals; b_start_ms; b_shutting_down; b_next; b_ticks; b_draws; b_fault; overflow; b_stuck>.

Variable clock : nat -> Z.

Definition now_ms (b : broker) : Z * broker := (clock (b_ticks b), b <| b_ticks ::= S |>).
Definition alloc (b : broker) : Z * broker := (b_next b, b <| b_next ::= Z.add 1 |>).
Definition faulty (b : broker) : broker := b <| b_fault := true |>.
Definition bincr (p : broker -> Z) {_ : Setter p} (b : broker) : broker := upd p (fun n => u64 (n + 1)) b.

Definition with_tun (ta : Z) (b : broker) (k : tm_tunnel -> broker) : broker :=
  match tuns b !! ta with Some t => k t | None => faulty b end.
Definition put_tun (ta : Z) (t : tm_tunnel) (b : broker) : broker := b <| tuns ::= fun m => <[ta := t]> m |>.
Definition upd_tun (ta : Z) (g : tm_tunnel -> tm_tunnel) (b : broker) : broker :=
  with_tun ta b (fun t => put_tun ta (g t) b).

(** ** Streams of the heap *)

Definition cells_of (t : tm_tunnel) (b : broker) : shared :=
  Shared (rx_bytes t) (tx_bytes t) (b_rx_bytes_total b) (b_tx_bytes_total b) (t_streams_active t)
         (b_stream_count b) (b_stream_errors b).
Definition store_cells (ta : Z) (t : tm_tunnel) (c : shared) (b : broker) : broker :=
  put_tun ta (t <| rx_bytes := tun_rx_bytes c |> <| tx_bytes := tun_tx_bytes c |>
                <| t_streams_active := streams_active c |>) b
    <| b_rx_bytes_total := rx_bytes_total c |> <| b_tx_bytes_total := tx_bytes_total c |>
    <| b_stream_count := stream_count c |> <| b_stream_errors := stream_errors c |>.

Fixpoint unlink (a : Z) (l : list Z) : list Z :=
  match l with [] => [] | x :: l' => if x =? a then l' else x :: unlink a l' end.

(** A call of relay.c on stream [sa]. *)
Definition on_stream (sa : Z) (f : stream -> stream) (b : broker) : broker :=
  match strs b !! sa with
  | None => faulty b
  | Some (ta, s) =>
      with_tun ta b (fun t =>
      let s' := f (s <| sh := cells_of t b |>) in
      let t := if Relay.linked s && negb (Relay.linked s') then t <| t_streams ::= unlink sa |> else t in
      let b := store_cells ta t (Relay.sh s') b <| strs ::= fun m => <[sa := (ta, s')]> m |> in
      if Relay.uaf s' then faulty b else b)
  end.

Definition tm_stream_close_at (sa : Z) (b : broker) : broker := on_stream sa Relay.tm_stream_close b.

(** [tm_stream_find]: the newest stream of the tunnel with that id. *)
Definition stream_find (b : broker) (t : tm_tunnel) (sid : Z) : option Z :=
  List.find (fun sa => match strs b !! sa with Some (_, s) => Relay.id s =? sid | None => false end) (t_streams t).

(** The creators of relay.c, on the tunnel's own counters. *)
Definition stream_create (mk : @stream_tbl io -> option stream * @stream_tbl io) (ta : Z) (b : broker) : option Z * broker :=
  match tuns b !! ta with
  | None => (None, faulty b)
  | Some t =>
      let tbl := Tbl [] (cells_of t b) (t_streams_total t) (b_streams_total b) (b_sid_counter b) (b_sid_counter2 b) in
      match mk tbl with
      | (None, _) => (None, b)
      | (Some s, tbl) =>
          let '(sa, b) := alloc b in
          let t := t <| t_streams ::= cons sa |> <| t_streams_total := streams_total tbl |> in
          (Some sa, store_cells ta t (cells tbl) b
             <| b_streams_total := Relay.b_streams_total tbl |> <| b_sid_counter := sid_counter tbl |>
             <| b_sid_counter2 := sid_counter2 tbl |> <| strs ::= fun m => <[sa := (ta, s)]> m |>)
      end
  end.

Definition create_open (ta now : Z) (b : broker) : option Z * broker :=
  stream_create (tm_stream_create_open (BrokerCfg.max_streams (b_cfg b))
                   (BrokerCfg.max_streams_per_tunnel (b_cfg b)) now) ta b.
Definition create_closed (ta now : Z) (i : io) (b : broker) : option Z * broker :=
  stream_create (tm_stream_create_closed (BrokerCfg.max_streams (b_cfg b))
                   (BrokerCfg.max_streams_per_tunnel (b_cfg b)) now i) ta b.

(** ** Agent sessions *)

Definition tm_agent_drop (a : Z) (b : broker) : broker :=
  match agents b !! a with
  | None => faulty b
  | Some ag =>
      let b := match tuns b !! a_tun ag with
               | None => faulty b
               | Some t => if bool_decide (t_agent t = Some a)
                           then put_tun (a_tun ag) (t <| t_agent := None |> <| agent_online := false |>) b else b
               end in
      b <| agents ::= fun m => delete a m |>
  end.

(** The callbacks that ran inside a write to an agent's connection: a failure drops
    the session. *)
Definition agent_ups (a : Z) (us : list upcall) (b : broker) : broker :=
  fold_left (fun b u => match u with
                        | UpLow => b
                        | UpError => match agents b !! a with Some _ => tm_agent_drop a b | None => b end
                        end) us b.

Definition agent_write (a : Z) (data : bytes) (b : broker) : tm_status * broker :=
  match agents b !! a with
  | None => (TM_ERR, faulty b)
  | Some ag => let '(st, us, i) := io_write (a_io ag) data in
               (st, agent_ups a us (b <| agents ::= fun m => <[a := ag <| a_io := i |>]> m |>))
  end.

Definition tm_agent_send_frame (a : Z) (f : option tm_frame) (b : broker) : broker :=
  match f ≫= tm_frame_encode with
  | None => b
  | Some buf =>
      match agent_write a buf b with
      | (TM_OK, b) => b
      | (_, b) => tm_agent_drop a b
      end
  end.

(** ** The tunnel registry *)

(** The counters of the UDP plane are kept with the tunnel's UDP state; what they grow by
    is added to the broker's totals. *)
Definition charge (u u' : udp) (b : broker) : broker :=
  let more (p : stats -> Z) n := u64 (n + (p (st_stats u') - p (st_stats u))) in
  let more_of (p : stats -> Z) s := more p (p s) in
  b <| b_failed_auths ::= more failed_auths |> <| b_protocol_errors ::= more protocol_errors |>
    <| b_udp_totals ::= fun s => Stats 0 0 (more_of udp_dropped_queue_full s) (more_of udp_dropped_oversize s)
         (more_of udp_dropped_rate_limit s) (more_of udp_dropped_no_flow s) (more_of udp_flow_expired s)
         (more_of udp_transport_errors s) (more_of flows_total s) (more_of datagrams_rx s) (more_of datagrams_tx s)
         (more_of udp_bytes_rx s) (more_of udp_bytes_tx s) |>.
Definition upd_udp (ta : Z) (g : tm_tunnel -> tm_tunnel) (b : broker) : broker :=
  with_tun ta b (fun t => charge (t_udp t) (t_udp (g t)) (put_tun ta (g t) b)).

Definition tm_tunnel_find (b : broker) (id : bytes) : option Z :=
  List.find (fun ta => match tuns b !! ta with Some t => streq (t_id t) id | None => false end) (tunnels b).

Definition needs_public_port (closed : bool) (proto : tm_proto) : bool :=
  negb (closed && bool_decide (proto = TM_PROTO_TCP)).

Definition start_socket (r : Listener.bind_result) (t : tm_tunnel) : tm_tunnel :=
  match t_proto t with
  | TM_PROTO_TCP => t <| t_udp ::= fun u => u <| usock ::= Listener.tm_tunnel_listener_start r |> |>
  | TM_PROTO_UDP => t <| t_udp ::= tm_udp_start r |>
  end.

(** [r] is what resolving, binding and listening give. *)
Definition tm_tunnel_create (id : bytes) (proto : tm_proto) (closed : bool) (agent_hmac : bytes)
    (token_hmac : option bytes) (prefer : Z) (r : Listener.bind_result) (b : broker) : option Z * broker :=
  if b_shutting_down b then (None, b)
  else if BrokerCfg.max_tunnels (b_cfg b) <=? tunnel_count b then (None, b)
  else if bool_decide (is_Some (tm_tunnel_find b id)) then (None, b)
  else if TM_TUNNEL_ID_LEN <? blen id then (None, b)
  else
    let '(port, ps) := if needs_public_port closed proto then Ports.tm_port_alloc (b_ports b) proto prefer
                       else (0, b_ports b) in
    let b := b <| b_ports := ps |> in
    if needs_public_port closed proto && (port =? 0) then (None, b)
    else
      let '(now, b) := now_ms b in
      let '(ta, b) := alloc b in
      let t := Tunnel (str_trunc 25 id) proto closed true port (str_trunc 65 agent_hmac)
                 (match token_hmac with Some h => str_trunc 65 h | None => [] end) now now None false
                 (udp_new (Listener.fresh proto closed)) [] 0 0 0 0 0 in
      (Some ta, put_tun ta (start_socket r t) b <| tunnels ::= cons ta |> <| tunnel_count ::= Z.add 1 |>).

Definition stop_socket (t : tm_tunnel) : tm_tunnel :=
  match t_proto t with
  | TM_PROTO_TCP => t <| t_udp ::= fun u => u <| usock ::= Listener.tm_tunnel_listener_stop |> |>
  | TM_PROTO_UDP => t <| t_udp ::= tm_udp_stop |>
  end.

Definition tm_tunnel_teardown (ta : Z) (b : broker) : broker :=
  let b := upd_udp ta stop_socket b in
  let b := with_tun ta b (fun t => match t_agent t with Some a => tm_agent_drop a b | None => b end) in
  let b := with_tun ta b (fun t => fold_left (fun b sa => tm_stream_close_at sa b) (t_streams t) b) in
  with_tun ta b (fun t => b <| b_ports ::= fun ps => Ports.tm_port_free ps (t_proto t) (public_port t) |>).

(** The tunnel is freed now, or by the close callback of its socket. *)
Definition release_tunnel (ta : Z) (b : broker) : broker :=
  with_tun ta b (fun t => if Listener.close_refs (usock (t_udp t)) =? 0
                          then b <| tuns ::= fun m => delete ta m |> else b).

(** [t->deleting = true]. *)
Definition mark_deleting (t : tm_tunnel) : tm_tunnel :=
  t <| t_udp ::= fun u => u <| usock ::= fun k => k <| Listener.deleting := true |> |> |>.

Definition tm_tunnel_delete (id : bytes) (b : broker) : bool * broker :=
  match tm_tunnel_find b id with
  | None => (false, b)
  | Some ta =>
      let b := upd_tun ta mark_deleting b in
      let b := tm_tunnel_teardown ta b in
      let b := b <| tunnels ::= unlink ta |> <| tunnel_count ::= fun n => n - 1 |> in
      (true, release_tunnel ta b)
  end.

(** The loop runs the close callback of a tunnel's socket. *)
Definition tunnel_sock_closed (ta : Z) (r : Listener.bind_result) (b : broker) : broker :=
  with_tun ta b (fun t =>
  let k := usock (t_udp t) <| Listener.handle := Listener.H_NONE |> in
  let k' := Listener.sock_closed r k in
  let b := put_tun ta (t <| t_udp ::= fun u => u <| usock := k' |> |>) b in
  if Listener.frees k <? Listener.frees k' then b <| tuns ::= fun m => delete ta m |> else b).

(** ** Public connections *)

(** [peer] is the address of the accepted connection ([AF_UNSPEC] when it has none);
    [None] when [uv_accept] fails. *)
Definition on_public_accept (ta : Z) (peer : option sockaddr) (b : broker) : broker :=
  with_tun ta b (fun t =>
  if b_shutting_down b || negb (t_enabled t) then b
  else match peer with
  | None => b
  | Some addr =>
      let '(now, b) := now_ms b in
      let '(clk, b) := now_ms b in
      let '(ok, lim) := Rate.rate_allow now clk (b_limiter b) addr in
      let b := b <| b_limiter := lim |> in
      if negb ok then b
      else if negb (agent_online t) then upd_tun ta (fun t => t <| conns_rejected_offline ::= fun n => u64 (n + 1) |>) b
      else
        let '(now, b) := now_ms b in
        match create_open ta now b with
        | (None, b) => b
        | (Some sa, b) =>
            if bool_decide (t_proto t = TM_PROTO_UDP) then tm_stream_close_at sa b
            else match strs b !! sa, t_agent t with
                 | Some (_, s), Some a => tm_agent_send_frame a (tm_frame_make TM_MSG_OPEN_STREAM (Relay.id s) [] 0) b
                 | _, None => b
                 | None, _ => faulty b
                 end
        end
  end).

(** ** Start *)

(** The zeroed broker of [main] with its settings, its key and its port tables; [None]
    when the port range is empty and the program ends. *)
Definition broker_new (cfg : BrokerCfg.tm_broker_cfg) (key : bytes) : option broker :=
  let lo := BrokerCfg.public_port_start cfg in
  let hi := BrokerCfg.public_port_end cfg in
  if hi <? lo then None
  else
    let free := replicate (Z.to_nat (hi - lo + 1)) false in
    Some (Broker cfg key ∅ [] 0 ∅ ∅ [] ∅ 0 0 1 1 0 0 0 (Ports.Ports lo hi free free 0 0)
            (Rate.Limiter [] (BrokerCfg.connect_rate_per_ip cfg) 0) 0 0 0 0 zero_stats 0 false 1 0 0 false false false).

(** ** The invariant of the registry *)

Definition needs_port (t : tm_tunnel) : bool := needs_public_port (t_closed t) (t_proto t).

(** The listed tunnels, their names and their ports: a slot of a port table is in use
    exactly when one listed tunnel holds its port. *)
Record names_ok (m : gmap Z tm_tunnel) (l : list Z) (n : Z) (ps : Ports.ports) (cf : BrokerCfg.tm_broker_cfg) : Prop := {
  nm_nodup : NoDup l;
  nm_dom ta : ta ∈ l -> is_Some (m !! ta);
  nm_ids ta ta' t t' : ta ∈ l -> ta' ∈ l -> m !! ta = Some t -> m !! ta' = Some t' -> t_id t = t_id t' -> ta = ta';
  nm_count : n = blen l;
  nm_max : n <= Z.max 0 (BrokerCfg.max_tunnels cf);
  nm_ports : Ports.ports_ok ps;
  nm_slot ta t : ta ∈ l -> m !! ta = Some t -> needs_port t = true ->
    Ports.tm_port_in_range ps (public_port t) = true /\
    Ports.slot (Ports.table ps (t_proto t)) (Ports.port_index ps (public_port t)) = true;
  nm_excl ta ta' t t' : ta ∈ l -> ta' ∈ l -> m !! ta = Some t -> m !! ta' = Some t' ->
    needs_port t = true -> needs_port t' = true -> t_proto t = t_proto t' -> public_port t = public_port t' -> ta = ta';
  nm_used p i : Ports.slot (Ports.table ps p) i = true ->
    exists ta t, ta ∈ l /\ m !! ta = Some t /\ needs_port t = true /\ t_proto t = p /\
                 Ports.port_index ps (public_port t) = i;
  nm_none ta t : ta ∈ l -> m !! ta = Some t -> needs_port t = false -> public_port t = 0;
}.

(** A tunnel's current session and the session's tunnel refer to each other, so that
    every session is the current one of its tunnel. *)
Record agents_ok (m : gmap Z tm_tunnel) (g : gmap Z tm_agent) : Prop := {
  ag_live ta t a : m !! ta = Some t -> t_agent t = Some a -> exists ag, g !! a = Some ag /\ a_tun ag = ta;
  ag_owned a ag : g !! a = Some ag -> exists t, m !! a_tun ag = Some t /\ t_agent t = Some a;
  ag_online ta t : m !! ta = Some t -> agent_online t = bool_decide (is_Some (t_agent t));
}.

Definition nlinked (st : gmap Z (Z * stream)) : Z :=
  Z.of_nat (size (filter (fun kv => Relay.linked kv.2.2 = true) st)).

(** A tunnel lists its open streams; the counters count them and stay in the limits. *)
Record streams_ok (m : gmap Z tm_tunnel) (st : gmap Z (Z * stream)) (n : Z) (cf : BrokerCfg.tm_broker_cfg) : Prop := {
  so_list ta t sa : m !! ta = Some t -> sa ∈ t_streams t -> exists s, st !! sa = Some (ta, s) /\ Relay.linked s = true;
  so_linked sa ta s : st !! sa = Some (ta, s) ->
    Relay.linked s = negb (Relay.closing s) /\ (Relay.linked s = true -> exists t, m !! ta = Some t /\ sa ∈ t_streams t);
  so_nodup ta t : m !! ta = Some t -> NoDup (t_streams t);
  so_active ta t : m !! ta = Some t -> t_streams_active t = blen (t_streams t);
  so_count : n = nlinked st;
  so_max : n <= Z.max 0 (BrokerCfg.max_streams cf);
  so_max_tun ta t : m !! ta = Some t -> t_streams_active t <= Z.max 0 (BrokerCfg.max_streams_per_tunnel cf);
}.

(** No object has an address yet to be given out. *)
Record fresh_ok (m : gmap Z tm_tunnel) (g : gmap Z tm_agent) (st : gmap Z (Z * stream)) (nx : Z) : Prop := {
  fr_tun ta t : m !! ta = Some t -> ta < nx;
  fr_agent a ag : g !! a = Some ag -> a < nx;
  fr_str sa s : st !! sa = Some s -> sa < nx;
}.

Record reg (b : broker) : Prop := {
  rg_names : names_ok (tuns b) (tunnels b) (tunnel_count b) (b_ports b) (b_cfg b);
  rg_agents : agents_ok (tuns b) (agents b);
  rg_streams : streams_ok (tuns b) (strs b) (b_stream_count b) (b_cfg b);
  rg_fresh : fresh_ok (tuns b) (agents b) (strs b) (b_next b);
}.

(** The fields the invariant is about. *)
Definition core (b : broker) :=
  (tuns b, tunnels b, tunnel_count b, agents b, strs b, b_stream_count b, b_ports b, b_next b, b_cfg b).

Lemma reg_core b b' : core b' = core b -> reg b -> reg b'.
Proof.
  intros E [N A S F]. injection E as E1 E2 E3 E4 E5 E6 E7 E8 E9.
  constructor; rewrite ?E1, ?E2, ?E3, ?E4, ?E5, ?E6, ?E7, ?E8, ?E9; done.
Qed.

(** *** Changes of one tunnel *)

Definition t_static (t : tm_tunnel) := (t_id t, t_proto t, t_closed t, public_port t).

Lemma names_ext m m' l n ps cf :
  (forall ta, ta ∈ l -> t_static <$> m' !! ta = t_static <$> m !! ta) ->
  names_ok m l n ps cf -> names_ok m' l n ps cf.
Proof.
  intros Hs N.
  assert (forall ta t', ta ∈ l -> m' !! ta = Some t' -> exists t, m !! ta = Some t /\ t_static t' = t_static t) as Hb.
  { intros ta t' Hl E. specialize (Hs ta Hl). rewrite E in Hs. destruct (m !! ta) as [t|]; [|done].
    injection Hs as ? ? ? ?. exists t. split; [done|]. unfold t_static. congruence. }
  constructor; try apply N.
  - intros ta Hl. destruct (nm_dom _ _ _ _ _ N ta Hl) as [t E]. specialize (Hs ta Hl). rewrite E in Hs.
    destruct (m' !! ta); [eauto|done].
  - intros ta ta' t t' L L' E E' Ei. destruct (Hb ta t L E) as (u & Eu & Su), (Hb ta' t' L' E') as (u' & Eu' & Su').
    injection Su as ? ? ? ?. injection Su' as ? ? ? ?. apply (nm_ids _ _ _ _ _ N ta ta' u u'); congruence.
  - intros ta t L E Hn. destruct (Hb ta t L E) as (u & Eu & Su). injection Su as Ei Ep Ec Eo.
    unfold needs_port in *. rewrite Ep, Ec in *. rewrite Eo. by apply (nm_slot _ _ _ _ _ N ta u).
  - intros ta ta' t t' L L' E E' Hn Hn' Epr Epo.
    destruct (Hb ta t L E) as (u & Eu & Su), (Hb ta' t' L' E') as (u' & Eu' & Su').
    injection Su as Ei Ep Ec Eo. injection Su' as Ei' Ep' Ec' Eo'. unfold needs_port in *.
    apply (nm_excl _ _ _ _ _ N ta ta' u u'); unfold needs_port; congruence.
  - intros p i Hp. destruct (nm_used _ _ _ _ _ N p i Hp) as (ta & t & L & E & Hn & Ep & Ei).
    specialize (Hs ta L). rewrite E in Hs. destruct (m' !! ta) as [t'|] eqn:E'; [|done].
    injection Hs as Ei' Ep' Ec' Eo'. exists ta, t'. unfold needs_port in *. rewrite Ec', Ep', Eo'. auto.
  - intros ta t L E Hn. destruct (Hb ta t L E) as (u & Eu & Su). injection Su as Ei Ep Ec Eo.
    unfold needs_port in Hn. rewrite Ep, Ec in Hn. rewrite Eo. by apply (nm_none _ _ _ _ _ N ta u).
Qed.

Lemma put_static (m : gmap Z tm_tunnel) ta t t' : m !! ta = Some t -> t_static t' = t_static t ->
  forall k, t_static <$> <[ta := t']> m !! k = t_static <$> m !! k.
Proof.
  intros E Hs k. destruct (decide (k = ta)) as [->|Hn]; [|by rewrite lookup_insert_ne].
  rewrite lookup_insert_eq, E. cbn. by rewrite Hs.
Qed.

Lemma agents_put m g ta t t' : m !! ta = Some t ->
  t_agent t' = t_agent t -> agent_online t' = agent_online t ->
  agents_ok m g -> agents_ok (<[ta := t']> m) g.
Proof.
  intros E Ha Ho [A B C]. constructor.
  - intros k u a. destruct (decide (k = ta)) as [->|Hn]; rewrite ?lookup_insert_eq, ?lookup_insert_ne by done; [|apply A].
    intros [= <-]. rewrite Ha. by apply A.
  - intros a ag Eg. destruct (B a ag Eg) as (u & Eu & Hu).
    destruct (decide (a_tun ag = ta)) as [Et|Hn]; [|rewrite lookup_insert_ne by done; eauto].
    rewrite Et in *. rewrite lookup_insert_eq. exists t'. split; [done|]. congruence.
  - intros k u. destruct (decide (k = ta)) as [->|Hn]; rewrite ?lookup_insert_eq, ?lookup_insert_ne by done; [|apply C].
    intros [= <-]. rewrite Ha, Ho. by apply (C ta).
Qed.

Lemma streams_put m st n cf ta t t' : m !! ta = Some t ->
  t_streams t' = t_streams t -> t_streams_active t' = t_streams_active t ->
  streams_ok m st n cf -> streams_ok (<[ta := t']> m) st n cf.
Proof.
  intros E Hl Hc S. constructor; try apply S.
  - intros k u sa. destruct (decide (k = ta)) as [->|Hn]; rewrite ?lookup_insert_eq, ?lookup_insert_ne by done; [|apply S].
    intros [= <-]. rewrite Hl. by apply S.
  - intros sa k s Es. destruct (so_linked _ _ _ _ S sa k s Es) as [Hl1 Hl2]. split; [done|].
    intros Hs. destruct (Hl2 Hs) as (u & Eu & Hu).
    destruct (decide (k = ta)) as [->|Hn]; rewrite ?lookup_insert_eq, ?lookup_insert_ne by done; eauto.
    exists t'. split; [done|]. rewrite Hl. congruence.
  - intros k u. destruct (decide (k = ta)) as [->|Hn]; rewrite ?lookup_insert_eq, ?lookup_insert_ne by done; [|apply S].
    intros [= <-]. rewrite Hl. by apply (so_nodup _ _ _ _ S ta).
  - intros k u. destruct (decide (k = ta)) as [->|Hn]; rewrite ?lookup_insert_eq, ?lookup_insert_ne by done; [|apply S].
    intros [= <-]. rewrite Hl, Hc. by apply (so_active _ _ _ _ S ta).
  - intros k u. destruct (decide (k = ta)) as [->|Hn]; rewrite ?lookup_insert_eq, ?lookup_insert_ne by done; [|apply S].
    intros [= <-]. rewrite Hc. by apply (so_max_tun _ _ _ _ S ta).
Qed.

Lemma fresh_put m g st nx ta t t' : m !! ta = Some t -> fresh_ok m g st nx -> fresh_ok (<[ta := t']> m) g st nx.
Proof.
  intros E [A B C]. constructor; try done. intros k u.
  destruct (decide (k = ta)) as [->|Hn]; rewrite ?lookup_insert_eq, ?lookup_insert_ne by done; eauto.
Qed.

(** A change of one tunnel that touches neither its name, its session nor its streams. *)
Definition t_frame (t : tm_tunnel) :=
  (t_static t, t_agent t, agent_online t, t_streams t, t_streams_active t).

Lemma reg_put ta t t' b : tuns b !! ta = Some t -> t_frame t' = t_frame t -> reg b -> reg (put_tun ta t' b).
Proof.
  intros E Ef [N A S F]. unfold t_frame in Ef. injection Ef as Es1 Es2 Es3 Es4 Ea Eo El Ec.
  assert (t_static t' = t_static t) as Es by (unfold t_static; congruence).
  constructor.
  - by apply (names_ext (tuns b)); [intros; apply put_static with t|].
  - by apply agents_put with t.
  - by apply streams_put with t.
  - by apply fresh_put with t.
Qed.

Lemma reg_upd_tun ta g b : (forall t, t_frame (g t) = t_frame t) -> reg b -> reg (upd_tun ta g b).
Proof.
  intros Hg Hr. unfold upd_tun, with_tun. destruct (tuns b !! ta) as [t|] eqn:E; [|by apply (reg_core b)].
  by apply reg_put with t.
Qed.

(** *** Sessions *)

Lemma reg_put_agent a ag ag' b : agents b !! a = Some ag -> a_tun ag' = a_tun ag -> reg b ->
  reg (b <| agents ::= fun m => <[a := ag']> m |>).
Proof.
  intros E Et [N [A B C] S F]. constructor; try done; change (agents (b <| agents ::= _ |>)) with (<[a := ag']> (agents b)).
  - constructor; [|intros k ag0|done].
    + intros ta t k Em Ek. destruct (A ta t k Em Ek) as (ag0 & Eg & Eg').
      destruct (decide (k = a)) as [->|Hn]; rewrite ?lookup_insert_eq, ?lookup_insert_ne by done; eauto.
      exists ag'. split; [done|]. congruence.
    + destruct (decide (k = a)) as [->|Hn]; rewrite ?lookup_insert_eq, ?lookup_insert_ne by done; [|apply B].
      intros [= <-]. rewrite Et. by apply B.
  - destruct F as [Fa Fb Fc]. constructor; [done| |done]. intros k ag0.
    destruct (decide (k = a)) as [->|Hn]; rewrite ?lookup_insert_eq, ?lookup_insert_ne by done; eauto.
Qed.

Lemma reg_agent_drop a b : reg b -> reg (tm_agent_drop a b).
Proof.
  intros Hr. unfold tm_agent_drop. destruct (agents b !! a) as [ag|] eqn:E; [|by apply (reg_core b)].
  destruct Hr as [N [A B C] S F]. destruct (B a ag E) as (t & Et & Ha). rewrite Et, bool_decide_true by done.
  set (t' := t <| t_agent := None |> <| agent_online := false |>).
  set (b' := put_tun (a_tun ag) t' b <| agents ::= fun m => delete a m |>).
  assert (tuns b' = <[a_tun ag := t']> (tuns b) /\ agents b' = delete a (agents b)) as [Em Eg] by done.
  constructor.
  - rewrite Em. by apply (names_ext (tuns b)); [intros; apply put_static with t|].
  - rewrite Em, Eg. constructor.
    + intros k u c. destruct (decide (k = a_tun ag)) as [->|Hn]; rewrite ?lookup_insert_eq, ?lookup_insert_ne by done; [by intros [= <-]|].
      intros Ek Ec. destruct (A k u c Ek Ec) as (ag0 & E0 & E0').
      exists ag0. rewrite lookup_delete_ne; [done|]. intros <-. rewrite E in E0. injection E0 as <-. by rewrite E0' in Hn.
    + intros c ag0. destruct (decide (c = a)) as [->|Hn]; rewrite ?lookup_delete_eq, ?lookup_delete_ne by done; [done|].
      intros Ec. destruct (B c ag0 Ec) as (u & Eu & Hu). exists u. rewrite lookup_insert_ne; [done|].
      intros Heq. rewrite <- Heq in Eu. congruence.
    + intros k u. destruct (decide (k = a_tun ag)) as [->|Hn]; rewrite ?lookup_insert_eq, ?lookup_insert_ne by done; [|apply C].
      by intros [= <-].
  - rewrite Em. by apply streams_put with t.
  - destruct F as [Fa Fb Fc]. rewrite Em, Eg. constructor; [| |done].
    + intros k u. destruct (decide (k = a_tun ag)) as [->|Hn]; rewrite ?lookup_insert_eq, ?lookup_insert_ne by done; eauto.
    + intros c ag0. destruct (decide (c = a)) as [->|Hn]; rewrite ?lookup_delete_eq, ?lookup_delete_ne by done; [done|eauto].
Qed.

Lemma reg_agent_ups a us b : reg b -> reg (agent_ups a us b).
Proof.
  unfold agent_ups. revert b. induction us as [|u us IH]; intros b Hr; cbn [fold_left]; [done|]. apply IH.
  destruct u; [done|]. destruct (agents b !! a); [by apply reg_agent_drop|done].
Qed.

Lemma reg_agent_write a d b : reg b -> reg (snd (agent_write a d b)).
Proof.
  intros Hr. unfold agent_write. destruct (agents b !! a) as [ag|] eqn:E; [|by apply (reg_core b)].
  destruct (io_write (a_io ag) d) as [[st us] i]. apply reg_agent_ups. by apply reg_put_agent with ag.
Qed.

Lemma reg_agent_send_frame a f b : reg b -> reg (tm_agent_send_frame a f b).
Proof.
  intros Hr. unfold tm_agent_send_frame. destruct (f ≫= tm_frame_encode) as [buf|]; [|done].
  pose proof (reg_agent_write a buf b Hr) as Hw. destruct (agent_write a buf b) as [st b'].
  destruct st; cbn [snd] in Hw; [done|..]; by apply reg_agent_drop.
Qed.

(** *** Streams *)

Lemma nlinked_insert sa v st :
  nlinked (<[sa := v]> st) = nlinked st
    - (match st !! sa with Some w => if Relay.linked w.2 then 1 else 0 | None => 0 end)
    + (if Relay.linked v.2 then 1 else 0).
Proof.
  unfold nlinked. rewrite map_filter_insert. set (f := filter _ st).
  assert (f !! sa = match st !! sa with Some w => if Relay.linked w.2 then Some w else None | None => None end) as Hf.
  { unfold f. rewrite map_lookup_filter. destruct (st !! sa) as [w|]; [|done]. cbn.
    destruct (Relay.linked w.2) eqn:El; case_guard; cbn in *; congruence. }
  cbn. destruct (Relay.linked v.2); [rewrite decide_True by done|rewrite decide_False by done].
  - rewrite map_size_insert, Hf. destruct (st !! sa) as [w|]; [destruct (Relay.linked w.2)|]; unfold Datatypes.id in *; lia.
  - rewrite map_filter_delete, map_size_delete. fold f. rewrite Hf.
    assert (f !! sa <> None -> (0 < size f)%nat) as Hp.
    { intros Hne. destruct (size f) eqn:Es; [|lia]. apply map_size_empty_iff in Es. by rewrite Es, lookup_empty in Hne. }
    rewrite Hf in Hp. destruct (st !! sa) as [w|]; [destruct (Relay.linked w.2)|]; unfold Datatypes.id in *; try lia.
    specialize (Hp ltac:(done)). lia.
Qed.

Lemma elem_of_unlink a x l : NoDup l -> x ∈ unlink a l <-> x ∈ l /\ x <> a.
Proof.
  induction l as [|y l IH]; intros Hn; cbn [unlink]; [split; [by intros ?%elem_of_nil|by intros [?%elem_of_nil _]]|].
  apply NoDup_cons in Hn as [Hy Hn]. destruct (y =? a) eqn:E; zb.
  - subst y. rewrite elem_of_cons. split; [intros Hx; split; [by right|by intros ->]|intros [[?|?] ?]; done].
  - rewrite !elem_of_cons, IH by done. naive_solver.
Qed.
Lemma NoDup_unlink a l : NoDup l -> NoDup (unlink a l).
Proof.
  induction l as [|y l IH]; intros Hn; cbn [unlink]; [done|]. apply NoDup_cons in Hn as [Hy Hn].
  destruct (y =? a); [done|]. apply NoDup_cons. split; [by rewrite elem_of_unlink by done; intros [? _]|auto].
Qed.
Lemma blen_unlink a l : a ∈ l -> blen (unlink a l) = blen l - 1.
Proof.
  induction l as [|y l IH]; intros Ha; [by apply elem_of_nil in Ha|]. cbn [unlink].
  destruct (y =? a) eqn:E; zb; [unfold blen; cbn [length]; lia|].
  apply elem_of_cons in Ha as [->|Ha]; [done|]. rewrite !blen_cons, IH by done. lia.
Qed.

Lemma streams_same m st n cf sa ta s s' : st !! sa = Some (ta, s) ->
  Relay.linked s' = Relay.linked s -> Relay.closing s' = Relay.closing s ->
  streams_ok m st n cf -> streams_ok m (<[sa := (ta, s')]> st) n cf.
Proof.
  intros E El Ec S. constructor; try apply S.
  - intros k t x Ek Hx. destruct (so_list _ _ _ _ S k t x Ek Hx) as (u & Eu & Hu).
    upd_case x sa; eauto. exists s'. split; congruence.
  - intros x k u. upd_case x sa; [|apply S]. intros [= <- <-]. rewrite El, Ec. by apply (so_linked _ _ _ _ S).
  - rewrite nlinked_insert, E. cbn. rewrite El, (so_count _ _ _ _ S). destruct (Relay.linked s); lia.
Qed.

Lemma streams_out m st n cf sa ta t t' s s' : m !! ta = Some t -> st !! sa = Some (ta, s) ->
  Relay.linked s = true -> Relay.linked s' = false -> Relay.closing s' = true ->
  t_streams t' = unlink sa (t_streams t) -> t_streams_active t' = t_streams_active t - 1 ->
  streams_ok m st n cf -> streams_ok (<[ta := t']> m) (<[sa := (ta, s')]> st) (n - 1) cf.
Proof.
  intros Et Es El El' Ec' Hl Ha S. pose proof (so_nodup _ _ _ _ S ta t Et) as Hn.
  assert (sa ∈ t_streams t) as Hin.
  { destruct (so_linked _ _ _ _ S sa ta s Es) as [_ Hx]. destruct (Hx El) as (u & Eu & Hu). congruence. }
  pose proof (so_max _ _ _ _ S). constructor; [..|lia|].
  - intros k u x. upd_case k ta.
    + intros [= <-]. rewrite Hl, elem_of_unlink by done. intros [Hx Hne]. rewrite lookup_insert_ne by done. by apply (so_list _ _ _ _ S ta t).
    + intros Ek Hx. destruct (so_list _ _ _ _ S k u x Ek Hx) as (v & Ev & Hv).
      upd_case x sa; eauto. rewrite Es in Ev. congruence.
  - intros x k u. upd_case x sa.
    + intros [= <- <-]. rewrite El', Ec'. done.
    + intros Ex. destruct (so_linked _ _ _ _ S x k u Ex) as [Hc Hx]. split; [done|]. intros Hu.
      destruct (Hx Hu) as (v & Ev & Hv). upd_case k ta; eauto. exists t'. split; [done|]. rewrite Hl, elem_of_unlink by done.
      rewrite Et in Ev. injection Ev as <-. done.
  - intros k u. upd_case k ta; [|apply S]. intros [= <-]. rewrite Hl. by apply NoDup_unlink.
  - intros k u. upd_case k ta; [|apply S]. intros [= <-]. rewrite Hl, Ha, blen_unlink by done.
    by rewrite (so_active _ _ _ _ S ta t).
  - rewrite nlinked_insert, Es. cbn. rewrite El, El', (so_count _ _ _ _ S). lia.
  - intros k u. upd_case k ta; [|apply S]. intros [= <-]. rewrite Ha. pose proof (so_max_tun _ _ _ _ S ta t Et). lia.
Qed.

Lemma fresh_put_str m g st nx sa v v' : st !! sa = Some v -> fresh_ok m g st nx -> fresh_ok m g (<[sa := v']> st) nx.
Proof. intros E [Fa Fb Fc]. constructor; try done. intros x u. upd_case x sa; eauto. Qed.

Lemma reg_on_stream sa f b : (forall r, acct r (f r)) -> reg b -> reg (on_stream sa f b).
Proof.
  intros Hf Hr. unfold on_stream. destruct (strs b !! sa) as [[ta s]|] eqn:Es; [|by apply (reg_core b)].
  unfold with_tun. destruct (tuns b !! ta) as [t|] eqn:Et; [|by apply (reg_core b)].
  cbv zeta. set (s0 := s <| sh := cells_of t b |>). specialize (Hf s0). set (s' := f s0) in *.
  set (t1 := if Relay.linked s && negb (Relay.linked s') then t <| t_streams ::= unlink sa |> else t).
  set (t' := t1 <| rx_bytes := tun_rx_bytes (Relay.sh s') |> <| tx_bytes := tun_tx_bytes (Relay.sh s') |>
                <| t_streams_active := streams_active (Relay.sh s') |>).
  set (b' := store_cells ta t1 (Relay.sh s') b <| strs ::= fun m => <[sa := (ta, s')]> m |>).
  enough (reg b') as Hb by (destruct (Relay.uaf s'); [by apply (reg_core b')|done]).
  destruct Hr as [N A S F].
  assert (t_static t' = t_static t /\ t_agent t' = t_agent t /\ agent_online t' = agent_online t) as (Q1 & Q2 & Q3)
    by (subst t' t1; by destruct (_ && _)).
  constructor.
  - by apply (names_ext (tuns b)); [intros; apply put_static with t|].
  - by apply agents_put with t.
  - change (streams_ok (<[ta := t']> (tuns b)) (<[sa := (ta, s')]> (strs b)) (stream_count (Relay.sh s')) (b_cfg b)).
    assert (Relay.linked s = negb (Relay.closing s)) as Hlc by apply (so_linked _ _ _ _ S sa ta s Es).
    destruct Hf as [_ [Hs|[Hc Hs]]]; injection Hs as Hs1 Hs2 Hs3 Hs4.
    + change (Relay.linked s0) with (Relay.linked s) in Hs2.
      change (stream_count (Relay.sh s0)) with (b_stream_count b) in Hs4. rewrite Hs4.
      change (streams_active (Relay.sh s0)) with (t_streams_active t) in Hs3.
      apply streams_put with t; [done| |exact Hs3|by apply streams_same with s].
      subst t' t1. rewrite Hs2. by destruct (Relay.linked s).
    + change (Relay.closing s0) with (Relay.closing s) in Hc. rewrite Hc in Hlc. cbn in Hlc.
      change (stream_count (Relay.sh s0)) with (b_stream_count b) in Hs4. rewrite Hs4.
      change (streams_active (Relay.sh s0)) with (t_streams_active t) in Hs3.
      apply streams_out with t s; try done; [subst t' t1; by rewrite Hlc, Hs2|].
      change (streams_active (Relay.sh s') = t_streams_active t - 1). rewrite Hs3.
      destruct (so_linked _ _ _ _ S sa ta s Es) as [_ Hx]. destruct (Hx Hlc) as (u & Eu & Hu).
      rewrite Et in Eu. injection Eu as <-. rewrite (so_active _ _ _ _ S ta t Et).
      destruct (t_streams t); [by apply elem_of_nil in Hu|]. rewrite blen_cons. pose proof (blen_nonneg l).
      rewrite (proj2 (Z.ltb_lt 0 (1 + blen l))) by lia. lia.
  - apply fresh_put_str with (ta, s); [done|]. by apply fresh_put with t.
Qed.

(** What the creators of relay.c promise on the counters of a tunnel. *)
Definition creator (maxs maxp : Z) (mk : @stream_tbl io -> option stream * @stream_tbl io) : Prop :=
  forall tbl, match mk tbl with
  | (None, _) => True
  | (Some s, tbl') =>
      Relay.linked s = true /\ Relay.closing s = false /\ Relay.bound s = false /\
      stream_count (cells tbl) < maxs /\ streams_active (cells tbl) < maxp /\
      streams_active (cells tbl') = streams_active (cells tbl) + 1 /\
      stream_count (cells tbl') = stream_count (cells tbl) + 1
  end.

Lemma creator_open maxs maxp now : creator maxs maxp (tm_stream_create_open maxs maxp now).
Proof.
  intros tbl. unfold tm_stream_create_open, create_with.
  destruct (_ <=? stream_count _) eqn:E1; [done|]. destruct (_ <=? streams_active _) eqn:E2; [done|].
  zb. by split_and!.
Qed.
Lemma creator_closed maxs maxp now i : creator maxs maxp (tm_stream_create_closed maxs maxp now i).
Proof.
  intros tbl. unfold tm_stream_create_closed, create_with.
  destruct (_ <=? stream_count _) eqn:E1; [done|]. destruct (_ <=? streams_active _) eqn:E2; [done|].
  zb. by split_and!.
Qed.

Lemma streams_in m st n cf sa ta t t' s : m !! ta = Some t -> st !! sa = None ->
  Relay.linked s = true -> Relay.closing s = false ->
  n < BrokerCfg.max_streams cf -> t_streams_active t < BrokerCfg.max_streams_per_tunnel cf ->
  t_streams t' = sa :: t_streams t -> t_streams_active t' = t_streams_active t + 1 ->
  streams_ok m st n cf -> streams_ok (<[ta := t']> m) (<[sa := (ta, s)]> st) (n + 1) cf.
Proof.
  intros Et Es El Ec Hm Hp Hl Ha S.
  assert (forall k u x, m !! k = Some u -> x ∈ t_streams u -> x <> sa) as Hne.
  { intros k u x Ek Hx ->. destruct (so_list _ _ _ _ S k u sa Ek Hx) as (v & Ev & _). congruence. }
  constructor; [..|lia|].
  - intros k u x. upd_case k ta.
    + intros [= <-]. rewrite Hl, elem_of_cons. intros [->|Hx]; [rewrite lookup_insert_eq; eauto|].
      rewrite lookup_insert_ne by (symmetry; by apply (Hne ta t)). by apply (so_list _ _ _ _ S ta t).
    + intros Ek Hx. rewrite lookup_insert_ne by (symmetry; by apply (Hne k u)). by apply (so_list _ _ _ _ S k u).
  - intros x k u. upd_case x sa.
    + intros [= <- <-]. rewrite El, Ec. split; [done|]. intros _. exists t'. rewrite lookup_insert_eq, Hl.
      split; [done|by left].
    + intros Ex. destruct (so_linked _ _ _ _ S x k u Ex) as [Hc Hx]. split; [done|]. intros Hu.
      destruct (Hx Hu) as (v & Ev & Hv). upd_case k ta; eauto. exists t'. split; [done|].
      rewrite Hl. right. congruence.
  - intros k u. upd_case k ta; [|apply S]. intros [= <-]. rewrite Hl. apply NoDup_cons.
    split; [|by apply (so_nodup _ _ _ _ S ta)]. intros Hx. by destruct (Hne ta t sa Et Hx).
  - intros k u. upd_case k ta; [|apply S]. intros [= <-]. rewrite Hl, Ha, blen_cons, (so_active _ _ _ _ S ta t Et). lia.
  - rewrite nlinked_insert, Es. cbn. rewrite El, (so_count _ _ _ _ S). lia.
  - intros k u. upd_case k ta; [|apply S]. intros [= <-]. rewrite Ha. lia.
Qed.

Lemma fresh_step m g st nx : fresh_ok m g st nx -> fresh_ok m g st (1 + nx).
Proof. intros [Fa Fb Fc]. constructor; intros ? ? E; [apply Fa in E|apply Fb in E|apply Fc in E]; lia. Qed.
Lemma fresh_none_str m g st nx : fresh_ok m g st nx -> st !! nx = None.
Proof. intros F. destruct (st !! nx) eqn:E; [|done]. apply (fr_str _ _ _ _ F) in E. lia. Qed.
Lemma fresh_none_tun m g st nx : fresh_ok m g st nx -> m !! nx = None.
Proof. intros F. destruct (m !! nx) eqn:E; [|done]. apply (fr_tun _ _ _ _ F) in E. lia. Qed.
Lemma fresh_none_agent m g st nx : fresh_ok m g st nx -> g !! nx = None.
Proof. intros F. destruct (g !! nx) eqn:E; [|done]. apply (fr_agent _ _ _ _ F) in E. lia. Qed.

Lemma reg_stream_create mk ta b :
  creator (BrokerCfg.max_streams (b_cfg b)) (BrokerCfg.max_streams_per_tunnel (b_cfg b)) mk ->
  reg b -> reg (snd (stream_create mk ta b)).
Proof.
  intros Hmk Hr. unfold stream_create. destruct (tuns b !! ta) as [t|] eqn:Et; [|by apply (reg_core b)].
  set (tbl := Tbl _ _ _ _ _ _). specialize (Hmk tbl). destruct (mk tbl) as [[s|] tbl']; [|done].
  destruct Hmk as (Hl & Hc & _ & Hm & Hp & Ha & Hn). cbn [alloc snd].
  change (stream_count (cells tbl)) with (b_stream_count b) in *.
  change (streams_active (cells tbl)) with (t_streams_active t) in *.
  set (sa := b_next b). set (t1 := t <| t_streams ::= cons sa |> <| t_streams_total := streams_total tbl' |>).
  set (t' := t1 <| rx_bytes := tun_rx_bytes (cells tbl') |> <| tx_bytes := tun_tx_bytes (cells tbl') |>
                <| t_streams_active := streams_active (cells tbl') |>).
  destruct Hr as [N A S F]. pose proof (fresh_none_str _ _ _ _ F) as Hs.
  constructor.
  - by apply (names_ext (tuns b)); [intros; apply put_static with t|].
  - by apply agents_put with t.
  - change (streams_ok (<[ta := t']> (tuns b)) (<[sa := (ta, s)]> (strs b)) (stream_count (cells tbl')) (b_cfg b)).
    rewrite Hn. by apply streams_in with t.
  - change (fresh_ok (<[ta := t']> (tuns b)) (agents b) (<[sa := (ta, s)]> (strs b)) (1 + b_next b)).
    apply fresh_put with t; [done|]. destruct (fresh_step _ _ _ _ F) as [Fa Fb Fc]. constructor; try done.
    intros x u. upd_case x sa; eauto. intros _. subst sa. lia.
Qed.

(** *** Creation of a tunnel *)

(** The port a new tunnel gets, and the tables after it. *)
Definition port_given (t : tm_tunnel) (ps ps' : Ports.ports) : Prop :=
  if needs_port t
  then Ports.tm_port_in_range ps (public_port t) = true /\
       Ports.slot (Ports.table ps (t_proto t)) (Ports.port_index ps (public_port t)) = false /\
       Ports.taken (t_proto t) (public_port t) ps ps' /\ Ports.ports_ok ps'
  else public_port t = 0 /\ ps' = ps.

Lemma port_index_inj ps x y : Ports.tm_port_in_range ps x = true -> Ports.tm_port_in_range ps y = true ->
  Ports.port_index ps x = Ports.port_index ps y -> x = y.
Proof. unfold Ports.tm_port_in_range, Ports.port_index. intros Hx Hy E. zb. lia. Qed.

(** Allocating a port changes no slot of a listed tunnel. *)
Lemma port_given_slot t ps ps' : port_given t ps ps' ->
  Ports.port_start ps' = Ports.port_start ps /\ Ports.port_end ps' = Ports.port_end ps /\
  (forall q i, Ports.slot (Ports.table ps q) i = true -> Ports.slot (Ports.table ps' q) i = true) /\
  (forall q i, Ports.slot (Ports.table ps' q) i = true ->
     Ports.slot (Ports.table ps q) i = true \/ needs_port t = true /\ q = t_proto t /\ i = Ports.port_index ps (public_port t)).
Proof.
  unfold port_given. destruct (needs_port t); [|intros [_ ->]; auto].
  intros (_ & _ & (Ht & E1 & E2) & _). split_and!; auto; intros q i; rewrite Ht; case_decide; naive_solver.
Qed.

Lemma names_in m l n ps ps' cf ta t : names_ok m l n ps cf -> m !! ta = None ->
  (forall k u, k ∈ l -> m !! k = Some u -> t_id u <> t_id t) ->
  n < BrokerCfg.max_tunnels cf -> port_given t ps ps' ->
  names_ok (<[ta := t]> m) (ta :: l) (1 + n) ps' cf.
Proof.
  intros N Em Hid Hmax Hg. destruct (port_given_slot t ps ps' Hg) as (Es & Ee & Hup & Hdown).
  assert (ta ∉ l) as Hnl by (intros Hin; destruct (nm_dom _ _ _ _ _ N ta Hin); congruence).
  assert (forall x, Ports.port_index ps' x = Ports.port_index ps x) as Hix by (intros; unfold Ports.port_index; by rewrite Es).
  assert (forall x, Ports.tm_port_in_range ps' x = Ports.tm_port_in_range ps x) as Hrg
    by (intros; unfold Ports.tm_port_in_range; by rewrite Es, Ee).
  assert (forall k u, needs_port t = true -> k ∈ l -> m !! k = Some u -> needs_port u = true -> t_proto u = t_proto t ->
            public_port u <> public_port t) as Hex.
  { intros k u Hn Hk Eu Hnu Ep Epo. destruct (nm_slot _ _ _ _ _ N k u Hk Eu Hnu) as [_ Hsl].
    unfold port_given in Hg. rewrite Hn in Hg. destruct Hg as (_ & Hf & _). rewrite Ep, Epo in Hsl. congruence. }
  constructor.
  - apply NoDup_cons. split; [done|apply N].
  - intros k [->|Hk]%elem_of_cons; [rewrite lookup_insert_eq; eauto|]. upd_case k ta; [eauto|]. by apply (nm_dom _ _ _ _ _ N).
  - intros k k' u u' [->|Hk]%elem_of_cons [->|Hk']%elem_of_cons; [done|..].
    + assert (k' <> ta) by congruence. rewrite lookup_insert_eq, lookup_insert_ne by done.
      intros [= <-] Eu' Ei. by destruct (Hid k' u' Hk' Eu').
    + assert (k <> ta) by congruence. rewrite lookup_insert_ne, lookup_insert_eq by done.
      intros Eu [= <-] Ei. by destruct (Hid k u Hk Eu).
    + rewrite !lookup_insert_ne by congruence. by apply (nm_ids _ _ _ _ _ N).
  - rewrite blen_cons, (nm_count _ _ _ _ _ N). done.
  - lia.
  - unfold port_given in Hg. destruct (needs_port t); [by destruct Hg as (_ & _ & _ & ?)|destruct Hg as [_ ->]; apply N].
  - intros k u [->|Hk]%elem_of_cons.
    + rewrite lookup_insert_eq. intros [= <-] Hn. unfold port_given in Hg. rewrite Hn in Hg.
      destruct Hg as (Hr & _ & (Ht & _) & _). rewrite Hrg, Hix, Ht, decide_True by done. done.
    + rewrite lookup_insert_ne by congruence. intros Eu Hn. rewrite Hrg, Hix.
      destruct (nm_slot _ _ _ _ _ N k u Hk Eu Hn). auto.
  - intros k k' u u' [->|Hk]%elem_of_cons [->|Hk']%elem_of_cons; [done|..].
    + assert (k' <> ta) by congruence. rewrite lookup_insert_eq, lookup_insert_ne by done.
      intros [= <-] Eu' Hn Hn' Ep Epo. by destruct (Hex k' u' Hn Hk' Eu' Hn' (eq_sym Ep)).
    + assert (k <> ta) by congruence. rewrite lookup_insert_ne, lookup_insert_eq by done.
      intros Eu [= <-] Hn Hn' Ep Epo. by destruct (Hex k u Hn' Hk Eu Hn Ep).
    + rewrite !lookup_insert_ne by congruence. by apply (nm_excl _ _ _ _ _ N).
  - intros p i Hp. setoid_rewrite Hix. destruct (Hdown p i Hp) as [Ho|(Hn & -> & ->)].
    + destruct (nm_used _ _ _ _ _ N p i Ho) as (k & u & Hk & Eu & Hu). exists k, u.
      rewrite lookup_insert_ne by congruence. split; [by right|done].
    + exists ta, t. rewrite lookup_insert_eq. split; [by left|done].
  - intros k u [->|Hk]%elem_of_cons.
    + rewrite lookup_insert_eq. intros [= <-] Hn. unfold port_given in Hg. rewrite Hn in Hg. apply Hg.
    + rewrite lookup_insert_ne by congruence. by apply (nm_none _ _ _ _ _ N).
Qed.

Lemma start_socket_frame r t : t_frame (start_socket r t) = t_frame t.
Proof. unfold start_socket. by destruct (t_proto t). Qed.
Lemma stop_socket_frame t : t_frame (stop_socket t) = t_frame t.
Proof. unfold stop_socket. by destruct (t_proto t). Qed.

Lemma find_tunnel_elem b id ta : tm_tunnel_find b id = Some ta ->
  ta ∈ tunnels b /\ exists t, tuns b !! ta = Some t /\ t_id t = id.
Proof.
  intros Hf. apply find_some_in in Hf as [Hin Ht]. split; [by apply list_elem_of_In|].
  destruct (tuns b !! ta) as [t|]; [|done]. apply streq_true in Ht. eauto.
Qed.

Lemma find_tunnel_none b id : tm_tunnel_find b id = None ->
  forall ta t, ta ∈ tunnels b -> tuns b !! ta = Some t -> t_id t <> id.
Proof.
  intros Hf ta t Hin Et. pose proof (proj1 (find_none_all _ _) Hf ta ltac:(by apply list_elem_of_In)) as Hx.
  cbv beta in Hx. rewrite Et in Hx. by apply streq_false in Hx.
Qed.

Lemma find_tunnel_iff b id ta t : reg b -> ta ∈ tunnels b -> tuns b !! ta = Some t -> t_id t = id ->
  tm_tunnel_find b id = Some ta.
Proof.
  intros [N _ _ _] Hin Et Hid. destruct (tm_tunnel_find b id) as [k|] eqn:Ef.
  - apply find_tunnel_elem in Ef as (Hk & u & Eu & Hu). f_equal. apply (nm_ids _ _ _ _ _ N k ta u t); congruence.
  - by destruct (find_tunnel_none b id Ef ta t).
Qed.

(** The tunnel a successful [tm_tunnel_create] makes. *)
Definition new_tunnel (id : bytes) (proto : tm_proto) (closed : bool) (agent_hmac : bytes)
    (token_hmac : option bytes) (port now : Z) : tm_tunnel :=
  Tunnel id proto closed true port (str_trunc 65 agent_hmac)
    (match token_hmac with Some h => str_trunc 65 h | None => [] end) now now None false
    (udp_new (Listener.fresh proto closed)) [] 0 0 0 0 0.

(** Why a creation is refused. *)
Definition create_refused (id : bytes) (proto : tm_proto) (closed : bool) (b : broker) : Prop :=
  b_shutting_down b = true \/ BrokerCfg.max_tunnels (b_cfg b) <= tunnel_count b \/
  is_Some (tm_tunnel_find b id) \/ TM_TUNNEL_ID_LEN < blen id \/
  needs_public_port closed proto = true /\
    forall q, Ports.tm_port_in_range (b_ports b) q = true ->
      Ports.slot (Ports.table (b_ports b) proto) (Ports.port_index (b_ports b) q) = true.

Lemma tunnel_create_cases id proto closed ah th prefer r b : reg b ->
  match tm_tunnel_create id proto closed ah th prefer r b with
  | (None, b') => core b' = core b /\ create_refused id proto closed b
  | (Some ta, b') =>
      exists port ps now, let t := start_socket r (new_tunnel id proto closed ah th port now) in
      ta = b_next b /\ port_given t (b_ports b) ps /\
      tunnel_count b < BrokerCfg.max_tunnels (b_cfg b) /\ tm_tunnel_find b id = None /\
      core b' = (<[ta := t]> (tuns b), ta :: tunnels b, 1 + tunnel_count b, agents b, strs b,
                 b_stream_count b, ps, 1 + b_next b, b_cfg b) /\
      conns b' = conns b /\ b_hmac_key b' = b_hmac_key b /\
      (needs_port t = true -> Ports.tm_port_in_range (b_ports b) prefer = true ->
       Ports.slot (Ports.table (b_ports b) proto) (Ports.port_index (b_ports b) prefer) = false -> port = prefer)
  end.
Proof.
  intros [N _ _ _]. unfold tm_tunnel_create, create_refused.
  destruct (b_shutting_down b) eqn:Esd; [split; auto|].
  destruct (_ <=? tunnel_count b) eqn:Em; zb; [split; auto|].
  destruct (tm_tunnel_find b id) as [k|] eqn:Ef; [rewrite bool_decide_true by eauto; split; eauto 8|].
  rewrite bool_decide_false by (by intros []).
  destruct (TM_TUNNEL_ID_LEN <? blen id) eqn:El; zb; [split; auto|].
  pose proof (Ports.port_alloc_outcome (b_ports b) proto prefer (nm_ports _ _ _ _ _ N)) as Ho.
  pose proof (Ports.port_alloc_prefer (b_ports b) proto prefer (nm_ports _ _ _ _ _ N)) as Hp.
  rewrite str_trunc_id by (change TM_TUNNEL_ID_LEN with 24 in El; lia).
  destruct (needs_public_port closed proto) eqn:En.
  - destruct (Ports.tm_port_alloc (b_ports b) proto prefer) as [port ps]. destruct Ho as (Hok & Hz & Hnz).
    cbn [andb fst] in *. destruct (port =? 0) eqn:Ez; zb.
    + destruct (Hz Ez) as [-> Hall]. split; [done|]. do 4 right. auto.
    + destruct (Hnz Ez) as (Hr & Hs & Ht). exists port, ps, (clock (b_ticks b)). cbv zeta.
      pose proof (start_socket_frame r (new_tunnel id proto closed ah th port (clock (b_ticks b)))) as Hf.
      unfold t_frame in Hf. injection Hf as F1 F2 F3 F4 _ _ _ _.
      split_and!; try done. unfold port_given, needs_port. rewrite F2, F3, F4. cbn. rewrite En. auto.
  - exists 0, (b_ports b), (clock (b_ticks b)). cbv zeta.
    pose proof (start_socket_frame r (new_tunnel id proto closed ah th 0 (clock (b_ticks b)))) as Hf.
    unfold t_frame in Hf. injection Hf as F1 F2 F3 F4 _ _ _ _.
    split_and!; try done; unfold port_given, needs_port; rewrite ?F2, ?F3, ?F4; cbn; rewrite En; [done|].
    intros [=].
Qed.

(** The reasons for a refusal are exactly the cases in which there is one. *)
Lemma tunnel_create_iff id proto closed ah th prefer r b : reg b ->
  match tm_tunnel_create id proto closed ah th prefer r b with
  | (None, b') => b' = b
  | (Some _, _) => ~ create_refused id proto closed b
  end.
Proof.
  intros [N _ _ _]. unfold tm_tunnel_create, create_refused.
  destruct (b_shutting_down b) eqn:Esd; [done|].
  destruct (_ <=? tunnel_count b) eqn:Em; zb; [done|].
  destruct (tm_tunnel_find b id) as [k|] eqn:Ef; [by rewrite bool_decide_true by eauto|].
  rewrite bool_decide_false by (by intros []).
  destruct (TM_TUNNEL_ID_LEN <? blen id) eqn:El; zb; [done|].
  pose proof (Ports.port_alloc_outcome (b_ports b) proto prefer (nm_ports _ _ _ _ _ N)) as Ho.
  destruct (needs_public_port closed proto) eqn:En.
  - destruct (Ports.tm_port_alloc (b_ports b) proto prefer) as [port ps]. destruct Ho as (_ & Hz & Hnz). cbn [andb fst] in *.
    destruct (port =? 0) eqn:Ez; zb.
    + destruct (Hz Ez) as [-> _]. by destruct b.
    + destruct (Hnz Ez) as (Hr & Hs & _). intros [?|[?|[[? ?]|[?|[_ Hall]]]]]; try congruence; try lia.
      rewrite (Hall port Hr) in Hs. done.
  - intros [?|[?|[[? ?]|[?|[? _]]]]]; try congruence; lia.
Qed.

Lemma reg_tunnel_create id proto closed ah th prefer r b : reg b ->
  reg (snd (tm_tunnel_create id proto closed ah th prefer r b)).
Proof.
  intros Hr. pose proof (tunnel_create_cases id proto closed ah th prefer r b Hr) as Hc.
  destruct (tm_tunnel_create id proto closed ah th prefer r b) as [[ta|] b']; cbn [snd];
    [|destruct Hc as [Hc _]; by apply (reg_core b)].
  destruct Hc as (port & ps & now & -> & Hg & Hmax & Hf & Hcore & _).
  set (t := start_socket r _) in *. destruct Hr as [N A S F].
  pose proof (start_socket_frame r (new_tunnel id proto closed ah th port now)) as Fr. fold t in Fr.
  unfold t_frame in Fr. injection Fr as F1 F2 F3 F4 F5 F6 F7 F8.
  injection Hcore as E1 E2 E3 E4 E5 E6 E7 E8 E9. pose proof (fresh_none_tun _ _ _ _ F) as Em.
  constructor; rewrite ?E1, ?E2, ?E3, ?E4, ?E5, ?E6, ?E7, ?E8, ?E9.
  - apply names_in with (b_ports b); auto. intros k u Hk Eu. rewrite F1. by apply (find_tunnel_none b id Hf k).
  - destruct A as [A B C]. constructor.
    + intros k u a. upd_case k (b_next b); [intros [= <-]; congruence|apply A].
    + intros a ag Ea. destruct (B a ag Ea) as (u & Eu & Hu). exists u. rewrite lookup_insert_ne; [done|]. congruence.
    + intros k u. upd_case k (b_next b); [|apply C]. intros [= <-]. by rewrite F5, F6.
  - constructor; try apply S.
    + intros k u x. upd_case k (b_next b); [|apply S]. intros [= <-]. rewrite F7. by intros ?%elem_of_nil.
    + intros x k u Ex. destruct (so_linked _ _ _ _ S x k u Ex) as [Hl Hx]. split; [done|]. intros Hu.
      destruct (Hx Hu) as (v & Ev & Hv). exists v. rewrite lookup_insert_ne; [done|]. congruence.
    + intros k u. upd_case k (b_next b); [|apply S]. intros [= <-]. rewrite F7. apply NoDup_nil_2.
    + intros k u. upd_case k (b_next b); [|apply S]. intros [= <-]. by rewrite F7, F8.
    + intros k u. upd_case k (b_next b); [|apply S]. intros [= <-]. rewrite F8. cbn. lia.
  - destruct (fresh_step _ _ _ _ F) as [Fa Fb Fc]. constructor; try done.
    intros k u. upd_case k (b_next b); [lia|apply Fa].
Qed.

(** *** Deletion of a tunnel *)

Lemma names_out m l n ps cf ta t : names_ok m l n ps cf -> ta ∈ l -> m !! ta = Some t ->
  names_ok m (unlink ta l) (n - 1) (Ports.tm_port_free ps (t_proto t) (public_port t)) cf.
Proof.
  clear clock. intros N Hin Et. pose proof (nm_nodup _ _ _ _ _ N) as Hnd. pose proof (nm_ports _ _ _ _ _ N) as Hok.
  set (ps' := Ports.tm_port_free ps (t_proto t) (public_port t)).
  destruct (Ports.port_free_range ps (t_proto t) (public_port t)) as [Es Ee]. fold ps' in Es, Ee.
  assert (forall x, Ports.port_index ps' x = Ports.port_index ps x) as Hix by (intros; unfold Ports.port_index; by rewrite Es).
  assert (forall x, Ports.tm_port_in_range ps' x = Ports.tm_port_in_range ps x) as Hrg
    by (intros; unfold Ports.tm_port_in_range; by rewrite Es, Ee).
  assert (forall k, k ∈ unlink ta l -> k ∈ l /\ k <> ta) as Hul by (intros k; by apply elem_of_unlink).
  assert (needs_port t = false -> ps' = ps) as Hsame.
  { intros Hn. unfold ps', Ports.tm_port_free. rewrite (nm_none _ _ _ _ _ N ta t Hin Et Hn).
    assert (Ports.tm_port_in_range ps 0 = false) as ->; [|done].
    destruct (Ports.po_range ps Hok). unfold Ports.tm_port_in_range. rewrite (proj2 (Z.leb_gt _ _)) by lia. done. }
  assert (needs_port t = true -> forall q i, Ports.slot (Ports.table ps' q) i =
            if decide (q = t_proto t /\ i = Ports.port_index ps (public_port t)) then false
            else Ports.slot (Ports.table ps q) i) as Hfree.
  { intros Hn q i. apply Ports.port_free_slots; [done|]. by apply (nm_slot _ _ _ _ _ N ta t). }
  constructor.
  - by apply NoDup_unlink.
  - intros k [Hk _]%Hul. by apply (nm_dom _ _ _ _ _ N).
  - intros k k' u u' [Hk _]%Hul [Hk' _]%Hul. by apply (nm_ids _ _ _ _ _ N).
  - rewrite blen_unlink, (nm_count _ _ _ _ _ N) by done. done.
  - pose proof (nm_max _ _ _ _ _ N). lia.
  - by apply Ports.port_free_ok.
  - intros k u [Hk Hne]%Hul Eu Hn. rewrite Hrg, Hix. destruct (nm_slot _ _ _ _ _ N k u Hk Eu Hn) as [Hr Hs].
    split; [done|]. destruct (needs_port t) eqn:Hnt; [|by rewrite Hsame]. rewrite Hfree by done.
    rewrite decide_False; [done|]. intros [Ep Ei]. apply Hne.
    apply (nm_excl _ _ _ _ _ N k ta u t); try done. apply (port_index_inj ps); [done| |done].
    by apply (nm_slot _ _ _ _ _ N ta t).
  - intros k k' u u' [Hk _]%Hul [Hk' _]%Hul. by apply (nm_excl _ _ _ _ _ N).
  - intros p i Hp. setoid_rewrite Hix.
    assert (Ports.slot (Ports.table ps p) i = true /\
            (needs_port t = true -> p = t_proto t -> i <> Ports.port_index ps (public_port t))) as [Hp' Hd].
    { destruct (needs_port t) eqn:Hnt; [|rewrite Hsame in Hp by done; by split].
      rewrite Hfree in Hp by done. case_decide; naive_solver. }
    destruct (nm_used _ _ _ _ _ N p i Hp') as (k & u & Hk & Eu & Hn & Ep & Ei). exists k, u.
    split; [|done]. apply elem_of_unlink; [done|]. split; [done|]. intros ->.
    rewrite Et in Eu. injection Eu as <-. by apply Hd.
  - intros k u [Hk _]%Hul. by apply (nm_none _ _ _ _ _ N).
Qed.

(** What the closing of a stream leaves alone. *)
Definition rest (b : broker) :=
  (tunnels b, tunnel_count b, b_ports b, agents b, b_cfg b, b_next b, conns b, b_hmac_key b).

Lemma rest_on_stream sa f b : rest (on_stream sa f b) = rest b.
Proof.
  unfold on_stream. destruct (strs b !! sa) as [[ta s]|]; [|done]. unfold with_tun.
  destruct (tuns b !! ta); [|done]. cbv zeta. by destruct (Relay.uaf _).
Qed.

(** Closing the first stream of a tunnel's list. *)
Lemma close_head ta t sa l b : reg b -> tuns b !! ta = Some t -> t_streams t = sa :: l ->
  exists t', tuns (tm_stream_close_at sa b) !! ta = Some t' /\ t_streams t' = l /\
    t_static t' = t_static t /\ t_agent t' = t_agent t /\ t_udp t' = t_udp t /\
    t_enabled t' = t_enabled t.
Proof.
  intros [N A S F] Et Hl. destruct (so_list _ _ _ _ S ta t sa Et ltac:(rewrite Hl; by left)) as (s & Es & Hk).
  destruct (so_linked _ _ _ _ S sa ta s Es) as [Hc _]. rewrite Hk in Hc. symmetry in Hc. apply negb_true_iff in Hc.
  unfold tm_stream_close_at, on_stream, with_tun. rewrite Es, Et. cbv zeta.
  unfold tm_stream_close. change (Relay.closing (s <| sh := _ |>)) with (Relay.closing s). rewrite Hc, Hk.
  cbn [andb negb]. set (s' := _ <| timer_closing := true |>).
  change (Relay.linked s') with false. cbn [andb negb].
  change (Relay.uaf s') with (Relay.uaf s).
  match goal with |- context [if Relay.uaf s then faulty ?b0 else ?b0] => set (b1 := b0) end.
  eexists. split; [|split_and!].
  - destruct (Relay.uaf s); change (tuns _) with (tuns b1); unfold b1; apply lookup_insert_eq.
  - cbn. rewrite Hl. cbn. by rewrite Z.eqb_refl.
  - done. - done. - done. - done.
Qed.

Lemma acct_close (r : stream) : acct r (tm_stream_close r).
Proof. apply keeps_close. Qed.

Lemma close_all ta l : forall t b, reg b -> tuns b !! ta = Some t -> t_streams t = l ->
  let b' := fold_left (fun b sa => tm_stream_close_at sa b) l b in
  reg b' /\ rest b' = rest b /\
  exists t', tuns b' !! ta = Some t' /\ t_streams t' = [] /\ t_static t' = t_static t /\
             t_agent t' = t_agent t /\ t_udp t' = t_udp t /\ t_enabled t' = t_enabled t.
Proof.
  induction l as [|sa l IH]; intros t b Hr Et Hl; cbn [fold_left]; [split_and!; [done|done|by exists t]|].
  destruct (close_head ta t sa l b Hr Et Hl) as (t1 & Et1 & Hl1 & Es & Ea & Eu & En).
  destruct (IH t1 (tm_stream_close_at sa b)) as (Hr' & Hrest & t2 & Q); [by apply reg_on_stream; [apply acct_close|]|done|done|].
  split_and!; [done|by rewrite Hrest; apply rest_on_stream|]. exists t2. intuition congruence.
Qed.

(** The tunnel after [tm_tunnel_teardown]: offline and empty. *)
Record torn (ta : Z) (t : tm_tunnel) (b b' : broker) : Prop := {
  tn_tun : exists t', tuns b' !! ta = Some t' /\ t_static t' = t_static t /\ t_agent t' = None /\
             t_streams t' = [] /\ t_udp t' = t_udp (stop_socket t) /\ t_enabled t' = t_enabled t;
  tn_list : tunnels b' = tunnels b;
  tn_count : tunnel_count b' = tunnel_count b;
  tn_ports : b_ports b' = Ports.tm_port_free (b_ports b) (t_proto t) (public_port t);
  tn_cfg : b_cfg b' = b_cfg b;
  tn_reg : reg (b' <| b_ports := b_ports b |>);
}.

Lemma teardown_torn ta t b : reg b -> tuns b !! ta = Some t -> torn ta t b (tm_tunnel_teardown ta b).
Proof.
  intros Hr Et. unfold tm_tunnel_teardown.
  assert (upd_udp ta stop_socket b = charge (t_udp t) (t_udp (stop_socket t)) (put_tun ta (stop_socket t) b)) as ->
    by (unfold upd_udp, with_tun; by rewrite Et).
  set (t1 := stop_socket t). set (b1 := charge _ _ _).
  pose proof (stop_socket_frame t) as Hf. fold t1 in Hf.
  assert (reg b1) as Hr1 by (apply (reg_core (put_tun ta t1 b)); [done|by apply reg_put with t]).
  assert (tuns b1 !! ta = Some t1) as Et1 by apply lookup_insert_eq.
  assert (t_enabled t1 = t_enabled t) as Hen by (unfold t1, stop_socket; by destruct (t_proto t)).
  unfold with_tun. rewrite Et1. cbv zeta.
  set (b2 := match t_agent t1 with Some a => tm_agent_drop a b1 | None => b1 end).
  assert (reg b2 /\ (tunnels b2, tunnel_count b2, b_ports b2, b_cfg b2) = (tunnels b, tunnel_count b, b_ports b, b_cfg b) /\
          exists t2, tuns b2 !! ta = Some t2 /\ t_static t2 = t_static t1 /\ t_agent t2 = None /\
                     t_streams t2 = t_streams t1 /\ t_udp t2 = t_udp t1 /\ t_enabled t2 = t_enabled t1)
    as (Hr2 & Ec2 & t2 & Et2 & Es2 & Ea2 & El2 & Eu2 & En2).
  { unfold b2. destruct (t_agent t1) as [a|] eqn:Ea; [|split_and!; [done|done|by exists t1]].
    split; [by apply reg_agent_drop|]. unfold tm_agent_drop.
    destruct (ag_live _ _ (rg_agents _ Hr1) ta t1 a Et1 Ea) as (ag & Eg & <-).
    rewrite Eg, Et1, bool_decide_true by done. split; [done|].
    eexists. split; [apply lookup_insert_eq|]. by split_and!. }
  clearbody b2. rewrite Et2. cbv zeta.
  destruct (close_all ta (t_streams t2) t2 b2 Hr2 Et2 eq_refl) as (Hr3 & Hrest & t3 & Et3 & El3 & Es3 & Ea3 & Eu3 & En3).
  set (b3 := fold_left _ _ b2) in *. clearbody b3. rewrite Et3. injection Hrest as Q1 Q2 Q3 Q4 Q5 Q6 Q7 Q8.
  injection Ec2 as P1 P2 P3 P4. unfold t_frame in Hf. injection Hf as F1 F2 F3 F4 F5 F6 F7 F8.
  unfold t_static in *. injection Es3 as S1 S2 S3 S4. injection Es2 as R1 R2 R3 R4.
  constructor.
  - exists t3. unfold t_static. fold t1. split_and!; try done; congruence.
  - cbn. congruence.
  - cbn. congruence.
  - cbn. rewrite Q3, P3, S2, S4, R2, R4, F2, F4. done.
  - cbn. congruence.
  - apply (reg_core b3); [|done]. unfold core. cbn. congruence.
Qed.

Lemma agents_out m g ta t : m !! ta = Some t -> t_agent t = None -> agents_ok m g -> agents_ok (delete ta m) g.
Proof.
  intros Et Ha [A B C]. constructor.
  - intros k u a. upd_case k ta; [done|apply A].
  - intros a ag Eg. destruct (B a ag Eg) as (u & Eu & Hu). exists u. rewrite lookup_delete_ne; [done|]. congruence.
  - intros k u. upd_case k ta; [done|apply C].
Qed.

Lemma streams_gone m st n cf ta t : m !! ta = Some t -> t_streams t = [] ->
  streams_ok m st n cf -> streams_ok (delete ta m) st n cf.
Proof.
  intros Et Hl S. constructor; try apply S.
  - intros k u x. upd_case k ta; [done|apply S].
  - intros x k u Ex. destruct (so_linked _ _ _ _ S x k u Ex) as [Hc Hx]. split; [done|]. intros Hu.
    destruct (Hx Hu) as (v & Ev & Hv). exists v. rewrite lookup_delete_ne; [done|]. intros ->.
    rewrite Et in Ev. injection Ev as <-. rewrite Hl in Hv. by apply elem_of_nil in Hv.
  - intros k u. upd_case k ta; [done|apply S].
  - intros k u. upd_case k ta; [done|apply S].
  - intros k u. upd_case k ta; [done|apply S].
Qed.

Lemma fresh_gone m g st nx ta : fresh_ok m g st nx -> fresh_ok (delete ta m) g st nx.
Proof. intros [A B C]. constructor; try done. intros k u. upd_case k ta; [done|apply A]. Qed.

(** Freeing an idle tunnel that no list holds any more. *)
Lemma reg_free_tunnel ta t b : reg b -> tuns b !! ta = Some t -> ta ∉ tunnels b -> t_agent t = None -> t_streams t = [] ->
  reg (b <| tuns ::= fun m => delete ta m |>).
Proof.
  intros [N A S F] Et Hnl Ha Hl. constructor.
  - apply (names_ext (tuns b)); [|done]. intros k Hk. change (tuns (b <| tuns ::= _ |>)) with (delete ta (tuns b)).
    rewrite lookup_delete_ne; [done|]. by intros ->.
  - by apply agents_out with t.
  - by apply streams_gone with t.
  - by apply fresh_gone.
Qed.

(** A tunnel of the list, and its record after it is deleted: gone, or kept idle until
    the close callback of its socket. *)
Definition idle (ta : Z) (b : broker) : Prop :=
  forall t, tuns b !! ta = Some t -> t_agent t = None /\ t_streams t = [].

Lemma tunnel_delete_cases id b : reg b ->
  match tm_tunnel_delete id b with
  | (false, b') => b' = b /\ tm_tunnel_find b id = None
  | (true, b') => exists ta t, tm_tunnel_find b id = Some ta /\ tuns b !! ta = Some t /\ reg b' /\ idle ta b' /\
      tunnels b' = unlink ta (tunnels b) /\ tunnel_count b' = tunnel_count b - 1 /\
      b_ports b' = Ports.tm_port_free (b_ports b) (t_proto t) (public_port t) /\
      (Listener.close_refs (usock (t_udp (stop_socket (mark_deleting t)))) = 0 -> tuns b' !! ta = None)
  end.
Proof.
  clear clock. intros Hr. unfold tm_tunnel_delete. destruct (tm_tunnel_find b id) as [ta|] eqn:Ef; [|done].
  destruct (find_tunnel_elem b id ta Ef) as (Hin & t & Et & Hid). exists ta, t.
  set (t1 := mark_deleting t).
  assert (upd_tun ta mark_deleting b
          = put_tun ta t1 b) as -> by (unfold upd_tun, with_tun; by rewrite Et).
  assert (reg (put_tun ta t1 b)) as Hr1 by (by apply reg_put with t).
  assert (tuns (put_tun ta t1 b) !! ta = Some t1) as Et1 by apply lookup_insert_eq.
  destruct (teardown_torn ta t1 _ Hr1 Et1) as [(t2 & Et2 & Es & Ea & El & Eu & _) L1 L2 L3 L4 L5].
  set (b2 := tm_tunnel_teardown ta _) in *. clearbody b2.
  change (tunnels (put_tun ta t1 b)) with (tunnels b) in *. change (tunnel_count (put_tun ta t1 b)) with (tunnel_count b) in *.
  change (b_ports (put_tun ta t1 b)) with (b_ports b) in *. change (t_proto t1) with (t_proto t) in *.
  change (public_port t1) with (public_port t) in *.
  set (b3 := b2 <| tunnels ::= unlink ta |> <| tunnel_count ::= fun n => n - 1 |>).
  assert (reg b3) as Hr3.
  { destruct L5 as [N A S F]. constructor; try done. unfold b3. cbn in N |- *. rewrite L3.
    unfold t_static in Es. injection Es as _ E2 _ E4. change (t_proto t1) with (t_proto t) in E2.
    change (public_port t1) with (public_port t) in E4. rewrite <- E2, <- E4. apply names_out; [done| |done]. by rewrite L1. }
  assert (ta ∉ tunnels b3) as Hnl.
  { unfold b3. cbn. rewrite L1, elem_of_unlink by apply (rg_names _ Hr). naive_solver. }
  unfold release_tunnel, with_tun. change (tuns b3) with (tuns b2). rewrite Et2.
  rewrite Eu. destruct (_ =? 0) eqn:E0; zb.
  - split_and!; try done; [by apply reg_free_tunnel with t2| |unfold b3; cbn; congruence..|].
    + intros u. unfold b3. cbn. by rewrite lookup_delete_eq.
    + intros _. apply lookup_delete_eq.
  - split_and!; try done; [|unfold b3; cbn; congruence..]. intros u Eu'. change (tuns b3) with (tuns b2) in Eu'.
    rewrite Et2 in Eu'. by injection Eu' as <-.
Qed.

(** ** What no event grants

    A tunnel's credentials do not change, it gains no session, no stream becomes bound
    and no connection becomes an authenticated peer.  A tunnel gets a stream only while
    it has a session. *)

Definition deleting (t : tm_tunnel) : bool := Listener.deleting (usock (t_udp t)).
Definition t_creds (t : tm_tunnel) :=
  (t_id t, t_closed t, t_enabled t, t_agent_hmac t, t_token_hmac t, deleting t).

Record tame (b b' : broker) : Prop := {
  ta_list ta : ta ∈ tunnels b' -> ta ∈ tunnels b;
  ta_tun ta t' : tuns b' !! ta = Some t' -> exists t, tuns b !! ta = Some t /\ t_creds t' = t_creds t /\
    (t_agent t' = t_agent t \/ t_agent t' = None) /\ (t_streams t = [] -> t_agent t = None -> t_streams t' = []);
  ta_str sa ta s' : strs b' !! sa = Some (ta, s') -> Relay.bound s' = true ->
    exists s, strs b !! sa = Some (ta, s) /\ Relay.bound s = true;
  ta_conn c x' : conns b' !! c = Some x' -> peer_authed x' = true ->
    exists x, conns b !! c = Some x /\ peer_authed x = true /\ peer_tun x' = peer_tun x;
  ta_key : b_hmac_key b' = b_hmac_key b;
}.

Lemma tame_eq b b' : (tunnels b', tuns b', strs b', conns b', b_hmac_key b') = (tunnels b, tuns b, strs b, conns b, b_hmac_key b) -> tame b b'.
Proof.
  intros E. injection E as E1 E2 E3 E4 E5. constructor; rewrite ?E1, ?E2, ?E3, ?E4; eauto.
  intros ta t' Et. exists t'. auto.
Qed.
#[local] Hint Extern 0 (tame _ _) => apply tame_eq; reflexivity : core.

Lemma tame_trans b1 b2 b3 : tame b1 b2 -> tame b2 b3 -> tame b1 b3.
Proof.
  intros [L1 T1 S1 C1 K1] [L2 T2 S2 C2 K2]. constructor; [auto|..|congruence].
  - intros ta t3 E3. destruct (T2 ta t3 E3) as (t2 & E2 & Ec2 & Ea2 & Es2).
    destruct (T1 ta t2 E2) as (t1 & E1 & Ec1 & Ea1 & Es1). exists t1. split_and!; [done|congruence| |].
    + destruct Ea2 as [Ea2|Ea2]; [|by right]. rewrite Ea2. done.
    + intros Hs Ha. apply Es2; [by apply Es1|]. destruct Ea1 as [-> | ->]; done.
  - intros sa ta s3 E3 B3. destruct (S2 sa ta s3 E3 B3) as (s2 & E2 & B2). by apply S1 with s2.
  - intros c x3 E3 B3. destruct (C2 c x3 E3 B3) as (x2 & E2 & B2 & P2).
    destruct (C1 c x2 E2 B2) as (x1 & E1 & B1 & P1). exists x1. split_and!; congruence.
Qed.

Lemma tame_put_tun ta t t' b : tuns b !! ta = Some t -> t_creds t' = t_creds t ->
  t_agent t' = t_agent t \/ t_agent t' = None -> (t_streams t = [] -> t_agent t = None -> t_streams t' = []) ->
  tame b (put_tun ta t' b).
Proof.
  intros Et Hc Ha Hs. constructor; eauto. intros k u.
  change (tuns (put_tun ta t' b)) with (<[ta := t']> (tuns b)). upd_case k ta; [|eauto 8].
  intros [= <-]. eauto 8.
Qed.

Lemma tame_upd_tun ta g b : (forall t, t_creds (g t) = t_creds t /\ t_agent (g t) = t_agent t /\ t_streams (g t) = t_streams t) ->
  tame b (upd_tun ta g b).
Proof.
  intros Hg. unfold upd_tun, with_tun. destruct (tuns b !! ta) as [t|] eqn:Et; [|done].
  destruct (Hg t) as (Hc & Ha & Hs). apply tame_put_tun with t; auto. congruence.
Qed.

Lemma tame_upd_udp ta g b : (forall t, t_creds (g t) = t_creds t /\ t_agent (g t) = t_agent t /\ t_streams (g t) = t_streams t) ->
  tame b (upd_udp ta g b).
Proof.
  intros Hg. unfold upd_udp, with_tun. destruct (tuns b !! ta) as [t|] eqn:Et; [|done].
  destruct (Hg t) as (Hc & Ha & Hs). eapply tame_trans with (put_tun ta (g t) b); [|done].
  apply tame_put_tun with t; auto. congruence.
Qed.

Lemma tame_with_tun ta b k : (forall t, tuns b !! ta = Some t -> tame b (k t)) -> tame b (with_tun ta b k).
Proof. intros Hk. unfold with_tun. destruct (tuns b !! ta); auto. Qed.

Lemma tame_fold {T} (f : broker -> T -> broker) l : (forall b x, tame b (f b x)) -> forall b, tame b (fold_left f l b).
Proof.
  intros Hf. induction l as [|x l IH]; intros b; cbn [fold_left]; [done|]. eapply tame_trans; [apply Hf|apply IH].
Qed.

Lemma tame_agent_drop a b : tame b (tm_agent_drop a b).
Proof.
  unfold tm_agent_drop. destruct (agents b !! a) as [ag|]; [|done].
  eapply tame_trans with (match tuns b !! a_tun ag with
               | None => faulty b
               | Some t => if bool_decide (t_agent t = Some a)
                           then put_tun (a_tun ag) (t <| t_agent := None |> <| agent_online := false |>) b else b
               end); [|done].
  destruct (tuns b !! a_tun ag) as [t|] eqn:Et; [|done]. case_bool_decide; [|done].
  apply tame_put_tun with t; auto.
Qed.

Lemma tame_agent_ups a us b : tame b (agent_ups a us b).
Proof.
  apply tame_fold. intros b0 []; [done|]. destruct (agents b0 !! a); [apply tame_agent_drop|done].
Qed.

Lemma tame_agent_write a d b : tame b (snd (agent_write a d b)).
Proof.
  unfold agent_write. destruct (agents b !! a) as [ag|]; [|done].
  destruct (io_write (a_io ag) d) as [[st us] i]. cbn [snd]. eapply tame_trans; [|apply tame_agent_ups]. done.
Qed.

Lemma tame_agent_send_frame a f b : tame b (tm_agent_send_frame a f b).
Proof.
  unfold tm_agent_send_frame. destruct (f ≫= tm_frame_encode) as [buf|]; [|done].
  pose proof (tame_agent_write a buf b) as Hw. destruct (agent_write a buf b) as [st b']. cbn [snd] in Hw.
  destruct st; [done|..]; (eapply tame_trans; [exact Hw|apply tame_agent_drop]).
Qed.

(** A call on a stream, which may bind it. *)
Lemma on_stream_tame_but sa f b : (forall r, acct r (f r)) ->
  (forall ta t s, strs b !! sa = Some (ta, s) -> tuns b !! ta = Some t ->
     Relay.bound (f (s <| sh := cells_of t b |>)) = true -> Relay.bound s = true) ->
  tame b (on_stream sa f b).
Proof.
  intros Hf Hb. unfold on_stream. destruct (strs b !! sa) as [[ta s]|] eqn:Es; [|done].
  unfold with_tun. destruct (tuns b !! ta) as [t|] eqn:Et; [|done]. cbv zeta. specialize (Hb ta t s eq_refl Et).
  set (s' := f _) in *. set (t1 := if Relay.linked s && negb (Relay.linked s') then _ else t).
  set (b' := store_cells ta t1 (Relay.sh s') b <| strs ::= fun m => <[sa := (ta, s')]> m |>).
  enough (tame b b') as Hb' by (destruct (Relay.uaf s'); [by eapply tame_trans with b'|done]).
  constructor; [done| | |eauto|done].
  - intros k u. change (tuns b') with (<[ta := t1 <| rx_bytes := tun_rx_bytes (Relay.sh s') |>
      <| tx_bytes := tun_tx_bytes (Relay.sh s') |> <| t_streams_active := streams_active (Relay.sh s') |>]> (tuns b)).
    upd_case k ta; [|eauto 8]. intros [= <-]. exists t. subst t1. split; [done|].
    destruct (_ && _); split_and!; auto; cbn; intros -> _; done.
  - intros x k u. change (strs b') with (<[sa := (ta, s')]> (strs b)). upd_case x sa; [|eauto].
    intros [= <- <-] Hu. eauto.
Qed.

Lemma tame_on_stream sa f b : keeps f -> tame b (on_stream sa f b).
Proof.
  intros Hf. apply on_stream_tame_but; [apply Hf|]. intros ta t s _ _.
  by rewrite (proj2 (Hf (s <| sh := cells_of t b |>))).
Qed.

Lemma tame_stream_create maxs maxp mk ta t b : creator maxs maxp mk ->
  tuns b !! ta = Some t -> t_agent t <> None -> tame b (snd (stream_create mk ta b)).
Proof.
  intros Hmk Et Ha. unfold stream_create. rewrite Et.
  set (tbl := Tbl _ _ _ _ _ _). specialize (Hmk tbl). destruct (mk tbl) as [[s|] tbl']; [|done].
  destruct Hmk as (_ & _ & Hb & _). cbn [alloc snd].
  match goal with |- tame b ?x => set (b' := x) end. constructor; [done| | |eauto|done].
  - intros k u. change (tuns b') with (<[ta := t <| t_streams ::= cons (b_next b) |> <| t_streams_total := streams_total tbl' |>
      <| rx_bytes := tun_rx_bytes (cells tbl') |> <| tx_bytes := tun_tx_bytes (cells tbl') |>
      <| t_streams_active := streams_active (cells tbl') |>]> (tuns b)).
    upd_case k ta; [|eauto 8]. intros [= <-]. exists t. split_and!; auto. intros _ Hn. by destruct Ha.
  - intros x k u. change (strs b') with (<[b_next b := (ta, s)]> (strs b)). upd_case x (b_next b); [|eauto].
    intros [= <- <-]. congruence.
Qed.

(** ** Deleted tunnels wait for their socket *)

Definition gone_ok (b : broker) : Prop :=
  forall ta t, tuns b !! ta = Some t -> deleting t = true -> ta ∉ tunnels b /\ t_agent t = None /\ t_streams t = [].

Lemma gone_tame b b' : tame b b' -> gone_ok b -> gone_ok b'.
Proof.
  intros [L T _ _ _] G ta t' Et Hd. destruct (T ta t' Et) as (t & E & Ec & Ea & Es).
  injection Ec as _ _ _ _ _ Ed. rewrite Ed in Hd. destruct (G ta t E Hd) as (Hn & Hag & Hst).
  split_and!; [auto|destruct Ea as [-> | ->]; done|auto].
Qed.

Lemma usock_session_close a st : usock (tm_udp_session_close a st) = usock st.
Proof.
  unfold tm_udp_session_close, with_s. destruct (mem st !! a) as [s|]; [|done].
  destruct (Udp.closing s); [done|]. cbv zeta. destruct (Udp.tun s); [|done].
  assert (forall st, usock (expire_flows_of a st) = usock st) as He.
  { intros st0. unfold expire_flows_of. generalize (udp_flows st0). intros l. revert st0.
    induction l as [|f l IH]; intros st0; cbn [fold_left]; [done|]. rewrite IH. by case_bool_decide. }
  change (usock st) with (usock (Udp.put a (s <| Udp.closing := true |>) st)).
  rewrite <- (He (Udp.put a (s <| Udp.closing := true |>) st)). by case_bool_decide.
Qed.

Lemma usock_udp_stop st : usock (tm_udp_stop st) = Listener.udp_sock_stop (usock st).
Proof.
  assert (forall n st, usock (close_sessions n st) = usock st) as Hs.
  { induction n as [|n IH]; intros st0; cbn [close_sessions]; [done|]. destruct (udp_sessions st0) as [|a l]; [done|].
    by rewrite IH, usock_session_close. }
  assert (forall n st, usock (expire_flows n st) = usock st) as Hf.
  { induction n as [|n IH]; intros st0; cbn [expire_flows]; [done|]. destruct (udp_flows st0) as [|f l]; [done|]. by rewrite IH. }
  unfold tm_udp_stop. cbv zeta. change (usock (?x <| agent_session := None |>)) with (usock x). by rewrite Hf, Hs.
Qed.

Lemma start_socket_creds r t : t_creds (start_socket r t) = t_creds t.
Proof.
  assert (forall k, Listener.deleting (Listener.tm_tunnel_listener_start r k) = Listener.deleting k) as Ht.
  { intros k. unfold Listener.tm_tunnel_listener_start, Listener.uv_init. cbv zeta. by repeat case_match. }
  assert (forall k, Listener.deleting (Listener.udp_sock_start r k) = Listener.deleting k) as Hu.
  { intros k. unfold Listener.udp_sock_start, Listener.uv_init. cbv zeta. by repeat case_match. }
  unfold t_creds, deleting, start_socket.
  set (c := (t_id t, t_closed t, t_enabled t, t_agent_hmac t, t_token_hmac t)).
  destruct (t_proto t); [exact (f_equal (pair c) (Ht (usock (t_udp t))))|exact (f_equal (pair c) (Hu (usock (t_udp t))))].
Qed.
Lemma stop_socket_creds t : t_creds (stop_socket t) = t_creds t.
Proof.
  unfold stop_socket, t_creds, deleting. destruct (t_proto t).
  - cbn. unfold Listener.tm_tunnel_listener_stop, Listener.uv_close. cbn. by case_match.
  - change (t_udp (t <| t_udp ::= tm_udp_stop |>)) with (tm_udp_stop (t_udp t)). rewrite usock_udp_stop.
    unfold Listener.udp_sock_stop, Listener.uv_close. cbn. by case_match.
Qed.

Lemma tame_teardown ta b : tame b (tm_tunnel_teardown ta b).
Proof.
  unfold tm_tunnel_teardown. cbv zeta.
  assert (forall t : tm_tunnel, t_agent (stop_socket t) = t_agent t /\ t_streams (stop_socket t) = t_streams t) as Hst
    by (intros t; unfold stop_socket; by destruct (t_proto t)).
  eapply tame_trans; [apply (tame_upd_udp ta stop_socket)|];
    [by intros t; split; [apply stop_socket_creds|apply Hst]|].
  generalize (upd_udp ta stop_socket b). clear b. intros b. eapply tame_trans; [|apply tame_with_tun; intros; done].
  eapply tame_trans; [|apply tame_with_tun; intros; apply tame_fold; intros; apply tame_on_stream, keeps_close].
  apply tame_with_tun. intros t _. destruct (t_agent t); [apply tame_agent_drop|done].
Qed.

(** The other tunnels, seen across a deletion. *)
Lemma delete_others id ta k u b : tm_tunnel_find b id = Some ta -> k <> ta ->
  tuns (snd (tm_tunnel_delete id b)) !! k = Some u ->
  exists v, tuns b !! k = Some v /\ t_creds u = t_creds v /\
    (t_agent u = t_agent v \/ t_agent u = None) /\ (t_streams v = [] -> t_agent v = None -> t_streams u = []).
Proof.
  intros Ef Hk. unfold tm_tunnel_delete. rewrite Ef. cbv zeta. cbn [snd].
  pose proof (tame_teardown ta (upd_tun ta mark_deleting b)) as Ht. set (b2 := tm_tunnel_teardown ta _) in *.
  assert (forall x, tuns (release_tunnel ta x) !! k = tuns x !! k) as Hrel.
  { intros x. unfold release_tunnel, with_tun. destruct (tuns x !! ta); [|done]. destruct (_ =? 0); [|done].
    change (tuns (x <| tuns ::= _ |>)) with (delete ta (tuns x)). by rewrite lookup_delete_ne. }
  rewrite Hrel. change (tuns (b2 <| tunnels ::= _ |> <| tunnel_count ::= _ |>)) with (tuns b2). intros Eu.
  destruct (ta_tun _ _ Ht k u Eu) as (v & Ev & Q).
  assert (tuns (upd_tun ta mark_deleting b) !! k = tuns b !! k) as Hu.
  { unfold upd_tun, with_tun. destruct (tuns b !! ta); [|done]. by apply lookup_insert_ne. }
  rewrite Hu in Ev. eauto.
Qed.

Lemma gone_delete id b : reg b -> gone_ok b -> gone_ok (snd (tm_tunnel_delete id b)).
Proof.
  intros Hr G. pose proof (tunnel_delete_cases id b Hr) as Hc.
  pose proof (fun ta k u => delete_others id ta k u b) as Ho.
  destruct (tm_tunnel_delete id b) as [[] b']; [|by destruct Hc as [-> _]].
  destruct Hc as (ta & t & Ef & Et & Hr' & Hi & Hl & _). cbn [snd] in *. intros k u Eu Hd.
  rewrite Hl, elem_of_unlink by apply (rg_names _ Hr). destruct (decide (k = ta)) as [->|Hk].
  - destruct (Hi u Eu). split_and!; naive_solver.
  - destruct (Ho ta k u Ef Hk Eu) as (v & Ev & Ec & Ea & Es). injection Ec as _ _ _ _ _ Ed. rewrite Ed in Hd.
    destruct (G k v Ev Hd) as (Q1 & Q2 & Q3). split_and!; [naive_solver|destruct Ea as [-> | ->]; done|auto].
Qed.

(** The registry with its deleted tunnels. *)
Definition binv (b : broker) : Prop := reg b /\ gone_ok b.

Lemma binv_tame b b' : tame b b' -> reg b' -> binv b -> binv b'.
Proof. intros Ht Hr [_ G]. split; [done|]. by apply gone_tame with b. Qed.

Lemma binv_delete id b : binv b -> binv (snd (tm_tunnel_delete id b)).
Proof.
  intros [Hr G]. split; [|by apply gone_delete]. pose proof (tunnel_delete_cases id b Hr) as Hc.
  destruct (tm_tunnel_delete id b) as [[] b']; [|by destruct Hc as [-> _]].
  by destruct Hc as (ta & t & _ & _ & Hr' & _).
Qed.

Lemma binv_create id proto closed ah th prefer r b : binv b ->
  binv (snd (tm_tunnel_create id proto closed ah th prefer r b)).
Proof.
  intros [Hr G]. split; [by apply reg_tunnel_create|].
  pose proof (tunnel_create_cases id proto closed ah th prefer r b Hr) as Hc.
  destruct (tm_tunnel_create id proto closed ah th prefer r b) as [[ta|] b']; cbn [snd].
  - destruct Hc as (port & ps & now & -> & _ & _ & _ & Hcore & _).
    injection Hcore as E1 E2 _ _ _ _ _ _ _. intros k u. rewrite E1, E2. upd_case k (b_next b).
    + intros [= <-]. pose proof (start_socket_creds r (new_tunnel id proto closed ah th port now)) as Hcr.
      injection Hcr as _ _ _ _ _ Ed. rewrite Ed. done.
    + intros Eu Hd. destruct (G k u Eu Hd) as (Q1 & Q2 & Q3). rewrite elem_of_cons. split_and!; naive_solver.
  - destruct Hc as [Hcore _]. injection Hcore as E1 E2 _ _ _ _ _ _ _. intros k u. rewrite E1, E2. apply G.
Qed.

Lemma binv_sock_closed ta r b : binv b -> binv (tunnel_sock_closed ta r b).
Proof.
  intros [Hr G]. unfold tunnel_sock_closed, with_tun. destruct (tuns b !! ta) as [t|] eqn:Et; [|by apply (binv_tame b); [apply tame_eq|apply (reg_core b)|]].
  cbv zeta. set (k := usock (t_udp t) <| Listener.handle := Listener.H_NONE |>). set (k' := Listener.sock_closed r k).
  assert (Listener.deleting k' = Listener.deleting k /\ (Listener.frees k < Listener.frees k' -> Listener.deleting k = true)) as [Hd Hf].
  { unfold k', Listener.sock_closed, Listener.tunnel_listener_closed, Listener.tunnel_udp_closed, Listener.tm_tunnel_listener_start,
      Listener.free_tunnel, Listener.uv_init. clearbody k. destruct k as [p c lo lc rp uo de cr h fr fa]. cbn.
    destruct p, de; cbn; repeat (case_match; cbn); (split; [done|lia]). }
  set (t' := t <| t_udp ::= fun u => u <| usock := k' |> |>). set (b1 := put_tun ta t' b).
  assert (binv b1) as Hb1.
  { assert (t_creds t' = t_creds t) as Hc.
    { unfold t_creds, deleting. change (usock (t_udp t')) with k'. by rewrite Hd. }
    apply (binv_tame b); [by apply tame_put_tun with t; auto|by apply reg_put with t|by split]. }
  destruct (_ <? _) eqn:El; zb; [|done]. specialize (Hf El).
  assert (tuns b1 !! ta = Some t') as Et1 by apply lookup_insert_eq.
  destruct Hb1 as [Hr1 G1]. destruct (G1 ta t' Et1) as (Q1 & Q2 & Q3).
  { unfold deleting. change (usock (t_udp t')) with k'. by rewrite Hd. }
  split; [by apply reg_free_tunnel with t'|]. intros x u.
  change (tuns (b1 <| tuns ::= _ |>)) with (delete ta (tuns b1)). upd_case x ta; [done|]. apply G1.
Qed.

Lemma binv_on_stream sa f b : keeps f -> binv b -> binv (on_stream sa f b).
Proof.
  intros Hf Hb. apply (binv_tame b); [by apply tame_on_stream|apply reg_on_stream; [apply Hf|apply Hb]|done].
Qed.

Lemma keeps_closing : keeps (@tm_stream_close io).
Proof. apply keeps_close. Qed.

Lemma create_open_ok ta now t b : reg b -> tuns b !! ta = Some t -> t_agent t <> None ->
  tame b (snd (create_open ta now b)) /\ reg (snd (create_open ta now b)).
Proof.
  intros Hr Et Ha. unfold create_open. split; [eapply tame_stream_create; [apply creator_open|done|done]|].
  apply reg_stream_create; [apply creator_open|done].
Qed.
Lemma create_closed_ok ta now i t b : reg b -> tuns b !! ta = Some t -> t_agent t <> None ->
  tame b (snd (create_closed ta now i b)) /\ reg (snd (create_closed ta now i b)).
Proof.
  intros Hr Et Ha. unfold create_closed. split; [eapply tame_stream_create; [apply creator_closed|done|done]|].
  apply reg_stream_create; [apply creator_closed|done].
Qed.

Lemma online_agent b ta t : reg b -> tuns b !! ta = Some t -> agent_online t = true -> exists a, t_agent t = Some a.
Proof.
  intros Hr Et Eo. pose proof (ag_online _ _ (rg_agents _ Hr) ta t Et) as Hon. rewrite Eo in Hon. symmetry in Hon.
  by apply bool_decide_eq_true in Hon.
Qed.

Lemma public_accept_tame ta peer b : reg b -> tame b (on_public_accept ta peer b) /\ reg (on_public_accept ta peer b).
Proof.
  intros Hr. unfold on_public_accept, with_tun. destruct (tuns b !! ta) as [t|] eqn:Et; [|split; [done|by apply (reg_core b)]].
  destruct (b_shutting_down b || negb (t_enabled t)); [done|]. destruct peer as [addr|]; [|done]. cbn [now_ms].
  set (r := Rate.rate_allow _ _ _ _). destruct r as [ok lim]. cbv zeta.
  set (b1 := _ <| b_limiter := lim |>). assert (core b1 = core b) as Hc1 by done.
  assert (tame b b1) as Ht1 by done. assert (reg b1) as Hr1 by (by apply (reg_core b)).
  assert (tuns b1 = tuns b) as Em by done. clearbody b1.
  destruct ok; cbn [negb]; [|done]. destruct (agent_online t) eqn:Eo; cbn [negb].
  2:{ split; [eapply tame_trans; [exact Ht1|by apply tame_upd_tun]|by apply reg_upd_tun]. }
  assert (t_agent t <> None) as Ha.
  { by destruct (online_agent b ta t Hr Et Eo) as [a ->]. }
  set (b2 := b1 <| b_ticks ::= S |>). assert (tame b b2) as Ht2 by (by eapply tame_trans).
  assert (reg b2) as Hr2 by (by apply (reg_core b1)). assert (tuns b2 !! ta = Some t) as Et2 by (by rewrite <- Em in Et).
  set (now := clock (b_ticks b1)). clearbody b2 now.
  destruct (create_open_ok ta now t b2 Hr2 Et2 Ha) as [Ht3 Hr3]. destruct (create_open ta now b2) as [[sa|] b3]; cbn [snd] in Ht3, Hr3.
  2:{ split; [by eapply tame_trans|done]. }
  assert (tame b b3) as Ht by (by eapply tame_trans).
  case_bool_decide.
  - split; [eapply tame_trans; [exact Ht|apply tame_on_stream, keeps_closing]|apply reg_on_stream; [apply keeps_closing|done]].
  - destruct (strs b3 !! sa) as [[k s]|]; destruct (t_agent t) as [a|]; try done.
    + split; [eapply tame_trans; [exact Ht|apply tame_agent_send_frame]|by apply reg_agent_send_frame].
    + split; [by eapply tame_trans|by apply (reg_core b3)].
Qed.

(** A new session of an offline tunnel. *)
Lemma reg_new_agent ta t t' ag b b' : reg b -> tuns b !! ta = Some t -> t_agent t = None -> a_tun ag = ta ->
  t_static t' = t_static t -> t_streams t' = t_streams t -> t_streams_active t' = t_streams_active t ->
  t_agent t' = Some (b_next b) -> agent_online t' = true ->
  core b' = (<[ta := t']> (tuns b), tunnels b, tunnel_count b, <[b_next b := ag]> (agents b), strs b,
             b_stream_count b, b_ports b, 1 + b_next b, b_cfg b) -> reg b'.
Proof.
  intros [N [A B C] S F] Et Hn Ha Hst Hs Hsa Hag Hon Hcore. injection Hcore as E1 E2 E3 E4 E5 E6 E7 E8 E9.
  pose proof (fresh_none_agent _ _ _ _ F) as Hfr.
  constructor; rewrite ?E1, ?E2, ?E3, ?E4, ?E5, ?E6, ?E7, ?E8, ?E9.
  - by apply (names_ext (tuns b)); [intros; apply put_static with t|].
  - constructor.
    + intros k u a. upd_case k ta.
      * intros [= <-]. rewrite Hag. intros [= <-]. exists ag. by rewrite lookup_insert_eq.
      * intros Eu Hu. destruct (A k u a Eu Hu) as (g & Eg & Hg). exists g. rewrite lookup_insert_ne; [done|]. congruence.
    + intros a g. upd_case a (b_next b).
      * intros [= <-]. rewrite Ha. exists t'. by rewrite lookup_insert_eq.
      * intros Eg. destruct (B a g Eg) as (u & Eu & Hu). exists u. rewrite lookup_insert_ne; [done|]. congruence.
    + intros k u. upd_case k ta; [|apply C]. intros [= <-]. by rewrite Hag, Hon.
  - by apply streams_put with t.
  - apply fresh_put with t; [done|]. destruct (fresh_step _ _ _ _ F) as [Fa Fb Fc]. constructor; try done.
    intros a g. upd_case a (b_next b); [lia|apply Fb].
Qed.

(** Deleting a tunnel touches no pending connection. *)
Lemma conns_agent_drop a b : conns (tm_agent_drop a b) = conns b.
Proof.
  unfold tm_agent_drop. destruct (agents b !! a) as [ag|]; [|done]. destruct (tuns b !! a_tun ag); [|done]. by case_bool_decide.
Qed.
Lemma conns_delete id b : conns (snd (tm_tunnel_delete id b)) = conns b.
Proof.
  assert (forall ta b k, (forall t, conns (k t) = conns b) -> conns (with_tun ta b k) = conns b) as Hw
    by (intros ta0 b0 k Hk; unfold with_tun; by destruct (tuns b0 !! ta0)).
  assert (forall l b, conns (fold_left (fun b sa => tm_stream_close_at sa b) l b) = conns b) as Hf.
  { induction l as [|sa l IH]; intros b0; cbn [fold_left]; [done|]. rewrite IH.
    pose proof (rest_on_stream sa tm_stream_close b0) as Hr. by injection Hr. }
  unfold tm_tunnel_delete. destruct (tm_tunnel_find b id) as [ta|]; [|done]. cbv zeta. cbn [snd].
  assert (forall b0, conns (release_tunnel ta b0) = conns b0) as Hrel
    by (intros b0; apply Hw; intros t; by destruct (_ =? 0)).
  rewrite Hrel. change (conns (?x <| tunnels ::= _ |> <| tunnel_count ::= _ |>)) with (conns x).
  unfold tm_tunnel_teardown. cbv zeta. rewrite Hw by done. rewrite Hw by (intros; apply Hf).
  rewrite Hw by (intros t; destruct (t_agent t); [apply conns_agent_drop|done]).
  unfold upd_udp, upd_tun. by rewrite !Hw.
Qed.

Lemma slot_replicate n i : Ports.slot (replicate n false) i = false.
Proof. unfold Ports.slot. destruct (_ !! i) eqn:E; [|done]. by apply lookup_replicate in E as [-> _]. Qed.

Lemma used_replicate n : Ports.used (replicate n false) = 0.
Proof. unfold Ports.used. by induction n. Qed.

(** A started broker is consistent. *)
Lemma binv_new cfg key b : 1 <= BrokerCfg.public_port_start cfg -> BrokerCfg.public_port_end cfg < 2 ^ 16 ->
  broker_new cfg key = Some b -> binv b.
Proof.
  intros Hlo Hhi. unfold broker_new. destruct (_ <? _) eqn:E; [done|]. zb. intros [= <-].
  split; [|by intros ta t ?].
  constructor; (constructor; cbn; try (intros *; rewrite ?lookup_empty; done); try lia; try apply NoDup_nil_2).
  all: try (intros; match goal with Hin : _ ∈ [] |- _ => by apply elem_of_nil in Hin end).
  - constructor; cbn; unfold Ports.nports, blen; cbn; rewrite ?length_replicate, ?used_replicate; try lia. done.
  - intros p i. destruct p; cbn; by rewrite slot_replicate.
Qed.

(** ** Creating and deleting tunnels *)

(** C15: a tunnel is created exactly when none of five reasons speaks against it: the
    broker shuts down, has too many tunnels, the name is taken or too long, or no port of
    the protocol is free.  A refusal has one of the reasons and changes nothing; a
    creation has none.  The new tunnel is found by its
    name, carries the digests it was given and no session; it holds a port of the range
    that was free for its protocol, the preferred one if that was free, and a closed TCP
    tunnel holds none; no other tunnel changes and the registry stays consistent. *)
Theorem tunnel_create_correct id proto closed ah th prefer r b :
  reg b ->
  match tm_tunnel_create id proto closed ah th prefer r b with
  | (None, b') => b' = b /\ create_refused id proto closed b
  | (Some ta, b') => ~ create_refused id proto closed b /\
      reg b' /\ tm_tunnel_find b id = None /\ tm_tunnel_find b' id = Some ta /\
      (forall k, k <> ta -> tuns b' !! k = tuns b !! k) /\
      exists t, tuns b' !! ta = Some t /\ t_id t = id /\ t_proto t = proto /\ t_closed t = closed /\
        t_enabled t = true /\ t_agent t = None /\ t_streams t = [] /\
        t_agent_hmac t = str_trunc 65 ah /\
        t_token_hmac t = (match th with Some h => str_trunc 65 h | None => [] end) /\ port_given t (b_ports b) (b_ports b') /\
        (needs_port t = true -> Ports.tm_port_in_range (b_ports b) prefer = true ->
         Ports.slot (Ports.table (b_ports b) proto) (Ports.port_index (b_ports b) prefer) = false ->
         public_port t = prefer)
  end.
Proof.
  intros Hr. pose proof (tunnel_create_cases id proto closed ah th prefer r b Hr) as Hc.
  pose proof (reg_tunnel_create id proto closed ah th prefer r b Hr) as Hr'.
  pose proof (tunnel_create_iff id proto closed ah th prefer r b Hr) as Hi.
  destruct (tm_tunnel_create id proto closed ah th prefer r b) as [[ta|] b']; [|by destruct Hc]. cbn [snd] in Hr'.
  destruct Hc as (port & ps & now & -> & Hg & _ & Hnone & Hcore & _ & _ & Hp).
  set (t := start_socket r _) in *. injection Hcore as E1 E2 _ _ _ _ E7 _ _.
  pose proof (start_socket_frame r (new_tunnel id proto closed ah th port now)) as Fr. fold t in Fr.
  unfold t_frame in Fr. injection Fr as F1 F2 F3 F4 F5 _ F7 _.
  pose proof (start_socket_creds r (new_tunnel id proto closed ah th port now)) as Cr. fold t in Cr.
  injection Cr as _ _ C3 C4 C5 _. split_and!; [done|done|done|..].
  - apply find_tunnel_iff with t; [done|rewrite E2; by left|by rewrite E1, lookup_insert_eq|done].
  - intros k Hk. by rewrite E1, lookup_insert_ne.
  - exists t. rewrite E1, E7, lookup_insert_eq. split_and!; try done. rewrite F4. exact Hp.
Qed.

(** C16: deleting a tunnel leaves nothing of it in use.  The name is free again, the
    tunnel's session is gone, every stream it had is closed, its port is free for its
    protocol and the other ports are as they were; the registry stays consistent.  An
    unknown name changes nothing. *)
Theorem tunnel_delete_correct id b :
  reg b ->
  match tm_tunnel_delete id b with
  | (false, b') => b' = b /\ tm_tunnel_find b id = None
  | (true, b') => exists ta t, tm_tunnel_find b id = Some ta /\ tuns b !! ta = Some t /\
      reg b' /\ tm_tunnel_find b' id = None /\
      (forall a ag, agents b' !! a = Some ag -> a_tun ag <> ta) /\
      (forall sa s, strs b' !! sa = Some (ta, s) -> Relay.closing s = true) /\
      b_ports b' = Ports.tm_port_free (b_ports b) (t_proto t) (public_port t) /\
      (needs_port t = true ->
       Ports.slot (Ports.table (b_ports b') (t_proto t)) (Ports.port_index (b_ports b) (public_port t)) = false)
  end.
Proof.
  intros Hr. pose proof (tunnel_delete_cases id b Hr) as Hc. pose proof (fun ta k u => delete_others id ta k u b) as Ho.
  destruct (tm_tunnel_delete id b) as [[] b']; [|done]. cbn [snd] in Ho.
  destruct Hc as (ta & t & Ef & Et & Hr' & Hi & Hl & _ & Hp & _). exists ta, t.
  destruct (find_tunnel_elem b id ta Ef) as (Hin & t0 & Et0 & Hid). rewrite Et in Et0. injection Et0 as <-.
  pose proof (rg_names _ Hr) as N. split_and!; try done.
  - destruct (tm_tunnel_find b' id) as [k|] eqn:Ek; [|done]. exfalso.
    destruct (find_tunnel_elem b' id k Ek) as (Hk & u & Eu & Hu). rewrite Hl, elem_of_unlink in Hk by apply N.
    destruct Hk as [Hk Hne]. destruct (Ho ta k u Ef Hne Eu) as (v & Ev & Ec & _). injection Ec as Ei _ _ _ _ _.
    apply Hne. apply (nm_ids _ _ _ _ _ N k ta v t); congruence.
  - intros a ag Ea Hta. destruct (ag_owned _ _ (rg_agents _ Hr') a ag Ea) as (u & Eu & Hu). rewrite Hta in Eu.
    destruct (Hi u Eu). congruence.
  - intros sa s Es. destruct (so_linked _ _ _ _ (rg_streams _ Hr') sa ta s Es) as [Hlk Hx].
    destruct (Relay.linked s); [|by destruct (Relay.closing s)].
    destruct (Hx eq_refl) as (u & Eu & Hu). destruct (Hi u Eu) as [_ Hs]. rewrite Hs in Hu. by apply elem_of_nil in Hu.
  - intros Hn. rewrite Hp, Ports.port_free_slots; [by rewrite decide_True|apply N|].
    by apply (nm_slot _ _ _ _ _ N ta t).
Qed.

End Broker.
