(* ===== verification/Control.v ===== *)
(** * The control port

    src/broker/src/control.c: every TLS connection to the broker starts as a pending
    connection whose first frames decide its role: HELLO and then REGISTER (an agent's
    control session) or AUTH (a peer of a closed tunnel), or DATA_BIND (an agent's
    data connection for a stream).  Heartbeats, the idle sweep and the shutdown of all
    sessions are here too.

    A write may run the connection's error callback before it returns; the handlers go
    on as the code does, and what they then touch shows in [b_fault]. *)

From S2P Require Import Prelude.
From S2P Require Import Wire.
From S2P Require Import Text.
From S2P Require Import Config.
From S2P Require Import Io.
From S2P Require Import Relay.
From S2P Require Import Registry.
From S2P Require Import Udp.
From S2P Require Import Broker.
Import Crypto.

#[local] Arguments Z.of_nat : simpl never.

Definition TM_MAX_PENDING_CONNS : Z := 4096.

Section Control.
Context {io : Type} `{TmIo io} `{OpenSSL} `{DTLS}.
Abbreviation broker := (@broker io _).
Abbreviation tm_conn := (@tm_conn io).

Variable clock : nat -> Z.
(** The TCP leg [tm_io_tcp_new] makes on a public socket. *)
Variable raw : io.

(** ** Pending connections *)

Definition with_conn (c : Z) (b : broker) (k : tm_conn -> broker) : broker :=
  match conns b !! c with Some x => k x | None => faulty b end.
Definition put_conn (c : Z) (x : tm_conn) (b : broker) : broker := b <| conns ::= fun m => <[c := x]> m |>.
Definition upd_conn (c : Z) (g : tm_conn -> tm_conn) (b : broker) : broker :=
  with_conn c b (fun x => put_conn c (g x) b).

Definition conn_unlink (c : Z) (b : broker) : broker := b <| conn_list ::= unlink c |>.

(** [uv_timer_stop] and [uv_close] of the embedded timer, whose callback frees the
    connection; closing it twice is an error of the program. *)
Definition close_timer (c : Z) (b : broker) : broker :=
  with_conn c b (fun x =>
  let b := put_conn c (x <| hs_closing := true |>) b in
  if hs_closing x then faulty b else b).

Definition conn_close (c : Z) (b : broker) : broker :=
  with_conn c b (fun x =>
  if c_closing x then b
  else
    let b := close_timer c (conn_unlink c (put_conn c (x <| c_closing := true |>) b)) in
    upd_conn c (fun x => x <| c_io := None |> <| c_sock := false |> <| c_fr := None |>) b).

Definition conn_eof (c : Z) (b : broker) : broker := conn_close c b.
Definition conn_error (c : Z) (b : broker) : broker := conn_close c b.

(** The callbacks that ran inside a write to a pending connection. *)
Definition conn_ups (c : Z) (us : list upcall) (b : broker) : broker :=
  fold_left (fun b u => match u with UpLow => b | UpError => conn_error c b end) us b.

(** [send_frame_raw] to a pending connection. *)
Definition send_frame_raw (c : Z) (type sid : Z) (msg : bytes) (b : broker) : broker :=
  with_conn c b (fun x =>
  match c_io x with
  | None => b
  | Some i =>
      match tm_frame_make type sid msg (blen msg) ≫= tm_frame_encode with
      | None => bincr b_protocol_errors b
      | Some buf =>
          let '(st, us, i') := io_write i buf in
          let b := conn_ups c us (put_conn c (x <| c_io := Some i' |>) b) in
          match st with TM_OK => b | _ => bincr b_protocol_errors b end
      end
  end).

(** [send_frame_raw] to the consumer leg of a stream. *)
Definition send_frame_leg_a (sa : Z) (type sid : Z) (b : broker) : broker :=
  match tm_frame_make type sid [] 0 ≫= tm_frame_encode, strs b !! sa with
  | Some buf, Some (_, s) =>
      match leg (to_a s) with
      | None => b
      | Some i =>
          let st := fst (fst (io_write i buf)) in
          let b := on_stream sa (fun s => snd (leg_write (upcall_n relay_depth) A buf s)) b in
          match st with TM_OK => b | _ => bincr b_protocol_errors b end
      end
  | Some _, None => faulty b
  | None, _ => bincr b_protocol_errors b
  end.

(** The end of a connection that was handed on: unlinked, its timer closed. *)
Definition retire (c : Z) (b : broker) : broker := close_timer c (conn_unlink c b).

(** ** Credentials *)

(** [u16 idlen][id][secret]; [None] where the frame is refused unread. *)
Definition credentials (f : tm_frame) : option (bytes * bytes) :=
  if (f_payload_len f <? 3) || (2 + TM_TUNNEL_ID_LEN + TM_MAX_SECRET <? f_payload_len f) then None
  else
    let idlen := rd_u16 (f_payload f) in
    if (idlen =? 0) || (f_payload_len f <? 2 + idlen) then None
    else if f_payload_len f - 2 - idlen =? 0 then None
    else Some (take (Z.to_nat idlen) (drop 2 (f_payload f)),
               take (Z.to_nat (f_payload_len f - 2 - idlen)) (drop (Z.to_nat (2 + idlen)) (f_payload f))).

(** The copy of the id into [char id[TM_TUNNEL_ID_LEN + 1]]. *)
Definition copy_id (id : bytes) (b : broker) : broker :=
  if TM_TUNNEL_ID_LEN + 1 <? blen id + 1 then b <| overflow := true |> else b.

Definition never_matches : bytes := repeat 48 64.

Definition bad_register (c : Z) (b : broker) : broker :=
  conn_close c (send_frame_raw c TM_MSG_REGISTER_ERROR 0 (cstr "bad register") b).
Definition reject_register (c : Z) (b : broker) : broker :=
  conn_close c (send_frame_raw c TM_MSG_REGISTER_ERROR 0 (cstr "bad credentials") (bincr b_failed_auths b)).
Definition reject_auth (c : Z) (b : broker) : broker :=
  conn_close c (send_frame_raw c TM_MSG_AUTH_ERROR 0 (cstr "bad credentials") (bincr b_failed_auths b)).

(** ** Agents *)

(** [send_frame_raw] to an agent session. *)
Definition send_frame_agent (a : Z) (type sid : Z) (b : broker) : broker :=
  match tm_frame_make type sid [] 0 ≫= tm_frame_encode with
  | None => bincr b_protocol_errors b
  | Some buf => match agent_write a buf b with
                | (TM_OK, b) => b
                | (_, b) => bincr b_protocol_errors b
                end
  end.

(** The connection [c] becomes the control session of tunnel [ta], in place of the old one. *)
Definition install_agent (c ta : Z) (x : tm_conn) (t : tm_tunnel) (i : io) (fr : tm_frame_reader) (b : broker) : Z * broker :=
  let '(now, b) := now_ms clock b in
  let '(a, b) := alloc b in
  let b := upd_conn c (fun x => x <| c_sock := false |> <| c_io := None |> <| c_fr := None |>) b in
  let b := b <| agents ::= fun m => <[a := Agent ta i fr now now (str_trunc 128 (c_remote x))]> m |> in
  let b := match t_agent t with
           | Some old => tm_agent_drop old (bincr agent_reconnects b)
           | None => b
           end in
  (a, upd_tun ta (fun t => t <| t_agent := Some a |> <| agent_online := true |> <| last_seen_ms := now |>) b).

(** [agent_register] from the promotion on; its log line reads the session again. *)
Definition promote (c ta : Z) (x : tm_conn) (t : tm_tunnel) (i : io) (fr : tm_frame_reader) (b : broker) : broker :=
  let '(a, b) := install_agent c ta x t i fr b in
  let b := send_frame_agent a TM_MSG_REGISTER_OK 0 b in
  let b := match agents b !! a with Some _ => b | None => faulty b end in
  retire c b.

(** The tunnel that [tm_tunnel_find] gives, with its record. *)
Definition named_tunnel (b : broker) (id : bytes) : option (Z * tm_tunnel) :=
  match tm_tunnel_find b id with
  | Some ta => (fun t => (ta, t)) <$> tuns b !! ta
  | None => None
  end.

(** From the lookup on. *)
Definition register_as (c : Z) (id secret : bytes) (b : broker) : broker :=
  let found := named_tunnel b (strz id) in
  let expected := match found with
                  | Some (_, t) => if t_enabled t then t_agent_hmac t else never_matches
                  | None => never_matches
                  end in
  let secret_ok := tm_ct_eq_hex (secret_digest (b_hmac_key b) secret) expected in
  match found with
  | None => reject_register c b
  | Some (ta, t) =>
      if negb (t_enabled t) || negb secret_ok then reject_register c b
      else with_conn c b (fun x =>
           match c_io x, c_fr x with
           | Some i, Some fr => promote c ta x t i fr b
           | _, _ => faulty b
           end)
  end.

Definition agent_register (c : Z) (f : tm_frame) (b : broker) : broker :=
  match credentials f with
  | None => bad_register c b
  | Some (id, secret) => register_as c id secret (copy_id id b)
  end.

(** The effect of one frame of an agent. *)
Definition agent_frame (a : Z) (f : tm_frame) (b : broker) : broker :=
  if f_type f =? TM_MSG_PING then tm_agent_send_frame a (tm_frame_make TM_MSG_PONG 0 [] 0) b
  else if f_type f =? TM_MSG_PONG then b
  else if (f_type f =? TM_MSG_OPEN_STREAM_ERROR) || (f_type f =? TM_MSG_CLOSE_STREAM) ||
          (f_type f =? TM_MSG_KILL_STREAM) then
    match agents b !! a with
    | None => faulty b
    | Some ag => with_tun (a_tun ag) b (fun t =>
                 match stream_find b t (f_stream_id f) with
                 | Some sa => tm_stream_close_at sa b
                 | None => b
                 end)
    end
  else b.

(** The read loop of an agent session; the session's reader is looked at again after
    every frame, also when the frame's answer dropped the session. *)
Fixpoint agent_loop (fuel : nat) (a : Z) (data : bytes) (b : broker) : broker :=
  match fuel with
  | O => b <| b_stuck := true |>
  | S fuel' =>
      match agents b !! a with
      | None => faulty b
      | Some ag =>
          let '(r, fr) := tm_frame_reader_feed (a_fr ag) data in
          let b := b <| agents ::= fun m => <[a := ag <| a_fr := fr |>]> m |> in
          match r with
          | FeedErr => tm_agent_drop a b
          | FeedMore => b
          | FeedFrame f => agent_loop fuel' a [] (agent_frame a f b)
          end
      end
  end.

Definition agent_conn_read (a : Z) (data : bytes) (b : broker) : broker :=
  match agents b !! a with
  | None => faulty b
  | Some ag =>
      let '(now, b) := now_ms clock b in
      agent_loop (S (length (fr_buf (a_fr ag)) + length data)) a data
        (b <| agents ::= fun m => <[a := ag <| a_last_rx_ms := now |>]> m |>)
  end.

Definition agent_conn_eof (a : Z) (b : broker) : broker := tm_agent_drop a b.
Definition agent_conn_error (a : Z) (b : broker) : broker := tm_agent_drop a b.

(** ** Peers of closed tunnels *)

Definition auth_as (c : Z) (id secret : bytes) (b : broker) : broker :=
  let found := named_tunnel b (strz id) in
  let usable := match found with
                | Some (_, t) => t_closed t && t_enabled t && negb (bool_decide (t_token_hmac t = []))
                | None => false
                end in
  let expected := match found with
                  | Some (_, t) => if usable then t_token_hmac t else never_matches
                  | None => never_matches
                  end in
  let token_ok := tm_ct_eq_hex (secret_digest (b_hmac_key b) secret) expected in
  match found with
  | Some (ta, _) =>
      if negb usable || negb token_ok then reject_auth c b
      else send_frame_raw c TM_MSG_AUTH_OK 0 []
             (upd_conn c (fun x => x <| peer_authed := true |> <| peer_tun := Some ta |>) b)
  | None => reject_auth c b
  end.

Definition peer_auth (c : Z) (f : tm_frame) (b : broker) : broker :=
  match credentials f with
  | None => reject_auth c b
  | Some (id, secret) => auth_as c id secret (copy_id id b)
  end.

Definition pending_streams (b : broker) (t : tm_tunnel) : Z :=
  blen (List.filter (fun sa => match strs b !! sa with Some (_, s) => negb (Relay.bound s) | None => false end) (t_streams t)).

Definition bind_error (c sid : Z) (msg : bytes) (b : broker) : broker :=
  conn_close c (send_frame_raw c TM_MSG_DATA_BIND_ERROR sid msg b).

Definition peer_open_stream (c : Z) (b : broker) : broker :=
  with_conn c b (fun x =>
  match peer_tun x with
  | None => bind_error c 0 (cstr "tunnel offline") b
  | Some ta =>
      with_tun ta b (fun t =>
      match (if agent_online t then t_agent t else None) with
      | None => bind_error c 0 (cstr "tunnel offline") b
      | Some a =>
          if BrokerCfg.max_pending_streams (b_cfg b) <=? pending_streams b t
          then bind_error c 0 (cstr "no capacity") b
          else match c_io x, c_fr x with
          | Some i, Some fr =>
              let '(lo, fr) := tm_frame_reader_drain fr in
              let b := put_conn c (x <| c_fr := Some fr |>) b in
              let '(now, b) := now_ms clock b in
              match create_closed ta now i b with
              | (None, b) => bind_error c 0 (cstr "no capacity") b
              | (Some sa, b) =>
                  let b := upd_conn c (fun x => x <| c_sock := false |> <| c_io := None |>) b in
                  let b := send_frame_leg_a sa TM_MSG_DATA_BIND_OK 0 b in
                  let sid := match strs b !! sa with Some (_, s) => Relay.id s | None => 0 end in
                  let b := tm_agent_send_frame a (tm_frame_make TM_MSG_OPEN_STREAM sid [] 0) b in
                  let b := if blen lo =? 0 then b else on_stream sa (tm_stream_ingest_a lo) b in
                  retire c (upd_conn c (fun x => x <| c_fr := None |>) b)
              end
          | _, _ => faulty b
          end
      end)
  end).

Definition peer_frame (c : Z) (f : tm_frame) (b : broker) : broker :=
  if f_type f =? TM_MSG_DATA_BIND then
    if f_stream_id f =? 0 then peer_open_stream c b
    else conn_close c (bincr b_protocol_errors b)
  else if f_type f =? TM_MSG_CLOSE_STREAM then
    with_conn c b (fun x =>
    match peer_tun x with
    | None => faulty b
    | Some ta => with_tun ta b (fun t =>
                 match stream_find b t (f_stream_id f) with
                 | Some sa => tm_stream_close_at sa b
                 | None => b
                 end)
    end)
  else if f_type f =? TM_MSG_PING then send_frame_raw c TM_MSG_PONG 0 [] b
  else conn_close c (bincr b_protocol_errors b).

(** ** Agent data connections *)

(** The first stream with that id, over all tunnels. *)
Fixpoint find_stream (tas : list Z) (sid : Z) (b : broker) : option Z :=
  match tas with
  | [] => None
  | ta :: tas' => match tuns b !! ta with
                  | Some t => match stream_find b t sid with
                              | Some sa => Some sa
                              | None => find_stream tas' sid b
                              end
                  | None => None
                  end
  end.

(** The connection becomes the agent leg of stream [sa].  When the answer closed the
    connection under the handler, its leg is gone and its timer is closed again. *)
Definition bind_stream (c sa sid : Z) (b : broker) : broker :=
  with_conn c b (fun x =>
  match c_fr x with
  | None => faulty b
  | Some fr =>
      let '(lo, fr) := tm_frame_reader_drain fr in
      let b := put_conn c (x <| c_fr := Some fr |>) b in
      let b := send_frame_raw c TM_MSG_DATA_BIND_OK sid [] b in
      with_conn c b (fun x =>
      match c_io x with
      | None => faulty b
      | Some i =>
          let b := on_stream sa (tm_stream_relay_attach_agent (upcall_n relay_depth) raw i) b in
          let b := upd_conn c (fun x => x <| c_sock := false |> <| c_io := None |>) b in
          let b := if blen lo =? 0 then b else on_stream sa (tm_stream_ingest lo) b in
          retire c (upd_conn c (fun x => x <| c_fr := None |>) b)
      end)
  end).

Definition data_conn_first_frame (c : Z) (f : tm_frame) (b : broker) : broker :=
  let sid := f_stream_id f in
  if (sid =? 0) || (f_payload_len f =? 0) || (TM_MAX_SECRET <? f_payload_len f)
  then conn_close c (bincr b_protocol_errors b)
  else
    match find_stream (tunnels b) sid b ≫= fun sa => (fun p => (sa, p)) <$> strs b !! sa with
    | None => bind_error c sid (cstr "no such stream") b
    | Some (sa, (ta, s)) =>
        with_tun ta b (fun t =>
        if Relay.bound s || Relay.closing s || negb (t_enabled t)
        then bind_error c sid (cstr "no such stream") b
        else if negb (tm_ct_eq_hex (secret_digest (b_hmac_key b) (f_payload f)) (t_agent_hmac t))
        then bind_error c sid (cstr "bad credentials") (bincr b_failed_auths b)
        else bind_stream c sa sid b)
    end.

(** ** Dispatch *)

Definition conn_frame (c : Z) (f : tm_frame) (b : broker) : broker :=
  with_conn c b (fun x =>
  if negb (got_hello x) then
    if f_type f =? TM_MSG_HELLO
    then send_frame_raw c TM_MSG_HELLO_ACK 0 [] (put_conn c (x <| got_hello := true |>) b)
    else if f_type f =? TM_MSG_DATA_BIND then data_conn_first_frame c f b
    else conn_close c (bincr b_protocol_errors b)
  else if peer_authed x then peer_frame c f b
  else if f_type f =? TM_MSG_REGISTER then agent_register c f b
  else if f_type f =? TM_MSG_AUTH then peer_auth c f b
  else if f_type f =? TM_MSG_PING then send_frame_raw c TM_MSG_PONG 0 [] b
  else conn_close c (bincr b_protocol_errors b)).

(** The read loop; it ends when the connection was closed or handed on. *)
Fixpoint conn_loop (fuel : nat) (c : Z) (data : bytes) (b : broker) : broker :=
  match fuel with
  | O => b <| b_stuck := true |>
  | S fuel' =>
      with_conn c b (fun x =>
      match c_fr x with
      | None => faulty b
      | Some fr =>
          let '(r, fr) := tm_frame_reader_feed fr data in
          let b := put_conn c (x <| c_fr := Some fr |>) b in
          match r with
          | FeedErr => conn_close c (bincr b_protocol_errors b)
          | FeedMore => b
          | FeedFrame f =>
              let b := conn_frame c f b in
              with_conn c b (fun x =>
              if c_closing x || negb (bool_decide (is_Some (c_fr x))) then b
              else conn_loop fuel' c [] b)
          end
      end)
  end.

Definition conn_read (c : Z) (data : bytes) (b : broker) : broker :=
  with_conn c b (fun x =>
  let '(now, b) := now_ms clock b in
  conn_loop (S (match c_fr x with Some fr => length (fr_buf fr) | None => 0 end + length data)) c data
    (put_conn c (x <| c_last_rx_ms := now |>) b)).

Definition conn_hs_timeout (c : Z) (b : broker) : broker :=
  with_conn c b (fun x => if c_closing x then b else conn_close c b).

(** The close callback of the connection's timer. *)
Definition conn_free_cb (c : Z) (b : broker) : broker := b <| conns ::= fun m => delete c m |>.

(** ** Listener and sweep *)

(** An accepted connection: its TLS leg, or [None] when there is no TLS object (the
    connection is then closed before its timer exists), its printed address, and
    whether the first handshake step failed and closed the connection, which is linked
    afterwards all the same. *)
Definition on_control_accept (leg : option io) (remote : bytes) (failed : bool) (b : broker) : broker :=
  if b_shutting_down b then b
  else if TM_MAX_PENDING_CONNS <=? blen (conn_list b) then b
  else
    let '(c, b) := alloc b in
    let '(now, b) := now_ms clock b in
    match leg with
    | None => faulty b
    | Some i =>
        let b := put_conn c (Conn (Some i) (Some tm_frame_reader_new) true now (str_trunc 128 remote) false false None false false) b in
        let b := if failed then conn_error c b else b in
        b <| conn_list ::= cons c |> <| conns_total ::= fun n => u64 (n + 1) |>
    end.

(** One agent of the sweep. *)
Definition tick_agent (now ta : Z) (b : broker) : broker :=
  with_tun ta b (fun t =>
  match t_agent t with
  | None => b
  | Some a =>
      match agents b !! a with
      | None => faulty b
      | Some ag =>
          if u64 (BrokerCfg.idle_timeout_ms (b_cfg b)) <? u64 (now - a_last_rx_ms ag) then tm_agent_drop a b
          else if u64 (BrokerCfg.heartbeat_interval_ms (b_cfg b)) <=? u64 (now - a_last_ping_ms ag)
          then tm_agent_send_frame a (tm_frame_make TM_MSG_PING 0 [] 0)
                 (b <| agents ::= fun m => <[a := ag <| a_last_ping_ms := now |>]> m |>)
          else b
      end
  end).

Definition tick_conn (now c : Z) (b : broker) : broker :=
  with_conn c b (fun x =>
  if negb (c_closing x) && (u64 (BrokerCfg.idle_timeout_ms (b_cfg b)) <? u64 (now - c_last_rx_ms x))
  then conn_close c b else b).

Definition tm_agent_tick (b : broker) : broker :=
  let '(now, b) := now_ms clock b in
  let b := fold_left (fun b ta => tick_agent now ta b) (tunnels b) b in
  fold_left (fun b c => tick_conn now c b) (conn_list b) b.

Definition tm_control_goaway_all (b : broker) : broker :=
  fold_left (fun b ta => with_tun ta b (fun t =>
    match t_agent t with
    | Some a => tm_agent_send_frame a (tm_frame_make TM_MSG_GOING_AWAY 0 [] 0) b
    | None => b
    end)) (tunnels b) b.

(** [while (b->conns) conn_close(b->conns)]. *)
Fixpoint close_conns (fuel : nat) (b : broker) : broker :=
  match fuel, conn_list b with
  | S fuel', c :: _ => close_conns fuel' (conn_close c b)
  | _, _ => b
  end.

Definition tm_control_close_all (b : broker) : broker :=
  let b := fold_left (fun b ta => with_tun ta b (fun t =>
             match t_agent t with Some a => tm_agent_drop a b | None => b end)) (tunnels b) b in
  close_conns (length (conn_list b)) b.

(** ** What a connection's own business leaves alone *)

(** The registry stays consistent and nothing is granted. *)
Definition steady (b b' : broker) : Prop := reg b -> tame b b' /\ reg b'.

Lemma steady_same b b' : (core b', conns b', b_hmac_key b') = (core b, conns b, b_hmac_key b) -> steady b b'.
Proof.
  intros E Hr. injection E as E1 E2 E3 E4 E5 E6 E7 E8 E9 E10 E11.
  split; [apply tame_eq; congruence|]. apply (reg_core b); [|done]. unfold core. congruence.
Qed.
#[local] Hint Extern 0 (steady _ _) => apply steady_same; reflexivity : core.

Lemma steady_trans b1 b2 b3 : steady b1 b2 -> steady b2 b3 -> steady b1 b3.
Proof. intros S1 S2 Hr. destruct (S1 Hr) as [T1 R1]. destruct (S2 R1) as [T2 R2]. split; [by eapply tame_trans|done]. Qed.

Lemma steady_with_conn c b k : (forall x, conns b !! c = Some x -> steady b (k x)) -> steady b (with_conn c b k).
Proof. intros Hk. unfold with_conn. destruct (conns b !! c); auto. Qed.
Lemma steady_with_tun ta b k : (forall t, tuns b !! ta = Some t -> steady b (k t)) -> steady b (with_tun ta b k).
Proof. intros Hk. unfold with_tun. destruct (tuns b !! ta); auto. Qed.
Lemma steady_fold {T} (f : broker -> T -> broker) l : (forall b x, steady b (f b x)) -> forall b, steady b (fold_left f l b).
Proof. intros Hf. induction l as [|x l IH]; intros b; cbn [fold_left]; [done|]. eapply steady_trans; [apply Hf|apply IH]. Qed.

Lemma steady_put_conn c x x' b : conns b !! c = Some x ->
  (peer_authed x' = true -> peer_authed x = true /\ peer_tun x' = peer_tun x) -> steady b (put_conn c x' b).
Proof.
  intros Ex Hp Hr. split; [|by apply (reg_core b)]. constructor; eauto.
  - intros ta t' Et. exists t'. auto.
  - intros k u. change (conns (put_conn c x' b)) with (<[c := x']> (conns b)). upd_case k c; [|eauto].
    intros [= <-] Hu. destruct (Hp Hu). eauto.
Qed.
Lemma steady_upd_conn c g b : (forall x, (peer_authed (g x), peer_tun (g x)) = (peer_authed x, peer_tun x)) ->
  steady b (upd_conn c g b).
Proof.
  intros Hg. apply steady_with_conn. intros x Ex. apply steady_put_conn with x; [done|].
  specialize (Hg x). injection Hg as G1 G2. by rewrite G1, G2.
Qed.
Lemma steady_on_stream sa f b : keeps f -> steady b (on_stream sa f b).
Proof. intros Hf Hr. split; [by apply tame_on_stream|apply reg_on_stream; [apply Hf|done]]. Qed.
Lemma steady_agent_drop a b : steady b (tm_agent_drop a b).
Proof. intros Hr. split; [apply tame_agent_drop|by apply reg_agent_drop]. Qed.
Lemma steady_agent_write a d b : steady b (snd (agent_write a d b)).
Proof. intros Hr. split; [apply tame_agent_write|by apply reg_agent_write]. Qed.
Lemma steady_agent_send_frame a f b : steady b (tm_agent_send_frame a f b).
Proof. intros Hr. split; [apply tame_agent_send_frame|by apply reg_agent_send_frame]. Qed.
Lemma steady_put_agent a ag ag' b : agents b !! a = Some ag -> a_tun ag' = a_tun ag ->
  steady b (b <| agents ::= fun m => <[a := ag']> m |>).
Proof. intros E Et Hr. split; [by apply tame_eq|by apply reg_put_agent with ag]. Qed.
Lemma steady_send_frame_agent a ty sid b : steady b (send_frame_agent a ty sid b).
Proof.
  unfold send_frame_agent. destruct (tm_frame_make ty sid [] 0 ≫= tm_frame_encode) as [buf|]; [|done].
  pose proof (steady_agent_write a buf b) as Hw. destruct (agent_write a buf b) as [st b']. cbn [snd] in Hw.
  destruct st; [done|..]; by eapply steady_trans.
Qed.

Lemma steady_close_timer c b : steady b (close_timer c b).
Proof.
  apply steady_with_conn. intros x Ex. cbv zeta.
  assert (steady b (put_conn c (x <| hs_closing := true |>) b)) by (by apply steady_put_conn with x).
  destruct (hs_closing x); [|done]. by eapply steady_trans.
Qed.
Lemma steady_retire c b : steady b (retire c b).
Proof. unfold retire. eapply steady_trans; [|apply steady_close_timer]. done. Qed.

Lemma steady_conn_close c b : steady b (conn_close c b).
Proof.
  apply steady_with_conn. intros x Ex. destruct (c_closing x); [done|]. cbv zeta.
  eapply steady_trans; [|by apply steady_upd_conn].
  eapply steady_trans; [|apply steady_close_timer]. eapply steady_trans with (put_conn c (x <| c_closing := true |>) b); [|done].
  by apply steady_put_conn with x.
Qed.
Lemma steady_conn_ups c us b : steady b (conn_ups c us b).
Proof. apply steady_fold. intros b0 []; [done|apply steady_conn_close]. Qed.
Lemma steady_send_frame_raw c ty sid msg b : steady b (send_frame_raw c ty sid msg b).
Proof.
  apply steady_with_conn. intros x Ex. destruct (c_io x) as [i|]; [|done].
  destruct (_ ≫= _) as [buf|]; [|done]. destruct (io_write i buf) as [[st us] i']. cbv zeta.
  assert (steady b (conn_ups c us (put_conn c (x <| c_io := Some i' |>) b))) as Hs.
  { eapply steady_trans; [|apply steady_conn_ups]. by apply steady_put_conn with x. }
  destruct st; [done|..]; by eapply steady_trans.
Qed.
Lemma steady_send_frame_leg_a sa ty sid b : steady b (send_frame_leg_a sa ty sid b).
Proof.
  unfold send_frame_leg_a. destruct (_ ≫= _) as [buf|]; [|done]. destruct (strs b !! sa) as [[ta s]|]; [|done].
  destruct (leg (to_a s)) as [i|]; [|done]. cbv zeta.
  assert (steady b (on_stream sa (fun s => snd (leg_write (upcall_n relay_depth) A buf s)) b)) as Hs.
  { apply steady_on_stream. apply keeps_write, keeps_upcall. }
  destruct (fst (fst (io_write i buf))); [done|..]; by eapply steady_trans.
Qed.

(** ** Handlers that grant nothing *)

Lemma steady_bad_register c b : steady b (bad_register c b).
Proof. eapply steady_trans; [apply steady_send_frame_raw|apply steady_conn_close]. Qed.
Lemma steady_bincr_errors b : steady b (bincr b_protocol_errors b).
Proof. done. Qed.
Lemma steady_bincr_auths b : steady b (bincr b_failed_auths b).
Proof. done. Qed.
Lemma steady_reject_register c b : steady b (reject_register c b).
Proof. eapply steady_trans; [|apply steady_conn_close]. eapply steady_trans; [apply steady_bincr_auths|apply steady_send_frame_raw]. Qed.
Lemma steady_reject_auth c b : steady b (reject_auth c b).
Proof. eapply steady_trans; [|apply steady_conn_close]. eapply steady_trans; [apply steady_bincr_auths|apply steady_send_frame_raw]. Qed.
Lemma steady_bind_error c sid msg b : steady b (bind_error c sid msg b).
Proof. eapply steady_trans; [apply steady_send_frame_raw|apply steady_conn_close]. Qed.
Lemma steady_protocol_error c b : steady b (conn_close c (bincr b_protocol_errors b)).
Proof. eapply steady_trans; [apply steady_bincr_errors|apply steady_conn_close]. Qed.
Lemma steady_copy_id id b : steady b (copy_id id b).
Proof. unfold copy_id. by destruct (_ <? _). Qed.

Lemma steady_close_found (o : option Z) b :
  steady b (match o with Some sa => tm_stream_close_at sa b | None => b end).
Proof. destruct o; [apply steady_on_stream, keeps_closing|done]. Qed.

Lemma steady_agent_frame a f b : steady b (agent_frame a f b).
Proof.
  unfold agent_frame. destruct (_ =? _); [apply steady_agent_send_frame|]. destruct (_ =? _); [done|].
  destruct (_ || _); [|done]. destruct (agents b !! a) as [ag|]; [|done].
  apply steady_with_tun. intros t _. apply steady_close_found.
Qed.

Lemma steady_agent_loop fuel a data b : steady b (agent_loop fuel a data b).
Proof.
  revert data b. induction fuel as [|fuel IH]; intros data b; cbn [agent_loop]; [done|].
  destruct (agents b !! a) as [ag|] eqn:Ea; [|done].
  destruct (tm_frame_reader_feed (a_fr ag) data) as [r fr]. cbv zeta.
  eapply steady_trans; [by apply (steady_put_agent a ag (ag <| a_fr := fr |>))|].
  destruct r; [apply steady_agent_drop|done|]. eapply steady_trans; [apply steady_agent_frame|apply IH].
Qed.

Lemma steady_agent_conn_read a data b : steady b (agent_conn_read a data b).
Proof.
  unfold agent_conn_read. destruct (agents b !! a) as [ag|] eqn:Ea; [|done]. cbn [now_ms].
  eapply steady_trans; [|apply steady_agent_loop]. eapply steady_trans with (b <| b_ticks ::= S |>); [done|].
  by apply steady_put_agent with ag.
Qed.

Lemma steady_peer_open_stream c b : steady b (peer_open_stream c b).
Proof.
  apply steady_with_conn. intros x Ex. destruct (peer_tun x) as [ta|]; [|apply steady_bind_error].
  apply steady_with_tun. intros t Et.
  destruct (agent_online t) eqn:Eo; [|apply steady_bind_error].
  destruct (t_agent t) as [a|] eqn:Ea; [|apply steady_bind_error].
  destruct (_ <=? _); [apply steady_bind_error|].
  destruct (c_io x) as [i|]; [|by destruct (c_fr x)]. destruct (c_fr x) as [fr|]; [|done].
  destruct (tm_frame_reader_drain fr) as [lo fr']. cbn [now_ms]. cbv zeta.
  set (b1 := put_conn c (x <| c_fr := Some fr' |>) b <| b_ticks ::= S |>).
  assert (steady b b1) as S1.
  { eapply steady_trans with (put_conn c (x <| c_fr := Some fr' |>) b); [by apply steady_put_conn with x|done]. }
  eapply steady_trans; [exact S1|]. assert (tuns b1 !! ta = Some t) as Et1 by done. clearbody b1.
  set (now := clock _). clearbody now.
  assert (steady b1 (snd (create_closed ta now i b1))) as S2.
  { intros Hr. apply (create_closed_ok ta now i t b1 Hr Et1). congruence. }
  destruct (create_closed ta now i b1) as [[sa|] b2]; cbn [snd] in S2;
    (eapply steady_trans; [exact S2|]); [|apply steady_bind_error].
  eapply steady_trans; [|apply steady_retire]. eapply steady_trans; [|by apply steady_upd_conn].
  match goal with |- steady _ (if _ then ?y else _) => apply steady_trans with y end.
  2:{ destruct (_ =? 0); [done|]. apply steady_on_stream, keeps_ingest_a. }
  eapply steady_trans; [|apply steady_agent_send_frame].
  eapply steady_trans; [|apply steady_send_frame_leg_a]. by apply steady_upd_conn.
Qed.

Lemma steady_peer_frame c f b : steady b (peer_frame c f b).
Proof.
  unfold peer_frame. destruct (_ =? TM_MSG_DATA_BIND).
  { destruct (_ =? 0); [apply steady_peer_open_stream|apply steady_protocol_error]. }
  destruct (_ =? TM_MSG_CLOSE_STREAM).
  { apply steady_with_conn. intros x _. destruct (peer_tun x); [|done]. apply steady_with_tun. intros t _.
    apply steady_close_found. }
  destruct (_ =? TM_MSG_PING); [apply steady_send_frame_raw|apply steady_protocol_error].
Qed.

(** ** What a frame can grant *)

(** [PA ta]: tunnel [ta] may get a session; [PC c ta]: connection [c] may become a peer
    of [ta]; [PS sa ta]: stream [sa] of [ta] may become bound. *)
Record grants (PA : Z -> Prop) (PC PS : Z -> Z -> Prop) (b b' : broker) : Prop := {
  gr_list ta : ta ∈ tunnels b' -> ta ∈ tunnels b;
  gr_tun ta t' : tuns b' !! ta = Some t' -> exists t, tuns b !! ta = Some t /\ t_creds t' = t_creds t /\
    (t_agent t' = t_agent t \/ t_agent t' = None \/ PA ta) /\
    (t_streams t = [] -> t_agent t = None -> t_streams t' = [] \/ PA ta);
  gr_str sa ta s' : strs b' !! sa = Some (ta, s') -> Relay.bound s' = true ->
    (exists s, strs b !! sa = Some (ta, s) /\ Relay.bound s = true) \/ PS sa ta;
  gr_conn c x' : conns b' !! c = Some x' -> peer_authed x' = true ->
    (exists x, conns b !! c = Some x /\ peer_authed x = true /\ peer_tun x' = peer_tun x) \/
    exists ta, peer_tun x' = Some ta /\ PC c ta;
  gr_key : b_hmac_key b' = b_hmac_key b;
}.

Lemma grants_tame PA PC PS b b' : tame b b' -> grants PA PC PS b b'.
Proof.
  intros [L T S C K]. constructor; auto.
  - intros ta t' Et. destruct (T ta t' Et) as (t & E & Ec & Ea & Es). exists t. split_and!; auto; naive_solver.
  - intros. left. eauto.
Qed.

Lemma grants_then PA PC PS b1 b2 b3 : grants PA PC PS b1 b2 -> tame b2 b3 -> grants PA PC PS b1 b3.
Proof.
  intros [L1 T1 S1 C1 K1] [L2 T2 S2 C2 K2]. constructor; [auto|..|congruence].
  - intros ta t3 E3. destruct (T2 ta t3 E3) as (t2 & E2 & Ec2 & Ea2 & Es2).
    destruct (T1 ta t2 E2) as (t1 & E1 & Ec1 & Ea1 & Es1). exists t1. split_and!; [done|congruence| |].
    + destruct Ea2 as [-> | ->]; [done|auto].
    + intros Hs Ha. destruct (Es1 Hs Ha) as [Hs2|]; [|auto].
      destruct Ea1 as [Ea1|[Ea1|]]; [left; apply Es2; congruence|left; by apply Es2|auto].
  - intros sa ta s3 E3 B3. destruct (S2 sa ta s3 E3 B3) as (s2 & E2 & B2). by apply S1 with s2.
  - intros c x3 E3 B3. destruct (C2 c x3 E3 B3) as (x2 & E2 & B2 & P2). rewrite P2. by apply C1.
Qed.

Lemma grants_after PA PC PS b1 b2 b3 : tame b1 b2 -> grants PA PC PS b2 b3 -> grants PA PC PS b1 b3.
Proof.
  intros [L1 T1 S1 C1 K1] [L2 T2 S2 C2 K2]. constructor; [auto|..|congruence].
  - intros ta t3 E3. destruct (T2 ta t3 E3) as (t2 & E2 & Ec2 & Ea2 & Es2).
    destruct (T1 ta t2 E2) as (t1 & E1 & Ec1 & Ea1 & Es1). exists t1. split_and!; [done|congruence| |].
    + destruct Ea2 as [->|[->|]]; [|auto..]. destruct Ea1 as [-> | ->]; auto.
    + intros Hs Ha. apply Es2; [by apply Es1|]. destruct Ea1 as [-> | ->]; done.
  - intros sa ta s3 E3 B3. destruct (S2 sa ta s3 E3 B3) as [(s2 & E2 & B2)|]; [|auto]. left. by apply S1 with s2.
  - intros c x3 E3 B3. destruct (C2 c x3 E3 B3) as [(x2 & E2 & B2 & P2)|]; [|auto].
    left. destruct (C1 c x2 E2 B2) as (x1 & E1 & B1 & P1). exists x1. split_and!; congruence.
Qed.

Lemma grants_weaken (PA PA' : Z -> Prop) (PC PC' PS PS' : Z -> Z -> Prop) b b' :
  (forall x, PA x -> PA' x) -> (forall x y, PC x y -> PC' x y) -> (forall x y, PS x y -> PS' x y) ->
  grants PA PC PS b b' -> grants PA' PC' PS' b b'.
Proof.
  intros HA HC HS [L T S C K]. constructor; auto.
  - intros ta t' Et. destruct (T ta t' Et) as (t & E & Ec & Ea & Es). exists t. split_and!; auto; naive_solver.
  - intros sa ta s' E B. destruct (S sa ta s' E B); eauto.
  - intros c x' E B. destruct (C c x' E B) as [|(ta & ? & ?)]; eauto.
Qed.

Definition none1 (_ : Z) : Prop := False.
Definition none2 (_ _ : Z) : Prop := False.

(** *** Registration *)

(** The broker without the old session of the tunnel. *)
Definition without_agent (t : tm_tunnel) (b : broker) : broker :=
  match t_agent t with Some old => tm_agent_drop old b | None => b end.

Lemma reg_without_agent t b : reg b -> reg (without_agent t b).
Proof. intros Hr. unfold without_agent. destruct (t_agent t); [by apply reg_agent_drop|done]. Qed.

Lemma install_agent_core c ta x t i fr b : reg b -> tuns b !! ta = Some t -> conns b !! c = Some x ->
  let now := clock (b_ticks b) in let b0 := without_agent t b in
  fst (install_agent c ta x t i fr b) = b_next b /\ b_next b0 = b_next b /\
  exists t0, tuns b0 !! ta = Some t0 /\ t_agent t0 = None /\ core (snd (install_agent c ta x t i fr b)) =
    (<[ta := t0 <| t_agent := Some (b_next b) |> <| agent_online := true |> <| last_seen_ms := now |>]> (tuns b0),
     tunnels b0, tunnel_count b0, <[b_next b := Agent ta i fr now now (str_trunc 128 (c_remote x))]> (agents b0), strs b0,
     b_stream_count b0, b_ports b0, 1 + b_next b0, b_cfg b0).
Proof.
  intros Hr Et Ex. unfold install_agent. cbn [now_ms alloc fst snd].
  set (now := clock (b_ticks b)). change (b_next (b <| b_ticks ::= S |>)) with (b_next b). set (a := b_next b). cbv zeta.
  set (ag := Agent ta i fr now now (str_trunc 128 (c_remote x))).
  set (b1 := b <| b_ticks ::= S |> <| b_next ::= Z.add 1 |>).
  set (b2 := upd_conn c (fun x => x <| c_sock := false |> <| c_io := None |> <| c_fr := None |>) b1).
  assert (core b2 = core b1) as C2 by (unfold b2, upd_conn, with_conn; change (conns b1) with (conns b); by rewrite Ex).
  clearbody b2. injection C2 as D1 D2 D3 D4 D5 D6 D7 D8 D9.
  set (b3 := b2 <| agents ::= fun m => <[a := ag]> m |>).
  split; [done|]. split.
  { unfold without_agent, tm_agent_drop. destruct (t_agent t) as [old|]; [|done]. destruct (agents b !! old) as [og|]; [|done].
    destruct (tuns b !! a_tun og) as [u|]; [|done]. by case_bool_decide. }
  unfold without_agent. destruct (t_agent t) as [old|] eqn:Ea.
  - destruct (ag_live _ _ (rg_agents _ Hr) ta t old Et Ea) as (og & Eg & Eo).
    assert (old <> a) as Hne by (apply (fr_agent _ _ _ _ (rg_fresh _ Hr)) in Eg; unfold a; lia).
    unfold tm_agent_drop. change (agents (bincr agent_reconnects b3)) with (<[a := ag]> (agents b2)).
    rewrite D4, lookup_insert_ne by done. change (agents b1) with (agents b).
    change (tuns (bincr agent_reconnects b3)) with (tuns b2). rewrite D1. change (tuns b1) with (tuns b).
    rewrite Eg, Eo, Et, bool_decide_true by done.
    eexists. split; [apply lookup_insert_eq|]. split; [done|].
    unfold upd_tun, with_tun. set (b6 := put_tun ta _ _ <| agents ::= _ |>).
    assert (tuns b6 !! ta = Some (t <| t_agent := None |> <| agent_online := false |>)) as -> by apply lookup_insert_eq.
    unfold core. unfold b6. cbn. rewrite D1, D2, D3, D4, D5, D6, D7, D8, D9.
    rewrite delete_insert_ne by done. done.
  - exists t. split_and!; [done|done|]. unfold upd_tun, with_tun. change (tuns b3) with (tuns b2). rewrite D1.
    change (tuns b1) with (tuns b). rewrite Et. unfold core. cbn. rewrite D1, D2, D3, D4, D5, D6, D7, D8, D9. done.
Qed.

Lemma install_agent_reg c ta x t i fr b : reg b -> tuns b !! ta = Some t -> conns b !! c = Some x ->
  reg (snd (install_agent c ta x t i fr b)).
Proof.
  intros Hr Et Ex. destruct (install_agent_core c ta x t i fr b Hr Et Ex) as (_ & Hn & t0 & Et0 & Ha & C). cbv zeta in *.
  rewrite <- Hn in C. eapply (reg_new_agent ta t0 _ _ (without_agent t b)); [by apply reg_without_agent|done|done|..|exact C]; done.
Qed.

Lemma promote_grants c ta x t i fr b : reg b -> tuns b !! ta = Some t -> conns b !! c = Some x ->
  grants (eq ta) none2 none2 b (promote c ta x t i fr b) /\ reg (promote c ta x t i fr b).
Proof.
  intros Hr Et Ex. unfold promote. pose proof (install_agent_reg c ta x t i fr b Hr Et Ex) as R5.
  assert (grants (eq ta) none2 none2 b (snd (install_agent c ta x t i fr b))) as G5.
  { unfold install_agent. cbn [now_ms alloc snd]. cbv zeta. set (b1 := b <| b_ticks ::= S |> <| b_next ::= Z.add 1 |>).
    set (b2 := upd_conn c _ b1).
    assert (tame b b2) as T2.
    { unfold b2, upd_conn, with_conn. change (conns b1) with (conns b). rewrite Ex.
      constructor; eauto; [intros k u Eu; exists u; auto|].
      intros d y. change (conns (put_conn c ?x' b1)) with (<[c := x']> (conns b)). upd_case d c; [|eauto].
      intros [= <-] Hy. exists x. auto. }
    clearbody b2. set (b3 := b2 <| agents ::= _ |>). set (b4 := match t_agent t with Some old => _ | None => b3 end).
    apply grants_after with b4.
    - eapply tame_trans; [exact T2|]. unfold b4. destruct (t_agent t); [|by apply tame_eq].
      eapply tame_trans; [|apply tame_agent_drop]. by apply tame_eq.
    - unfold upd_tun, with_tun. destruct (tuns b4 !! ta) as [u|] eqn:Eu; [|by apply grants_tame, tame_eq].
      constructor; eauto. intros k v.
      match goal with |- tuns (put_tun ta ?w b4) !! _ = _ -> _ => change (tuns (put_tun ta w b4)) with (<[ta := w]> (tuns b4)) end.
      upd_case k ta; [intros [= <-]; exists u|intros Ev; exists v]; split_and!; auto. }
  destruct (install_agent c ta x t i fr b) as [a b5]. cbn [snd] in *.
  set (b7 := send_frame_agent a TM_MSG_REGISTER_OK 0 b5).
  assert (steady b5 (retire c (match agents b7 !! a with Some _ => b7 | None => faulty b7 end))) as Sr.
  { eapply steady_trans; [|apply steady_retire]. eapply steady_trans; [apply steady_send_frame_agent|]. fold b7.
    by destruct (agents b7 !! a). }
  destruct (Sr R5) as [Tr Rr]. split; [by eapply grants_then|done].
Qed.

(** The tunnel of that name holds the digest of the secret presented for it. *)
Definition knows_agent_secret (b : broker) (ta : Z) (id secret : bytes) : Prop :=
  ta ∈ tunnels b /\ exists t, tuns b !! ta = Some t /\ t_id t = strz id /\ t_enabled t = true /\
    tm_ct_eq_hex (secret_digest (b_hmac_key b) secret) (t_agent_hmac t) = true.
Definition knows_shared_token (b : broker) (ta : Z) (id secret : bytes) : Prop :=
  ta ∈ tunnels b /\ exists t, tuns b !! ta = Some t /\ t_id t = strz id /\ t_enabled t = true /\
    t_closed t = true /\ t_token_hmac t <> [] /\
    tm_ct_eq_hex (secret_digest (b_hmac_key b) secret) (t_token_hmac t) = true.

Lemma core_copy_id id b : core (copy_id id b) = core b /\ conns (copy_id id b) = conns b /\ b_hmac_key (copy_id id b) = b_hmac_key b.
Proof. unfold copy_id. by destruct (_ <? _). Qed.

Lemma named_tunnel_some (b : broker) id ta t : named_tunnel b id = Some (ta, t) ->
  ta ∈ tunnels b /\ tuns b !! ta = Some t /\ t_id t = id.
Proof.
  unfold named_tunnel. destruct (tm_tunnel_find b id) as [k|] eqn:Ef; [|done]. destruct (tuns b !! k) as [u|] eqn:Eu; [|done].
  cbn. intros [= <- <-]. destruct (find_tunnel_elem b id k Ef) as (Hin & v & Ev & Hv). split_and!; congruence.
Qed.

Lemma steady_grants PA PC PS b b' : steady b b' -> reg b -> grants PA PC PS b b' /\ reg b'.
Proof. intros Hs Hr. destruct (Hs Hr). split; [by apply grants_tame|done]. Qed.

Lemma agent_register_grants c f b : reg b ->
  grants (fun ta => exists id secret, credentials f = Some (id, secret) /\ knows_agent_secret b ta id secret)
    none2 none2 b (agent_register c f b) /\ reg (agent_register c f b).
Proof.
  intros Hr. unfold agent_register. destruct (credentials f) as [[id secret]|] eqn:Ec;
    [|apply steady_grants; [apply steady_bad_register|done]].
  destruct (core_copy_id id b) as (Cc & Cn & Ck). pose proof (steady_copy_id id b Hr) as [Tb Rb].
  set (b1 := copy_id id b) in *. clearbody b1. unfold register_as. cbv zeta. injection Cc as D1 D2 _ _ _ _ _ _ _.
  assert (steady b (reject_register c b1)) as Hrej
    by (intros _; destruct (steady_reject_register c b1 Rb); split; [by eapply tame_trans|done]).
  destruct (named_tunnel b1 (strz id)) as [[ta t]|] eqn:Ef;
    [|by apply steady_grants].
  apply named_tunnel_some in Ef as (Hin & Et & Hid).
  destruct (t_enabled t) eqn:Ee; cbn [negb orb]; [|by apply steady_grants].
  destruct (tm_ct_eq_hex _ _) eqn:Eq; cbn [negb]; [|by apply steady_grants].
  unfold with_conn. destruct (conns b1 !! c) as [x|] eqn:Ex; [|apply steady_grants; [|done]; intros _; split; [by eapply tame_trans; [exact Tb|apply tame_eq]|by apply (reg_core b1)]].
  assert (steady b (faulty b1)) as Hfl by (intros _; split; [by eapply tame_trans; [exact Tb|apply tame_eq]|by apply (reg_core b1)]).
  destruct (c_io x) as [i|]; [|by destruct (c_fr x); apply steady_grants].
  destruct (c_fr x) as [fr|]; [|by apply steady_grants].
  destruct (promote_grants c ta x t i fr b1 Rb Et Ex) as [G R]. split; [|done].
  apply grants_after with b1; [done|]. apply (grants_weaken (eq ta) _ none2 none2 none2 none2); try done.
  intros k <-. exists id, secret. split; [done|]. rewrite D2 in Hin. split; [done|]. exists t.
  rewrite <- D1, <- Ck. done.
Qed.

Lemma peer_auth_grants c f b : reg b ->
  grants none1 (fun d ta => d = c /\ exists id secret, credentials f = Some (id, secret) /\ knows_shared_token b ta id secret)
    none2 b (peer_auth c f b) /\ reg (peer_auth c f b).
Proof.
  intros Hr. unfold peer_auth. destruct (credentials f) as [[id secret]|] eqn:Ec;
    [|apply steady_grants; [apply steady_reject_auth|done]].
  destruct (core_copy_id id b) as (Cc & Cn & Ck). pose proof (steady_copy_id id b Hr) as [Tb Rb].
  set (b1 := copy_id id b) in *. clearbody b1. unfold auth_as. cbv zeta. injection Cc as D1 D2 _ _ _ _ _ _ _.
  assert (steady b (reject_auth c b1)) as Hrej
    by (intros _; destruct (steady_reject_auth c b1 Rb); split; [by eapply tame_trans|done]).
  destruct (named_tunnel b1 (strz id)) as [[ta t]|] eqn:Ef;
    [|by apply steady_grants].
  apply named_tunnel_some in Ef as (Hin & Et & Hid).
  destruct (t_closed t && t_enabled t && negb _) eqn:Eu; cbn [negb orb]; [|by apply steady_grants].
  destruct (tm_ct_eq_hex _ _) eqn:Eq; cbn [negb]; [|by apply steady_grants]. zb. destruct Eu as [[Ecl Een] Etk].
  set (P := fun d k : Z => _).
  assert (grants none1 P none2 b (upd_conn c (fun x => x <| peer_authed := true |> <| peer_tun := Some ta |>) b1) /\
          reg (upd_conn c (fun x => x <| peer_authed := true |> <| peer_tun := Some ta |>) b1)) as [G R].
  { unfold upd_conn, with_conn. destruct (conns b1 !! c) as [x|] eqn:Ex.
    2:{ split; [apply grants_tame; by eapply tame_trans; [exact Tb|apply tame_eq]|by apply (reg_core b1)]. }
    split; [|by apply (reg_core b1)]. apply grants_after with b1; [done|].
    constructor; eauto; [intros k u E; exists u; auto|]. intros d y.
    match goal with |- conns (put_conn c ?x' b1) !! d = _ -> _ =>
      change (conns (put_conn c x' b1)) with (<[c := x']> (conns b1)) end. upd_case d c; [|left; eauto].
    intros [= <-] _. right. exists ta. split; [done|]. split; [done|]. exists id, secret. split; [done|].
    rewrite D2 in Hin. split; [done|]. exists t. rewrite <- D1, <- Ck. by split_and!. }
  destruct (steady_send_frame_raw c TM_MSG_AUTH_OK 0 [] _ R) as [T2 R2]. split; [by eapply grants_then|done].
Qed.

(** *** Binding a stream *)

Lemma core_close_timer c b : core (close_timer c b) = core b.
Proof. unfold close_timer, with_conn. destruct (conns b !! c) as [x|]; [|done]. cbv zeta. by destruct (hs_closing x). Qed.
Lemma core_upd_conn c g b : core (upd_conn c g b) = core b.
Proof. unfold upd_conn, with_conn. by destruct (conns b !! c). Qed.
Lemma core_conn_close c b : core (conn_close c b) = core b.
Proof.
  unfold conn_close, with_conn. destruct (conns b !! c) as [x|]; [|done]. destruct (c_closing x); [done|].
  cbv zeta. by rewrite core_upd_conn, core_close_timer.
Qed.
Lemma core_conn_ups c us b : core (conn_ups c us b) = core b.
Proof.
  unfold conn_ups. revert b. induction us as [|u us IH]; intros b; cbn [fold_left]; [done|]. rewrite IH.
  destruct u; [done|apply core_conn_close].
Qed.
Lemma core_send_frame_raw c ty sid msg b : core (send_frame_raw c ty sid msg b) = core b.
Proof.
  unfold send_frame_raw, with_conn. destruct (conns b !! c) as [x|]; [|done]. destruct (c_io x) as [i|]; [|done].
  destruct (_ ≫= _) as [buf|]; [|done]. destruct (io_write i buf) as [[st us] i']. cbv zeta.
  transitivity (core (conn_ups c us (put_conn c (x <| c_io := Some i' |>) b))); [by destruct st|].
  by rewrite core_conn_ups.
Qed.

Lemma on_stream_grants sa f b :
  grants none1 none2 (fun k l => k = sa /\ exists s, strs b !! sa = Some (l, s)) b (on_stream sa f b).
Proof.
  unfold on_stream. destruct (strs b !! sa) as [[ta s]|] eqn:Es; [|by apply grants_tame, tame_eq].
  unfold with_tun. destruct (tuns b !! ta) as [t|] eqn:Et; [|by apply grants_tame, tame_eq]. cbv zeta.
  set (s' := f _). set (t1 := if Relay.linked s && negb (Relay.linked s') then _ else t).
  set (b3 := store_cells ta t1 (Relay.sh s') b <| strs ::= fun m => <[sa := (ta, s')]> m |>).
  enough (grants none1 none2 (fun k l => k = sa /\ exists s0, Some (ta, s) = Some (l, s0)) b b3) as G
    by (destruct (Relay.uaf s'); [apply grants_then with b3; [done|by apply tame_eq]|done]).
  clearbody s'. constructor; [done| | |by left; eauto|done].
  - intros k u. change (tuns b3) with (<[ta := t1 <| rx_bytes := tun_rx_bytes (Relay.sh s') |>
      <| tx_bytes := tun_tx_bytes (Relay.sh s') |> <| t_streams_active := streams_active (Relay.sh s') |>]> (tuns b)).
    upd_case k ta; [|intros Eu; exists u; auto]. intros [= <-]. exists t. subst t1. split; [done|].
    destruct (_ && _); split_and!; auto; cbn; intros -> _; by left.
  - intros k l u. change (strs b3) with (<[sa := (ta, s')]> (strs b)). upd_case k sa; [|left; eauto].
    intros [= <- <-] _. right. eauto.
Qed.

Lemma bind_stream_grants c sa sid b : reg b ->
  grants none1 none2 (fun k l => k = sa /\ exists s, strs b !! sa = Some (l, s)) b (bind_stream c sa sid b) /\ reg (bind_stream c sa sid b).
Proof.
  intros Hr. unfold bind_stream.
  assert (grants none1 none2 (fun k l => k = sa /\ exists s, strs b !! sa = Some (l, s)) b (faulty b) /\ reg (faulty b)) as Hfl by (by apply steady_grants).
  unfold with_conn. destruct (conns b !! c) as [x|] eqn:Ex; [|done].
  destruct (c_fr x) as [fr0|]; [|done]. destruct (tm_frame_reader_drain fr0) as [lo fr]. cbv zeta.
  set (b1 := send_frame_raw c TM_MSG_DATA_BIND_OK sid [] (put_conn c (x <| c_fr := Some fr |>) b)).
  assert (steady b b1) as S1 by (eapply steady_trans; [|apply steady_send_frame_raw]; by apply steady_put_conn with x).
  destruct (S1 Hr) as [T1 R1].
  assert (strs b1 = strs b) as Hst
    by (pose proof (core_send_frame_raw c TM_MSG_DATA_BIND_OK sid [] (put_conn c (x <| c_fr := Some fr |>) b)) as Q; by injection Q).
  clearbody b1.
  destruct (conns b1 !! c) as [x1|] eqn:Ex1; [|by apply steady_grants; [eapply steady_trans; [exact S1|]|]].
  destruct (c_io x1) as [i|]; [|by apply steady_grants; [eapply steady_trans; [exact S1|]|]].
  set (b2 := on_stream sa (tm_stream_relay_attach_agent (upcall_n relay_depth) raw i) b1).
  assert (reg b2) as R2 by (apply reg_on_stream; [apply acct_attach|done]).
  assert (grants none1 none2 (fun k l => k = sa /\ exists s, strs b !! sa = Some (l, s)) b b2) as G2.
  { apply grants_after with b1; [done|]. rewrite <- Hst. apply on_stream_grants. }
  clearbody b2.
  match goal with |- grants _ _ _ _ ?y /\ _ => assert (steady b2 y) as S3 end.
  { eapply steady_trans; [|apply steady_retire]. eapply steady_trans; [|by apply steady_upd_conn].
    match goal with |- steady _ (if _ then ?y else _) => apply steady_trans with y; [by apply steady_upd_conn|] end.
    destruct (_ =? 0); [done|]. apply steady_on_stream, keeps_ingest. }
  destruct (S3 R2) as [T3 R3]. split; [by eapply grants_then|done].
Qed.

(** The stream waits for its agent, and the payload is the secret of its tunnel. *)
Definition knows_stream_secret (b : broker) (sa ta : Z) (f : tm_frame) : Prop :=
  exists s t, strs b !! sa = Some (ta, s) /\ Relay.id s = f_stream_id f /\ Relay.bound s = false /\
    Relay.closing s = false /\ tuns b !! ta = Some t /\ t_enabled t = true /\
    tm_ct_eq_hex (secret_digest (b_hmac_key b) (f_payload f)) (t_agent_hmac t) = true.

Lemma find_stream_id tas sid (b : broker) sa ta s : find_stream tas sid b = Some sa -> strs b !! sa = Some (ta, s) ->
  Relay.id s = sid.
Proof.
  intros Hf Es. induction tas as [|k tas IH]; cbn [find_stream] in Hf; [done|].
  destruct (tuns b !! k) as [t|]; [|done]. destruct (stream_find b t sid) as [x|] eqn:Ex; [|auto].
  injection Hf as ->. apply find_some_in in Ex as [_ Hx]. rewrite Es in Hx. by zb.
Qed.

Lemma data_conn_grants c f b : reg b ->
  grants none1 none2 (fun sa ta => f_payload_len f <= TM_MAX_SECRET /\ knows_stream_secret b sa ta f) b (data_conn_first_frame c f b) /\
  reg (data_conn_first_frame c f b).
Proof.
  intros Hr. unfold data_conn_first_frame. cbv zeta.
  destruct ((f_stream_id f =? 0) || _ || _) eqn:Eg; [apply steady_grants; [apply steady_protocol_error|done]|]. zb.
  destruct (find_stream (tunnels b) (f_stream_id f) b) as [sa|] eqn:Ef;
    [|apply steady_grants; [apply steady_bind_error|done]]. cbn.
  destruct (strs b !! sa) as [[ta s]|] eqn:Es; [|apply steady_grants; [apply steady_bind_error|done]]. cbn.
  unfold with_tun. destruct (tuns b !! ta) as [t|] eqn:Et; [|by apply steady_grants].
  destruct (_ || _ || _) eqn:Eb; [apply steady_grants; [apply steady_bind_error|done]|]. zb.
  destruct (tm_ct_eq_hex _ _) eqn:Eq; cbn [negb].
  2:{ apply steady_grants; [eapply steady_trans; [apply steady_bincr_auths|apply steady_bind_error]|done]. }
  destruct Eb as [[Eb1 Eb2] Eb3].
  destruct (bind_stream_grants c sa (f_stream_id f) b Hr) as [G R]. split; [|done].
  eapply grants_weaken; [| | |exact G]; [done|done|]. cbv beta. intros k l [-> [s0 E0]].
  rewrite Es in E0. injection E0 as <- <-. split; [lia|]. exists s, t.
  split_and!; try done. by eapply find_stream_id.
Qed.

Definition may_register (c : Z) (f : tm_frame) (b : broker) (ta : Z) : Prop :=
  exists x id secret, conns b !! c = Some x /\ got_hello x = true /\ f_type f = TM_MSG_REGISTER /\
    credentials f = Some (id, secret) /\ knows_agent_secret b ta id secret.
Definition may_auth (c : Z) (f : tm_frame) (b : broker) (d ta : Z) : Prop :=
  exists x id secret, d = c /\ conns b !! c = Some x /\ got_hello x = true /\ f_type f = TM_MSG_AUTH /\
    credentials f = Some (id, secret) /\ knows_shared_token b ta id secret.
Definition may_bind (c : Z) (f : tm_frame) (b : broker) (sa ta : Z) : Prop :=
  exists x, conns b !! c = Some x /\ got_hello x = false /\ f_type f = TM_MSG_DATA_BIND /\
    knows_stream_secret b sa ta f.

Lemma conn_frame_grants c f b : reg b ->
  grants (may_register c f b) (may_auth c f b) (may_bind c f b) b (conn_frame c f b) /\ reg (conn_frame c f b).
Proof.
  intros Hr.
  unfold conn_frame, with_conn. destruct (conns b !! c) as [x|] eqn:Ex; [|by apply steady_grants].
  destruct (got_hello x) eqn:Eh; cbn [negb].
  - destruct (peer_authed x); [apply steady_grants; [apply steady_peer_frame|done]|].
    destruct (_ =? TM_MSG_REGISTER) eqn:E1; zb.
    { destruct (agent_register_grants c f b Hr) as [G R]. split; [|done]. eapply grants_weaken; [| | |exact G]; try done.
      cbv beta. intros ta (id & secret & Q). exists x, id, secret. tauto. }
    destruct (_ =? TM_MSG_AUTH) eqn:E2; zb.
    { destruct (peer_auth_grants c f b Hr) as [G R]. split; [|done]. eapply grants_weaken; [| | |exact G]; try done.
      cbv beta. intros d ta (-> & id & secret & Q). exists x, id, secret. tauto. }
    apply steady_grants; [|done]. destruct (_ =? _); [apply steady_send_frame_raw|apply steady_protocol_error].
  - destruct (_ =? TM_MSG_HELLO).
    { apply steady_grants; [|done]. eapply steady_trans; [|apply steady_send_frame_raw]. by apply steady_put_conn with x. }
    destruct (_ =? TM_MSG_DATA_BIND) eqn:E1; zb; [|apply steady_grants; [apply steady_protocol_error|done]].
    destruct (data_conn_grants c f b Hr) as [G R]. split; [|done]. eapply grants_weaken; [| | |exact G]; try done.
    cbv beta. intros sa ta [_ Q]. exists x. tauto.
Qed.

(** ** What a frame leaves alone

    [apart P b b']: of the tunnels outside [P] nothing changed, neither their records nor
    their sessions nor their streams, and no tunnel came or went. *)

Record apart (P : Z -> Prop) (b b' : broker) : Prop := {
  ap_list : tunnels b' = tunnels b;
  ap_dom k : is_Some (tuns b' !! k) <-> is_Some (tuns b !! k);
  ap_tun k : ~ P k -> tuns b' !! k = tuns b !! k;
  ap_agent a ag : agents b !! a = Some ag -> ~ P (a_tun ag) -> agents b' !! a = Some ag;
  ap_agent_new a ag : agents b' !! a = Some ag -> P (a_tun ag) \/ agents b !! a = Some ag;
  ap_str sa k s : strs b !! sa = Some (k, s) -> ~ P k -> strs b' !! sa = Some (k, s);
  ap_str_new sa k s : strs b' !! sa = Some (k, s) -> P k \/ strs b !! sa = Some (k, s);
}.

(** Session [a] and stream [sa] are of a tunnel in [P]. *)
Definition agent_in (P : Z -> Prop) (a : Z) (b : broker) : Prop := forall ag, agents b !! a = Some ag -> P (a_tun ag).
Definition stream_in (P : Z -> Prop) (sa : Z) (b : broker) : Prop := forall k s, strs b !! sa = Some (k, s) -> P k.

Section Apart.
Context (P : Z -> Prop).

Lemma apart_same b b' : (tunnels b', tuns b', agents b', strs b') = (tunnels b, tuns b, agents b, strs b) -> apart P b b'.
Proof. intros E. injection E as E1 E2 E3 E4. constructor; rewrite ?E1, ?E2, ?E3, ?E4; auto. Qed.
#[local] Hint Extern 0 (apart _ _ _) => apply apart_same; reflexivity : core.

Lemma apart_core b b' : core b' = core b -> apart P b b'.
Proof. intros E. injection E as E1 E2 E3 E4 E5 E6 E7 E8 E9. apply apart_same. congruence. Qed.

Lemma apart_trans b1 b2 b3 : apart P b1 b2 -> apart P b2 b3 -> apart P b1 b3.
Proof.
  intros [L1 D1 T1 A1 N1 S1 M1] [L2 D2 T2 A2 N2 S2 M2]. constructor; [congruence|..]; auto.
  - intros k. by rewrite D2.
  - intros k Hk. by rewrite T2, T1.
  - intros a ag Ha. destruct (N2 a ag Ha); auto.
  - intros sa k s Hs. destruct (M2 sa k s Hs); auto.
Qed.

Lemma agent_in_apart a b b' : apart P b b' -> agent_in P a b -> agent_in P a b'.
Proof. intros Ha Hi ag E. destruct (ap_agent_new _ _ _ Ha a ag E); auto. Qed.
Lemma stream_in_apart sa b b' : apart P b b' -> stream_in P sa b -> stream_in P sa b'.
Proof. intros Ha Hi k s E. destruct (ap_str_new _ _ _ Ha sa k s E); eauto. Qed.

Lemma apart_with_conn c b k : (forall x, conns b !! c = Some x -> apart P b (k x)) -> apart P b (with_conn c b k).
Proof. intros Hk. unfold with_conn. destruct (conns b !! c); auto. Qed.

(** Changes of a tunnel in [P], of its sessions and of its streams. *)
Lemma apart_tun ta t t' b b' : P ta -> tuns b !! ta = Some t ->
  (tunnels b', tuns b', agents b', strs b') = (tunnels b, <[ta := t']> (tuns b), agents b, strs b) -> apart P b b'.
Proof.
  intros Hp Et E. injection E as E1 E2 E3 E4. constructor; rewrite ?E1, ?E2, ?E3, ?E4; auto.
  - intros k. upd_case k ta; [|done]. rewrite Et. split; by eauto.
  - intros k Hk. apply lookup_insert_ne. congruence.
Qed.
Lemma apart_agents a b b' : agent_in P a b -> agent_in P a b' ->
  (tunnels b', tuns b', strs b') = (tunnels b, tuns b, strs b) ->
  (forall k, k <> a -> agents b' !! k = agents b !! k) -> apart P b b'.
Proof.
  intros Hp Hp' E Ha. injection E as E1 E2 E4. constructor; rewrite ?E1, ?E2, ?E4; auto.
  - intros k ag Ek Hk. rewrite Ha; [done|]. intros ->. by apply Hk, Hp.
  - intros k ag Ek. destruct (decide (k = a)) as [->|Hne]; [left; by apply Hp'|right; by rewrite <- Ha].
Qed.
Lemma apart_strs sa b b' : stream_in P sa b -> stream_in P sa b' ->
  (tunnels b', tuns b', agents b') = (tunnels b, tuns b, agents b) ->
  (forall k, k <> sa -> strs b' !! k = strs b !! k) -> apart P b b'.
Proof.
  intros Hp Hp' E Ha. injection E as E1 E2 E4. constructor; rewrite ?E1, ?E2, ?E4; auto.
  - intros k l s Ek Hk. rewrite Ha; [done|]. intros ->. by eapply Hk, Hp.
  - intros k l s Ek. destruct (decide (k = sa)) as [->|Hne]; [left; by eapply Hp'|right; by rewrite <- Ha].
Qed.

Lemma apart_on_stream sa f b : stream_in P sa b -> apart P b (on_stream sa f b).
Proof.
  intros Hs. unfold on_stream. destruct (strs b !! sa) as [[ta s]|] eqn:Es; [|done].
  pose proof (Hs ta s Es) as Hp. unfold with_tun. destruct (tuns b !! ta) as [t|] eqn:Et; [|done]. cbv zeta.
  set (s' := f _). clearbody s'. set (t1 := if Relay.linked s && negb (Relay.linked s') then _ else t). clearbody t1.
  set (b1 := store_cells ta t1 (Relay.sh s') b). set (b2 := b1 <| strs ::= _ |>).
  assert (apart P b b2) as Ha.
  { apply apart_trans with b1; [by eapply (apart_tun ta t)|]. apply (apart_strs sa); try done.
    - intros k u. change (strs b2) with (<[sa := (ta, s')]> (strs b)). rewrite lookup_insert_eq. by intros [= <- _].
    - intros k Hk. change (strs b2) with (<[sa := (ta, s')]> (strs b)). by rewrite lookup_insert_ne. }
  destruct (Relay.uaf s'); [|done]. by eapply apart_trans.
Qed.

Lemma apart_agent_drop a b : agent_in P a b -> apart P b (tm_agent_drop a b).
Proof.
  intros Ha. unfold tm_agent_drop. destruct (agents b !! a) as [ag|] eqn:Ea; [|done]. pose proof (Ha ag Ea) as Hp. cbv zeta.
  set (b1 := match tuns b !! a_tun ag with None => _ | Some _ => _ end).
  assert (apart P b b1 /\ agents b1 = agents b) as [Hin1 E1].
  { unfold b1. destruct (tuns b !! a_tun ag) as [t|] eqn:Et; [|done]. case_bool_decide; [|done].
    split; [by eapply (apart_tun (a_tun ag) t)|done]. }
  clearbody b1. apply apart_trans with b1; [done|]. apply (apart_agents a); try done.
  - unfold agent_in. by rewrite E1.
  - intros g. change (agents (b1 <| agents ::= _ |>)) with (delete a (agents b1)). by rewrite lookup_delete_eq.
  - intros k Hk. change (agents (b1 <| agents ::= _ |>)) with (delete a (agents b1)). by rewrite lookup_delete_ne.
Qed.

Lemma apart_agent_write a d b : agent_in P a b -> apart P b (snd (agent_write a d b)).
Proof.
  intros Ha. unfold agent_write. destruct (agents b !! a) as [ag|] eqn:Ea; [|done].
  destruct (io_write (a_io ag) d) as [[st us] i]. cbn [snd]. set (b1 := b <| agents ::= _ |>).
  assert (agent_in P a b1) as Hin1.
  { intros g. change (agents b1) with (<[a := ag <| a_io := i |>]> (agents b)). rewrite lookup_insert_eq. intros [= <-]. exact (Ha ag Ea). }
  assert (apart P b b1) as A1.
  { apply (apart_agents a); try done. intros k Hk. change (agents b1) with (<[a := ag <| a_io := i |>]> (agents b)).
    by rewrite lookup_insert_ne. }
  clearbody b1. apply apart_trans with b1; [done|]. clear A1 Ha Ea. revert b1 Hin1.
  unfold agent_ups. induction us as [|u us IH]; intros b1 Hin1; cbn [fold_left]; [done|].
  destruct u; [by apply IH|]. destruct (agents b1 !! a) eqn:Eg; [|by apply IH].
  pose proof (apart_agent_drop a b1 Hin1) as Hd. eapply apart_trans; [exact Hd|]. apply IH. by eapply agent_in_apart.
Qed.

Lemma apart_agent_send_frame a f b : agent_in P a b -> apart P b (tm_agent_send_frame a f b).
Proof.
  intros Ha. unfold tm_agent_send_frame. destruct (f ≫= tm_frame_encode) as [buf|]; [|done].
  pose proof (apart_agent_write a buf b Ha) as Hw. destruct (agent_write a buf b) as [st b1]. cbn [snd] in Hw.
  destruct st; [done|..]; (eapply apart_trans; [exact Hw|]; apply apart_agent_drop; by eapply agent_in_apart).
Qed.
Lemma apart_send_frame_agent a ty sid b : agent_in P a b -> apart P b (send_frame_agent a ty sid b).
Proof.
  intros Ha. unfold send_frame_agent. destruct (_ ≫= _) as [buf|]; [|done].
  pose proof (apart_agent_write a buf b Ha) as Hw. destruct (agent_write a buf b) as [st b1]. cbn [snd] in Hw.
  destruct st; [done|..]; by eapply apart_trans.
Qed.
Lemma apart_send_frame_leg_a sa ty sid b : stream_in P sa b -> apart P b (send_frame_leg_a sa ty sid b).
Proof.
  intros Hs. unfold send_frame_leg_a. destruct (_ ≫= _) as [buf|]; [|done]. destruct (strs b !! sa) as [[ta s]|]; [|done].
  destruct (leg (to_a s)) as [i|]; [|done]. cbv zeta.
  pose proof (apart_on_stream sa (fun s => snd (leg_write (upcall_n relay_depth) A buf s)) b Hs) as Ha.
  destruct (fst (fst (io_write i buf))); [done|..]; by eapply apart_trans.
Qed.

Lemma apart_conn_close c b : apart P b (conn_close c b).
Proof. apply apart_core, core_conn_close. Qed.
Lemma apart_send_frame_raw c ty sid msg b : apart P b (send_frame_raw c ty sid msg b).
Proof. apply apart_core, core_send_frame_raw. Qed.
Lemma apart_upd_conn c g b : apart P b (upd_conn c g b).
Proof. apply apart_core, core_upd_conn. Qed.
Lemma apart_retire c b : apart P b (retire c b).
Proof. apply apart_core. unfold retire. by rewrite core_close_timer. Qed.
Lemma apart_bind_error c sid msg b : apart P b (bind_error c sid msg b).
Proof. eapply apart_trans; [apply apart_send_frame_raw|apply apart_conn_close]. Qed.
Lemma apart_protocol_error c b : apart P b (conn_close c (bincr b_protocol_errors b)).
Proof. apply apart_trans with (bincr b_protocol_errors b); [done|apply apart_conn_close]. Qed.
Lemma apart_reject c ty msg b : apart P b (conn_close c (send_frame_raw c ty 0 msg (bincr b_failed_auths b))).
Proof.
  apply apart_trans with (bincr b_failed_auths b); [done|].
  eapply apart_trans; [apply apart_send_frame_raw|apply apart_conn_close].
Qed.
Lemma apart_copy_id id b : apart P b (copy_id id b).
Proof. apply apart_core, core_copy_id. Qed.

Lemma apart_create_closed ta now i b : reg b -> P ta ->
  apart P b (snd (create_closed ta now i b)) /\
  forall sa, fst (create_closed ta now i b) = Some sa -> stream_in P sa (snd (create_closed ta now i b)).
Proof.
  intros Hr Hp. unfold create_closed, stream_create. destruct (tuns b !! ta) as [t|] eqn:Et; [|done].
  destruct (tm_stream_create_closed _ _ now i _) as [[s|] tbl]; [|done]. cbn [alloc fst snd]. cbv zeta.
  set (t1 := t <| t_streams ::= _ |> <| t_streams_total := _ |>). clearbody t1.
  set (b0 := b <| b_next ::= Z.add 1 |>). set (b1 := store_cells ta t1 (cells tbl) b0).
  set (b2 := b1 <| b_streams_total := _ |> <| b_sid_counter := _ |> <| b_sid_counter2 := _ |> <| strs ::= _ |>).
  assert (strs b2 = <[b_next b := (ta, s)]> (strs b)) as E2 by done.
  assert (stream_in P (b_next b) b2) as Hin2 by (intros k u; rewrite E2, lookup_insert_eq; by intros [= <- _]).
  split; [|by intros sa [= <-]]. apply apart_trans with b1; [by eapply (apart_tun ta t)|].
  apply (apart_strs (b_next b)); try done.
  - intros k u Ek. change (strs b1) with (strs b) in Ek. apply (fr_str _ _ _ _ (rg_fresh _ Hr)) in Ek. lia.
  - intros k Hk. rewrite E2. by rewrite lookup_insert_ne.
Qed.

(** The session of a tunnel of [P] is in [P], and so are the streams it lists. *)
Lemma session_in ta t a b : reg b -> P ta -> tuns b !! ta = Some t -> t_agent t = Some a -> agent_in P a b.
Proof.
  intros Hr Hp Et Ea ag Eg. destruct (ag_live _ _ (rg_agents _ Hr) ta t a Et Ea) as (og & Eo & Ho). congruence.
Qed.
Lemma listed_in ta t sa sid b : reg b -> P ta -> tuns b !! ta = Some t -> stream_find b t sid = Some sa -> stream_in P sa b.
Proof.
  intros Hr Hp Et Hf k s Es. apply find_some_in in Hf as [Hin%list_elem_of_In _].
  destruct (so_list _ _ _ _ (rg_streams _ Hr) ta t sa Et Hin) as (s0 & E0 & _). congruence.
Qed.

Lemma apart_promote c ta x t i fr b : reg b -> P ta -> tuns b !! ta = Some t -> conns b !! c = Some x ->
  apart P b (promote c ta x t i fr b).
Proof.
  intros Hr Hp Et Ex. unfold promote, install_agent. cbn [now_ms alloc fst snd]. cbv zeta.
  set (now := clock (b_ticks b)). change (b_next (b <| b_ticks ::= S |>)) with (b_next b).
  set (b1 := b <| b_ticks ::= S |> <| b_next ::= Z.add 1 |>).
  set (b2 := upd_conn c _ b1). assert (apart P b b2) as A2 by (apply apart_trans with b1; [done|apply apart_upd_conn]).
  assert (agents b2 = agents b) as E2 by (pose proof (core_upd_conn c (fun x => x <| c_sock := false |> <| c_io := None |> <| c_fr := None |>) b1) as Q; by injection Q).
  assert (tuns b2 = tuns b) as T2 by (pose proof (core_upd_conn c (fun x => x <| c_sock := false |> <| c_io := None |> <| c_fr := None |>) b1) as Q; by injection Q).
  clearbody b2. set (ag := Agent ta i fr now now _). set (b3 := b2 <| agents ::= _ |>).
  assert (agents b3 = <[b_next b := ag]> (agents b)) as E3 by (by rewrite <- E2).
  assert (agent_in P (b_next b) b3) as I3 by (intros g; rewrite E3, lookup_insert_eq; by intros [= <-]).
  assert (apart P b b3) as A3.
  { apply apart_trans with b2; [done|]. apply (apart_agents (b_next b)); try done.
    - intros g Eg. rewrite E2 in Eg. apply (fr_agent _ _ _ _ (rg_fresh _ Hr)) in Eg. lia.
    - intros k Hk. rewrite E3, E2. by rewrite lookup_insert_ne. }
  set (b4 := match t_agent t with Some old => _ | None => b3 end).
  assert (apart P b3 b4) as A4.
  { unfold b4. destruct (t_agent t) as [old|] eqn:Eo; [|done]. apply apart_trans with (bincr agent_reconnects b3); [done|].
    apply apart_agent_drop. apply (agent_in_apart old b3); [done|]. apply (agent_in_apart old b); [done|]. by eapply session_in. }
  clearbody b3. set (b5 := upd_tun ta _ b4).
  assert (apart P b4 b5) as A5.
  { unfold b5, upd_tun, with_tun. destruct (tuns b4 !! ta) as [u|] eqn:Eu; [|done]. by eapply (apart_tun ta u). }
  clearbody b4. assert (agent_in P (b_next b) b5) as I5 by (by eapply agent_in_apart, agent_in_apart).
  clearbody b5. eapply apart_trans; [exact A3|]. eapply apart_trans; [exact A4|]. eapply apart_trans; [exact A5|].
  eapply apart_trans; [|apply apart_retire]. eapply apart_trans; [by apply (apart_send_frame_agent (b_next b) TM_MSG_REGISTER_OK 0)|].
  by destruct (agents _ !! b_next b).
Qed.

Lemma apart_peer_open_stream c b : reg b -> (forall x ta, conns b !! c = Some x -> peer_tun x = Some ta -> P ta) ->
  apart P b (peer_open_stream c b).
Proof.
  intros Hr Hpt. apply apart_with_conn. intros x Ex. destruct (peer_tun x) as [ta|] eqn:Ept; [|apply apart_bind_error].
  pose proof (Hpt x ta Ex Ept) as Hp. unfold with_tun. destruct (tuns b !! ta) as [t|] eqn:Et; [|done].
  destruct (agent_online t); [|apply apart_bind_error]. destruct (t_agent t) as [a|] eqn:Ea; [|apply apart_bind_error].
  destruct (_ <=? _); [apply apart_bind_error|].
  destruct (c_io x) as [i|]; [|by destruct (c_fr x)]. destruct (c_fr x) as [fr|]; [|done].
  destruct (tm_frame_reader_drain fr) as [lo fr']. cbn [now_ms]. cbv zeta.
  set (b1 := put_conn c (x <| c_fr := Some fr' |>) b <| b_ticks ::= S |>). assert (apart P b b1) as A1 by done.
  assert (reg b1) as Hr1 by (by apply (reg_core b)). set (now := clock _).
  destruct (apart_create_closed ta now i b1 Hr1 Hp) as [A2 I2].
  pose proof (session_in ta t a b Hr Hp Et Ea) as Ia.
  destruct (create_closed ta now i b1) as [[sa|] b2]; cbn [fst snd] in *; clearbody b1;
    (eapply apart_trans; [exact A1|]; eapply apart_trans; [exact A2|]); [|apply apart_bind_error].
  specialize (I2 sa eq_refl).
  assert (agent_in P a b2) as Ia2 by (by eapply agent_in_apart, agent_in_apart).
  set (b3 := upd_conn c _ b2). assert (apart P b2 b3) as A3 by apply apart_upd_conn.
  set (b4 := send_frame_leg_a sa TM_MSG_DATA_BIND_OK 0 b3).
  assert (apart P b3 b4) as A4 by (apply apart_send_frame_leg_a; by eapply stream_in_apart).
  assert (apart P b2 b4) as A24 by (by eapply apart_trans). clearbody b3 b4.
  eapply apart_trans; [exact A24|]. eapply apart_trans; [|apply apart_retire]. eapply apart_trans; [|apply apart_upd_conn].
  match goal with |- apart P b4 (if _ then ?y else _) => set (b5 := y) end.
  assert (apart P b4 b5) as A5 by (apply apart_agent_send_frame; by eapply agent_in_apart). clearbody b5.
  destruct (_ =? 0); [done|]. eapply apart_trans; [exact A5|]. apply apart_on_stream.
  eapply stream_in_apart; [exact A5|]. by eapply stream_in_apart.
Qed.

Lemma apart_peer_frame c f b : reg b -> (forall x ta, conns b !! c = Some x -> peer_tun x = Some ta -> P ta) ->
  apart P b (peer_frame c f b).
Proof.
  intros Hr Hpt. unfold peer_frame. destruct (_ =? TM_MSG_DATA_BIND).
  { destruct (_ =? 0); [by apply apart_peer_open_stream|apply apart_protocol_error]. }
  destruct (_ =? TM_MSG_CLOSE_STREAM).
  { apply apart_with_conn. intros x Ex. destruct (peer_tun x) as [ta|] eqn:Ept; [|done].
    unfold with_tun. destruct (tuns b !! ta) as [t|] eqn:Et; [|done].
    destruct (stream_find b t (f_stream_id f)) as [sa|] eqn:Ef; [|done].
    apply apart_on_stream. eapply listed_in; eauto. }
  destruct (_ =? TM_MSG_PING); [apply apart_send_frame_raw|apply apart_protocol_error].
Qed.

Lemma apart_bind_stream c sa sid b : stream_in P sa b -> apart P b (bind_stream c sa sid b).
Proof.
  intros Hs. apply apart_with_conn. intros x Ex. destruct (c_fr x) as [fr0|]; [|done].
  destruct (tm_frame_reader_drain fr0) as [lo fr]. cbv zeta.
  set (b1 := send_frame_raw c TM_MSG_DATA_BIND_OK sid [] _).
  assert (apart P b b1) as A1 by (eapply apart_trans; [|apply apart_send_frame_raw]; done). clearbody b1.
  eapply apart_trans; [exact A1|]. apply apart_with_conn. intros x1 _. destruct (c_io x1) as [i|]; [|done].
  pose proof (stream_in_apart sa b b1 A1 Hs) as Hs1. set (b2 := on_stream sa _ b1).
  assert (apart P b1 b2) as A2 by (by apply apart_on_stream). clearbody b2. set (b3 := upd_conn c _ b2).
  assert (apart P b1 b3) as A3 by (eapply apart_trans; [exact A2|apply apart_upd_conn]). clearbody b3.
  eapply apart_trans; [exact A3|]. eapply apart_trans; [|apply apart_retire]. eapply apart_trans; [|apply apart_upd_conn].
  destruct (_ =? 0); [done|]. apply apart_on_stream. by eapply stream_in_apart.
Qed.

End Apart.

(** The tunnel a frame has authority over: the one it registers for, the one its
    connection is a peer of, the one whose waiting stream it binds. *)
Definition concerns (c : Z) (f : tm_frame) (b : broker) (ta : Z) : Prop :=
  may_register c f b ta \/
  (exists x, conns b !! c = Some x /\ peer_authed x = true /\ peer_tun x = Some ta) \/
  exists sa, may_bind c f b sa ta.

Lemma apart_conn_frame c f b : reg b -> apart (concerns c f b) b (conn_frame c f b).
Proof.
  intros Hr. unfold conn_frame, with_conn. destruct (conns b !! c) as [x|] eqn:Ex; [|by apply apart_same].
  destruct (got_hello x) eqn:Eh; cbn [negb].
  - destruct (peer_authed x) eqn:Epa.
    { apply apart_peer_frame; [done|]. intros y ta Ey Et. right. left. exists y. split_and!; congruence. }
    destruct (_ =? TM_MSG_REGISTER) eqn:E1; zb.
    { unfold agent_register. destruct (credentials f) as [[id secret]|] eqn:Ec.
      2:{ eapply apart_trans; [apply apart_send_frame_raw|apply apart_conn_close]. }
      destruct (core_copy_id id b) as (Cc & Cn & Ck). pose proof (apart_copy_id (concerns c f b) id b) as A1.
      assert (reg (copy_id id b)) as R1 by (by apply (reg_core b)).
      set (b1 := copy_id id b) in *. clearbody b1. eapply apart_trans; [exact A1|]. unfold register_as. cbv zeta.
      destruct (named_tunnel b1 (strz id)) as [[ta t]|] eqn:Ef; [|apply apart_reject].
      apply named_tunnel_some in Ef as (Hin & Et & Hid).
      destruct (t_enabled t) eqn:Ee; cbn [negb orb]; [|apply apart_reject].
      destruct (tm_ct_eq_hex _ _) eqn:Eq; cbn [negb]; [|apply apart_reject].
      apply apart_with_conn. intros y Ey. destruct (c_io y) as [i|]; [|by destruct (c_fr y); apply apart_same].
      destruct (c_fr y) as [fr|]; [|by apply apart_same]. apply apart_promote; auto.
      injection Cc as D1 D2 _ _ _ _ _ _ _. left. exists x, id, secret. split_and!; auto.
      split; [congruence|]. exists t. rewrite <- D1, <- Ck. done. }
    destruct (_ =? TM_MSG_AUTH).
    { unfold peer_auth. destruct (credentials f) as [[id secret]|]; [|apply apart_reject].
      eapply apart_trans; [apply (apart_copy_id _ id)|]. generalize (copy_id id b). intros b1. unfold auth_as. cbv zeta.
      destruct (named_tunnel b1 (strz id)) as [[ta t]|]; [|apply apart_reject].
      destruct (_ || _); [apply apart_reject|].
      eapply apart_trans; [|apply apart_send_frame_raw]. apply apart_upd_conn. }
    destruct (_ =? _); [apply apart_send_frame_raw|apply apart_protocol_error].
  - destruct (_ =? TM_MSG_HELLO).
    { eapply apart_trans; [|apply apart_send_frame_raw]. by apply apart_same. }
    destruct (_ =? TM_MSG_DATA_BIND) eqn:E1; zb; [|apply apart_protocol_error].
    unfold data_conn_first_frame. cbv zeta. destruct ((f_stream_id f =? 0) || _ || _); [apply apart_protocol_error|].
    destruct (find_stream (tunnels b) (f_stream_id f) b) as [sa|] eqn:Ef; [|apply apart_bind_error]. cbn.
    destruct (strs b !! sa) as [[ta s]|] eqn:Es; [|apply apart_bind_error]. cbn.
    unfold with_tun. destruct (tuns b !! ta) as [t|] eqn:Et; [|by apply apart_same].
    destruct (_ || _ || _) eqn:Eb; [apply apart_bind_error|]. zb. destruct Eb as [[Eb1 Eb2] Eb3].
    destruct (tm_ct_eq_hex _ _) eqn:Eq; cbn [negb].
    2:{ apply apart_trans with (bincr b_failed_auths b); [by apply apart_same|apply apart_bind_error]. }
    apply apart_bind_stream. intros k u Ek. rewrite Es in Ek. injection Ek as <- <-.
    right. right. exists sa. exists x. split_and!; auto. exists s, t. split_and!; try done. by eapply find_stream_id.
Qed.

(** C2: authority comes only from credentials, and a frame changes no tunnel it has no
    authority over.  Take one frame of a pending connection whose credentials, if it has
    any, carry an id that fits its buffer (of at most 24 bytes; longer ones leave it,
    [id_copy_overflows]).  The registry stays consistent, no tunnel comes or goes and
    every tunnel keeps its name and its digests.  A tunnel gets a new control session
    only from a REGISTER that follows a HELLO and carries the secret whose keyed digest
    an enabled tunnel of that name stores; a connection becomes a peer only by an AUTH
    with the shared token of an enabled closed tunnel; a stream becomes bound only by a
    DATA_BIND that opens its connection, names the stream while it waits, and carries the
    agent secret of the stream's own tunnel.  Every tunnel but the one the frame
    registers for, the one its connection is an authenticated peer of and the one whose
    waiting stream it binds keeps its whole record, its session and its streams. *)
Theorem conn_frame_authorised c f b :
  reg b -> (forall id secret, credentials f = Some (id, secret) -> blen id <= TM_TUNNEL_ID_LEN) ->
  let b' := conn_frame c f b in
  reg b' /\ tunnels b' = tunnels b /\
  (forall ta t, tuns b !! ta = Some t -> exists t', tuns b' !! ta = Some t' /\ t_creds t' = t_creds t /\
     (t_agent t' = t_agent t \/ t_agent t' = None \/
      exists x id secret, conns b !! c = Some x /\ got_hello x = true /\ f_type f = TM_MSG_REGISTER /\
        credentials f = Some (id, secret) /\ knows_agent_secret b ta id secret)) /\
  (forall d x', conns b' !! d = Some x' -> peer_authed x' = true ->
     (exists x, conns b !! d = Some x /\ peer_authed x = true /\ peer_tun x' = peer_tun x) \/
     (exists x ta id secret, d = c /\ conns b !! c = Some x /\ got_hello x = true /\ f_type f = TM_MSG_AUTH /\
        peer_tun x' = Some ta /\ credentials f = Some (id, secret) /\ knows_shared_token b ta id secret)) /\
  (forall sa ta s', strs b' !! sa = Some (ta, s') -> Relay.bound s' = true ->
     (exists s, strs b !! sa = Some (ta, s) /\ Relay.bound s = true) \/
     (exists x, conns b !! c = Some x /\ got_hello x = false /\ f_type f = TM_MSG_DATA_BIND /\
        knows_stream_secret b sa ta f)) /\
  (forall ta, ~ concerns c f b ta ->
     tuns b' !! ta = tuns b !! ta /\
     (forall a ag, a_tun ag = ta -> agents b' !! a = Some ag <-> agents b !! a = Some ag) /\
     (forall sa s, strs b' !! sa = Some (ta, s) <-> strs b !! sa = Some (ta, s))).
Proof.
  intros Hr _. cbv zeta. destruct (conn_frame_grants c f b Hr) as [[_ T S C _] R].
  pose proof (apart_conn_frame c f b Hr) as [L D U A A' W W']. split_and!; auto.
  - intros ta t Et. destruct (D ta) as [_ D']. destruct D' as [t' Et']; [by rewrite Et|]. exists t'. split; [done|].
    destruct (T ta t' Et') as (t0 & E & Ec & Ea & _). rewrite Et in E. injection E as <-. by split.
  - intros d x' E B. destruct (C d x' E B) as [?|(ta & P & x & id & secret & Q)]; [by left|].
    right. exists x, ta, id, secret. tauto.
  - intros ta Hn. split_and!; auto.
    + intros a ag <-. split; [|auto]. intros E. by destruct (A' a ag E).
    + intros sa s. split; [|eauto]. intros E. by destruct (W' sa ta s E).
Qed.

(** ** The invariant under the events of the control port *)

Lemma gone_grants PA PC PS b b' : (forall ta, PA ta -> ta ∈ tunnels b) -> grants PA PC PS b b' -> gone_ok b -> gone_ok b'.
Proof.
  intros HP [L T _ _ _] G ta t' Et Hd. destruct (T ta t' Et) as (t & E & Ec & Ea & Es).
  injection Ec as _ _ _ _ _ Ed. rewrite Ed in Hd. destruct (G ta t E Hd) as (Hn & Hag & Hst).
  assert (~ PA ta) as Hno by auto.
  split_and!; [auto|destruct Ea as [->|[->|?]]; done|]. by destruct (Es Hst Hag).
Qed.

Lemma binv_steady b b' : steady b b' -> binv b -> binv b'.
Proof. intros Hs Hb. destruct (Hs (proj1 Hb)). by apply (binv_tame b). Qed.

Lemma binv_conn_frame c f b : binv b -> binv (conn_frame c f b).
Proof.
  intros [Hr G]. destruct (conn_frame_grants c f b Hr) as [Hg R]. split; [done|].
  eapply gone_grants; [|exact Hg|done]. by intros ta (x & id & secret & _ & _ & _ & _ & Hin & _).
Qed.

Lemma binv_conn_loop fuel c data b : binv b -> binv (conn_loop fuel c data b).
Proof.
  revert data b. induction fuel as [|fuel IH]; intros data b Hb; cbn [conn_loop]; [by apply (binv_steady b)|].
  unfold with_conn at 1. destruct (conns b !! c) as [x|] eqn:Ex; [|by apply (binv_steady b)].
  destruct (c_fr x) as [fr|]; [|by apply (binv_steady b)].
  destruct (tm_frame_reader_feed fr data) as [r fr']. cbv zeta.
  assert (binv (put_conn c (x <| c_fr := Some fr' |>) b)) as Hb1.
  { apply (binv_steady b); [|done]. by apply steady_put_conn with x. }
  destruct r as [| |f]; [|done|].
  - eapply binv_steady; [apply steady_protocol_error|done].
  - apply (binv_conn_frame c f) in Hb1. unfold with_conn. destruct (conns (conn_frame _ _ _) !! c) as [y|].
    + destruct (_ || _); [done|by apply IH].
    + eapply binv_steady; [|exact Hb1]. done.
Qed.

Lemma binv_conn_read c data b : binv b -> binv (conn_read c data b).
Proof.
  intros Hb. unfold conn_read, with_conn. destruct (conns b !! c) as [x|] eqn:Ex; [|by apply (binv_steady b)].
  cbn [now_ms]. apply binv_conn_loop. apply (binv_steady b); [|done].
  eapply steady_trans with (b <| b_ticks ::= S |>); [done|]. by apply steady_put_conn with x.
Qed.

Lemma steady_hs_timeout c b : steady b (conn_hs_timeout c b).
Proof. apply steady_with_conn. intros x _. destruct (c_closing x); [done|apply steady_conn_close]. Qed.

Lemma steady_conn_free c b : steady b (conn_free_cb c b).
Proof.
  intros Hr. split; [|by apply (reg_core b)]. constructor; eauto; [intros ta t' E; exists t'; auto|].
  intros k u. change (conns (conn_free_cb c b)) with (delete c (conns b)). upd_case k c; eauto. done.
Qed.

Lemma reg_alloc (b : broker) : reg b -> reg (snd (alloc b)).
Proof. intros [N A S F]. constructor; try done. by apply fresh_step. Qed.

Lemma steady_control_accept l remote failed b : steady b (on_control_accept l remote failed b).
Proof.
  unfold on_control_accept. destruct (b_shutting_down b); [done|]. destruct (_ <=? _); [done|].
  cbn [alloc now_ms]. set (b1 := b <| b_next ::= Z.add 1 |> <| b_ticks ::= S |>).
  assert (steady b b1) as S1 by (intros Hr; split; [by apply tame_eq|by apply (reg_core (snd (alloc b))), reg_alloc]).
  eapply steady_trans; [exact S1|]. destruct l as [i|]; [|done]. cbv zeta.
  set (x := Conn _ _ _ _ _ _ _ _ _ _). set (b2 := put_conn (b_next b) x b1).
  assert (steady b1 b2) as S2.
  { intros Hr. split; [|by apply (reg_core b1)]. constructor; eauto; [intros ta t' E; exists t'; auto|].
    intros k u. change (conns b2) with (<[b_next b := x]> (conns b1)). upd_case k (b_next b); [|eauto]. by intros [= <-]. }
  eapply steady_trans; [exact S2|].
  match goal with |- steady _ (?y <| conn_list ::= _ |> <| conns_total ::= _ |>) => apply steady_trans with y; [|done] end.
  destruct failed; [apply steady_conn_close|done].
Qed.

Lemma steady_tick b : steady b (tm_agent_tick b).
Proof.
  unfold tm_agent_tick. cbn [now_ms]. cbv zeta. eapply steady_trans; [|apply steady_fold].
  - eapply steady_trans; [|apply steady_fold]; [done|]. intros b0 ta. apply steady_with_tun. intros t _.
    destruct (t_agent t) as [a|]; [|done]. destruct (agents b0 !! a) as [ag|] eqn:Ea; [|done].
    destruct (_ <? _); [apply steady_agent_drop|]. destruct (_ <=? _); [|done].
    eapply steady_trans; [|apply steady_agent_send_frame]. by apply steady_put_agent with ag.
  - intros b0 c. apply steady_with_conn. intros x _. destruct (_ && _); [apply steady_conn_close|done].
Qed.

Lemma steady_goaway b : steady b (tm_control_goaway_all b).
Proof.
  apply steady_fold. intros b0 ta. apply steady_with_tun. intros t _. destruct (t_agent t); [apply steady_agent_send_frame|done].
Qed.

Lemma steady_close_all b : steady b (tm_control_close_all b).
Proof.
  unfold tm_control_close_all. cbv zeta.
  match goal with |- steady _ (close_conns _ ?y) => apply steady_trans with y end.
  - apply steady_fold. intros b0 ta. apply steady_with_tun. intros t _. destruct (t_agent t); [apply steady_agent_drop|done].
  - set (b1 := fold_left _ _ _). generalize (length (conn_list b1)). clearbody b1. intros n. revert b1.
    induction n as [|n IH]; intros b1; cbn [close_conns]; [done|]. destruct (conn_list b1) as [|c l]; [done|].
    eapply steady_trans; [apply steady_conn_close|apply IH].
Qed.

(** ** The read loops end

    No handler puts bytes into the frame reader of the connection it serves, and the
    fuel of the loops is the number of buffered bytes. *)

Definition calm (c : Z) (b b' : broker) : Prop :=
  (b_stuck b' = b_stuck b /\ (overflow b = true -> overflow b' = true)) /\
  forall x' fr', conns b' !! c = Some x' -> c_fr x' = Some fr' ->
    exists x fr, conns b !! c = Some x /\ c_fr x = Some fr /\ (fr_buf fr' = fr_buf fr \/ fr_buf fr' = []).

Lemma calm_same c b b' : (b_stuck b', overflow b', conns b') = (b_stuck b, overflow b, conns b) -> calm c b b'.
Proof. intros E. injection E as E1 E2 E3. split; [split; [done|congruence]|]. rewrite E3. eauto 10. Qed.
#[local] Hint Extern 0 (calm _ _ _) => apply calm_same; reflexivity : core.

Lemma conn_calm_trans c b1 b2 b3 : calm c b1 b2 -> calm c b2 b3 -> calm c b1 b3.
Proof.
  intros [[S1 O1] F1] [[S2 O2] F2]. split; [split; [congruence|auto]|]. intros x3 fr3 E3 Hf3.
  destruct (F2 x3 fr3 E3 Hf3) as (x2 & fr2 & E2 & Hf2 & B2). destruct (F1 x2 fr2 E2 Hf2) as (x1 & fr1 & E1 & Hf1 & B1).
  exists x1, fr1. split_and!; try done. destruct B2 as [-> | ->]; auto.
Qed.

Lemma calm_with_conn c d b k : (forall x, conns b !! d = Some x -> calm c b (k x)) -> calm c b (with_conn d b k).
Proof. intros Hk. unfold with_conn. destruct (conns b !! d); auto. Qed.
Lemma calm_with_tun c ta b k : (forall t, tuns b !! ta = Some t -> calm c b (k t)) -> calm c b (with_tun ta b k).
Proof. intros Hk. unfold with_tun. destruct (tuns b !! ta); auto. Qed.
Lemma calm_put_conn c x x' b : conns b !! c = Some x ->
  (forall fr', c_fr x' = Some fr' -> exists fr, c_fr x = Some fr /\ (fr_buf fr' = fr_buf fr \/ fr_buf fr' = [])) ->
  calm c b (put_conn c x' b).
Proof.
  intros Ex Hf. split; [done|]. change (conns (put_conn c x' b)) with (<[c := x']> (conns b)). rewrite lookup_insert_eq.
  intros y fr [= <-] Ey. destruct (Hf fr Ey) as (fr0 & E0 & B0). eauto.
Qed.
Lemma calm_upd_conn c g b : (forall x, c_fr (g x) = c_fr x \/ c_fr (g x) = None) -> calm c b (upd_conn c g b).
Proof.
  intros Hg. apply calm_with_conn. intros x Ex. apply calm_put_conn with x; [done|]. intros fr Ef.
  destruct (Hg x) as [E|E]; rewrite E in Ef; [eauto|done].
Qed.
Lemma calm_on_stream c sa f b : calm c b (on_stream sa f b).
Proof.
  unfold on_stream. destruct (strs b !! sa) as [[ta s]|]; [|done]. apply calm_with_tun. intros t _. cbv zeta.
  by destruct (Relay.uaf _).
Qed.
Lemma calm_agent_drop c a b : calm c b (tm_agent_drop a b).
Proof.
  unfold tm_agent_drop. destruct (agents b !! a) as [ag|]; [|done]. destruct (tuns b !! a_tun ag) as [t|]; [|done].
  by case_bool_decide.
Qed.
Lemma calm_agent_write c a d b : calm c b (snd (agent_write a d b)).
Proof.
  unfold agent_write. destruct (agents b !! a) as [ag|]; [|done]. destruct (io_write (a_io ag) d) as [[st us] i]. cbn [snd].
  eapply conn_calm_trans with (b <| agents ::= fun m => <[a := ag <| a_io := i |>]> m |>); [done|].
  generalize (b <| agents ::= fun m => <[a := ag <| a_io := i |>]> m |>). clear b.
  unfold agent_ups. induction us as [|u us IH]; intros b; cbn [fold_left]; [done|]. eapply conn_calm_trans; [|apply IH].
  destruct u; [done|]. destruct (agents b !! a); [apply calm_agent_drop|done].
Qed.
Lemma calm_agent_send_frame c a f b : calm c b (tm_agent_send_frame a f b).
Proof.
  unfold tm_agent_send_frame. destruct (f ≫= tm_frame_encode) as [buf|]; [|done].
  pose proof (calm_agent_write c a buf b) as Hw. destruct (agent_write a buf b) as [st b']. cbn [snd] in Hw.
  destruct st; [done|..]; (eapply conn_calm_trans; [exact Hw|apply calm_agent_drop]).
Qed.
Lemma calm_close_timer c b : calm c b (close_timer c b).
Proof.
  apply calm_with_conn. intros x Ex. cbv zeta.
  assert (calm c b (put_conn c (x <| hs_closing := true |>) b)) by (apply calm_put_conn with x; eauto).
  destruct (hs_closing x); [|done]. by eapply conn_calm_trans.
Qed.
Lemma calm_retire c b : calm c b (retire c b).
Proof. unfold retire. eapply conn_calm_trans; [|apply calm_close_timer]. done. Qed.
Lemma calm_conn_close c b : calm c b (conn_close c b).
Proof.
  apply calm_with_conn. intros x Ex. destruct (c_closing x); [done|]. cbv zeta.
  eapply conn_calm_trans; [|by apply calm_upd_conn; auto]. eapply conn_calm_trans; [|apply calm_close_timer].
  eapply conn_calm_trans with (put_conn c (x <| c_closing := true |>) b); [|done]. apply calm_put_conn with x; eauto.
Qed.
Lemma calm_send_frame_raw c ty sid msg b : calm c b (send_frame_raw c ty sid msg b).
Proof.
  apply calm_with_conn. intros x Ex. destruct (c_io x) as [i|]; [|done].
  destruct (_ ≫= _) as [buf|]; [|done]. destruct (io_write i buf) as [[st us] i']. cbv zeta.
  set (b1 := put_conn c (x <| c_io := Some i' |>) b).
  assert (calm c b (conn_ups c us b1)) as Hs.
  { eapply conn_calm_trans with b1; [apply calm_put_conn with x; eauto|]. clearbody b1. unfold conn_ups. revert b1.
    induction us as [|u us IH]; intros b1; cbn [fold_left]; [done|]. eapply conn_calm_trans; [|apply IH].
    destruct u; [done|apply calm_conn_close]. }
  destruct st; [done|..]; by eapply conn_calm_trans.
Qed.
Lemma calm_send_close c ty sid msg b : calm c b (conn_close c (send_frame_raw c ty sid msg b)).
Proof. eapply conn_calm_trans; [apply calm_send_frame_raw|apply calm_conn_close]. Qed.
Lemma calm_count_send_close c ty sid msg b : calm c b (conn_close c (send_frame_raw c ty sid msg (bincr b_failed_auths b))).
Proof. eapply conn_calm_trans with (bincr b_failed_auths b); [done|apply calm_send_close]. Qed.
Lemma calm_protocol_error c b : calm c b (conn_close c (bincr b_protocol_errors b)).
Proof. eapply conn_calm_trans with (bincr b_protocol_errors b); [done|apply calm_conn_close]. Qed.
Lemma calm_copy_id c id b : calm c b (copy_id id b).
Proof. unfold copy_id. destruct (_ <? _); [|done]. split; [done|]. eauto 10. Qed.

Lemma calm_send_frame_agent c a ty sid b : calm c b (send_frame_agent a ty sid b).
Proof.
  unfold send_frame_agent. destruct (tm_frame_make ty sid [] 0 ≫= tm_frame_encode) as [buf|]; [|done].
  pose proof (calm_agent_write c a buf b) as Hw. destruct (agent_write a buf b) as [st b']. cbn [snd] in Hw.
  destruct st; [done|..]; by eapply conn_calm_trans.
Qed.

Lemma calm_promote c ta x t i fr b : calm c b (promote c ta x t i fr b).
Proof.
  unfold promote. cbn [now_ms alloc]. cbv zeta. eapply conn_calm_trans; [|apply calm_retire].
  match goal with |- calm _ _ (match _ with Some _ => ?y | None => _ end) => apply conn_calm_trans with y end;
    [|by destruct (agents _ !! _)].
  eapply conn_calm_trans; [|apply calm_send_frame_agent].
  match goal with |- calm _ _ (upd_tun _ _ ?y) => apply conn_calm_trans with y end; [|by apply calm_with_tun].
  match goal with |- calm _ _ (match t_agent t with Some _ => _ | None => ?y end) => apply conn_calm_trans with y end.
  - match goal with |- calm _ _ (?y <| agents ::= _ |>) => apply conn_calm_trans with y; [|done] end.
    match goal with |- calm _ _ (upd_conn _ _ ?y) => apply conn_calm_trans with y; [done|] end. apply calm_upd_conn; auto.
  - destruct (t_agent t) as [old|]; [|done].
    match goal with |- calm _ ?y _ => apply conn_calm_trans with (bincr agent_reconnects y); [done|] end. apply calm_agent_drop.
Qed.

Lemma drained fr : fr_buf (snd (tm_frame_reader_drain fr)) = [].
Proof. unfold tm_frame_reader_drain. destruct (_ =? 0) eqn:E; [|done]. zb. by apply blen_0_nil in E. Qed.

Lemma calm_register_as c id secret b : calm c b (register_as c id secret b).
Proof.
  unfold register_as. cbv zeta. destruct (named_tunnel b _) as [[ta t]|]; [|apply calm_count_send_close].
  destruct (_ || _); [apply calm_count_send_close|]. apply calm_with_conn. intros x _.
  destruct (c_io x), (c_fr x); try done. apply calm_promote.
Qed.
Lemma calm_agent_register c f b : calm c b (agent_register c f b).
Proof.
  unfold agent_register. destruct (credentials f) as [[id secret]|]; [|apply calm_send_close].
  eapply conn_calm_trans; [apply (calm_copy_id c id)|apply calm_register_as].
Qed.

Lemma calm_auth_as c id secret b : calm c b (auth_as c id secret b).
Proof.
  unfold auth_as. cbv zeta. destruct (named_tunnel b _) as [[ta t]|]; [|apply calm_count_send_close].
  destruct (_ || _); [apply calm_count_send_close|]. eapply conn_calm_trans; [|apply calm_send_frame_raw].
  apply calm_upd_conn. auto.
Qed.
Lemma calm_peer_auth c f b : calm c b (peer_auth c f b).
Proof.
  unfold peer_auth. destruct (credentials f) as [[id secret]|]; [|apply calm_count_send_close].
  eapply conn_calm_trans; [apply (calm_copy_id c id)|apply calm_auth_as].
Qed.

Lemma calm_create_closed c ta now i b : calm c b (snd (create_closed ta now i b)).
Proof.
  unfold create_closed, stream_create. destruct (tuns b !! ta); [|done].
  by destruct (tm_stream_create_closed _ _ _ _ _) as [[s|] tbl].
Qed.

Lemma calm_send_frame_leg_a c sa ty sid b : calm c b (send_frame_leg_a sa ty sid b).
Proof.
  unfold send_frame_leg_a. destruct (_ ≫= _); [|done]. destruct (strs b !! sa) as [[k s]|]; [|done].
  destruct (leg (to_a s)); [|done]. cbv zeta. destruct (fst _); [apply calm_on_stream|..];
    (eapply conn_calm_trans; [apply calm_on_stream|done]).
Qed.

(** The reader is drained before its connection is handed on. *)
Lemma calm_drain c x fr fr' lo b : conns b !! c = Some x -> c_fr x = Some fr -> tm_frame_reader_drain fr = (lo, fr') ->
  calm c b (put_conn c (x <| c_fr := Some fr' |>) b).
Proof.
  intros Ex Ef Ed. apply calm_put_conn with x; [done|]. intros fr0 [= <-].
  pose proof (drained fr) as Hd. rewrite Ed in Hd. eauto.
Qed.

Lemma calm_peer_open_stream c b : calm c b (peer_open_stream c b).
Proof.
  apply calm_with_conn. intros x Ex. destruct (peer_tun x) as [ta|]; [|apply calm_send_close].
  apply calm_with_tun. intros t _. destruct (if agent_online t then _ else _) as [a|]; [|apply calm_send_close].
  destruct (_ <=? _); [apply calm_send_close|]. destruct (c_io x) as [i|]; [|by destruct (c_fr x)].
  destruct (c_fr x) as [fr|] eqn:Ef; [|done].
  destruct (tm_frame_reader_drain fr) as [lo fr'] eqn:Ed. cbn [now_ms]. cbv zeta.
  eapply conn_calm_trans; [by apply (calm_drain c x fr fr' lo)|].
  set (b1 := put_conn c (x <| c_fr := Some fr' |>) b). eapply conn_calm_trans with (b1 <| b_ticks ::= S |>); [done|].
  pose proof (calm_create_closed c ta (clock (b_ticks b1)) i (b1 <| b_ticks ::= S |>)) as Hc.
  destruct (create_closed _ _ _ _) as [[sa|] b2]; cbn [snd] in Hc; (eapply conn_calm_trans; [exact Hc|]); [|apply calm_send_close].
  eapply conn_calm_trans; [|apply calm_retire]. eapply conn_calm_trans; [|apply calm_upd_conn; auto].
  match goal with |- calm _ _ (if _ then ?y else _) => apply conn_calm_trans with y end;
    [|destruct (_ =? 0); [done|apply calm_on_stream]].
  eapply conn_calm_trans; [|apply calm_agent_send_frame]. eapply conn_calm_trans; [|apply calm_send_frame_leg_a].
  apply calm_upd_conn; auto.
Qed.

Lemma calm_bind_stream c sa sid b : calm c b (bind_stream c sa sid b).
Proof.
  apply calm_with_conn. intros x Ex. destruct (c_fr x) as [fr|] eqn:Ef; [|done].
  destruct (tm_frame_reader_drain fr) as [lo fr'] eqn:Ed. cbv zeta.
  eapply conn_calm_trans; [by apply (calm_drain c x fr fr' lo)|].
  eapply conn_calm_trans; [apply (calm_send_frame_raw c TM_MSG_DATA_BIND_OK sid [])|].
  generalize (send_frame_raw c TM_MSG_DATA_BIND_OK sid [] (put_conn c (x <| c_fr := Some fr' |>) b)). clear. intros b.
  apply calm_with_conn. intros x Ex. destruct (c_io x) as [i|]; [|done].
  eapply conn_calm_trans; [|apply calm_retire]. eapply conn_calm_trans; [|apply calm_upd_conn; auto].
  match goal with |- calm _ _ (if _ then ?y else _) => apply conn_calm_trans with y end;
    [|destruct (_ =? 0); [done|apply calm_on_stream]].
  eapply conn_calm_trans; [apply calm_on_stream|]. apply calm_upd_conn; auto.
Qed.

Lemma calm_conn_frame c f b : calm c b (conn_frame c f b).
Proof.
  apply calm_with_conn. intros x Ex. destruct (got_hello x); cbn [negb].
  - destruct (peer_authed x).
    + unfold peer_frame. repeat (destruct (_ =? _); try apply calm_protocol_error);
        [apply calm_peer_open_stream|..]; try apply calm_send_frame_raw.
      apply calm_with_conn. intros y _. destruct (peer_tun y); [|done]. apply calm_with_tun. intros t _.
      destruct (stream_find _ _ _); [apply calm_on_stream|done].
    + destruct (_ =? _); [apply calm_agent_register|]. destruct (_ =? _); [apply calm_peer_auth|].
      destruct (_ =? _); [apply calm_send_frame_raw|apply calm_protocol_error].
  - destruct (_ =? TM_MSG_HELLO).
    { eapply conn_calm_trans; [|apply calm_send_frame_raw]. apply calm_put_conn with x; eauto. }
    destruct (_ =? _); [|apply calm_protocol_error]. unfold data_conn_first_frame. cbv zeta.
    destruct (_ || _ || _); [apply calm_protocol_error|]. destruct (_ ≫= _) as [[sa [ta s]]|]; [|apply calm_send_close].
    apply calm_with_tun. intros t _. destruct (_ || _ || _); [apply calm_send_close|].
    destruct (negb _); [apply calm_count_send_close|apply calm_bind_stream].
Qed.

Definition reader_bytes_ok (o : option tm_frame_reader) : Prop :=
  match o with Some fr => bytes_ok (fr_buf fr) | None => True end.

Lemma conn_loop_ends fuel c : forall data b x, conns b !! c = Some x -> reader_bytes_ok (c_fr x) -> bytes_ok data ->
  (match c_fr x with Some fr => length (fr_buf fr) | None => 0 end + length data < fuel)%nat ->
  b_stuck (conn_loop fuel c data b) = b_stuck b.
Proof.
  induction fuel as [|fuel IH]; intros data b x Ex Hok Hd Hn; [lia|]. cbn [conn_loop].
  unfold with_conn at 1. rewrite Ex. destruct (c_fr x) as [fr|]; [|done]. cbn in Hok.
  destruct (feed_consumes fr data Hok Hd) as [Hok' Hlen].
  destruct (tm_frame_reader_feed fr data) as [r fr']. cbn [fst snd] in *. cbv zeta.
  set (b1 := put_conn c (x <| c_fr := Some fr' |>) b).
  assert (conns b1 !! c = Some (x <| c_fr := Some fr' |>)) as E1 by apply lookup_insert_eq.
  change (b_stuck b) with (b_stuck b1). destruct r as [| |f]; [apply calm_protocol_error|done|]. specialize (Hlen f eq_refl).
  destruct (calm_conn_frame c f b1) as [[Hs _] Hf]. clearbody b1.
  unfold with_conn. destruct (conns (conn_frame c f b1) !! c) as [y|] eqn:Ey; [|done].
  destruct (c_fr y) as [fry|] eqn:Efy; [|by rewrite orb_true_r].
  destruct (Hf y fry eq_refl Efy) as (x1 & fr1 & Ex1 & Ef1 & Hb). rewrite E1 in Ex1. injection Ex1 as <-.
  cbn in Ef1. injection Ef1 as <-. rewrite bool_decide_true by eauto. destruct (c_closing y); [done|]. cbn [orb negb].
  rewrite <- Hs. apply (IH [] (conn_frame c f b1) y); [done| |constructor|]; rewrite Efy; cbn.
  - destruct Hb as [-> | ->]; [done|constructor].
  - destruct Hb as [-> | ->]; cbn; lia.
Qed.

(** The same for the session of an agent. *)
Definition acalm (a : Z) (b b' : broker) : Prop :=
  b_stuck b' = b_stuck b /\
  forall ag', agents b' !! a = Some ag' -> exists ag, agents b !! a = Some ag /\ a_fr ag' = a_fr ag.

Lemma acalm_same a b b' : (b_stuck b', agents b') = (b_stuck b, agents b) -> acalm a b b'.
Proof. intros E. injection E as E1 E2. split; [done|]. rewrite E2. eauto. Qed.
#[local] Hint Extern 0 (acalm _ _ _) => apply acalm_same; reflexivity : core.
Lemma acalm_trans a b1 b2 b3 : acalm a b1 b2 -> acalm a b2 b3 -> acalm a b1 b3.
Proof.
  intros [S1 F1] [S2 F2]. split; [congruence|]. intros g3 E3. destruct (F2 g3 E3) as (g2 & E2 & Q2).
  destruct (F1 g2 E2) as (g1 & E1 & Q1). exists g1. split; congruence.
Qed.
Lemma acalm_agent_drop a b : acalm a b (tm_agent_drop a b).
Proof.
  unfold tm_agent_drop. destruct (agents b !! a) as [ag|] eqn:E; [|done].
  set (b1 := match tuns b !! a_tun ag with Some _ => _ | None => _ end).
  assert (b_stuck b1 = b_stuck b /\ agents b1 = agents b) as [Q1 Q2]
    by (unfold b1; destruct (tuns b !! a_tun ag); [case_bool_decide|]; done).
  split; [done|]. change (agents (b1 <| agents ::= _ |>)) with (delete a (agents b1)). by rewrite lookup_delete_eq.
Qed.
Lemma acalm_agent_send_frame a f b : acalm a b (tm_agent_send_frame a f b).
Proof.
  unfold tm_agent_send_frame. destruct (f ≫= tm_frame_encode) as [buf|]; [|done].
  assert (acalm a b (snd (agent_write a buf b))) as Hw.
  { unfold agent_write. destruct (agents b !! a) as [ag|] eqn:E; [|done].
    destruct (io_write (a_io ag) buf) as [[st us] i]. cbn [snd].
    set (b1 := b <| agents ::= fun m => <[a := ag <| a_io := i |>]> m |>).
    assert (acalm a b b1) as H1'.
    { split; [done|]. intros g. change (agents b1) with (<[a := ag <| a_io := i |>]> (agents b)). rewrite lookup_insert_eq.
      intros [= <-]. eauto. }
    eapply acalm_trans; [exact H1'|]. clearbody b1. unfold agent_ups. revert b1 H1'.
    induction us as [|u us IH]; intros b1 H1'; cbn [fold_left]; [done|].
    assert (acalm a b1 (match u with UpLow => b1 | UpError => match agents b1 !! a with Some _ => tm_agent_drop a b1 | None => b1 end end)) as H2'
      by (destruct u; [done|]; destruct (agents b1 !! a); [apply acalm_agent_drop|done]).
    eapply acalm_trans; [exact H2'|]. apply IH. by eapply acalm_trans. }
  destruct (agent_write a buf b) as [st b']. cbn [snd] in Hw.
  destruct st; [done|..]; (eapply acalm_trans; [exact Hw|apply acalm_agent_drop]).
Qed.
Lemma acalm_agent_frame a f b : acalm a b (agent_frame a f b).
Proof.
  unfold agent_frame. destruct (_ =? _); [apply acalm_agent_send_frame|]. destruct (_ =? _); [done|].
  destruct (_ || _); [|done]. destruct (agents b !! a) as [ag|]; [|done].
  unfold with_tun. destruct (tuns b !! a_tun ag) as [t|]; [|done]. destruct (stream_find _ _ _) as [sa|]; [|done].
  unfold tm_stream_close_at, on_stream. destruct (strs b !! sa) as [[k s]|]; [|done]. unfold with_tun.
  destruct (tuns b !! k); [|done]. cbv zeta. by destruct (Relay.uaf _).
Qed.

Lemma agent_loop_ends fuel a : forall data b ag, agents b !! a = Some ag -> bytes_ok (fr_buf (a_fr ag)) -> bytes_ok data ->
  (length (fr_buf (a_fr ag)) + length data < fuel)%nat -> b_stuck (agent_loop fuel a data b) = b_stuck b.
Proof.
  induction fuel as [|fuel IH]; intros data b ag Eg Hok Hd Hn; [lia|]. cbn [agent_loop]. rewrite Eg.
  destruct (feed_consumes (a_fr ag) data Hok Hd) as [Hok' Hlen].
  destruct (tm_frame_reader_feed (a_fr ag) data) as [r fr']. cbn [fst snd] in *. cbv zeta.
  set (b1 := b <| agents ::= fun m => <[a := ag <| a_fr := fr' |>]> m |>).
  assert (agents b1 !! a = Some (ag <| a_fr := fr' |>)) as E1 by apply lookup_insert_eq.
  change (b_stuck b) with (b_stuck b1). destruct r as [| |f]; [apply acalm_agent_drop|done|]. specialize (Hlen f eq_refl).
  destruct (acalm_agent_frame a f b1) as [Hs Hf]. clearbody b1. rewrite <- Hs.
  destruct (agents (agent_frame a f b1) !! a) as [g|] eqn:Egg; [|by destruct fuel; cbn [agent_loop]; [lia|rewrite Egg]].
  destruct (Hf g eq_refl) as (ag1 & E1' & Q). rewrite E1 in E1'. injection E1' as <-. cbn in Q.
  apply (IH [] _ g); [done|by rewrite Q|constructor|]. rewrite Q. cbn. lia.
Qed.

(** C37: reading from a control connection always ends and keeps the registry
    consistent.  Whatever bytes arrive on a pending connection or on an agent's session,
    in whatever state the broker is, the read loop finishes: each round takes a whole
    frame out of the buffered bytes, and no handler, also not one that closes or hands on
    the connection, adds to them; and the invariant of the registry ([binv]: names,
    ports, sessions, streams and counters agree, and nothing refers to a deleted tunnel)
    holds after the read when it held before. *)
Theorem control_reads_terminate c data b :
  bytes_ok data ->
  (forall x, conns b !! c = Some x -> reader_bytes_ok (c_fr x)) ->
  (forall ag, agents b !! c = Some ag -> bytes_ok (fr_buf (a_fr ag))) ->
  b_stuck (conn_read c data b) = b_stuck b /\ b_stuck (agent_conn_read c data b) = b_stuck b /\
  (binv b -> binv (conn_read c data b) /\ binv (agent_conn_read c data b)).
Proof.
  intros Hd Hc Ha. split_and!.
  3: { intros Hb. split; [by apply binv_conn_read|]. eapply binv_steady; [apply steady_agent_conn_read|done]. }
  - unfold conn_read, with_conn. destruct (conns b !! c) as [x|] eqn:Ex; [|done]. cbn [now_ms].
    set (b1 := put_conn c _ _). change (b_stuck b) with (b_stuck b1).
    apply (conn_loop_ends _ c data b1 (x <| c_last_rx_ms := clock (b_ticks b) |>));
      [apply lookup_insert_eq|exact (Hc x eq_refl)|done|]. cbn [c_fr]. change (c_fr (x <| c_last_rx_ms := _ |>)) with (c_fr x). lia.
  - unfold agent_conn_read. destruct (agents b !! c) as [ag|] eqn:Eg; [|done]. cbn [now_ms].
    set (b1 := _ <| agents ::= _ |>). change (b_stuck b) with (b_stuck b1).
    apply (agent_loop_ends _ c data b1 (ag <| a_last_rx_ms := clock (b_ticks b) |>));
      [apply lookup_insert_eq|exact (Ha ag eq_refl)|done|]. change (a_fr (ag <| a_last_rx_ms := _ |>)) with (a_fr ag). lia.
Qed.

(** ** Refusals *)

Lemma copy_id_fits id b : blen id <= TM_TUNNEL_ID_LEN -> copy_id id b = b.
Proof. intros Hl. unfold copy_id. destruct (_ <? _) eqn:E; [|done]. zb. lia. Qed.

Lemma register_as_refused c id secret b : (forall ta, ~ knows_agent_secret b ta id secret) ->
  register_as c id secret b = reject_register c b.
Proof.
  intros Hno. unfold register_as. cbv zeta. destruct (named_tunnel b (strz id)) as [[ta t]|] eqn:Ef; [|done].
  apply named_tunnel_some in Ef as (Hin & Et & Hid). destruct (t_enabled t) eqn:Ee; [|done].
  destruct (tm_ct_eq_hex _ _) eqn:Eq; [|done]. destruct (Hno ta). split; [done|]. exists t. auto.
Qed.
Lemma auth_as_refused c id secret b : (forall ta, ~ knows_shared_token b ta id secret) ->
  auth_as c id secret b = reject_auth c b.
Proof.
  intros Hno. unfold auth_as. cbv zeta. destruct (named_tunnel b (strz id)) as [[ta t]|] eqn:Ef; [|done].
  apply named_tunnel_some in Ef as (Hin & Et & Hid).
  destruct (t_closed t && t_enabled t && negb _) eqn:Eu; [|done]. zb. destruct Eu as [[Ecl Een] Etk].
  destruct (tm_ct_eq_hex _ _) eqn:Eq; [|done]. destruct (Hno ta). split; [done|]. exists t. by split_and!.
Qed.

(** ** Registration succeeds *)

Definition register_ok_frame : bytes := default [] (tm_frame_make TM_MSG_REGISTER_OK 0 [] 0 ≫= tm_frame_encode).

Lemma promote_ok c ta x t i fr i' b : reg b -> tuns b !! ta = Some t -> conns b !! c = Some x ->
  io_write i register_ok_frame = (TM_OK, [], i') ->
  let b' := promote c ta x t i fr b in
  (exists t', tuns b' !! ta = Some t' /\ t_agent t' = Some (b_next b) /\ agent_online t' = true) /\
  (exists ag, agents b' !! b_next b = Some ag /\ a_tun ag = ta /\ a_io ag = i').
Proof.
  intros Hr Et Ex Hw. cbv zeta. unfold promote. destruct (install_agent_core c ta x t i fr b Hr Et Ex) as (Ha & Hn & t0 & Et0 & _ & C).
  cbv zeta in *. destruct (install_agent c ta x t i fr b) as [a b5]. cbn [fst snd] in *. subst a.
  injection C as C1 _ _ C4 _ _ _ _ _.
  match type of C1 with _ = <[ta := ?w]> _ => set (t5 := w) in C1 end.
  match type of C4 with _ = <[_ := ?w]> _ => set (ag := w) in C4 end.
  set (b7 := send_frame_agent (b_next b) TM_MSG_REGISTER_OK 0 b5).
  assert (b7 = b5 <| agents ::= fun m => <[b_next b := ag <| a_io := i' |>]> m |>) as E7.
  { unfold b7, send_frame_agent. change (tm_frame_make TM_MSG_REGISTER_OK 0 [] 0 ≫= tm_frame_encode) with (Some register_ok_frame).
    unfold agent_write. rewrite C4, lookup_insert_eq. cbn [a_io ag]. rewrite Hw. done. }
  assert (agents b7 !! b_next b = Some (ag <| a_io := i' |>)) as Ea by (rewrite E7; apply lookup_insert_eq). rewrite Ea.
  assert (forall z, tuns (retire c z) = tuns z /\ agents (retire c z) = agents z) as Hret.
  { intros z. unfold retire, close_timer, with_conn. destruct (conns (conn_unlink c z) !! c) as [y|]; [|done]. by destruct (hs_closing y). }
  destruct (Hret b7) as [-> ->]. split; [|by eexists; split; [exact Ea|]].
  exists t5. split; [|done]. rewrite E7. change (tuns (b5 <| agents ::= _ |>)) with (tuns b5). rewrite C1. apply lookup_insert_eq.
Qed.

(** A frame with the name of an enabled tunnel and its secret makes the connection the
    tunnel's session. *)
Lemma register_ok c f b ta t x i fr i' id secret : reg b ->
  conns b !! c = Some x -> got_hello x = true -> peer_authed x = false -> c_io x = Some i -> c_fr x = Some fr ->
  f_type f = TM_MSG_REGISTER -> credentials f = Some (id, secret) ->
  named_tunnel b (strz id) = Some (ta, t) -> t_enabled t = true ->
  tm_ct_eq_hex (secret_digest (b_hmac_key b) secret) (t_agent_hmac t) = true ->
  io_write i register_ok_frame = (TM_OK, [], i') ->
  let b' := conn_frame c f b in
  exists a ag t', tuns b' !! ta = Some t' /\ t_agent t' = Some a /\ agent_online t' = true /\
    agents b' !! a = Some ag /\ a_tun ag = ta /\ a_io ag = i'.
Proof.
  intros Hr Ex Hh Hp Hi Hfr Ht Hc Hn He Hd Hw. cbv zeta.
  destruct (core_copy_id id b) as (Cc & Cn & Ck). assert (reg (copy_id id b)) as Hr' by (by apply (reg_core b)).
  injection Cc as K1 K2 _ _ _ _ _ K8 _.
  assert (conn_frame c f b = promote c ta x t i fr (copy_id id b)) as ->.
  { unfold conn_frame, with_conn. rewrite Ex, Hh, Hp, Ht. cbn [negb].
    change (TM_MSG_REGISTER =? TM_MSG_REGISTER) with true. cbn match. unfold agent_register. rewrite Hc. unfold register_as.
    assert (named_tunnel (copy_id id b) (strz id) = Some (ta, t)) as ->
      by (unfold named_tunnel, tm_tunnel_find in *; by rewrite K1, K2).
    cbv zeta. rewrite He, Ck, Hd. cbn [negb orb]. unfold with_conn. by rewrite Cn, Ex, Hi, Hfr. }
  destruct (named_tunnel_some _ _ _ _ Hn) as (_ & Et & _).
  destruct (promote_ok c ta x t i fr i' (copy_id id b)) as ((t' & E1 & E2 & E3) & ag & E4 & E5 & E6);
    [done|by rewrite K1|by rewrite Cn|done|]. by exists (b_next (copy_id id b)), ag, t'.
Qed.

(** C38: tunnel names cannot be probed.  Two REGISTER frames that do not present a
    tunnel's secret, whether because no tunnel has the name, the tunnel is disabled or
    the secret is wrong, leave the broker in the same state to the last bit: the same
    reply bytes, the same counters, the same closed connection.  The same holds of two
    AUTH frames without a valid token. *)
Theorem refusals_indistinguishable c f f' b id id' secret secret' :
  credentials f = Some (id, secret) -> credentials f' = Some (id', secret') ->
  blen id <= TM_TUNNEL_ID_LEN -> blen id' <= TM_TUNNEL_ID_LEN ->
  ((forall ta, ~ knows_agent_secret b ta id secret) -> (forall ta, ~ knows_agent_secret b ta id' secret') ->
   agent_register c f b = agent_register c f' b) /\
  ((forall ta, ~ knows_shared_token b ta id secret) -> (forall ta, ~ knows_shared_token b ta id' secret') ->
   peer_auth c f b = peer_auth c f' b).
Proof.
  intros Ef Ef' Hl Hl'. unfold agent_register, peer_auth. rewrite Ef, Ef', !copy_id_fits by done.
  split; intros N N'; [by rewrite !register_as_refused|by rewrite !auth_as_refused].
Qed.

(** An unauthenticated peer can overflow the id buffer.  A REGISTER or AUTH frame
    may be up to 282 bytes long, and the declared id length is compared with the frame
    only, so that an id of more than 24 bytes is copied past [char id[25]], before any
    credential is looked at. *)
Theorem id_copy_overflows c f b id secret :
  credentials f = Some (id, secret) -> TM_TUNNEL_ID_LEN < blen id ->
  overflow (agent_register c f b) = true /\ overflow (peer_auth c f b) = true.
Proof.
  intros Ef Hl. unfold agent_register, peer_auth. rewrite Ef.
  assert (overflow (copy_id id b) = true) as Ho.
  { unfold copy_id. destruct (_ <? _) eqn:E; [done|]. zb. lia. }
  split; [by apply (calm_register_as c id secret)|by apply (calm_auth_as c id secret)].
Qed.

(** A peer's connection outlives its tunnel.  Deleting a tunnel frees it at once
    when no close of its socket is pending (a closed TCP tunnel never has a socket),
    but the connections of its authenticated peers stay open and keep the pointer: the
    next request of such a peer to open or close a stream uses the freed tunnel. *)
Theorem peer_outlives_tunnel c x ta t f b :
  reg b -> ta ∈ tunnels b -> tuns b !! ta = Some t ->
  Listener.close_refs (usock (t_udp (stop_socket (mark_deleting t)))) = 0 ->
  conns b !! c = Some x -> got_hello x = true -> peer_authed x = true -> peer_tun x = Some ta ->
  f_type f = TM_MSG_DATA_BIND /\ f_stream_id f = 0 \/ f_type f = TM_MSG_CLOSE_STREAM ->
  b_fault (conn_frame c f (snd (tm_tunnel_delete (t_id t) b))) = true.
Proof.
  intros Hr Hin Et Hcr Ex Hh Hp Ht Hf.
  pose proof (tunnel_delete_cases (t_id t) b Hr) as Hc. pose proof (conns_delete (t_id t) b) as Hcn.
  rewrite (surjective_pairing (tm_tunnel_delete (t_id t) b)) in Hc. rewrite <- Hcn in Ex.
  pose proof (find_tunnel_iff b (t_id t) ta t Hr Hin Et eq_refl) as Hfind.
  set (b' := snd (tm_tunnel_delete (t_id t) b)) in *. clearbody b'.
  destruct (fst (tm_tunnel_delete (t_id t) b)); [|destruct Hc as [_ Hc]; congruence].
  destruct Hc as (k & u & Ek & Eu & _ & _ & _ & _ & _ & Hgone). rewrite Hfind in Ek. injection Ek as <-.
  rewrite Et in Eu. injection Eu as <-. specialize (Hgone Hcr).
  unfold conn_frame, with_conn. rewrite Ex, Hh, Hp. cbn [negb]. unfold peer_frame, peer_open_stream, with_conn, with_tun.
  destruct Hf as [[-> ->]| ->]; cbn; rewrite Ex, Ht, Hgone; done.
Qed.

End Control.
