(* ===== verification/BrokerSample.v ===== *)
(** * A concrete broker

    One closed TCP tunnel, a control connection, an agent and a peer over TCP legs:
    the inputs at which the theorems of Control.v are applied. *)

From S2P Require Import Prelude.
From S2P Require Import Wire.
From S2P Require Import Text.
From S2P Require Import Config.
From S2P Require Import Io.
From S2P Require Import Relay.
From S2P Require Import Registry.
From S2P Require Import Udp.
From S2P Require Import Broker.
From S2P Require Import Control.
Import Crypto.

(** ** A concrete broker *)

Module ControlSample.
Import Tcp TcpLeg UdpSample.
#[local] Existing Instances plain short.

Definition cfg0 : BrokerCfg.tm_broker_cfg :=
  BrokerCfg.Cfg (cstr "0.0.0.0") 7000 20000 20002 [] [] [] [] [] Log.TM_LOG_INFO
    4 8 4 4 15000 90000 15000 10000 5000 30000 16 4 1200 2000 200 50 16 30.
Definition key0 : bytes := [7; 7; 7].
Definition tick (n : nat) : Z := Z.of_nat n.
Definition leg0 : tm_io_tcp := tcp_start (tm_io_tcp_new []).
Definition empty0 : @broker tm_io_tcp plain :=
  Broker cfg0 key0 ∅ [] 0 ∅ ∅ [] ∅ 0 0 1 1 0 0 0 (Ports.Ports 20000 20002 [false; false; false] [false; false; false] 0 0)
    (Rate.Limiter [] 30 0) 0 0 0 0 zero_stats 0 false 1 0 0 false false false.

Lemma empty0_binv : binv empty0.
Proof. apply (binv_new cfg0 key0); [done|done|reflexivity]. Qed.

(** A closed TCP tunnel at address 1, and a connection at address 2 after its HELLO. *)
Definition secret0 : bytes := cstr "sesame".
Definition token0 : bytes := cstr "open".
Definition b1 : @broker tm_io_tcp plain :=
  snd (tm_tunnel_create tick (cstr "tun") TM_PROTO_TCP true (secret_digest key0 secret0) (Some (secret_digest key0 token0)) 0
         Listener.LISTENING empty0).

Lemma tunnel_create_correct_witness :
  tm_tunnel_find b1 (cstr "tun") = Some 1 /\ reg b1.
Proof.
  pose proof (tunnel_create_correct tick (cstr "tun") TM_PROTO_TCP true (secret_digest key0 secret0)
    (Some (secret_digest key0 token0)) 0 Listener.LISTENING empty0 (proj1 empty0_binv)) as H.
  unfold b1. destruct (tm_tunnel_create _ _ _ _ _ _ _ _ _) as [[ta|] b'] eqn:E.
  - assert (ta = 1) as -> by (apply (f_equal fst) in E; vm_compute in E; congruence).
    split; [exact (proj1 (proj2 (proj2 (proj2 H))))|exact (proj1 (proj2 H))].
  - exfalso. apply (f_equal fst) in E. vm_compute in E. discriminate.
Defined.

Lemma tunnel_delete_correct_witness :
  fst (tm_tunnel_delete (cstr "tun") b1) = true /\ tm_tunnel_find (snd (tm_tunnel_delete (cstr "tun") b1)) (cstr "tun") = None.
Proof.
  pose proof (tunnel_delete_correct (cstr "tun") b1 (proj1 (binv_create _ _ _ _ _ _ _ _ _ empty0_binv))) as H.
  destruct (tm_tunnel_delete _ _) as [[] b'] eqn:E.
  - destruct H as (ta & t & _ & _ & _ & H & _). by split.
  - exfalso. apply (f_equal fst) in E. vm_compute in E. discriminate.
Defined.
Definition frame0 (ty sid : Z) (payload : bytes) : tm_frame := Frame 1 ty sid (blen payload) payload.
Definition b2 : @broker tm_io_tcp plain :=
  conn_frame tick leg0 2 (frame0 TM_MSG_HELLO 0 []) (on_control_accept tick (Some leg0) [] false b1).

Lemma b2_binv : binv b2.
Proof.
  apply binv_conn_frame. eapply binv_steady; [apply steady_control_accept|]. apply binv_create, empty0_binv.
Qed.

Definition login (ty : Z) (id secret : bytes) : tm_frame := frame0 ty 0 (wr_u16 (blen id) ++ id ++ secret).

(** The agent registers. *)
Lemma conn_frame_authorised_witness :
  (t_agent <$> tuns (conn_frame tick leg0 2 (login TM_MSG_REGISTER (cstr "tun") secret0) b2) !! 1) = Some (Some 3) /\
  reg (conn_frame tick leg0 2 (login TM_MSG_REGISTER (cstr "tun") secret0) b2).
Proof.
  split; [vm_compute; reflexivity|].
  refine (proj1 (conn_frame_authorised tick leg0 2 (login TM_MSG_REGISTER (cstr "tun") secret0) b2 (proj1 b2_binv) _)).
  intros id secret E. vm_compute in E. injection E as <- _. vm_compute. congruence.
Defined.

(** A ping and the start of the next frame. *)
Definition chunk : bytes := [1; TM_MSG_PING; 0; 0; 0; 0; 0; 0; 0; 0; 1; 5].

Lemma control_reads_terminate_witness :
  b_stuck (conn_read tick leg0 2 chunk b2) = false /\ b_stuck (agent_conn_read tick 2 chunk b2) = false /\
  binv (conn_read tick leg0 2 chunk b2).
Proof.
  destruct (control_reads_terminate tick leg0 2 chunk b2) as (T1 & T2 & T3).
  4: { split; [exact T1|]. split; [exact T2|]. exact (proj1 (T3 b2_binv)). }
  - by apply bytes_okb_ok.
  - intros x Ex. vm_compute in Ex. injection Ex as <-. constructor.
  - intros ag Eg. vm_compute in Eg. discriminate.
Defined.

Lemma refusals_indistinguishable_witness :
  agent_register tick 2 (login TM_MSG_REGISTER (cstr "tun") (cstr "wrong")) b2 =
  agent_register tick 2 (login TM_MSG_REGISTER (cstr "nobody") secret0) b2.
Proof.
  apply (proj1 (refusals_indistinguishable tick 2 (login TM_MSG_REGISTER (cstr "tun") (cstr "wrong"))
           (login TM_MSG_REGISTER (cstr "nobody") secret0) b2 (cstr "tun") (cstr "nobody") (cstr "wrong") secret0
           eq_refl eq_refl ltac:(vm_compute; congruence) ltac:(vm_compute; congruence))).
  - intros ta (Hin & t & Et & Hid & _ & Hq). change (tunnels b2) with [1] in Hin. apply list_elem_of_singleton in Hin as ->.
    vm_compute in Et. injection Et as <-. vm_compute in Hq. discriminate.
  - intros ta (Hin & t & Et & Hid & _). change (tunnels b2) with [1] in Hin. apply list_elem_of_singleton in Hin as ->.
    vm_compute in Et. injection Et as <-. vm_compute in Hid. discriminate.
Defined.

Lemma id_copy_overflows_witness :
  overflow (agent_register tick 2 (login TM_MSG_REGISTER (replicate 25 97) secret0) b2) = true /\
  overflow (peer_auth 2 (login TM_MSG_REGISTER (replicate 25 97) secret0) b2) = true.
Proof.
  apply (id_copy_overflows tick 2 (login TM_MSG_REGISTER (replicate 25 97) secret0) b2 (replicate 25 97) secret0);
    vm_compute; reflexivity.
Defined.

(** The peer authenticates. *)
Definition b3 : @broker tm_io_tcp plain := conn_frame tick leg0 2 (login TM_MSG_AUTH (cstr "tun") token0) b2.

Lemma peer_outlives_tunnel_witness :
  b_fault b3 = false /\
  exists t, tuns b3 !! 1 = Some t /\ t_id t = cstr "tun" /\
    b_fault (conn_frame tick leg0 2 (frame0 TM_MSG_DATA_BIND 0 []) (snd (tm_tunnel_delete (t_id t) b3))) = true.
Proof.
  split; [vm_compute; reflexivity|].
  destruct (tuns b3 !! 1) as [t|] eqn:Et; [|vm_compute in Et; discriminate].
  destruct (conns b3 !! 2) as [x|] eqn:Ex; [|vm_compute in Ex; discriminate].
  exists t. split; [reflexivity|]. split; [vm_compute in Et; injection Et as <-; reflexivity|].
  apply (peer_outlives_tunnel tick leg0 2 x 1 t (frame0 TM_MSG_DATA_BIND 0 []) b3).
  - exact (proj1 (binv_conn_frame _ _ _ _ _ b2_binv)).
  - change (tunnels b3) with [1]. by apply list_elem_of_singleton.
  - exact Et.
  - vm_compute in Et. injection Et as <-. vm_compute. reflexivity.
  - exact Ex.
  - vm_compute in Ex. injection Ex as <-. reflexivity.
  - vm_compute in Ex. injection Ex as <-. reflexivity.
  - vm_compute in Ex. injection Ex as <-. reflexivity.
  - by left.
Defined.
End ControlSample.
