(* ===== verification/Handshake.v ===== *)
(** * The agent and the broker together

    The registration as both programs execute it: the bytes that agent/src/control.c
    writes are those broker/src/control.c reads, and the other way round. *)

From S2P Require Import Prelude.
From S2P Require Import Wire.
From S2P Require Import Text.
From S2P Require Import Io.
From S2P Require Import Udp.
From S2P Require Import ClientCfg.
From S2P Require Import ClientUdp.
From S2P Require Import Agent.
From S2P Require Import Relay.
From S2P Require Import Registry.
From S2P Require Import Broker.
From S2P Require Import Control.
From S2P Require Import BrokerSample.
Import Crypto AgentCfg.

#[local] Arguments Z.of_nat : simpl never.

Definition bytes_of (f : option tm_frame) : bytes := default [] (f ≫= tm_frame_encode).
Definition hello_ack_frame : bytes := bytes_of (tm_frame_make TM_MSG_HELLO_ACK 0 [] 0).

Lemma feed_frame f bs cap : wf_frame f -> tm_frame_encode f = Some bs ->
  exists r', tm_frame_reader_feed (Reader [] cap) bs = (FeedFrame f, r') /\ fr_buf r' = [].
Proof.
  intros Hw He. rewrite <- (app_nil_r bs). apply (frame_roundtrip f); [done|done|].
  unfold tm_frame_encode in He. destruct Hw as (_ & _ & _ & Hl & Hm). destruct (_ <? _); [done|]. injection He as <-.
  autorewrite with blen. rewrite take_ge by (rewrite Hl; unfold blen; lia).
  change (blen (wr_u32 _)) with 4. unfold TM_MAX_FRAME_PAYLOAD, TM_FRAME_HDR_LEN in *. lia.
Qed.

Lemma feed_nothing fr : fr_buf fr = [] -> tm_frame_reader_feed fr [] = (FeedMore, fr).
Proof. destruct fr as [buf cap]. cbn. by intros ->. Qed.

(** The payload of REGISTER and AUTH is read back. *)
Lemma credentials_of f id secret : f_payload_len f = blen (f_payload f) ->
  f_payload f = wr_u16 (u16 (blen id)) ++ id ++ secret -> 1 <= blen id <= TM_TUNNEL_ID_LEN -> 1 <= blen secret <= TM_MAX_SECRET ->
  credentials f = Some (id, secret).
Proof.
  intros Hlen Hp Hid Hse. unfold TM_TUNNEL_ID_LEN, TM_MAX_SECRET in *. unfold credentials. rewrite Hlen, Hp.
  set (payload := wr_u16 (u16 (blen id)) ++ id ++ secret).
  assert (blen payload = 2 + blen id + blen secret) as Hl
    by (unfold payload; autorewrite with blen; change (blen (wr_u16 _)) with 2; lia).
  assert (rd_u16 payload = blen id) as ->.
  { unfold payload. rewrite rd_wr_u16 by (apply wrap_range; lia). apply wrap_small. unfold in_width. lia. }
  rewrite Hl. unfold TM_TUNNEL_ID_LEN, TM_MAX_SECRET.
  repeat (destruct (_ <? _) eqn:?; zb; try lia). cbn [orb]. destruct (_ =? 0) eqn:?; zb; [lia|]. cbn [orb].
  repeat (destruct (_ =? 0) eqn:?; zb; try lia).
  assert (drop 2 payload = id ++ secret) as -> by done.
  f_equal. f_equal; [apply take_app_length'; unfold blen; lia|].
  assert (drop (Z.to_nat (2 + blen id)) payload = secret) as ->.
  { replace (Z.to_nat (2 + blen id)) with (2 + length id)%nat by (unfold blen; lia).
    rewrite <- drop_drop. change (drop 2 payload) with (id ++ secret). apply drop_app_length. }
  apply take_ge. unfold blen in *. lia.
Qed.

(** Two writes that were taken. *)
Lemma two_writes {io : Type} `{TmIo io} i d i' d' i'' : io_ok i -> io_write i d = (TM_OK, [], i') -> io_write i' d' = (TM_OK, [], i'') ->
  io_log i'' = io_log i ++ d ++ d' /\ io_ok i''.
Proof.
  intros Hok E1 E2. pose proof (io_write_law i d Hok) as (L1 & L2 & _). rewrite E1 in L1, L2. cbn [snd] in L2.
  destruct (io_write_law i' d' L2) as (L3 & L4 & _). rewrite E2 in L3, L4. destruct L1 as [L1 _], L3 as [-> _]. by rewrite L1, app_assoc.
Qed.

Section Handshake.
Context {io : Type} `{TmIo io} `{OpenSSL} `{DTLSClient}.
Context (clock : nat -> Z) (raw : io).
Context (cfg : tm_agent_cfg) (aclock hrtime : nat -> Z) (udp_session : nat -> option SSL)
  (data_conn : nat -> conn_result io).

Definition hello_frame : bytes := bytes_of hello.
Definition register_frame : bytes := bytes_of (register cfg).

(** The REGISTER frame carries the credentials of the settings. *)
Lemma register_credentials : cfg_ok cfg -> exists f, register cfg = Some f /\ tm_frame_encode f = Some register_frame /\
  wf_frame f /\ f_type f = TM_MSG_REGISTER /\ credentials f = Some (tunnel_id cfg, agent_secret cfg).
Proof.
  intros Hcfg. destruct (register_some cfg Hcfg) as (f & Ef & buf & Eb). exists f.
  pose proof (ok_id _ Hcfg) as Hid. pose proof (ok_secret _ Hcfg) as Hse.
  destruct (tm_frame_make_wf _ _ _ _ Ef) as (Hw & Hp & Ht & _). split_and!; [done| |done|done|].
  - unfold register_frame, bytes_of. rewrite Ef. cbn. by rewrite Eb.
  - apply credentials_of; [|done|lia..]. destruct Hw as (_ & _ & _ & -> & _). unfold blen. by rewrite Hp.
Qed.

(** ** The broker reads a frame *)

Abbreviation broker := (@broker io _).

(** The connection [c] with its reader empty, before it is served. *)
Record pending (b : broker) (c : Z) (x : tm_conn) (i : io) : Prop := {
  pe_conn : conns b !! c = Some x;
  pe_io : c_io x = Some i;
  pe_fr : exists cap, c_fr x = Some (Reader [] cap);
  pe_open : c_closing x = false;
  pe_peer : peer_authed x = false;
}.

(** The loop hands the frame to [conn_frame], after which the reader is empty. *)
Lemma conn_read_frame b c x i f bs : pending b c x i -> wf_frame f -> tm_frame_encode f = Some bs ->
  exists b0 fr x0, fr_buf fr = [] /\ x0 = x <| c_last_rx_ms := clock (b_ticks b) |> <| c_fr := Some fr |> /\
    core b0 = core b /\ b_hmac_key b0 = b_hmac_key b /\ conns b0 !! c = Some x0 /\
    exists fuel, conn_read clock raw c bs b =
      (let b := conn_frame clock raw c f b0 in
       with_conn c b (fun x => if c_closing x || negb (bool_decide (is_Some (c_fr x))) then b
                               else conn_loop clock raw (S fuel) c [] b)).
Proof.
  intros [Ex Ei (cap & Efr) Eo Ep] Hw He. destruct (feed_frame f bs cap Hw He) as (fr & Ef & Eb).
  assert (exists k, length bs = S k) as [k Hk].
  { unfold tm_frame_encode in He. destruct (_ <? _); [done|]. injection He as <-. cbn. eauto. }
  unfold conn_read, with_conn at 1. rewrite Ex. unfold now_ms. cbv zeta.
  set (b0 := b <| b_ticks ::= S |>). set (x1 := x <| c_last_rx_ms := clock (b_ticks b) |>).
  exists (put_conn c (x1 <| c_fr := Some fr |>) (put_conn c x1 b0)), fr, (x1 <| c_fr := Some fr |>).
  split_and!; [done|done|done|done|apply lookup_insert_eq|]. exists k. rewrite Efr. cbn [length fr_buf Nat.add]. rewrite Hk.
  cbn [conn_loop]. unfold with_conn at 1. change (conns (put_conn c x1 b0)) with (<[c := x1]> (conns b0)).
  rewrite lookup_insert_eq. change (c_fr x1) with (c_fr x). rewrite Efr, Ef. reflexivity.
Qed.

(** HELLO is acknowledged. *)
Lemma broker_hello b c x i0 i1 : reg b -> pending b c x i0 -> Broker.got_hello x = false ->
  io_write i0 hello_ack_frame = (TM_OK, [], i1) ->
  let b' := conn_read clock raw c hello_frame b in
  core b' = core b /\ b_hmac_key b' = b_hmac_key b /\ exists x', pending b' c x' i1 /\ Broker.got_hello x' = true.
Proof.
  intros Hr Hp Hg Hw. cbv zeta. destruct hello_some as (h & Eh & hb & Ehb).
  assert (wf_frame h) as Hwf by (injection Eh as <-; split_and!; vm_compute; (reflexivity || discriminate || split; (reflexivity || discriminate))).
  assert (hello_frame = hb) as -> by (unfold hello_frame, bytes_of; rewrite Eh; cbn; by rewrite Ehb).
  assert (f_type h = TM_MSG_HELLO) as Ht by (by injection Eh as <-).
  destruct (conn_read_frame b c x i0 h hb Hp Hwf Ehb) as (b0 & fr & x0 & Efr & Ex0 & Ec & Ek & El & fuel & ->).
  destruct Hp as [Ex Ei _ Eo Ep].
  assert (exists x2, conn_frame clock raw c h b0 = put_conn c x2 (put_conn c (x0 <| Broker.got_hello := true |>) b0) /\
    x2 = x0 <| Broker.got_hello := true |> <| c_io := Some i1 |>) as (x2 & -> & Ex2).
  { exists (x0 <| Broker.got_hello := true |> <| c_io := Some i1 |>). split; [|done]. unfold conn_frame, with_conn. rewrite El.
    assert (Broker.got_hello x0 = false) as -> by (by subst x0). rewrite Ht. cbn [negb]. rewrite Z.eqb_refl.
    unfold send_frame_raw, with_conn. set (b1 := put_conn c _ b0).
    assert (conns b1 !! c = Some (x0 <| Broker.got_hello := true |>)) as -> by apply lookup_insert_eq.
    change (c_io (x0 <| Broker.got_hello := true |>)) with (c_io x0). assert (c_io x0 = Some i0) as -> by (by subst x0).
    change (tm_frame_make TM_MSG_HELLO_ACK 0 [] (blen []) ≫= tm_frame_encode) with (Some hello_ack_frame). cbn match. by rewrite Hw. }
  cbv zeta. unfold with_conn.
  assert (forall y z : tm_conn, conns (put_conn c y (put_conn c z b0)) !! c = Some y) as Hl by (intros; apply lookup_insert_eq).
  rewrite Hl. assert (c_closing x2 = false) as -> by (rewrite Ex2, Ex0; exact Eo).
  assert (c_fr x2 = Some fr) as E2 by (rewrite Ex2, Ex0; reflexivity). rewrite E2.
  cbn [orb negb]. rewrite bool_decide_true by done. cbn [negb conn_loop]. unfold with_conn. rewrite Hl, E2, feed_nothing by done.
  split_and!; [done|done|]. exists (x2 <| c_fr := Some fr |>). split; [|rewrite Ex2; reflexivity]. constructor.
  - apply lookup_insert_eq.
  - rewrite Ex2. reflexivity.
  - exists (fr_cap fr). destruct fr as [buf cap]. cbn in Efr. by subst buf.
  - rewrite Ex2, Ex0. exact Eo.
  - rewrite Ex2, Ex0. exact Ep.
Qed.

(** What follows a frame that left nothing in the reader changes no tunnel and no
    session. *)
Lemma conn_rest b0 c f x0 fr fuel : conns b0 !! c = Some x0 -> c_fr x0 = Some fr -> fr_buf fr = [] ->
  let b := conn_frame clock raw c f b0 in
  let b' := with_conn c b (fun x => if c_closing x || negb (bool_decide (is_Some (c_fr x))) then b
                                    else conn_loop clock raw (S fuel) c [] b) in
  tuns b' = tuns b /\ agents b' = agents b.
Proof.
  intros El Ef Efr. cbv zeta. pose proof (calm_conn_frame clock raw c f b0) as [_ Hc].
  set (b := conn_frame clock raw c f b0) in *. clearbody b. unfold with_conn.
  destruct (conns b !! c) as [x|] eqn:Ex; [|done]. destruct (c_closing x || _) eqn:E; [done|]. zb. destruct E as [_ E].
  destruct E as [fr' E']. destruct (Hc x fr' eq_refl E') as (x1 & fr1 & E1 & E2 & E3).
  assert (fr_buf fr' = []) as Eb by (rewrite El in E1; injection E1 as <-; rewrite Ef in E2; injection E2 as <-; destruct E3; congruence).
  cbn [conn_loop]. unfold with_conn. by rewrite Ex, E', feed_nothing.
Qed.

Lemma broker_register b c x i1 i2 ta t : reg b -> pending b c x i1 -> Broker.got_hello x = true -> cfg_ok cfg ->
  strz (tunnel_id cfg) = tunnel_id cfg -> named_tunnel b (tunnel_id cfg) = Some (ta, t) -> t_enabled t = true ->
  tm_ct_eq_hex (secret_digest (b_hmac_key b) (agent_secret cfg)) (t_agent_hmac t) = true ->
  io_write i1 register_ok_frame = (TM_OK, [], i2) ->
  let b' := conn_read clock raw c register_frame b in
  exists a ag t', tuns b' !! ta = Some t' /\ t_agent t' = Some a /\ agent_online t' = true /\
    agents b' !! a = Some ag /\ a_tun ag = ta /\ a_io ag = i2.
Proof.
  intros Hr Hp Hg Hcfg Hz Hn He Hd Hw. cbv zeta. destruct (register_credentials Hcfg) as (f & Ef & Eb & Hwf & Ht & Hc).
  destruct (conn_read_frame b c x i1 f _ Hp Hwf Eb) as (b0 & fr & x0 & Efr & Ex0 & Ec & Ek & El & fuel & ->).
  assert (c_fr x0 = Some fr) as Efr0 by (by subst x0).
  cbv zeta. destruct (conn_rest b0 c f x0 fr fuel El Efr0 Efr) as [-> ->]. destruct Hp as [Ex Ei _ Eo Ep].
  apply (register_ok clock raw c f b0 ta t x0 i1 fr i2 (tunnel_id cfg) (agent_secret cfg)); auto.
  - by apply (reg_core b).
  - by subst x0.
  - by subst x0.
  - by subst x0.
  - rewrite Hz. unfold named_tunnel, tm_tunnel_find in *. injection Ec as E1 E2 _ _ _ _ _ _ _. by rewrite E1, E2.
  - by rewrite Ek.
Qed.

(** ** The agent reads a frame *)

Abbreviation app := (@tm_agent_app io _).
Abbreviation aread := (ctl_read cfg aclock hrtime udp_session data_conn).

Lemma ctl_read_frame (a : app) cap f bs : ctl_fr a = Reader [] cap -> wf_frame f -> tm_frame_encode f = Some bs ->
  exists fr now, fr_buf fr = [] /\
    forall a2, ctl_frame cfg aclock hrtime udp_session data_conn f (a <| ticks ::= S |> <| last_rx_ms := now |> <| ctl_fr := fr |>) = (false, a2) ->
      fr_buf (ctl_fr a2) = [] -> aread bs a = a2.
Proof.
  intros Ea Hw He. destruct (feed_frame f bs cap Hw He) as (fr & Ef & Eb).
  assert (exists k, length bs = S k) as [k Hk].
  { unfold tm_frame_encode in He. destruct (_ <? _); [done|]. injection He as <-. cbn. eauto. }
  exists fr, (u64 (aclock (ticks a))). split; [done|]. intros a2 E2 Efr. unfold ctl_read, tm_now_ms. cbv zeta.
  set (a1 := a <| ticks ::= S |>) in *. change (ctl_fr a1) with (ctl_fr a). rewrite Ea. cbn [length fr_buf Nat.add]. rewrite Hk.
  cbn [ctl_loop]. change (ctl_fr (a1 <| last_rx_ms := _ |>)) with (ctl_fr a). rewrite Ea, Ef, E2, feed_nothing by done.
  by destruct a2.
Qed.

(** A frame is accepted by the leg. *)
Lemma send_accepted f buf (a : app) j j' : ctl_io a = Some j -> tm_frame_encode f = Some buf -> io_write j buf = (TM_OK, [], j') ->
  Agent.tm_agent_send_frame cfg hrtime (Some f) a = a <| ctl_io := Some j' |> <| Agent.sent ::= fun l => l ++ [f] |>.
Proof. intros Ej Ef Ew. unfold Agent.tm_agent_send_frame. by rewrite Ej, Ef, Ew. Qed.

Lemma agent_hello (a : app) j0 j1 cap : ctl_io a = Some j0 -> ctl_fr a = Reader [] cap ->
  io_write j0 hello_frame = (TM_OK, [], j1) ->
  let a' := ctl_handshake_done cfg aclock hrtime a in
  ctl_io a' = Some j1 /\ ctl_fr a' = Reader [] cap /\ Agent.got_hello a' = Agent.got_hello a /\ registered a' = registered a.
Proof.
  intros Ej Ef Ew. cbv zeta. destruct hello_some as (h & Eh & hb & Ehb).
  assert (hello_frame = hb) as E by (unfold hello_frame, bytes_of; rewrite Eh; cbn; by rewrite Ehb). rewrite E in Ew.
  unfold ctl_handshake_done, tm_now_ms. cbv zeta. rewrite Eh.
  set (a1 := a <| hs_timer := None |> <| ticks ::= S |> <| last_rx_ms := _ |> <| last_ping_ms := _ |>).
  rewrite (send_accepted h hb a1 j0 j1) by done. done.
Qed.

Lemma agent_ack (a : app) j1 j2 cap : cfg_ok cfg -> ctl_io a = Some j1 -> ctl_fr a = Reader [] cap -> Agent.got_hello a = false ->
  registered a = false -> io_write j1 register_frame = (TM_OK, [], j2) ->
  let a' := aread hello_ack_frame a in
  ctl_io a' = Some j2 /\ (exists cap', ctl_fr a' = Reader [] cap') /\ registered a' = false.
Proof.
  intros Hcfg Ej Ef Eg Er Ew. cbv zeta. destruct (register_credentials Hcfg) as (g & Egf & Eb & _).
  destruct (ctl_read_frame a cap (Frame 1 TM_MSG_HELLO_ACK 0 0 []) hello_ack_frame) as (fr & now & Efr & Hrd);
    [done|split_and!; vm_compute; (reflexivity || discriminate || split; (reflexivity || discriminate))|reflexivity|].
  set (a1 := a <| ticks ::= S |> <| last_rx_ms := now |> <| ctl_fr := fr |>) in *.
  rewrite (Hrd (a1 <| Agent.got_hello := true |> <| ctl_io := Some j2 |> <| Agent.sent ::= fun l => l ++ [g] |>)).
  - split_and!; [done| |done]. exists (fr_cap fr). destruct fr as [buf cp]. cbn in *. by subst buf.
  - unfold ctl_frame. cbn [f_type]. change (TM_MSG_HELLO_ACK =? TM_MSG_HELLO_ACK) with true. cbn match. unfold on_hello_ack.
    change (Agent.got_hello a1) with (Agent.got_hello a). rewrite Eg. cbv zeta.
    pose proof (ok_id _ Hcfg). pose proof (ok_secret _ Hcfg). unfold TM_TUNNEL_ID_LEN, TM_TUNNEL_ID_LEN in *.
    destruct (blen (tunnel_id cfg) =? 0) eqn:E1; zb; [lia|]. destruct (_ <? _) eqn:E2; zb; [lia|].
    destruct (blen (agent_secret cfg) =? 0) eqn:E3; zb; [lia|]. cbn [orb]. rewrite Egf.
    by rewrite (send_accepted g register_frame _ j1 j2).
  - done.
Qed.

Lemma agent_registered (a : app) cap j2 : ctl_fr a = Reader [] cap -> registered a = false -> ctl_io a = Some j2 ->
  let a' := aread register_ok_frame a in registered a' = true /\ ctl_io a' = Some j2.
Proof.
  intros Ef Er Ej. cbv zeta.
  destruct (ctl_read_frame a cap (Frame 1 TM_MSG_REGISTER_OK 0 0 []) register_ok_frame) as (fr & now & Efr & Hrd);
    [done|split_and!; vm_compute; (reflexivity || discriminate || split; (reflexivity || discriminate))|reflexivity|].
  set (a1 := a <| ticks ::= S |> <| last_rx_ms := now |> <| ctl_fr := fr |>) in *.
  assert (registered a1 = false /\ ctl_fr a1 = fr /\ ctl_io a1 = Some j2) as (R1 & R2 & R3) by done.
  rewrite (Hrd (on_register_ok cfg udp_session a1)); [|done|]; unfold on_register_ok; rewrite R1; cbv zeta;
    destruct (bool_decide _); try done.
Qed.

(** C4: The registration works end to end.  Take a connection that the broker has
    accepted and the agent's side of it, both with empty readers and with legs that take
    what is written, a tunnel of the agent's name that is enabled and holds the digest
    of the agent's secret.  Then HELLO of the agent, HELLO_ACK of the broker, REGISTER of
    the agent and REGISTER_OK of the broker, each read by the other side from exactly
    the bytes written, leave the agent registered and its connection the session of the
    tunnel. *)
Theorem agent_registers b c x i0 i1 i2 ta t (a : app) j0 j1 j2 cap :
  reg b -> pending b c x i0 -> Broker.got_hello x = false -> io_ok i0 ->
  io_write i0 hello_ack_frame = (TM_OK, [], i1) -> io_write i1 register_ok_frame = (TM_OK, [], i2) ->
  named_tunnel b (tunnel_id cfg) = Some (ta, t) -> t_enabled t = true ->
  tm_ct_eq_hex (secret_digest (b_hmac_key b) (agent_secret cfg)) (t_agent_hmac t) = true ->
  cfg_ok cfg -> strz (tunnel_id cfg) = tunnel_id cfg ->
  ctl_io a = Some j0 -> io_ok j0 -> ctl_fr a = Reader [] cap -> Agent.got_hello a = false -> registered a = false ->
  io_write j0 hello_frame = (TM_OK, [], j1) -> io_write j1 register_frame = (TM_OK, [], j2) ->
  let a1 := ctl_handshake_done cfg aclock hrtime a in
  let b1 := conn_read clock raw c hello_frame b in
  let a2 := aread hello_ack_frame a1 in
  let b2 := conn_read clock raw c register_frame b1 in
  let a3 := aread register_ok_frame a2 in
  io_log j2 = io_log j0 ++ hello_frame ++ register_frame /\ io_log i2 = io_log i0 ++ hello_ack_frame ++ register_ok_frame /\
  registered a3 = true /\ ctl_io a3 = Some j2 /\
  exists n ag t', tuns b2 !! ta = Some t' /\ t_agent t' = Some n /\ agent_online t' = true /\
    agents b2 !! n = Some ag /\ a_tun ag = ta /\ a_io ag = i2.
Proof.
  intros Hr Hp Hg Hoi W1 W2 Hn He Hd Hcfg Hz Ej Hoj Ef Eg Er W3 W4. cbv zeta.
  destruct (broker_hello b c x i0 i1 Hr Hp Hg W1) as (Ec & Ek & x' & Hp' & Hg'). set (b1 := conn_read clock raw c hello_frame b) in *.
  destruct (agent_hello a j0 j1 cap Ej Ef W3) as (A1 & A2 & A3 & A4). set (a1 := ctl_handshake_done cfg aclock hrtime a) in *.
  clearbody a1 b1. rewrite Eg in A3. rewrite Er in A4.
  destruct (agent_ack a1 j1 j2 cap Hcfg A1 A2 A3 A4 W4) as (A5 & (cap' & A6) & A7). set (a2 := aread hello_ack_frame a1) in *. clearbody a2.
  destruct (agent_registered a2 cap' j2 A6 A7 A5) as [A8 A9].
  split_and!; [by apply (two_writes j0 _ j1)|by apply (two_writes i0 _ i1)|done|done|].
  apply (broker_register b1 c x' i1 i2 ta t); auto.
  - by apply (reg_core b).
  - unfold named_tunnel, tm_tunnel_find in *. injection Ec as E1 E2 _ _ _ _ _ _ _. by rewrite E1, E2.
  - by rewrite Ek.
Qed.

End Handshake.

(** ** A concrete registration *)

Module HandshakeSample.
Import ControlSample.
#[local] Existing Instances ClientSample.plain ClientSample.plain_client UdpSample.short TcpLeg.tcp_leg.

Definition settings : Config.Conf.tm_config :=
  [(cstr "agent.broker_host", cstr "broker.example"); (cstr "agent.broker_port", cstr "7000");
   (cstr "agent.tunnel_id", cstr "tun"); (cstr "agent.agent_secret", secret0);
   (cstr "agent.local_host", cstr "127.0.0.1"); (cstr "agent.local_port", cstr "8080")].
Definition cfg1 : tm_agent_cfg := default cfg_defaults (cfg_apply cfg_defaults settings).

Lemma cfg1_ok : cfg_ok cfg1.
Proof.
  assert (cfg1 = ltac:(let v := eval vm_compute in cfg1 in exact v)) as -> by (vm_compute; reflexivity).
  constructor; cbn [broker_host broker_port broker_udp_port proto tunnel_id agent_secret local_host local_port name ca_path].
  1,2,4,5: split; vm_compute; (reflexivity || discriminate).
  - discriminate.
  - split; split; vm_compute; reflexivity.
  - split; vm_compute; reflexivity.
  - repeat (constructor; [split; vm_compute; reflexivity|]). constructor.
Qed.

Definition empty1 : @broker Tcp.tm_io_tcp ClientSample.plain :=
  Broker cfg0 key0 ∅ [] 0 ∅ ∅ [] ∅ 0 0 1 1 0 0 0 (Ports.Ports 20000 20002 [false; false; false] [false; false; false] 0 0)
    (Rate.Limiter [] 30 0) 0 0 0 0 zero_stats 0 false 1 0 0 false false false.
Lemma empty1_binv : binv empty1.
Proof. apply (binv_new cfg0 key0); [done|done|reflexivity]. Qed.

(** A tunnel at address 1 and an accepted connection at address 2. *)
Definition served : @broker Tcp.tm_io_tcp ClientSample.plain :=
  on_control_accept tick (Some leg0) [] false
    (snd (tm_tunnel_create tick (cstr "tun") TM_PROTO_TCP true (secret_digest key0 secret0) (Some (secret_digest key0 token0)) 0
            Listener.LISTENING empty1)).
Lemma served_reg : reg served.
Proof. apply (binv_steady _ _ (steady_control_accept tick (Some leg0) [] false _)). apply binv_create, empty1_binv. Qed.

Definition agent0 : @tm_agent_app Tcp.tm_io_tcp ClientSample.plain :=
  ctl_connected cfg1 tick (CTL_CONNECTED (Tcp.tm_io_tcp_new []) false)
    (agent_main cfg1 tick (fun _ => None) UNDER_WAY).

Lemma agent_registers_witness :
  let a1 := ctl_handshake_done cfg1 tick tick agent0 in
  let a2 := ctl_read cfg1 tick tick (fun _ => None) (fun _ => NO_SSL) hello_ack_frame a1 in
  registered (ctl_read cfg1 tick tick (fun _ => None) (fun _ => NO_SSL) register_ok_frame a2) = true.
Proof.
  cbv zeta.
  pose proof (agent_registers tick leg0 cfg1 tick tick (fun _ => None) (fun _ => NO_SSL) served 2) as Hreg.
  edestruct Hreg as (_ & _ & R & _); [apply served_reg| | | | | | | | |apply cfg1_ok| | | | | | | | |exact R].
  - constructor; [vm_compute; reflexivity|vm_compute; reflexivity|eexists; vm_compute; reflexivity|vm_compute; reflexivity..].
  - vm_compute; reflexivity.
  - apply (@io_fresh_law _ TcpLeg.tcp_leg (Tcp.tm_io_tcp_new [])). by eexists.
  - vm_compute; reflexivity.
  - vm_compute; reflexivity.
  - vm_compute; reflexivity.
  - vm_compute; reflexivity.
  - vm_compute; reflexivity.
  - vm_compute; reflexivity.
  - vm_compute; reflexivity.
  - apply (@io_fresh_law _ TcpLeg.tcp_leg (Tcp.tm_io_tcp_new [])). by eexists.
  - vm_compute; reflexivity.
  - vm_compute; reflexivity.
  - vm_compute; reflexivity.
  - vm_compute; reflexivity.
  - vm_compute; reflexivity.
Defined.

End HandshakeSample.
