(* ===== verification/PeerHandshake.v ===== *)
(** * The peer and the broker together

    The authentication of a peer as both programs execute it: the bytes that
    peer/src/tcp.c writes on the connection of a session are those broker/src/control.c
    reads, and the other way round. *)

From S2P Require Import Prelude.
From S2P Require Import Wire.
From S2P Require Import Text.
From S2P Require Import Io.
From S2P Require Import Udp.
From S2P Require Import ClientCfg.
From S2P Require Import ClientUdp.
From S2P Require Import Relay.
From S2P Require Import Endpoint.
From S2P Require Import Agent.
From S2P Require Import Peer.
From S2P Require Import Registry.
From S2P Require Import Broker.
From S2P Require Import Control.
From S2P Require Import BrokerSample.
From S2P Require Import Handshake.
Import Crypto.

#[local] Arguments Z.of_nat : simpl never.

Definition auth_ok_frame : bytes := bytes_of (tm_frame_make TM_MSG_AUTH_OK 0 [] 0).
Definition bind_frame : bytes := bytes_of PeerTcp.data_bind.

Section PeerHandshake.
Context {io : Type} `{TmIo io} `{OpenSSL} `{DTLS}.
Context (clock : nat -> Z) (raw : io) (cfg : PeerCfg.tm_peer_cfg).
Abbreviation broker := (@broker io _).
Abbreviation sess := (@PeerTcp.tm_psess io).

Definition auth_frame : bytes := bytes_of (PeerTcp.auth cfg).

(** The AUTH frame carries the credentials of the settings. *)
Lemma auth_credentials : PeerCfg.peer_ok cfg -> blen (PeerCfg.tunnel_id cfg) <= TM_TUNNEL_ID_LEN ->
  exists f, PeerTcp.auth cfg = Some f /\ tm_frame_encode f = Some auth_frame /\ wf_frame f /\ f_type f = TM_MSG_AUTH /\
    credentials f = Some (PeerCfg.tunnel_id cfg, PeerCfg.token cfg).
Proof.
  intros Hcfg Hid. destruct (PeerTcp.auth_some cfg Hcfg) as (f & buf & Ef & Eb). exists f.
  pose proof (PeerCfg.pk_id _ Hcfg) as Hi1. pose proof (PeerCfg.pk_token _ Hcfg) as Hi2. unfold TM_MAX_TUNNEL_ID in Hi1.
  assert (blen (PeerTcp.auth_payload cfg) = 2 + blen (PeerCfg.tunnel_id cfg) + blen (PeerCfg.token cfg)) as Hl.
  { unfold PeerTcp.auth_payload. autorewrite with blen. change (blen (wr_u16 _)) with 2. lia. }
  pose proof Ef as Ef'. unfold PeerTcp.auth in Ef'. rewrite wrap_small in Ef' by (unfold in_width, TM_MAX_SECRET in *; lia).
  destruct (tm_frame_make_wf _ _ _ _ Ef') as (Hw & Hp & Ht & _). split_and!; [done| |done|done|].
  - unfold auth_frame, bytes_of. rewrite Ef. cbn. by rewrite Eb.
  - apply credentials_of; [|done|lia..]. destruct Hw as (_ & _ & _ & -> & _). unfold blen. by rewrite Hp.
Qed.

(** ** The broker reads AUTH *)

Lemma broker_auth (b : broker) c x i1 i2 ta t : pending b c x i1 -> Broker.got_hello x = true ->
  PeerCfg.peer_ok cfg -> blen (PeerCfg.tunnel_id cfg) <= TM_TUNNEL_ID_LEN -> strz (PeerCfg.tunnel_id cfg) = PeerCfg.tunnel_id cfg ->
  named_tunnel b (PeerCfg.tunnel_id cfg) = Some (ta, t) -> t_closed t = true -> t_enabled t = true -> t_token_hmac t <> [] ->
  tm_ct_eq_hex (secret_digest (b_hmac_key b) (PeerCfg.token cfg)) (t_token_hmac t) = true ->
  io_write i1 auth_ok_frame = (TM_OK, [], i2) ->
  exists x', conns (conn_read clock raw c auth_frame b) !! c = Some x' /\ peer_authed x' = true /\ peer_tun x' = Some ta /\
    c_io x' = Some i2 /\ c_closing x' = false.
Proof.
  intros Hp Hg Hcfg Hl Hz Hn Hcl He Hne Hd Hw. destruct (auth_credentials Hcfg Hl) as (f & Ef & Eb & Hwf & Ht & Hc).
  destruct (conn_read_frame clock raw b c x i1 f _ Hp Hwf Eb) as (b0 & fr & x0 & Efr & Ex0 & Ec & Ek & El & fuel & ->).
  destruct Hp as [Ex Ei _ Eo Ep].
  assert (named_tunnel b0 (PeerCfg.tunnel_id cfg) = Some (ta, t)) as Hn0.
  { unfold named_tunnel, tm_tunnel_find in *. injection Ec as E1 E2 _ _ _ _ _ _ _. by rewrite E1, E2. }
  set (x1 := x0 <| peer_authed := true |> <| peer_tun := Some ta |>).
  set (x2 := x1 <| c_io := Some i2 |>).
  assert (conn_frame clock raw c f b0 = put_conn c x2 (put_conn c x1 b0)) as ->.
  { unfold conn_frame, with_conn. rewrite El. assert (Broker.got_hello x0 = true) as -> by (by subst x0).
    assert (peer_authed x0 = false) as -> by (by subst x0). rewrite Ht. cbn [negb].
    change (TM_MSG_AUTH =? TM_MSG_REGISTER) with false. change (TM_MSG_AUTH =? TM_MSG_AUTH) with true. cbn match.
    unfold peer_auth. rewrite Hc, copy_id_fits by done. unfold auth_as. rewrite Hz, Hn0. cbv zeta. rewrite Hcl, He. cbn [andb].
    rewrite bool_decide_false by done. cbn [negb]. rewrite Ek, Hd. cbn [negb orb]. unfold send_frame_raw, upd_conn, with_conn. rewrite El.
    fold x1. assert (conns (put_conn c x1 b0) !! c = Some x1) as -> by apply lookup_insert_eq.
    change (c_io x1) with (c_io x0). assert (c_io x0 = Some i1) as -> by (by subst x0).
    change (tm_frame_make TM_MSG_AUTH_OK 0 [] (blen []) ≫= tm_frame_encode) with (Some auth_ok_frame). cbn match. by rewrite Hw. }
  assert (forall y z : tm_conn, conns (put_conn c y (put_conn c z b0)) !! c = Some y) as Hlk by (intros; apply lookup_insert_eq).
  cbv zeta. unfold with_conn. rewrite Hlk. assert (c_closing x2 = false) as E3 by (unfold x2, x1; subst x0; exact Eo). rewrite E3.
  assert (c_fr x2 = Some fr) as E2 by (unfold x2, x1; by subst x0). rewrite E2. cbn [orb negb]. rewrite bool_decide_true by done.
  cbn [negb conn_loop]. unfold with_conn. rewrite Hlk, E2, feed_nothing by done.
  exists (x2 <| c_fr := Some fr |>). split; [apply lookup_insert_eq|]. done.
Qed.

(** ** The peer reads a frame *)

(** An unbound session on the leg [j], its reader empty. *)
Record talking (s : sess) (j : io) : Prop := {
  ta_leg : leg (to_a (PeerTcp.relay s)) = Some j;
  ta_open : Relay.closing (PeerTcp.relay s) = false;
  ta_free : Relay.bound (PeerTcp.relay s) = false;
  ta_fr : exists cap, PeerTcp.fr s = Some (Reader [] cap);
}.

Lemma sess_sends (s : sess) j j' f buf : talking s j -> tm_frame_encode f = Some buf -> io_write j buf = (TM_OK, [], j') ->
  let s' := PeerTcp.sess_send_frame (Some f) s in
  talking s' j' /\ PeerTcp.fr s' = PeerTcp.fr s /\ PeerTcp.got_hello s' = PeerTcp.got_hello s /\ PeerTcp.said s' = PeerTcp.said s ++ [f].
Proof.
  intros [L O F R] Ef Ew. cbv zeta. unfold PeerTcp.sess_send_frame. rewrite O, L. cbn [orb]. rewrite bool_decide_true by done.
  cbn [negb]. rewrite Ef. unfold ep_send. rewrite L, Ew. cbn [run_up fold_left].
  rewrite PeerTcp.closed_not by exact O. split_and!; done.
Qed.

(** A session whose reader is [rd] after the frame [f] of the bytes [bs]. *)
Definition read_in (rd : tm_frame_reader) (bs : bytes) (f : tm_frame) (s : sess) : sess :=
  s <| PeerTcp.fr := Some rd |> <| PeerTcp.taken ::= fun b => b ++ bs |> <| PeerTcp.heard ::= fun l => l ++ [f] |>.

Lemma sess_reads (s : sess) j f bs : talking s j -> wf_frame f -> tm_frame_encode f = Some bs ->
  exists rd, fr_buf rd = [] /\
    forall s2, PeerTcp.pre_frame cfg raw f (read_in rd bs f s) = (false, s2) -> PeerTcp.fr s2 = Some rd ->
      PeerTcp.broker_leg_read cfg raw bs s = s2.
Proof.
  intros [L O F (cap & R)] Hw He. destruct (feed_frame f bs cap Hw He) as (rd & Ef & Eb).
  assert (exists k, length bs = S k) as [k Hk].
  { unfold tm_frame_encode in He. destruct (_ <? _); [done|]. injection He as <-. cbn. eauto. }
  exists rd. split; [done|]. intros s2 E2 Efr. unfold PeerTcp.broker_leg_read, PeerTcp.sess_pre_read, PeerTcp.buffered.
  rewrite F, R, Hk. cbn [length fr_buf Nat.add PeerTcp.pre_loop]. rewrite R, Ef. unfold read_in in E2. rewrite E2, Efr, feed_nothing by done.
  destruct s2; cbn in *; subst; by rewrite app_nil_r.
Qed.

Lemma talking_fr (s : sess) j rd bs f : talking s j -> fr_buf rd = [] -> talking (read_in rd bs f s) j.
Proof. intros [L O F _] Hb. constructor; try done. exists (fr_cap rd). destruct rd as [buf cap]. cbn in *. by subst. Qed.

(** HELLO_ACK is answered by AUTH, AUTH_OK by DATA_BIND. *)
Lemma peer_ack (s : sess) j1 j2 f : talking s j1 -> PeerTcp.got_hello s = false -> PeerTcp.auth cfg = Some f ->
  tm_frame_encode f = Some auth_frame -> io_write j1 auth_frame = (TM_OK, [], j2) ->
  let s' := PeerTcp.broker_leg_read cfg raw hello_ack_frame s in
  talking s' j2 /\ PeerTcp.got_hello s' = true /\ PeerTcp.said s' = PeerTcp.said s ++ [f].
Proof.
  intros Ht Hg Ea Eb Ew. cbv zeta.
  destruct (sess_reads s j1 (Frame 1 TM_MSG_HELLO_ACK 0 0 []) hello_ack_frame Ht) as (rd & Erd & Hrd);
    [split_and!; vm_compute; (reflexivity || discriminate || split; (reflexivity || discriminate))|reflexivity|].
  pose proof (talking_fr s j1 rd hello_ack_frame (Frame 1 TM_MSG_HELLO_ACK 0 0 []) Ht Erd) as Ht1. set (s1 := read_in rd _ _ s) in *.
  assert (PeerTcp.got_hello s1 = false /\ PeerTcp.fr s1 = Some rd /\ PeerTcp.said s1 = PeerTcp.said s) as (G & R & Sd) by done.
  clearbody s1. set (s2 := s1 <| PeerTcp.got_hello := true |>).
  assert (talking s2 j1) as Ht2 by (by destruct Ht1). destruct (sess_sends s2 j1 j2 f auth_frame Ht2 Eb Ew) as (T1 & T2 & T3 & T4).
  rewrite (Hrd (PeerTcp.sess_send_frame (Some f) s2)).
  - split_and!; [done|by rewrite T3|by rewrite T4, <- Sd].
  - unfold PeerTcp.pre_frame. cbn [f_type]. change (TM_MSG_HELLO_ACK =? TM_MSG_HELLO_ACK) with true. cbn match. by rewrite G, Ea.
  - by rewrite T2.
Qed.

Lemma peer_accepted (s : sess) j2 j3 : talking s j2 -> PeerTcp.got_hello s = true -> io_write j2 bind_frame = (TM_OK, [], j3) ->
  let s' := PeerTcp.broker_leg_read cfg raw auth_ok_frame s in
  talking s' j3 /\ PeerTcp.got_hello s' = true /\ exists d, PeerTcp.data_bind = Some d /\ PeerTcp.said s' = PeerTcp.said s ++ [d].
Proof.
  intros Ht Hg Ew. cbv zeta.
  destruct (sess_reads s j2 (Frame 1 TM_MSG_AUTH_OK 0 0 []) auth_ok_frame Ht) as (rd & Erd & Hrd);
    [split_and!; vm_compute; (reflexivity || discriminate || split; (reflexivity || discriminate))|reflexivity|].
  pose proof (talking_fr s j2 rd auth_ok_frame (Frame 1 TM_MSG_AUTH_OK 0 0 []) Ht Erd) as Ht1. set (s1 := read_in rd _ _ s) in *.
  assert (PeerTcp.got_hello s1 = true /\ PeerTcp.fr s1 = Some rd /\ PeerTcp.said s1 = PeerTcp.said s) as (G & R & Sd) by done.
  clearbody s1. destruct PeerTcp.bind_some as (d & db & Ed & Edb).
  assert (db = bind_frame) as -> by (unfold bind_frame, bytes_of; rewrite Ed; cbn; by rewrite Edb).
  destruct (sess_sends s1 j2 j3 d bind_frame Ht1 Edb Ew) as (T1 & T2 & T3 & T4).
  rewrite (Hrd (PeerTcp.sess_send_frame (Some d) s1)).
  - split_and!; [done|by rewrite T3|]. exists d. by rewrite T4, <- Sd.
  - unfold PeerTcp.pre_frame. cbn [f_type]. change (TM_MSG_AUTH_OK =? TM_MSG_HELLO_ACK) with false.
    change (TM_MSG_AUTH_OK =? TM_MSG_AUTH_OK) with true. cbn match. by rewrite G, Ed.
  - by rewrite T2.
Qed.

(** C5: The authentication of a peer works end to end.  Take a connection that the broker has
    accepted and the session of the peer on its other end, both with empty readers and
    with legs that take what is written, a closed tunnel of the peer's name, as long as
    the broker names them, that is enabled and holds the digest of the peer's token.  Then HELLO of
    the peer, HELLO_ACK of the broker, AUTH of the peer and AUTH_OK of the broker, each
    read by the other side from exactly the bytes written, leave the connection
    authenticated for that tunnel, and the peer has asked for its stream with DATA_BIND. *)
Theorem peer_authenticates (b : broker) c x i0 i1 i2 ta t (s : sess) j0 j1 j2 j3 :
  reg b -> pending b c x i0 -> Broker.got_hello x = false -> io_ok i0 ->
  io_write i0 hello_ack_frame = (TM_OK, [], i1) -> io_write i1 auth_ok_frame = (TM_OK, [], i2) ->
  named_tunnel b (PeerCfg.tunnel_id cfg) = Some (ta, t) -> t_closed t = true -> t_enabled t = true -> t_token_hmac t <> [] ->
  tm_ct_eq_hex (secret_digest (b_hmac_key b) (PeerCfg.token cfg)) (t_token_hmac t) = true ->
  PeerCfg.peer_ok cfg -> blen (PeerCfg.tunnel_id cfg) <= TM_TUNNEL_ID_LEN -> strz (PeerCfg.tunnel_id cfg) = PeerCfg.tunnel_id cfg ->
  talking s j0 -> io_ok j0 -> PeerTcp.got_hello s = false -> PeerTcp.said s = [] ->
  io_write j0 hello_frame = (TM_OK, [], j1) -> io_write j1 auth_frame = (TM_OK, [], j2) -> io_write j2 bind_frame = (TM_OK, [], j3) ->
  let s1 := PeerTcp.sess_ready s in
  let b1 := conn_read clock raw c hello_frame b in
  let s2 := PeerTcp.broker_leg_read cfg raw hello_ack_frame s1 in
  let b2 := conn_read clock raw c auth_frame b1 in
  let s3 := PeerTcp.broker_leg_read cfg raw auth_ok_frame s2 in
  io_log j3 = io_log j0 ++ hello_frame ++ auth_frame ++ bind_frame /\ io_log i2 = io_log i0 ++ hello_ack_frame ++ auth_ok_frame /\
  talking s3 j3 /\ map f_type (PeerTcp.said s3) = [TM_MSG_HELLO; TM_MSG_AUTH; TM_MSG_DATA_BIND] /\
  exists x', conns b2 !! c = Some x' /\ peer_authed x' = true /\ peer_tun x' = Some ta /\ c_io x' = Some i2 /\ c_closing x' = false.
Proof.
  intros Hr Hp Hg Hoi W1 W2 Hn Hcl He Hne Hd Hcfg Hid Hz Ht Hoj Hgs Hsd W3 W4 W5. cbv zeta.
  destruct (broker_hello clock raw b c x i0 i1 Hr Hp Hg W1) as (Ec & Ek & x' & Hp' & Hg'). set (b1 := conn_read clock raw c hello_frame b) in *.
  destruct hello_some as (h & Eh & hb & Ehb).
  assert (hb = hello_frame) as -> by (unfold hello_frame, bytes_of; rewrite Eh; cbn; by rewrite Ehb).
  destruct (sess_sends s j0 j1 h hello_frame Ht Ehb W3) as (T1 & _ & T3 & T4).
  assert (PeerTcp.sess_ready s = PeerTcp.sess_send_frame (Some h) s) as -> by (unfold PeerTcp.sess_ready; by rewrite Eh).
  set (s1 := PeerTcp.sess_send_frame (Some h) s) in *. clearbody s1 b1. rewrite Hgs in T3. rewrite Hsd in T4.
  destruct (auth_credentials Hcfg Hid) as (f & Ef & Eb & _ & Eft & _).
  destruct (peer_ack s1 j1 j2 f T1 T3 Ef Eb W4) as (A1 & A2 & A3). set (s2 := PeerTcp.broker_leg_read cfg raw hello_ack_frame s1) in *. clearbody s2.
  destruct (peer_accepted s2 j2 j3 A1 A2 W5) as (B1 & _ & d & Ed & B2). set (s3 := PeerTcp.broker_leg_read cfg raw auth_ok_frame s2) in *. clearbody s3.
  destruct (two_writes j0 _ j1 _ j2 Hoj W3 W4) as [L1 Hok2]. pose proof (io_write_law j2 bind_frame Hok2) as (L2 & _). rewrite W5 in L2.
  split_and!; auto.
  - destruct L2 as [-> _]. by rewrite L1, <- !app_assoc.
  - by apply (two_writes i0 _ i1).
  - rewrite B2, A3, T4. cbn. rewrite Eft. by injection Eh as <-; injection Ed as <-.
  - apply (broker_auth b1 c x' i1 i2 ta t); auto.
    + unfold named_tunnel, tm_tunnel_find in *. injection Ec as E1 E2 _ _ _ _ _ _ _. by rewrite E1, E2.
    + by rewrite Ek.
Qed.

End PeerHandshake.

(** ** A concrete authentication *)

Module PeerHandshakeSample.
Import ControlSample HandshakeSample.
#[local] Existing Instances ClientSample.plain UdpSample.short TcpLeg.tcp_leg.

Definition url : bytes := cstr "tunnel://broker.example/tun".
Definition opts : list PeerCfg.opt := [PeerCfg.OPT_TOKEN token0; PeerCfg.OPT_LISTEN (cstr "127.0.0.1:9000")].
Definition cfg2 : PeerCfg.tm_peer_cfg := match PeerCfg.main_cfg url opts with PeerCfg.OK g => g | _ => PeerCfg.main_defaults end.

(** The session of a local connection whose connection to the broker is there. *)
Definition sess0 : @PeerTcp.tm_psess Tcp.tm_io_tcp :=
  PeerTcp.broker_connected (CTL_CONNECTED (Tcp.tm_io_tcp_new []) false) (PeerTcp.psess_new 1 S_LIVE).

Lemma peer_authenticates_witness :
  let b2 := conn_read tick leg0 2 (auth_frame cfg2) (conn_read tick leg0 2 hello_frame served) in
  exists x', conns b2 !! 2 = Some x' /\ peer_authed x' = true /\ peer_tun x' = Some 1.
Proof.
  cbv zeta.
  edestruct (peer_authenticates tick leg0 cfg2 served 2) as (_ & _ & _ & _ & x' & X1 & X2 & X3 & _);
    [apply served_reg| | | | | | | | | | | | | | | | | | | | |exists x'; split; [exact X1|split; [exact X2|exact X3]]].
  - constructor; [vm_compute; reflexivity|vm_compute; reflexivity|eexists; vm_compute; reflexivity|vm_compute; reflexivity..].
  - vm_compute; reflexivity.
  - apply (@io_fresh_law _ TcpLeg.tcp_leg (Tcp.tm_io_tcp_new [])). by eexists.
  - vm_compute; reflexivity.
  - vm_compute; reflexivity.
  - vm_compute; reflexivity.
  - vm_compute; reflexivity.
  - vm_compute; reflexivity.
  - vm_compute; discriminate.
  - vm_compute; reflexivity.
  - apply (PeerCfg.peer_cfg_ok url opts). vm_compute; reflexivity.
  - vm_compute; discriminate.
  - vm_compute; reflexivity.
  - instantiate (2 := sess0). constructor; [vm_compute; reflexivity..|eexists; vm_compute; reflexivity].
  - apply (@io_fresh_law _ TcpLeg.tcp_leg (Tcp.tm_io_tcp_new [])). by eexists.
  - vm_compute; reflexivity.
  - vm_compute; reflexivity.
  - vm_compute; reflexivity.
  - vm_compute; reflexivity.
  - vm_compute; reflexivity.
Defined.

End PeerHandshakeSample.
