(* ===== verification/Json.v ===== *)
(** * JSON text

    The part of src/common/src/cJSON.c the broker uses: [cJSON_Parse],
    [cJSON_PrintUnformatted] and the accessors and constructors of items.  An item is
    a value of [json]; an object keeps its members in order, duplicates included.  A C
    string ends at its first NUL, so that is where the value of a parsed string ends.

    The parser reads a buffer at an offset, as the code does; a read outside the buffer
    is the result [POver].  Doubles are those of the C library (class [CDouble]); the
    position of a parse error and allocation failure are not represented. *)

From S2P Require Import Prelude.

#[local] Arguments Z.of_nat : simpl never.

(** What the code uses of [double]: conversions from and to integers, comparison, and
    the conversions to and from text of [strtod], [sprintf] and [sscanf]. *)
Class CDouble := {
  double : Type;
  dbl_of_Z : Z -> double;
  dbl_to_Z : double -> Z;                (* truncation toward zero *)
  dbl_to_uint : Z -> double -> Z;        (* to an unsigned integer of that width; any value out of range *)
  dbl_finite : double -> bool;
  dbl_eqb : double -> double -> bool;
  dbl_leb : double -> double -> bool;
  dbl_close : double -> double -> bool;  (* fabs(a - b) <= max(fabs a, fabs b) * DBL_EPSILON *)
  strtod : bytes -> double * nat;        (* the value and the number of bytes it took *)
  sprintf_g : Z -> double -> bytes;      (* "%1.<n>g" *)
  sscanf_lg : bytes -> option double;
}.

Definition INT_MAX : Z := 2147483647.
Definition INT_MIN : Z := -2147483648.
Definition CJSON_NESTING_LIMIT : Z := 1000.

Section Json.
Context `{CDouble}.

Inductive json :=
  | JNull
  | JFalse
  | JTrue
  | JNumber (d : double)
  | JString (s : bytes)
  | JArray (l : list json)
  | JObject (l : list (bytes * json)).

(** [valueint] of a number item: both constructors derive it from the double. *)
Definition valueint (d : double) : Z :=
  if dbl_leb (dbl_of_Z INT_MAX) d then INT_MAX
  else if dbl_leb d (dbl_of_Z INT_MIN) then INT_MIN
  else dbl_to_Z d.

(** ** Items *)

Definition cJSON_IsString (j : option json) : option bytes :=
  match j with Some (JString s) => Some s | _ => None end.
Definition cJSON_IsNumber (j : option json) : option double :=
  match j with Some (JNumber d) => Some d | _ => None end.
Definition cJSON_IsTrue (j : option json) : bool :=
  match j with Some JTrue => true | _ => false end.

(** [object->child]: only objects have named children. *)
Definition cJSON_GetObjectItemCaseSensitive (j : json) (name : bytes) : option json :=
  match j with
  | JObject l => snd <$> List.find (fun kv => streq name (fst kv)) l
  | _ => None
  end.

Definition tolower (c : Z) : Z := if (65 <=? c) && (c <=? 90) then c + 32 else c.
Definition case_insensitive_eq (a b : bytes) : bool := streq (map tolower a) (map tolower b).

Definition cJSON_AddItemToObject (name : bytes) (item : json) (j : json) : json :=
  match j with JObject l => JObject (l ++ [(name, item)]) | _ => j end.
Definition cJSON_AddItemToArray (item : json) (j : json) : json :=
  match j with JArray l => JArray (l ++ [item]) | _ => j end.
Definition cJSON_AddStringToObject (name s : bytes) (j : json) : json :=
  cJSON_AddItemToObject name (JString s) j.
Definition cJSON_AddNumberToObject (name : bytes) (n : Z) (j : json) : json :=
  cJSON_AddItemToObject name (JNumber (dbl_of_Z n)) j.
Definition cJSON_AddBoolToObject (name : bytes) (v : bool) (j : json) : json :=
  cJSON_AddItemToObject name (if v then JTrue else JFalse) j.

(** The first member whose name matches without regard to case, taken out. *)
Fixpoint detach (name : bytes) (l : list (bytes * json)) : option (json * list (bytes * json)) :=
  match l with
  | [] => None
  | (k, v) :: l' => if case_insensitive_eq name k then Some (v, l')
                    else '(w, l'') ← detach name l'; Some (w, (k, v) :: l'')
  end.
Definition cJSON_DetachItemFromObject (name : bytes) (j : json) : option (json * json) :=
  match j with
  | JObject l => '(v, l') ← detach name l; Some (v, JObject l')
  | _ => None
  end.

(** ** Printing *)

(** What is printed so far ([offset] is its length), the size of the allocation, the
    nesting and whether the print is formatted. *)
Record printbuffer := PB {
  pb_out : bytes;
  pb_length : Z;
  pb_depth : Z;
  pb_format : bool;
}.
#[global] Instance eta_pb : Eta printbuffer := settable! PB <pb_out; pb_length; pb_depth; pb_format>.

Definition ensure (needed : Z) (p : printbuffer) : option printbuffer :=
  let offset := blen (pb_out p) in
  if (0 <? pb_length p) && (pb_length p <=? offset) then None
  else if INT_MAX <? needed then None
  else
    let needed := needed + offset + 1 in
    if needed <=? pb_length p then Some p
    else if INT_MAX / 2 <? needed then
      if needed <=? INT_MAX then Some (p <| pb_length := INT_MAX |>) else None
    else Some (p <| pb_length := needed * 2 |>).

Definition emit (d : bytes) (p : printbuffer) : printbuffer := p <| pb_out ::= fun o => o ++ d |>.

(** [sprintf("%d")]. *)
Fixpoint digits (fuel : nat) (n : Z) (acc : bytes) : bytes :=
  match fuel with
  | O => acc
  | S fuel' => if n <? 10 then (48 + n) :: acc else digits fuel' (n / 10) ((48 + n mod 10) :: acc)
  end.
Definition sprintf_d (n : Z) : bytes :=
  if n <? 0 then 45 :: digits 20 (- n) [] else digits 20 n [].

Definition number_text (d : double) : bytes :=
  if negb (dbl_finite d) then cstr "null"
  else if dbl_eqb d (dbl_of_Z (valueint d)) then sprintf_d (valueint d)
  else
    let t := sprintf_g 15 d in
    match sscanf_lg t with
    | Some test => if dbl_close test d then t else sprintf_g 17 d
    | None => sprintf_g 17 d
    end.

Definition print_number (d : double) (p : printbuffer) : option printbuffer :=
  let t := number_text d in
  if 25 <? blen t then None
  else emit t <$> ensure (blen t + 1) p.

Definition hex_digit (n : Z) : Z := if n <? 10 then 48 + n else 87 + n.

(** One byte of a string: itself, or an escape. *)
Definition escape_char (c : Z) : bytes :=
  if (31 <? c) && negb (c =? 34) && negb (c =? 92) then [c]
  else if c =? 92 then [92; 92]
  else if c =? 34 then [92; 34]
  else if c =? 8 then [92; 98]
  else if c =? 12 then [92; 102]
  else if c =? 10 then [92; 110]
  else if c =? 13 then [92; 114]
  else if c =? 9 then [92; 116]
  else [92; 117; 48; 48; hex_digit (c / 16); hex_digit (c mod 16)].
Definition escape (s : bytes) : bytes := concat (map escape_char s).

Definition print_string_ptr (s : bytes) (p : printbuffer) : option printbuffer :=
  emit (34 :: escape s ++ [34]) <$> ensure (blen (escape s) + 3) p.

Definition put (d : bytes) (needed : Z) (p : printbuffer) : option printbuffer :=
  emit d <$> ensure needed p.

Definition nest (n : Z) (p : printbuffer) : printbuffer := p <| pb_depth ::= Z.add n |>.
Definition tabs (n : Z) : bytes := replicate (Z.to_nat n) 9.
Definition is_cons {A} (l : list A) : bool := match l with [] => false | _ => true end.

Section PrintItems.
Variable print_value : json -> printbuffer -> option printbuffer.

Fixpoint array_items (l : list json) (p : printbuffer) : option printbuffer :=
  match l with
  | [] => Some p
  | j :: l' =>
      p ← print_value j p;
      p ← (if is_cons l' then
             let sep := if pb_format p then [44; 32] else [44] in put sep (blen sep + 1) p
           else Some p);
      array_items l' p
  end.

Definition print_array (l : list json) (p : printbuffer) : option printbuffer :=
  if CJSON_NESTING_LIMIT <=? pb_depth p then None
  else
    p ← nest 1 <$> put [91] 1 p;
    p ← array_items l p;
    nest (-1) <$> put [93] 2 p.

Fixpoint object_items (l : list (bytes * json)) (p : printbuffer) : option printbuffer :=
  match l with
  | [] => Some p
  | (k, v) :: l' =>
      p ← (if pb_format p then put (tabs (pb_depth p)) (pb_depth p) p else Some p);
      p ← print_string_ptr k p;
      let colon := if pb_format p then [58; 9] else [58] in
      p ← put colon (blen colon) p;
      p ← print_value v p;
      let sep := (if is_cons l' then [44] else []) ++ (if pb_format p then [10] else []) in
      p ← put sep (blen sep + 1) p;
      object_items l' p
  end.

Definition print_object (l : list (bytes * json)) (p : printbuffer) : option printbuffer :=
  if CJSON_NESTING_LIMIT <=? pb_depth p then None
  else
    let open := if pb_format p then [123; 10] else [123] in
    p ← nest 1 <$> put open (blen open + 1) p;
    p ← object_items l p;
    let close := (if pb_format p then tabs (pb_depth p - 1) else []) ++ [125] in
    nest (-1) <$> put close (if pb_format p then pb_depth p + 1 else 2) p.
End PrintItems.

Fixpoint print_value (j : json) (p : printbuffer) {struct j} : option printbuffer :=
  match j with
  | JNull => put (cstr "null") 5 p
  | JFalse => put (cstr "false") 6 p
  | JTrue => put (cstr "true") 5 p
  | JNumber d => print_number d p
  | JString s => print_string_ptr s p
  | JArray l => print_array print_value l p
  | JObject l => print_object print_value l p
  end.

(** [print]: the text, or [NULL]. *)
Definition print (j : json) (format : bool) : option bytes := pb_out <$> print_value j (PB [] 256 0 format).
Definition cJSON_PrintUnformatted (j : json) : option bytes := print j false.

(** ** Parsing *)

Inductive pres (A : Type) := POk (a : A) | PFail | POver | PFuel.
Arguments POk {A} a.
Arguments PFail {A}.
Arguments POver {A}.
Arguments PFuel {A}.

Definition pbind {A B} (m : pres A) (k : A -> pres B) : pres B :=
  match m with POk a => k a | PFail => PFail | POver => POver | PFuel => PFuel end.

(** *** Strings *)

Definition hexd (c : Z) : option Z :=
  if (48 <=? c) && (c <=? 57) then Some (c - 48)
  else if (65 <=? c) && (c <=? 70) then Some (10 + c - 65)
  else if (97 <=? c) && (c <=? 102) then Some (10 + c - 97)
  else None.

(** Four hexadecimal digits, 0 when one of them is not. *)
Definition parse_hex4 (l : bytes) : Z :=
  match l with
  | a :: b :: c :: d :: _ =>
      match hexd a, hexd b, hexd c, hexd d with
      | Some a, Some b, Some c, Some d => ((a * 16 + b) * 16 + c) * 16 + d
      | _, _, _, _ => 0
      end
  | _ => 0
  end.

Definition utf8_encode (cp : Z) : option bytes :=
  let cont c := Z.land (Z.lor c 0x80) 0xBF in
  if cp <? 0x80 then Some [Z.land cp 0x7F]
  else if cp <? 0x800 then Some [u8 (Z.lor (Z.shiftr cp 6) 0xC0); u8 (cont cp)]
  else if cp <? 0x10000
  then Some [u8 (Z.lor (Z.shiftr cp 12) 0xE0); u8 (cont (Z.shiftr cp 6)); u8 (cont cp)]
  else if cp <=? 0x10FFFF
  then Some [u8 (Z.lor (Z.shiftr cp 18) 0xF0); u8 (cont (Z.shiftr cp 12)); u8 (cont (Z.shiftr cp 6)); u8 (cont cp)]
  else None.

(** The literal at the head of [l], which starts with a backslash and a [u]: its bytes
    and its length; [None] when it is not valid. *)
Definition utf16_literal_to_utf8 (l : bytes) : option (bytes * nat) :=
  if blen l <? 6 then None
  else
    let first := parse_hex4 (drop 2 l) in
    if (0xDC00 <=? first) && (first <=? 0xDFFF) then None
    else if (0xD800 <=? first) && (first <=? 0xDBFF) then
      let l2 := drop 6 l in
      if blen l2 <? 6 then None
      else match l2 with
      | 92 :: 117 :: l3 =>
          let second := parse_hex4 l3 in
          if (second <? 0xDC00) || (0xDFFF <? second) then None
          else
            let cp := 0x10000 + Z.lor (Z.shiftl (Z.land first 0x3FF) 10) (Z.land second 0x3FF) in
            o ← utf8_encode cp; Some (o, 12%nat)
      | _ => None
      end
    else o ← utf8_encode first; Some (o, 6%nat).

(** The distance from [l] to the closing quote. *)
Fixpoint scan_end (l : bytes) : option nat :=
  match l with
  | [] => None
  | c :: l' =>
      if c =? 34 then Some 0%nat
      else if c =? 92 then
        match l' with
        | [] => None
        | _ :: l'' => (fun n => S (S n)) <$> scan_end l''
        end
      else S <$> scan_end l'
  end.

(** The body of a literal.  A backslash that ends it (left over by a broken [\u]
    literal) reads the closing quote behind it. *)
Fixpoint unescape (fuel : nat) (l : bytes) : option bytes :=
  match fuel with
  | O => match l with [] => Some [] | _ => None end
  | S fuel' =>
      match l with
      | [] => Some []
      | c :: l' =>
          if negb (c =? 92) then (fun o => c :: o) <$> unescape fuel' l'
          else
            let e := match l' with [] => 34 | e :: _ => e end in
            let plain (x : Z) := (fun o => x :: o) <$> unescape fuel' (drop 1 l') in
            if e =? 98 then plain 8
            else if e =? 102 then plain 12
            else if e =? 110 then plain 10
            else if e =? 114 then plain 13
            else if e =? 116 then plain 9
            else if (e =? 34) || (e =? 92) || (e =? 47) then plain e
            else if e =? 117 then
              '(o, n) ← utf16_literal_to_utf8 l;
              (fun o' => o ++ o') <$> unescape fuel' (drop n l)
            else None
      end
  end.

Section Parse.
(** [input_buffer->content], with its [length]. *)
Variable c : bytes.

Definition can_access (off : nat) : bool := (off <? length c)%nat.
Definition at_ (off : nat) : Z := List.nth off c 0.

Fixpoint ws_len (l : bytes) : nat :=
  match l with [] => 0 | x :: l' => if x <=? 32 then S (ws_len l') else 0 end.

Definition skip_ws (off : nat) : nat :=
  if negb (can_access off) then off
  else
    let o := (off + ws_len (drop off c))%nat in
    if (o =? length c)%nat then (o - 1)%nat else o.

Definition is_lit (s : bytes) (off : nat) : bool :=
  (off + length s <=? length c)%nat && streq (take (length s) (drop off c)) s.

Definition parse_string (off : nat) : pres (bytes * nat) :=
  if negb (can_access off) then POver
  else if negb (at_ off =? 34) then PFail
  else match scan_end (drop (off + 1) c) with
  | None => PFail
  | Some n =>
      let body := take n (drop (off + 1) c) in
      match unescape (length body) body with
      | None => PFail
      | Some o => POk (strz o, (off + 1 + n + 1)%nat)
      end
  end.

Definition is_num_char (x : Z) : bool :=
  ((48 <=? x) && (x <=? 57)) || (x =? 43) || (x =? 45) || (x =? 101) || (x =? 69) || (x =? 46).
Fixpoint num_len (l : bytes) : nat :=
  match l with [] => 0 | x :: l' => if is_num_char x then S (num_len l') else 0 end.

Definition parse_number (off : nat) : pres (double * nat) :=
  let t := take (num_len (drop off c)) (drop off c) in
  let '(d, n) := strtod t in
  if (n =? 0)%nat then PFail else POk (d, (off + n)%nat).

(** [elems] and [members] start at the byte in front of the next element. *)
Fixpoint parse_value (fuel : nat) (depth : Z) (off : nat) {struct fuel} : pres (json * nat) :=
  match fuel with
  | O => PFuel
  | S fuel' =>
      if is_lit (cstr "null") off then POk (JNull, (off + 4)%nat)
      else if is_lit (cstr "false") off then POk (JFalse, (off + 5)%nat)
      else if is_lit (cstr "true") off then POk (JTrue, (off + 4)%nat)
      else if can_access off && (at_ off =? 34) then
        pbind (parse_string off) (fun '(s, off) => POk (JString s, off))
      else if can_access off && ((at_ off =? 45) || (48 <=? at_ off) && (at_ off <=? 57)) then
        pbind (parse_number off) (fun '(d, off) => POk (JNumber d, off))
      else if can_access off && (at_ off =? 91) then
        if CJSON_NESTING_LIMIT <=? depth then PFail
        else
          let off := skip_ws (off + 1) in
          if can_access off && (at_ off =? 93) then POk (JArray [], (off + 1)%nat)
          else if negb (can_access off) then PFail
          else elems fuel' (depth + 1) (off - 1) []
      else if can_access off && (at_ off =? 123) then
        if CJSON_NESTING_LIMIT <=? depth then PFail
        else
          let off := skip_ws (off + 1) in
          if can_access off && (at_ off =? 125) then POk (JObject [], (off + 1)%nat)
          else if negb (can_access off) then PFail
          else members fuel' (depth + 1) (off - 1) []
      else PFail
  end
with elems (fuel : nat) (depth : Z) (off : nat) (acc : list json) {struct fuel} : pres (json * nat) :=
  match fuel with
  | O => PFuel
  | S fuel' =>
      pbind (parse_value fuel' depth (skip_ws (off + 1))) (fun '(v, off) =>
      let off := skip_ws off in
      if can_access off && (at_ off =? 44) then elems fuel' depth off (acc ++ [v])
      else if can_access off && (at_ off =? 93) then POk (JArray (acc ++ [v]), (off + 1)%nat)
      else PFail)
  end
with members (fuel : nat) (depth : Z) (off : nat) (acc : list (bytes * json)) {struct fuel} : pres (json * nat) :=
  match fuel with
  | O => PFuel
  | S fuel' =>
      if negb (can_access (off + 1)) then PFail
      else
        pbind (parse_string (skip_ws (off + 1))) (fun '(k, off) =>
        let off := skip_ws off in
        if negb (can_access off) || negb (at_ off =? 58) then PFail
        else
          pbind (parse_value fuel' depth (skip_ws (off + 1))) (fun '(v, off) =>
          let off := skip_ws off in
          if can_access off && (at_ off =? 44) then members fuel' depth off (acc ++ [(k, v)])
          else if can_access off && (at_ off =? 125) then POk (JObject (acc ++ [(k, v)]), (off + 1)%nat)
          else PFail))
  end.

Definition skip_utf8_bom : nat :=
  if (4 <? length c)%nat && streq (take 3 c) [0xEF; 0xBB; 0xBF] then 3 else 0.
End Parse.

(** The buffer of [cJSON_Parse]: the string with its NUL. *)
Definition cJSON_ParseWithLengthOpts (c : bytes) : pres json :=
  if (length c =? 0)%nat then PFail
  else pbind (parse_value c (2 * length c + 2) 0 (skip_ws c (skip_utf8_bom c))) (fun '(j, _) => POk j).

Definition cJSON_Parse (s : bytes) : pres json := cJSON_ParseWithLengthOpts (strz s ++ [0]).

(** ** Parsing ends inside the buffer *)

Section Bounds.
Variable c : bytes.

Lemma can_access_iff off : can_access c off = true <-> (off < length c)%nat.
Proof. apply Nat.ltb_lt. Qed.

Lemma ws_len_le l : (ws_len l <= length l)%nat.
Proof. induction l as [|x l IH]; cbn; [lia|]. destruct (x <=? 32); cbn; lia. Qed.

(** Skipping never goes back, and stays inside the buffer. *)
Lemma skip_ws_ge off : (off <= skip_ws c off)%nat.
Proof.
  unfold skip_ws. destruct (can_access c off) eqn:E; cbn [negb]; [|lia]. apply can_access_iff in E.
  destruct (_ =? _)%nat eqn:E1; [apply Nat.eqb_eq in E1|]; lia.
Qed.
Lemma skip_ws_in off : (off < length c -> skip_ws c off < length c)%nat.
Proof.
  intros Ho. unfold skip_ws. rewrite (proj2 (can_access_iff off) Ho). cbn [negb].
  pose proof (ws_len_le (drop off c)). rewrite length_drop in *.
  destruct (_ =? _)%nat eqn:E1; [apply Nat.eqb_eq in E1|apply Nat.eqb_neq in E1]; lia.
Qed.

(** A parse that neither leaves the buffer nor runs out, and moves on. *)
Definition advances {A} (off : nat) (r : pres (A * nat)) : Prop :=
  match r with POk (_, off') => (off < off')%nat | PFail => True | POver | PFuel => False end.

Lemma advances_bind {A B} off off1 (r : pres (A * nat)) (k : A * nat -> pres (B * nat)) :
  advances off1 r -> (forall a off2, (off1 < off2)%nat -> advances off (k (a, off2))) -> advances off (pbind r k).
Proof. destruct r as [[a off2]| | |]; cbn; auto. Qed.

Lemma parse_string_advances off : (off < length c)%nat -> advances off (parse_string c off).
Proof.
  intros Ho. unfold parse_string. rewrite (proj2 (can_access_iff off) Ho). cbn [negb].
  destruct (at_ c off =? 34); [|done]. cbn [negb]. destruct (scan_end _); [|done]. cbv zeta.
  destruct (unescape _ _); [|done]. cbn. lia.
Qed.
Lemma parse_number_advances off : advances off (parse_number c off).
Proof.
  unfold parse_number. cbv zeta. destruct (strtod _) as [d n]. destruct (n =? 0)%nat eqn:E; [done|].
  apply Nat.eqb_neq in E. cbn. lia.
Qed.

Lemma parse_advances fuel : forall depth off,
  (2 * (length c - off) < fuel -> advances off (parse_value c fuel depth off))%nat /\
  (forall acc, off < length c -> 2 * (length c - off) <= fuel -> advances off (elems c fuel depth off acc))%nat /\
  (forall acc, off < length c -> 2 * (length c - off) <= fuel -> advances off (members c fuel depth off acc))%nat.
Proof.
  induction fuel as [|fuel IH]; intros depth off; [split_and!; intros; lia|split_and!].
  - intros Hf. cbn [parse_value].
    destruct (is_lit c (cstr "null") off); [cbn; lia|]. destruct (is_lit c (cstr "false") off); [cbn; lia|].
    destruct (is_lit c (cstr "true") off); [cbn; lia|].
    destruct (can_access c off) eqn:Ea; cbn [andb]; [|done]. apply can_access_iff in Ea.
    destruct (at_ c off =? 34).
    { eapply advances_bind; [by apply parse_string_advances|]. intros a off2 H2. cbn. lia. }
    destruct (_ || _).
    { eapply advances_bind; [by apply parse_number_advances|]. intros a off2 H2. cbn. lia. }
    pose proof (skip_ws_ge (off + 1)) as Hge.
    assert (forall (k : Z) (x : json) (r : pres (json * nat)), (off < skip_ws c (off + 1))%nat ->
      ((skip_ws c (off + 1) < length c)%nat -> advances (skip_ws c (off + 1) - 1) r) ->
      advances off (if can_access c (skip_ws c (off + 1)) && (at_ c (skip_ws c (off + 1)) =? k) then POk (x, (skip_ws c (off + 1) + 1)%nat)
                    else if negb (can_access c (skip_ws c (off + 1))) then PFail else r)) as Hseq.
    { intros k x r Hlt Hr. destruct (can_access c (skip_ws c (off + 1))) eqn:Ec; cbn [andb negb]; [|done].
      destruct (_ =? k); [cbn; lia|]. apply can_access_iff in Ec. specialize (Hr Ec).
      destruct r as [[v o]| | |]; cbn in *; auto; lia. }
    destruct (at_ c off =? 91).
    { destruct (_ <=? _); [done|]. cbv zeta. apply Hseq; [lia|]. intros Hc. apply IH; lia. }
    destruct (at_ c off =? 123); [|done].
    destruct (_ <=? _); [done|]. cbv zeta. apply Hseq; [lia|]. intros Hc. apply IH; lia.
  - intros acc Ho Hf. cbn [elems]. pose proof (skip_ws_ge (off + 1)) as Hge.
    eapply advances_bind; [apply IH; lia|]. intros v off2 H2. cbv zeta. pose proof (skip_ws_ge off2).
    destruct (can_access c (skip_ws c off2)) eqn:Ec; cbn [andb]; [|done]. apply can_access_iff in Ec.
    destruct (_ =? 44); [|destruct (_ =? 93); [cbn; lia|done]].
    assert (advances (skip_ws c off2) (elems c fuel depth (skip_ws c off2) (acc ++ [v]))) as Hr by (apply IH; lia).
    destruct (elems _ _ _ _ _) as [[w o]| | |]; cbn in *; auto; lia.
  - intros acc Ho Hf. cbn [members]. pose proof (skip_ws_ge (off + 1)) as Hge.
    destruct (can_access c (off + 1)) eqn:E1; cbn [negb]; [|done]. apply can_access_iff in E1.
    eapply advances_bind; [by apply parse_string_advances, skip_ws_in|]. intros k off2 H2. cbv zeta.
    pose proof (skip_ws_ge off2).
    destruct (can_access c (skip_ws c off2)) eqn:Ec; cbn [negb orb]; [|done]. apply can_access_iff in Ec.
    destruct (_ =? 58); cbn [negb]; [|done]. pose proof (skip_ws_ge (skip_ws c off2 + 1)).
    eapply advances_bind; [apply IH; lia|]. intros v off3 H3. pose proof (skip_ws_ge off3).
    destruct (can_access c (skip_ws c off3)) eqn:Ec3; cbn [andb]; [|done]. apply can_access_iff in Ec3.
    destruct (_ =? 44); [|destruct (_ =? 125); [cbn; lia|done]].
    assert (advances (skip_ws c off3) (members c fuel depth (skip_ws c off3) (acc ++ [(k, v)]))) as Hr by (apply IH; lia).
    destruct (members _ _ _ _ _) as [[w o]| | |]; cbn in *; auto; lia.
Qed.
End Bounds.

(** The JSON parser is safe on every input.  Whatever line arrives on the control
    socket, [cJSON_Parse] ends, with a value or with a refusal, and never reads outside
    the string and its terminator. *)
Theorem json_parse_safe s : cJSON_Parse s <> PFuel /\ cJSON_Parse s <> POver.
Proof.
  unfold cJSON_Parse, cJSON_ParseWithLengthOpts. set (c := strz s ++ [0]).
  destruct (length c =? 0)%nat; [done|].
  destruct (parse_advances c (2 * length c + 2) 0 (skip_ws c (skip_utf8_bom c))) as [Hp _].
  specialize (Hp ltac:(lia)). destruct (parse_value _ _ _ _) as [[j o]| | |]; done.
Qed.

(** ** The printed text *)

Section Ind.
Context (P : json -> Prop).
Context (Pnull : P JNull) (Pfalse : P JFalse) (Ptrue : P JTrue) (Pnum : forall d, P (JNumber d)) (Pstr : forall s, P (JString s)).
Context (Parr : forall l, Forall P l -> P (JArray l)) (Pobj : forall l, Forall (fun kv => P (snd kv)) l -> P (JObject l)).
Fixpoint json_nested_ind (j : json) : P j :=
  match j with
  | JNull => Pnull | JFalse => Pfalse | JTrue => Ptrue | JNumber d => Pnum d | JString s => Pstr s
  | JArray l => Parr l ((fix go l : Forall P l :=
      match l with [] => Forall_nil_2 P | x :: l' => Forall_cons_2 P x l' (json_nested_ind x) (go l') end) l)
  | JObject l => Pobj l ((fix go l : Forall (fun kv => P (snd kv)) l :=
      match l with [] => Forall_nil_2 _ | x :: l' => Forall_cons_2 _ x l' (json_nested_ind (snd x)) (go l') end) l)
  end.
End Ind.

Definition quoted (s : bytes) : bytes := 34 :: escape s ++ [34].

(** The text of a value, with no white space. *)
Fixpoint json_text (j : json) : bytes :=
  match j with
  | JNull => cstr "null"
  | JFalse => cstr "false"
  | JTrue => cstr "true"
  | JNumber d => number_text d
  | JString s => quoted s
  | JArray l => 91 :: (fix go (l : list json) : bytes :=
      match l with [] => [] | j :: l' => json_text j ++ (if is_cons l' then [44] else []) ++ go l' end) l ++ [93]
  | JObject l => 123 :: (fix go (l : list (bytes * json)) : bytes :=
      match l with [] => [] | (k, v) :: l' => quoted k ++ [58] ++ json_text v ++ (if is_cons l' then [44] else []) ++ go l' end) l ++ [125]
  end.
Fixpoint elems_text (l : list json) : bytes :=
  match l with [] => [] | j :: l' => json_text j ++ (if is_cons l' then [44] else []) ++ elems_text l' end.
Fixpoint members_text (l : list (bytes * json)) : bytes :=
  match l with [] => [] | (k, v) :: l' => quoted k ++ [58] ++ json_text v ++ (if is_cons l' then [44] else []) ++ members_text l' end.
Lemma json_text_array l : json_text (JArray l) = 91 :: elems_text l ++ [93].
Proof. reflexivity. Qed.
Lemma json_text_object l : json_text (JObject l) = 123 :: members_text l ++ [125].
Proof. reflexivity. Qed.

(** How deep arrays and objects nest. *)
Fixpoint height (j : json) : nat :=
  match j with
  | JArray l => S ((fix go (l : list json) : nat := match l with [] => 0%nat | j :: l' => Nat.max (height j) (go l') end) l)
  | JObject l => S ((fix go (l : list (bytes * json)) : nat := match l with [] => 0%nat | kv :: l' => Nat.max (height (snd kv)) (go l') end) l)
  | _ => 0%nat
  end.
Definition heights (l : list json) : nat := foldr (fun j n => Nat.max (height j) n) 0%nat l.
Lemma height_array l : height (JArray l) = S (heights l).
Proof. reflexivity. Qed.
Lemma height_object l : height (JObject l) = S (heights (map snd l)).
Proof. cbn [height]. f_equal. induction l as [|[k v] l IH]; cbn; [done|]. by rewrite IH. Qed.

(** A buffer that is printing unformatted, [n] bytes from its end of service. *)
Record pb_ok (p : printbuffer) : Prop := {
  po_len : blen (pb_out p) < pb_length p;
  po_unf : pb_format p = false;
}.

Lemma put_ok d needed p : pb_ok p -> blen d <= needed -> blen (pb_out p) + needed + 1 <= INT_MAX ->
  exists p', put d needed p = Some p' /\ pb_ok p' /\ pb_out p' = pb_out p ++ d /\ pb_depth p' = pb_depth p.
Proof.
  intros [Hl Hf] Hd Hn. pose proof (blen_nonneg (pb_out p)). pose proof (blen_nonneg d).
  unfold put, ensure. cbv zeta. rewrite (proj2 (Z.leb_gt (pb_length p) _)), andb_false_r by lia.
  rewrite (proj2 (Z.ltb_ge INT_MAX _)) by lia.
  assert (forall q, pb_out q = pb_out p -> pb_depth q = pb_depth p -> pb_format q = false ->
            blen (pb_out p) + needed + 1 <= pb_length q ->
            exists p', emit d <$> Some q = Some p' /\ pb_ok p' /\ pb_out p' = pb_out p ++ d /\ pb_depth p' = pb_depth p) as Hq.
  { intros q Eo Ed Ef Hq. exists (emit d q). split; [done|]. split; [|split; [by cbn; rewrite Eo|done]].
    constructor; [|done]. cbn. rewrite Eo, blen_app. lia. }
  destruct (needed + blen (pb_out p) + 1 <=? pb_length p) eqn:E1; zb; [apply Hq; auto; lia|].
  destruct (INT_MAX / 2 <? _) eqn:E2; zb.
  - rewrite (proj2 (Z.leb_le _ INT_MAX)) by lia. apply Hq; try done; cbn; lia.
  - apply Hq; try done; cbn; lia.
Qed.

Lemma put_ok_nest k d needed p : pb_ok p -> blen d <= needed -> blen (pb_out p) + needed + 1 <= INT_MAX ->
  exists p', nest k <$> put d needed p = Some p' /\ pb_ok p' /\ pb_out p' = pb_out p ++ d /\ pb_depth p' = k + pb_depth p.
Proof.
  intros Hp Hd Hn. destruct (put_ok d needed p Hp Hd Hn) as (p' & -> & [] & Eo & Ed). exists (nest k p').
  split; [done|]. split; [by constructor|]. split; [done|]. cbn. by rewrite Ed.
Qed.

(** What can be printed and read back: strings are C strings, and the text of a number
    is a number that [strtod] reads as the same double. *)
Definition str_ok (s : bytes) : Prop := Forall (fun c => 0 < c < 256) s.
Definition num_ok (d : double) : Prop :=
  blen (number_text d) <= 25 /\ Forall (fun c => is_num_char c = true) (number_text d) /\
  (exists x t, number_text d = x :: t /\ (x = 45 \/ 48 <= x <= 57)) /\
  strtod (number_text d) = (d, length (number_text d)).

Inductive printable : json -> Prop :=
  | pr_null : printable JNull
  | pr_false : printable JFalse
  | pr_true : printable JTrue
  | pr_num d : num_ok d -> printable (JNumber d)
  | pr_str s : str_ok s -> printable (JString s)
  | pr_arr l : Forall printable l -> printable (JArray l)
  | pr_obj l : Forall (fun kv => str_ok (fst kv) /\ printable (snd kv)) l -> printable (JObject l).

Definition prints (j : json) : Prop := forall p, pb_ok p -> printable j ->
  pb_depth p + Z.of_nat (height j) <= CJSON_NESTING_LIMIT ->
  blen (pb_out p) + blen (json_text j) + 4 <= INT_MAX ->
  exists p', print_value j p = Some p' /\ pb_ok p' /\ pb_out p' = pb_out p ++ json_text j /\ pb_depth p' = pb_depth p.

Lemma print_elems (l : list json) : Forall prints l -> Forall printable l -> forall p, pb_ok p ->
  pb_depth p + Z.of_nat (heights l) <= CJSON_NESTING_LIMIT ->
  blen (pb_out p) + blen (elems_text l) + 5 <= INT_MAX ->
  exists p', array_items print_value l p = Some p' /\ pb_ok p' /\ pb_out p' = pb_out p ++ elems_text l /\ pb_depth p' = pb_depth p.
Proof.
  induction l as [|j l IH]; intros Hall Hpr p Hp Hd Hn; [exists p; rewrite app_nil_r; done|].
  apply Forall_cons in Hall as [Hj Hl]. apply Forall_cons in Hpr as [Pj Pl]. cbn [elems_text] in *. cbn [heights foldr] in Hd.
  fold (heights l) in Hd. rewrite !blen_app in Hn. pose proof (blen_nonneg (elems_text l)).
  pose proof (blen_nonneg (if is_cons l then [44] else [])).
  cbn [array_items]. destruct (Hj p Hp Pj) as (p1 & -> & Hp1 & Eo1 & Ed1); [lia..|]. cbn [mbind option_bind].
  destruct (is_cons l) eqn:El.
  - rewrite (po_unf p1 Hp1). cbv zeta.
    destruct (put_ok [44] (blen [44] + 1) p1 Hp1) as (p2 & -> & Hp2 & Eo2 & Ed2);
      [rewrite blen_cons, blen_nil; lia|rewrite Eo1, blen_app, blen_cons, blen_nil in *; lia|]. cbn [mbind option_bind].
    destruct (IH Hl Pl p2 Hp2) as (p3 & -> & Hp3 & Eo3 & Ed3); [lia|rewrite Eo2, Eo1, !blen_app; lia|].
    exists p3. split_and!; [done|done| |lia]. by rewrite Eo3, Eo2, Eo1, <- !app_assoc.
  - cbn [mbind option_bind]. destruct (IH Hl Pl p1 Hp1) as (p3 & -> & Hp3 & Eo3 & Ed3); [lia|rewrite Eo1, !blen_app; lia|].
    exists p3. split_and!; [done|done| |lia]. by rewrite Eo3, Eo1, <- !app_assoc.
Qed.

Lemma print_members (l : list (bytes * json)) : Forall (fun kv => prints (snd kv)) l ->
  Forall (fun kv => str_ok (fst kv) /\ printable (snd kv)) l -> forall p, pb_ok p ->
  pb_depth p + Z.of_nat (heights (map snd l)) <= CJSON_NESTING_LIMIT ->
  blen (pb_out p) + blen (members_text l) + 5 <= INT_MAX ->
  exists p', object_items print_value l p = Some p' /\ pb_ok p' /\ pb_out p' = pb_out p ++ members_text l /\ pb_depth p' = pb_depth p.
Proof.
  induction l as [|[k v] l IH]; intros Hall Hpr p Hp Hd Hn; [exists p; rewrite app_nil_r; done|].
  apply Forall_cons in Hall as [Hj Hl]. apply Forall_cons in Hpr as [[_ Pj] Pl]. cbn [snd] in Hj, Pj.
  cbn [object_items]. cbn [members_text map snd] in *. cbn [heights foldr] in Hd. fold (heights (map snd l)) in Hd.
  rewrite !blen_app in Hn. pose proof (blen_nonneg (members_text l)). set (sep := if is_cons l then [44] else []) in *.
  pose proof (blen_nonneg sep). pose proof (blen_nonneg (json_text v)). pose proof (blen_nonneg (quoted k)).
  change (blen [58]) with 1 in Hn.
  rewrite (po_unf p Hp). cbn [mbind option_bind]. unfold print_string_ptr. fold (quoted k). fold (put (quoted k) (blen (escape k) + 3) p).
  assert (blen (quoted k) = blen (escape k) + 2) as Eq by (unfold quoted; rewrite blen_cons, blen_app, blen_cons, blen_nil; lia).
  destruct (put_ok (quoted k) (blen (escape k) + 3) p Hp) as (p1 & -> & Hp1 & Eo1 & Ed1); [lia|lia|]. cbn [mbind option_bind].
  rewrite (po_unf p1 Hp1). cbv zeta. change (blen [58]) with 1.
  destruct (put_ok [58] 1 p1 Hp1) as (p2 & -> & Hp2 & Eo2 & Ed2); [done|rewrite Eo1, blen_app; lia|]. cbn [mbind option_bind].
  destruct (Hj p2 Hp2 Pj) as (p3 & -> & Hp3 & Eo3 & Ed3); [lia|rewrite Eo2, Eo1, !blen_app; change (blen [58]) with 1; lia|].
  cbn [mbind option_bind]. rewrite (po_unf p3 Hp3), app_nil_r. fold sep.
  destruct (put_ok sep (blen sep + 1) p3 Hp3) as (p4 & -> & Hp4 & Eo4 & Ed4);
    [lia|rewrite Eo3, Eo2, Eo1, !blen_app; change (blen [58]) with 1; lia|]. cbn [mbind option_bind].
  destruct (IH Hl Pl p4 Hp4) as (p5 & E5 & Hp5 & Eo5 & Ed5);
    [lia|rewrite Eo4, Eo3, Eo2, Eo1, !blen_app; change (blen [58]) with 1; lia|].
  exists p5. split_and!; [exact E5|done| |lia]. by rewrite Eo5, Eo4, Eo3, Eo2, Eo1, <- !app_assoc.
Qed.

Lemma print_string_ok s p : pb_ok p -> blen (pb_out p) + blen (quoted s) + 2 <= INT_MAX ->
  exists p', print_string_ptr s p = Some p' /\ pb_ok p' /\ pb_out p' = pb_out p ++ quoted s /\ pb_depth p' = pb_depth p.
Proof.
  intros Hp Hn. assert (blen (quoted s) = blen (escape s) + 2) as Eq
    by (unfold quoted; rewrite blen_cons, blen_app, blen_cons, blen_nil; lia).
  destruct (put_ok (quoted s) (blen (escape s) + 3) p Hp) as (p1 & E & Hp1); [lia|lia|]. by exists p1.
Qed.

Lemma printed j : prints j.
Proof.
  induction j as [| | |d|s|l IHl|l IHl] using json_nested_ind; intros p Hp Hpr Hd Hn.
  - change (blen (json_text JNull)) with 4 in Hn. apply put_ok; [done|done|lia].
  - change (blen (json_text JFalse)) with 5 in Hn. apply put_ok; [done|done|lia].
  - change (blen (json_text JTrue)) with 4 in Hn. apply put_ok; [done|done|lia].
  - inversion Hpr as [| | |? [Hlen _]| | |]; subst. cbn [print_value json_text] in *. unfold print_number. cbv zeta.
    rewrite (proj2 (Z.ltb_ge 25 _)) by done.
    apply (put_ok (number_text d) (blen (number_text d) + 1)); [done|lia|lia].
  - apply print_string_ok; [done|]. cbn [json_text] in Hn. lia.
  - inversion Hpr as [| | | | |? Hall|]; subst. rewrite json_text_array, height_array in *. rewrite blen_cons, blen_app in Hn.
    change (blen [93]) with 1 in Hn. cbn [print_value]. unfold print_array. rewrite (proj2 (Z.leb_gt _ (pb_depth p))) by lia.
    pose proof (blen_nonneg (elems_text l)).
    destruct (put_ok_nest 1 [91] 1 p Hp) as (p1 & -> & Hp1 & Eo1 & Ed1); [done|lia|]. cbn [mbind option_bind].
    destruct (print_elems l IHl Hall p1 Hp1) as (p2 & E2 & Hp2 & Eo2 & Ed2);
      [lia|rewrite Eo1, blen_app; change (blen [91]) with 1; lia|].
    rewrite E2. cbn [mbind option_bind].
    destruct (put_ok_nest (-1) [93] 2 p2 Hp2) as (p3 & -> & Hp3 & Eo3 & Ed3);
      [done|rewrite Eo2, Eo1, !blen_app; change (blen [91]) with 1; lia|].
    exists p3. split_and!; [done|done| |lia]. by rewrite Eo3, Eo2, Eo1, <- !app_assoc.
  - inversion Hpr as [| | | | | |? Hall]; subst. rewrite json_text_object, height_object in *. rewrite blen_cons, blen_app in Hn.
    change (blen [125]) with 1 in Hn. cbn [print_value]. unfold print_object. rewrite (proj2 (Z.leb_gt _ (pb_depth p))) by lia.
    pose proof (blen_nonneg (members_text l)). rewrite (po_unf p Hp). cbv zeta. change (blen [123] + 1) with 2.
    destruct (put_ok_nest 1 [123] 2 p Hp) as (p1 & -> & Hp1 & Eo1 & Ed1); [done|lia|]. cbn [mbind option_bind].
    destruct (print_members l IHl Hall p1 Hp1) as (p2 & E2 & Hp2 & Eo2 & Ed2);
      [lia|rewrite Eo1, blen_app; change (blen [123]) with 1; lia|].
    rewrite E2. cbn [mbind option_bind]. rewrite (po_unf p2 Hp2). cbn [app].
    destruct (put_ok_nest (-1) [125] 2 p2 Hp2) as (p3 & -> & Hp3 & Eo3 & Ed3);
      [done|rewrite Eo2, Eo1, !blen_app; change (blen [123]) with 1; lia|].
    exists p3. split_and!; [done|done| |lia]. by rewrite Eo3, Eo2, Eo1, <- !app_assoc.
Qed.

(** ** Reading the text back *)

Lemma ctl_cases x : 0 < x <= 31 -> In x [1;2;3;4;5;6;7;8;9;10;11;12;13;14;15;16;17;18;19;20;21;22;23;24;25;26;27;28;29;30;31].
Proof. intros Hx. cbn. lia. Qed.

(** One escape is passed over by the search of the closing quote, and decoded. *)
Lemma escape_char_read x l : 0 < x < 256 ->
  scan_end (escape_char x ++ l) = Nat.add (length (escape_char x)) <$> scan_end l /\
  (forall fuel, unescape (S fuel) (escape_char x ++ l) = cons x <$> unescape fuel l) /\
  Forall (fun b => 32 <= b < 256) (escape_char x).
Proof.
  intros Hx. destruct (decide (31 < x /\ x <> 34 /\ x <> 92)) as [(H1 & H2 & H3)|Hn].
  - assert (escape_char x = [x]) as ->.
    { unfold escape_char. rewrite (proj2 (Z.ltb_lt 31 x)), (proj2 (Z.eqb_neq x 34)), (proj2 (Z.eqb_neq x 92)) by lia. done. }
    split_and!.
    + cbn [app scan_end]. rewrite (proj2 (Z.eqb_neq x 34)), (proj2 (Z.eqb_neq x 92)) by lia. by destruct (scan_end l).
    + intros fuel. cbn [app unescape]. rewrite (proj2 (Z.eqb_neq x 92)) by lia. done.
    + rewrite Forall_cons, Forall_nil. lia.
  - assert (In x (34 :: 92 :: [1;2;3;4;5;6;7;8;9;10;11;12;13;14;15;16;17;18;19;20;21;22;23;24;25;26;27;28;29;30;31])) as Hin.
    { destruct (decide (x = 34)) as [->|]; [by left|]. destruct (decide (x = 92)) as [->|]; [by right; left|].
      right; right. apply ctl_cases. lia. }
    clear Hn Hx. cbn [In] in Hin.
    repeat (destruct Hin as [<- | Hin]; [match goal with |- context [escape_char ?k] => let e := eval vm_compute in (escape_char k) in change (escape_char k) with e end;
      split_and!; [cbn; by destruct (scan_end l)| |cbn; rewrite ?Forall_cons, Forall_nil; lia]|]).
    all: try done; intros fuel; try reflexivity.
    all: cbn [unescape app]; unfold utf16_literal_to_utf8; rewrite (proj2 (Z.ltb_ge _ 6)) by (rewrite !blen_cons; pose proof (blen_nonneg l); lia); reflexivity.
Qed.

Lemma escape_cons x s : escape (x :: s) = escape_char x ++ escape s.
Proof. done. Qed.

Lemma escape_read s l : str_ok s -> scan_end (escape s ++ 34 :: l) = Some (length (escape s)).
Proof.
  intros Hs. induction Hs as [|x s Hx _ IH]; [done|].
  rewrite escape_cons, <- app_assoc. destruct (escape_char_read x (escape s ++ 34 :: l) Hx) as (-> & _ & _).
  rewrite IH. cbn. f_equal. by rewrite length_app.
Qed.

Lemma unescape_escape s : str_ok s -> forall fuel, (length (escape s) <= fuel)%nat -> unescape fuel (escape s) = Some s.
Proof.
  intros Hs. induction Hs as [|x s Hx _ IH]; intros fuel Hf; [by destruct fuel|].
  rewrite escape_cons, length_app in *.
  assert (1 <= length (escape_char x))%nat by (unfold escape_char; repeat case_match; cbn; lia).
  destruct fuel as [|fuel]; [lia|]. destruct (escape_char_read x (escape s) Hx) as (_ & -> & _).
  rewrite IH by lia. done.
Qed.

Lemma strz_str_ok s : str_ok s -> strz s = s.
Proof.
  intros Hs. induction Hs as [|x s Hx _ IH]; [done|]. cbn. rewrite (proj2 (Z.eqb_neq x 0)) by lia. by rewrite IH.
Qed.

Section Read.
Variable c : bytes.

Lemma drop_access off x l : drop off c = x :: l -> can_access c off = true /\ at_ c off = x /\ drop (off + 1) c = l /\ (off < length c)%nat.
Proof.
  intros E. assert (c !! off = Some x) as El.
  { rewrite <- (Nat.add_0_r off), <- lookup_drop, E. done. }
  assert (off < length c)%nat as Hlt by (by apply lookup_lt_Some in El).
  split_and!; [by apply can_access_iff| | |done].
  - unfold at_. by apply nth_lookup_Some.
  - rewrite <- drop_drop, E. done.
Qed.

Lemma skip_ws_stay off x l : drop off c = x :: l -> 32 < x -> skip_ws c off = off.
Proof.
  intros E Hx. destruct (drop_access off x l E) as (Ha & _ & _ & Hlt). unfold skip_ws. rewrite Ha. cbn [negb].
  rewrite E. cbn [ws_len]. rewrite (proj2 (Z.leb_gt x 32)) by lia. rewrite Nat.add_0_r.
  by rewrite (proj2 (Nat.eqb_neq off (length c))) by lia.
Qed.

Lemma is_lit_head s off x y l s' : drop off c = x :: l -> s = y :: s' -> x <> y -> is_lit c s off = false.
Proof.
  intros E -> Hne. unfold is_lit. rewrite E. apply andb_false_iff. right. cbn [length take]. apply not_true_is_false.
  intros Hs. apply streq_true in Hs. congruence.
Qed.

Lemma is_lit_here t off x s l : t = x :: s -> drop off c = t ++ l -> is_lit c t off = true.
Proof.
  intros -> E. unfold is_lit. rewrite E, take_app_length. apply andb_true_iff. split; [|by apply streq_true].
  apply Nat.leb_le. destruct (drop_access off x (s ++ l) E) as (_ & _ & _ & Hlt).
  assert (length (drop off c) = length ((x :: s) ++ l)) as E2 by (by rewrite E). rewrite length_drop, length_app in E2. cbn in *. lia.
Qed.

Lemma drop_past off s l : drop off c = s ++ l -> drop (off + length s) c = l.
Proof. intros E. by rewrite <- drop_drop, E, drop_app_length. Qed.

Lemma read_string s off l : str_ok s -> drop off c = quoted s ++ l ->
  parse_string c off = POk (s, (off + length (quoted s))%nat).
Proof.
  intros Hs E. unfold quoted in E. cbn [app] in E. rewrite <- app_assoc in E.
  destruct (drop_access off _ _ E) as (Ha & Ex & Ed & _). unfold parse_string. rewrite Ha, Ex. cbn [negb Z.eqb Pos.eqb].
  rewrite Ed. cbn [app]. rewrite (escape_read s l Hs). cbv zeta. rewrite take_app_length, (unescape_escape s Hs) by done.
  rewrite strz_str_ok by done. f_equal. f_equal. unfold quoted. cbn [length]. rewrite length_app. cbn. lia.
Qed.

(** What follows a value inside a text: a byte that ends a number. *)
Definition stops (l : bytes) : Prop := exists x l', l = x :: l' /\ is_num_char x = false.

Lemma num_len_here t l : Forall (fun x => is_num_char x = true) t -> stops l -> num_len (t ++ l) = length t.
Proof.
  intros Ht (x & l' & -> & Hx). induction Ht as [|y t Hy _ IH]; cbn [app num_len]; [by rewrite Hx|]. by rewrite Hy, IH.
Qed.

Lemma read_number d off l : num_ok d -> drop off c = number_text d ++ l -> stops l ->
  parse_number c off = POk (d, (off + length (number_text d))%nat).
Proof.
  intros (_ & Hc & (x & t & E1 & _) & Hs) E Hl. unfold parse_number. rewrite E, num_len_here, take_app_length, Hs by done.
  cbv zeta. rewrite E1. done.
Qed.

Definition reads (j : json) : Prop := forall fuel depth off l, printable j -> drop off c = json_text j ++ l -> stops l ->
  depth + Z.of_nat (height j) <= CJSON_NESTING_LIMIT -> (length (json_text j) <= fuel)%nat ->
  parse_value c fuel depth off = POk (j, (off + length (json_text j))%nat).

Lemma text_head j : printable j -> exists x t, json_text j = x :: t /\ 32 < x < 128 /\ x <> 93.
Proof.
  intros Hp. destruct Hp as [| | |d Hd|s Hs| |]; try (do 2 eexists; split; [reflexivity|done]).
  destruct Hd as (_ & _ & (x & t & E & Hx) & _). exists x, t. cbn [json_text]. split; [done|lia].
Qed.

Lemma stops_cons x l : is_num_char x = false -> stops (x :: l).
Proof. intros Hx. by exists x, l. Qed.

(** Where one text ends and a punctuation byte follows. *)
Lemma at_punct off x l : drop off c = x :: l -> 32 < x ->
  skip_ws c off = off /\ can_access c off = true /\ at_ c off = x /\ drop (off + 1) c = l.
Proof. intros E Hx. destruct (drop_access off x l E) as (Ha & Ex & Ed & _). by rewrite (skip_ws_stay off x l). Qed.

Lemma read_elems l : Forall reads l -> Forall printable l -> l <> [] -> forall fuel depth off acc post,
  drop (off + 1) c = elems_text l ++ 93 :: post -> depth + Z.of_nat (heights l) <= CJSON_NESTING_LIMIT ->
  (S (length (elems_text l)) <= fuel)%nat ->
  elems c fuel depth off acc = POk (JArray (acc ++ l), (off + 1 + length (elems_text l) + 1)%nat).
Proof.
  induction l as [|j l IH]; intros Hr Hp Hne fuel depth off acc post E Hd Hf; [done|].
  apply Forall_cons in Hr as [Rj Rl]. apply Forall_cons in Hp as [Pj Pl]. cbn [elems_text] in *. cbn [heights foldr] in Hd.
  fold (heights l) in Hd. rewrite !length_app in Hf. destruct fuel as [|fuel]; [lia|].
  destruct (text_head j Pj) as (x & t & Ej & Hx & _).
  assert (1 <= length (json_text j))%nat by (rewrite Ej; cbn; lia).
  assert (skip_ws c (off + 1) = (off + 1)%nat) as Es.
  { eapply (skip_ws_stay _ x); [rewrite E, Ej; reflexivity|lia]. }
  cbn [elems]. rewrite Es. rewrite <- !app_assoc in E.
  destruct (is_cons l) eqn:El.
  - rewrite (Rj fuel depth (off + 1)%nat _ Pj E) by (first [apply stops_cons; done | lia]). cbn [pbind].
    pose proof (drop_past (off + 1) _ _ E) as E2. cbn [app] in E2.
    destruct (at_punct _ _ _ E2) as (-> & -> & -> & E3); [lia|]. cbn [andb Z.eqb Pos.eqb].
    rewrite (IH Rl Pl ltac:(by intros ->) fuel depth _ _ post E3) by lia. rewrite <- app_assoc, !length_app. cbn [length]. f_equal. f_equal. lia.
  - destruct l; [|done]. cbn [app elems_text] in *. rewrite (Rj fuel depth (off + 1)%nat _ Pj E) by (first [apply stops_cons; done | lia]).
    cbn [pbind]. pose proof (drop_past (off + 1) _ _ E) as E2.
    destruct (at_punct _ _ _ E2) as (-> & -> & -> & E3); [lia|]. cbn [andb Z.eqb Pos.eqb]. rewrite !app_nil_r. done.
Qed.

Lemma read_members l : Forall (fun kv => reads (snd kv)) l -> Forall (fun kv => str_ok (fst kv) /\ printable (snd kv)) l ->
  l <> [] -> forall fuel depth off acc post,
  drop (off + 1) c = members_text l ++ 125 :: post -> depth + Z.of_nat (heights (map snd l)) <= CJSON_NESTING_LIMIT ->
  (S (length (members_text l)) <= fuel)%nat ->
  members c fuel depth off acc = POk (JObject (acc ++ l), (off + 1 + length (members_text l) + 1)%nat).
Proof.
  induction l as [|[k v] l IH]; intros Hr Hp Hne fuel depth off acc post E Hd Hf; [done|].
  apply Forall_cons in Hr as [Rj Rl]. apply Forall_cons in Hp as [[Pk Pj] Pl]. cbn [fst snd] in Rj, Pk, Pj.
  cbn [members_text map snd] in *. cbn [heights foldr] in Hd. fold (heights (map snd l)) in Hd.
  rewrite !length_app in Hf. destruct fuel as [|fuel]; [lia|].
  destruct (text_head v Pj) as (x & t & Ej & Hx & _). rewrite <- !app_assoc in E.
  destruct (at_punct (off + 1) 34 (escape k ++ [34] ++ [58] ++ json_text v ++ (if is_cons l then [44] else []) ++ members_text l ++ 125 :: post))
    as (Es & Ha & _); [rewrite E; unfold quoted; cbn [app]; by rewrite <- !app_assoc|lia|].
  cbn [members]. rewrite Es, Ha. cbn [negb]. rewrite (read_string k _ _ Pk E). cbn [pbind].
  pose proof (drop_past (off + 1) _ _ E) as E2. cbn [app] in E2.
  destruct (at_punct _ _ _ E2) as (-> & -> & -> & E3); [lia|]. cbn [negb orb Z.eqb Pos.eqb].
  rewrite (skip_ws_stay _ x _ ltac:(rewrite E3, Ej; reflexivity)) by lia.
  set (o := (off + 1 + length (quoted k) + 1)%nat) in *. cbn [length] in Hf.
  destruct (is_cons l) eqn:El.
  - rewrite (Rj fuel depth o _ Pj E3) by (first [apply stops_cons; done | lia]). cbn [pbind].
    pose proof (drop_past o _ _ E3) as E4. cbn [app] in E4.
    destruct (at_punct _ _ _ E4) as (-> & -> & -> & E5); [lia|]. cbn [andb Z.eqb Pos.eqb].
    rewrite (IH Rl Pl ltac:(by intros ->) fuel depth _ _ post E5) by (cbn in Hf; lia). rewrite <- app_assoc, !length_app.
    cbn [length]. f_equal. f_equal. lia.
  - destruct l; [|done]. cbn [app members_text] in *. rewrite (Rj fuel depth o _ Pj E3) by (first [apply stops_cons; done | lia]).
    cbn [pbind]. pose proof (drop_past o _ _ E3) as E4.
    destruct (at_punct _ _ _ E4) as (-> & -> & -> & E5); [lia|]. cbn [andb Z.eqb Pos.eqb].
    rewrite !app_nil_r, !length_app. cbn [length]. f_equal. f_equal. lia.
Qed.

Lemma no_lit off x l : drop off c = x :: l -> x <> 110 -> x <> 102 -> x <> 116 ->
  is_lit c (cstr "null") off = false /\ is_lit c (cstr "false") off = false /\ is_lit c (cstr "true") off = false /\
  can_access c off = true /\ at_ c off = x.
Proof.
  intros E H1 H2 H3. destruct (drop_access off x l E) as (-> & -> & _).
  by rewrite (is_lit_head (cstr "null") off x _ l _ E eq_refl), (is_lit_head (cstr "false") off x _ l _ E eq_refl),
    (is_lit_head (cstr "true") off x _ l _ E eq_refl) by done.
Qed.

Lemma read j : reads j.
Proof.
  induction j as [| | |d|s|l IHl|l IHl] using json_nested_ind; intros fuel depth off post Hp E Hs Hd Hf;
    (destruct (text_head _ Hp) as (x & t & Et & _); destruct fuel as [|fuel]; [rewrite Et in Hf; cbn in Hf; lia|clear x t Et]);
    cbn [parse_value].
  - by rewrite (is_lit_here (cstr "null") off _ _ post eq_refl E).
  - by rewrite (is_lit_head (cstr "null") off 102 _ _ _ E eq_refl), (is_lit_here (cstr "false") off _ _ post eq_refl E).
  - by rewrite (is_lit_head (cstr "null") off 116 _ _ _ E eq_refl), (is_lit_head (cstr "false") off 116 _ _ _ E eq_refl),
      (is_lit_here (cstr "true") off _ _ post eq_refl E).
  - inversion Hp as [| | |? Hn| | |]; subst. pose proof Hn as (_ & _ & (x & t & Ex & Hx) & _). cbn [json_text] in *.
    destruct (no_lit off x (t ++ post)) as (-> & -> & -> & -> & Ea); [by rewrite E, Ex|lia..|].
    rewrite Ea, (proj2 (Z.eqb_neq x 34)) by lia. cbn [andb].
    assert ((x =? 45) || (48 <=? x) && (x <=? 57) = true) as -> by lia.
    by rewrite (read_number d off post Hn E Hs).
  - inversion Hp as [| | | |? Hn| |]; subst. cbn [json_text] in *.
    destruct (no_lit off _ _ E) as (-> & -> & -> & -> & ->); [done..|]. cbn [andb Z.eqb Pos.eqb].
    by rewrite (read_string s off post Hn E).
  - inversion Hp as [| | | | |? Hall|]; subst. rewrite json_text_array, height_array in *. rewrite <- app_comm_cons, <- app_assoc in E. cbn [app] in E.
    destruct (no_lit off _ _ E) as (-> & -> & -> & -> & ->); [done..|]. cbn [andb orb Z.eqb Z.leb Z.compare Pos.eqb Pos.compare Pos.compare_cont].
    rewrite (proj2 (Z.leb_gt _ depth)) by lia. cbv zeta.
    destruct (drop_access off _ _ E) as (_ & _ & E1 & _).
    destruct l as [|j l].
    + destruct (at_punct _ _ _ E1) as (-> & -> & -> & _); [lia|]. cbn. do 2 f_equal. lia.
    + apply Forall_cons in Hall as [Pj Pl]. destruct (text_head j Pj) as (x & t & Ej & Hx & Hx2).
      destruct (at_punct (off + 1) x (t ++ (if is_cons l then [44] else []) ++ elems_text l ++ 93 :: post)) as (-> & -> & -> & _);
        [rewrite E1; cbn [elems_text]; rewrite Ej, <- !app_assoc; done|lia|].
      rewrite (proj2 (Z.eqb_neq x 93)) by done. cbn [andb negb]. replace (off + 1 - 1)%nat with off by lia.
      cbn [length] in Hf. rewrite length_app in Hf. cbn [length] in Hf.
      rewrite (read_elems (j :: l) IHl ltac:(by constructor) ltac:(done) fuel _ off [] post E1) by lia.
      cbn [app length]. rewrite length_app. cbn [length]. f_equal. f_equal. lia.
  - inversion Hp as [| | | | | |? Hall]; subst. rewrite json_text_object, height_object in *. rewrite <- app_comm_cons, <- app_assoc in E. cbn [app] in E.
    destruct (no_lit off _ _ E) as (-> & -> & -> & -> & ->); [done..|]. cbn [andb orb Z.eqb Z.leb Z.compare Pos.eqb Pos.compare Pos.compare_cont].
    rewrite (proj2 (Z.leb_gt _ depth)) by lia. cbv zeta.
    destruct (drop_access off _ _ E) as (_ & _ & E1 & _).
    destruct l as [|[k v] l].
    + destruct (at_punct _ _ _ E1) as (-> & -> & -> & _); [lia|]. cbn. do 2 f_equal. lia.
    + destruct (drop_access _ 34 _ E1) as (Ha & Ex & _).
      rewrite (skip_ws_stay _ 34 _ E1), Ha, Ex by lia. cbn [andb negb Z.eqb Pos.eqb]. replace (off + 1 - 1)%nat with off by lia.
      cbn [length] in Hf. rewrite length_app in Hf. cbn [length] in Hf.
      rewrite (read_members ((k, v) :: l) IHl Hall ltac:(done) fuel _ off [] post E1) by lia.
      cbn [app length]. rewrite length_app. cbn [length]. f_equal. f_equal. lia.
Qed.
End Read.

Lemma text_bytes j : printable j -> Forall (fun b => 32 <= b < 256) (json_text j).
Proof.
  assert (forall s, str_ok s -> Forall (fun b => 32 <= b < 256) (quoted s)) as Hq.
  { intros s Hs. constructor; [lia|]. apply Forall_app_2; [|by repeat constructor].
    induction Hs as [|x s Hx _ IH]; [constructor|]. rewrite escape_cons.
    apply Forall_app_2; [by apply (escape_char_read x [] Hx)|done]. }
  assert (forall b : bool, Forall (fun b => 32 <= b < 256) (if b then [44] else [])) as Hc by (intros []; repeat constructor; lia).
  induction j as [| | |d|s|l IHl|l IHl] using json_nested_ind; intros Hp; try (cbn; repeat constructor; lia).
  - inversion Hp as [| | |? (_ & Hn & _)| | |]; subst. eapply Forall_impl; [exact Hn|]. intros x Hx. cbn in Hx. unfold is_num_char in Hx. lia.
  - inversion Hp as [| | | |? Hn| |]; subst. by apply Hq.
  - inversion Hp as [| | | | |? Hall|]; subst. rewrite json_text_array. constructor; [lia|]. apply Forall_app_2; [|by repeat constructor].
    clear Hp. induction l as [|j l IH]; [constructor|]. apply Forall_cons in IHl as [Rj Rl]. apply Forall_cons in Hall as [Pj Pl].
    cbn [elems_text]. repeat apply Forall_app_2; auto.
  - inversion Hp as [| | | | | |? Hall]; subst. rewrite json_text_object. constructor; [lia|]. apply Forall_app_2; [|by repeat constructor].
    clear Hp. induction l as [|[k v] l IH]; [constructor|]. apply Forall_cons in IHl as [Rj Rl]. apply Forall_cons in Hall as [[Pk Pj] Pl].
    cbn [members_text]. repeat apply Forall_app_2; auto. repeat constructor; lia.
Qed.

(** A printed value, sent as a line, cannot be cut short by a byte of its own. *)
Lemma text_line j : printable j -> strz (json_text j) = json_text j /\ Forall (fun b => b <> 10) (json_text j).
Proof.
  intros Hp. pose proof (text_bytes j Hp) as Hb. split.
  - apply strz_str_ok. eapply Forall_impl; [exact Hb|]. cbn. lia.
  - eapply Forall_impl; [exact Hb|]. cbn. lia.
Qed.

Lemma print_text j : printable j -> Z.of_nat (height j) <= CJSON_NESTING_LIMIT -> blen (json_text j) + 4 <= INT_MAX ->
  cJSON_PrintUnformatted j = Some (json_text j).
Proof.
  intros Hp Hh Hl. unfold cJSON_PrintUnformatted, print.
  destruct (printed j (PB [] 256 0 false)) as (p & -> & _ & Eo & _); [by split|done|cbn; lia|cbn [pb_out]; rewrite blen_nil; lia|].
  cbn. by rewrite Eo.
Qed.

Lemma parse_text j : printable j -> Z.of_nat (height j) <= CJSON_NESTING_LIMIT -> cJSON_Parse (json_text j) = POk j.
Proof.
  intros Hp Hh. unfold cJSON_Parse, cJSON_ParseWithLengthOpts. rewrite (proj1 (text_line j Hp)).
  destruct (text_head j Hp) as (x & t & Et & Hx & _). set (c := json_text j ++ [0]).
  assert (length c = S (length (json_text j))) as El by (unfold c; rewrite length_app; cbn; lia).
  rewrite (proj2 (Nat.eqb_neq _ 0)) by lia.
  assert (skip_utf8_bom c = 0%nat) as ->.
  { unfold skip_utf8_bom. rewrite (proj2 (streq_false _ _)), andb_false_r; [done|].
    unfold c. rewrite Et. cbn [app take]. intros [=]. lia. }
  rewrite (skip_ws_stay c 0 x (t ++ [0])) by (first [by unfold c; rewrite Et | lia]).
  rewrite (read c j _ 0 0%nat [0]); [done|done|done|by apply stops_cons|done|lia].
Qed.

(** C30: values survive the wire.  A value whose strings are C strings, whose numbers the C
    library prints and reads back, and which nests at most [CJSON_NESTING_LIMIT] deep, is
    printed by [cJSON_PrintUnformatted]; the text holds no control byte, so it is one
    line of the control socket and one C string; and [cJSON_Parse] of the text is that
    value again, members in their order. *)
Theorem json_roundtrip j : printable j -> Z.of_nat (height j) <= CJSON_NESTING_LIMIT -> blen (json_text j) + 4 <= INT_MAX ->
  exists text, cJSON_PrintUnformatted j = Some text /\ Forall (fun b => 32 <= b < 256) text /\ cJSON_Parse text = POk j.
Proof.
  intros Hp Hh Hl. exists (json_text j). split_and!; [by apply print_text|by apply text_bytes|by apply parse_text].
Qed.

(** ** What is parsed

    The strings of a parsed value are C strings: a NUL of an escape ends them. *)

Lemma strz_ok s : bytes_ok s -> str_ok (strz s).
Proof.
  unfold bytes_ok, str_ok, byte_ok, in_width. induction 1 as [|x l Hx _ IH]; cbn; [constructor|].
  destruct (x =? 0) eqn:E; zb; [constructor|]. constructor; [lia|done].
Qed.

Lemma utf8_bytes cp o : utf8_encode cp = Some o -> bytes_ok o.
Proof.
  assert (forall x, byte_ok (u8 x)) as Hu by (intros x; apply wrap_range; lia).
  assert (byte_ok (Z.land cp 127)) as Hl.
  { change 127 with (Z.ones 7). rewrite Z.land_ones by lia. pose proof (Z.mod_pos_bound cp (2 ^ 7)). unfold byte_ok, in_width. lia. }
  unfold utf8_encode, bytes_ok. repeat case_match; try done; intros [= <-]; repeat constructor; auto; apply Hu || apply Hl.
Qed.

Lemma unescape_bytes fuel : forall l o, bytes_ok l -> unescape fuel l = Some o -> bytes_ok o.
Proof.
  induction fuel as [|fuel IH]; intros l o Hl.
  { cbn. destruct l; [|done]. intros [= <-]. constructor. }
  destruct l as [|x l]; cbn [unescape]; [intros [= <-]; constructor|].
  pose proof (Forall_cons_1 _ _ _ Hl) as [Hx Hl'].
  assert (forall y k, byte_ok y -> bytes_ok k -> (fun o => y :: o) <$> unescape fuel k = Some o -> bytes_ok o) as Hcons.
  { intros y k Hy Hk E. apply fmap_Some in E as (o' & E & ->). constructor; [done|by apply (IH k)]. }
  destruct (negb _); [by apply Hcons|]. cbv zeta. set (e := match l with [] => 34 | e :: _ => e end).
  assert (byte_ok e) as He by (destruct l as [|y l]; [done|by apply Forall_cons_1 in Hl' as []]).
  assert (bytes_ok (drop 1 l)) as Hd by (by apply Forall_drop).
  repeat match goal with |- (if ?c then _ else _) = _ -> _ => destruct c; [by apply Hcons|] end.
  destruct (e =? 117); [|done]. destruct (utf16_literal_to_utf8 (x :: l)) as [[u n]|] eqn:Eu; [|done].
  cbn [mbind option_bind]. intros E. apply fmap_Some in E as (o' & E & ->). apply bytes_ok_app.
  - revert Eu. unfold utf16_literal_to_utf8. repeat case_match; try done;
      intros E'; apply bind_Some in E' as (v & Ev & [= <- <-]); by apply utf8_bytes in Ev.
  - apply (IH (drop n (x :: l))); [by apply Forall_drop|done].
Qed.

(** The string itself, and those that are members of an object. *)
Definition text_ok (j : json) : Prop := match j with JString s => str_ok s | _ => True end.
Definition texts_ok (j : json) : Prop :=
  text_ok j /\ match j with JObject l => Forall (fun kv => text_ok (snd kv)) l | _ => True end.

Lemma parse_texts c : bytes_ok c -> forall fuel depth off j off',
  (parse_value c fuel depth off = POk (j, off') -> texts_ok j) /\
  (forall acc, elems c fuel depth off acc = POk (j, off') -> texts_ok j) /\
  (forall acc, Forall (fun kv => text_ok (snd kv)) acc -> members c fuel depth off acc = POk (j, off') -> texts_ok j).
Proof.
  intros Hc. induction fuel as [|fuel IH]; intros depth off j off'; [done|]. split_and!.
  - cbn [parse_value]. repeat match goal with |- (if ?b then _ else _) = _ -> _ => destruct b end; try done;
      try (by intros [= <- _]); cbv zeta; repeat match goal with |- (if ?b then _ else _) = _ -> _ => destruct b end; try done;
      try (by intros [= <- _]).
    + unfold parse_string. destruct (negb _); [done|]. destruct (negb _); [done|]. destruct (scan_end _) as [n|]; [|done]. cbv zeta.
      destruct (unescape _ _) as [o|] eqn:Eu; [|done]. cbn [pbind]. intros [= <- _]. split; [|done]. apply strz_ok.
      eapply unescape_bytes; [|exact Eu]. by apply Forall_take, Forall_drop.
    + destruct (parse_number c off) as [[d o]| | |]; try done. by intros [= <- _].
    + apply IH.
    + apply IH. constructor.
  - intros acc. cbn [elems]. destruct (parse_value c fuel depth _) as [[v o]| | |]; try done. cbn [pbind]. cbv zeta.
    destruct (_ && _); [apply IH|]. destruct (_ && _); [|done]. by intros [= <- _].
  - intros acc Ha. cbn [members]. destruct (negb _); [done|]. destruct (parse_string c _) as [[k o]| | |]; try done. cbn [pbind]. cbv zeta.
    destruct (_ || _); [done|]. destruct (parse_value c fuel depth _) as [[v o']| | |] eqn:Ev; try done. cbn [pbind].
    assert (Forall (fun kv => text_ok (snd kv)) (acc ++ [(k, v)])) as Ha'.
    { apply Forall_app_2; [done|]. constructor; [|constructor]. cbn. by apply (IH _ _ _ _) in Ev as [? _]. }
    destruct (_ && _); [by apply IH|]. destruct (_ && _); [|done]. intros [= <- _]. by split.
Qed.

Lemma parsed_texts s j : bytes_ok s -> cJSON_Parse s = POk j -> texts_ok j.
Proof.
  intros Hs. unfold cJSON_Parse, cJSON_ParseWithLengthOpts. set (c := strz s ++ [0]).
  assert (bytes_ok c) as Hc.
  { apply bytes_ok_app; [|by repeat constructor]. eapply Forall_impl; [by apply strz_ok|]. unfold byte_ok, in_width. cbn. lia. }
  clearbody c. destruct (length c =? 0)%nat; [done|]. destruct (parse_value c _ _ _) as [[v o]| | |] eqn:Ev; try done.
  intros [= <-]. by apply (parse_texts c Hc) in Ev.
Qed.

End Json.
Arguments POk {A} a.
Arguments PFail {A}.
Arguments POver {A}.
Arguments PFuel {A}.

(** A small [double], the integers, to run the definitions on. *)
Module JsonSample.
Fixpoint read_digits (l : bytes) (acc : Z) (n : nat) : Z * nat :=
  match l with
  | x :: l' => if (48 <=? x) && (x <=? 57) then read_digits l' (acc * 10 + (x - 48)) (S n) else (acc, n)
  | [] => (acc, n)
  end.
Definition read_int (l : bytes) : Z * nat :=
  match l with
  | 45 :: l' => let '(v, n) := read_digits l' 0 0 in if (n =? 0)%nat then (0, 0%nat) else (- v, S n)
  | _ => read_digits l 0 0
  end.
#[local] Instance int_double : CDouble := {|
  double := Z; dbl_of_Z n := n; dbl_to_Z d := d; dbl_to_uint w d := d mod 2 ^ w; dbl_finite _ := true; dbl_eqb := Z.eqb; dbl_leb := Z.leb; dbl_close := Z.eqb;
  strtod := read_int; sprintf_g _ d := digits 20 d []; sscanf_lg l := Some (fst (read_int l)) |}.

Definition sample : json := JObject [(cstr "op", JString (cstr "create_tunnel")); (cstr "port", JNumber (-40100));
  (cstr "tags", JArray [JTrue; JNull; JString [9; 34; 200; 1]; JArray []]); (cstr "none", JObject [])].

Lemma sample_printable : printable sample.
Proof.
  assert (forall s, bool_decide (Forall (fun c => 0 < c < 256) s) = true -> str_ok s) as Hs by (intros s Hs; by apply bool_decide_eq_true in Hs).
  assert (num_ok (-40100)) as Hn.
  { split; [by vm_compute|]. split; [by repeat constructor|]. split; [by eexists _, _; split; [reflexivity|left]|done]. }
  repeat match goal with
  | |- printable _ => constructor
  | |- Forall _ _ => constructor
  | |- _ /\ _ => split
  | |- str_ok _ => by apply Hs
  | |- num_ok _ => exact Hn
  end.
Qed.

Lemma json_roundtrip_witness : exists text, cJSON_PrintUnformatted sample = Some text /\ cJSON_Parse text = POk sample.
Proof.
  destruct (json_roundtrip sample sample_printable) as (text & H1 & _ & H2); [by vm_compute|by vm_compute|].
  by exists text.
Defined.
End JsonSample.
