(* ===== verification/Ipc.v ===== *)
(** * The administration socket

    src/broker/src/ipc.c and metrics.c: requests are JSON objects, one per line, on a
    unix socket; each is answered by one line.  A connection has room for one answer
    in flight.  Random bytes and the outcome of opening a socket are functions of how
    often they were asked for; the pipe itself is libuv's. *)

From S2P Require Import Prelude.
From S2P Require Import Wire.
From S2P Require Import Text.
From S2P Require Import Config.
From S2P Require Import Io.
From S2P Require Import Json.
From S2P Require Import Relay.
From S2P Require Import Registry.
From S2P Require Import Udp.
From S2P Require Import Broker.
From S2P Require Import Control.
Import Crypto.

#[local] Arguments Z.of_nat : simpl never.

Section Ipc.
Context {io : Type} `{TmIo io} `{OpenSSL} `{DTLS} `{CDouble}.
Abbreviation broker := (@broker io _).

Variable clock : nat -> Z.
(** What [RAND_bytes] gives, and how far opening a socket gets. *)
Variable rand : nat -> option bytes.
Variable bind : nat -> Listener.bind_result.

(** [data] is the answer in flight; [sent] all answers given to [uv_write] and
    [ifault] a NULL text passed on, neither of which is in the code. *)
Record tm_ipc_conn := IpcConn {
  writing : bool;
  close_pending : bool;
  handle_closing : bool;
  rbuf : bytes;
  isent : list bytes;
  ifault : bool;
}.
#[global] Instance eta_ipc_conn : Eta tm_ipc_conn :=
  settable! IpcConn <writing; close_pending; handle_closing; rbuf; isent; ifault>.

Definition RBUF_SIZE : Z := 16384.

(** ** The connection *)

Definition ipc_conn_close_handle (pc : tm_ipc_conn) : tm_ipc_conn :=
  if handle_closing pc then pc else pc <| handle_closing := true |>.

Definition ipc_conn_close (pc : tm_ipc_conn) : tm_ipc_conn :=
  if handle_closing pc || close_pending pc then pc
  else if writing pc then pc <| close_pending := true |>
  else ipc_conn_close_handle pc.

Definition ipc_write_done (pc : tm_ipc_conn) : tm_ipc_conn :=
  let pc := pc <| writing := false |> in
  if close_pending pc then ipc_conn_close_handle pc else pc.

(** [json] is the printed answer, [None] for NULL. *)
Definition ipc_send (json : option bytes) (pc : tm_ipc_conn) : tm_ipc_conn :=
  if writing pc || close_pending pc || handle_closing pc then pc
  else match json with
  | None => pc <| ifault := true |>
  | Some s => pc <| isent ::= fun l => l ++ [strz s ++ [10]] |> <| writing := true |>
  end.

(** ** Answers *)

(** The members of [extra] move to the answer one by one: what is left of [extra], and
    the members of the answer. *)
Fixpoint move_items (its extra o : list (bytes * json)) : list (bytes * json) * list (bytes * json) :=
  match its with
  | [] => (extra, o)
  | (k, v) :: its' =>
      let extra := match detach k extra with Some (_, e) => e | None => extra end in
      move_items its' extra (o ++ [(k, v)])
  end.

Definition ok_answer (extra : option json) : json :=
  let o := [(cstr "status", JString (cstr "ok"))] in
  JObject (match extra with
           | Some (JObject l) => snd (move_items l l o)
           | _ => o
           end).
Definition err_answer (msg : bytes) : json :=
  cJSON_AddStringToObject (cstr "error") msg (cJSON_AddStringToObject (cstr "status") (cstr "error") (JObject [])).

Definition reply_ok (extra : option json) (pc : tm_ipc_conn) : tm_ipc_conn :=
  ipc_send (cJSON_PrintUnformatted (ok_answer extra)) pc.
Definition reply_err (msg : bytes) (pc : tm_ipc_conn) : tm_ipc_conn :=
  ipc_send (cJSON_PrintUnformatted (err_answer msg)) pc.

(** How a request ends. *)
Inductive answer := AOk (extra : option json) | AErr (msg : bytes).
Definition reply (a : answer) (pc : tm_ipc_conn) : tm_ipc_conn :=
  match a with AOk x => reply_ok x pc | AErr msg => reply_err msg pc end.

(** ** metrics.c *)

Definition proto_name (p : tm_proto) : bytes := match p with TM_PROTO_TCP => cstr "tcp" | TM_PROTO_UDP => cstr "udp" end.
Definition num (name : string) (n : Z) (o : json) : json := cJSON_AddNumberToObject (cstr name) n o.

Definition tunnel_json (t : tm_tunnel) : json :=
  let s := st_stats (t_udp t) in
  let o := cJSON_AddStringToObject (cstr "id") (t_id t) (JObject []) in
  let o := cJSON_AddStringToObject (cstr "proto") (proto_name (t_proto t)) o in
  let o := cJSON_AddBoolToObject (cstr "closed") (t_closed t) o in
  let o := cJSON_AddBoolToObject (cstr "enabled") (t_enabled t) o in
  let o := num "public_port" (public_port t) o in
  let o := cJSON_AddBoolToObject (cstr "agent_online") (agent_online t) o in
  let o := num "streams_active" (t_streams_active t) o in
  let o := num "streams_total" (t_streams_total t) o in
  let o := num "rx_bytes" (rx_bytes t) o in
  let o := num "tx_bytes" (tx_bytes t) o in
  let o := num "datagrams_rx" (datagrams_rx s) o in
  let o := num "datagrams_tx" (datagrams_tx s) o in
  let o := num "udp_bytes_rx" (udp_bytes_rx s) o in
  let o := num "udp_bytes_tx" (udp_bytes_tx s) o in
  let o := num "last_seen_ms" (last_seen_ms t) o in
  let o := num "expires_at_ms" 0 o in
  num "conns_rejected_offline" (conns_rejected_offline t) o.

Definition now_json (uptime : Z) (b : broker) : json :=
  let u := b_udp_totals b in
  let o := num "uptime_ms" uptime (JObject []) in
  let o := num "stream_count" (b_stream_count b) o in
  let o := num "streams_total" (b_streams_total b) o in
  let o := num "flows_total" (flows_total u) o in
  let o := num "tunnel_count" (tunnel_count b) o in
  let o := num "ports_used" (Ports.ports_used (b_ports b)) o in
  let o := num "rx_bytes_total" (b_rx_bytes_total b) o in
  let o := num "tx_bytes_total" (b_tx_bytes_total b) o in
  let o := num "datagrams_rx_total" (datagrams_rx u) o in
  let o := num "datagrams_tx_total" (datagrams_tx u) o in
  let o := num "udp_bytes_rx" (udp_bytes_rx u) o in
  let o := num "udp_bytes_tx" (udp_bytes_tx u) o in
  let o := num "failed_auths" (b_failed_auths b) o in
  let o := num "protocol_errors" (b_protocol_errors b) o in
  let o := num "agent_reconnects" (agent_reconnects b) o in
  let o := num "conns_total" (conns_total b) o in
  let o := num "conns_rate_limited" (Rate.conns_rate_limited (b_limiter b)) o in
  let o := num "udp_dropped_queue_full" (udp_dropped_queue_full u) o in
  let o := num "udp_dropped_oversize" (udp_dropped_oversize u) o in
  let o := num "udp_dropped_rate_limit" (udp_dropped_rate_limit u) o in
  let o := num "udp_dropped_no_flow" (udp_dropped_no_flow u) o in
  let o := num "udp_flow_expired" (udp_flow_expired u) o in
  let o := num "udp_transport_errors" (udp_transport_errors u) o in
  num "stream_errors" (b_stream_errors b) o.

(** The tunnels of the list; the records are there in every consistent broker. *)
Definition listed (b : broker) : list tm_tunnel := omap (fun ta => tuns b !! ta) (tunnels b).

Definition tm_metrics_json (include_tunnels : bool) (b : broker) : option bytes * broker :=
  let '(now, b) := now_ms clock b in
  let o := cJSON_AddItemToObject (cstr "now") (now_json (u64 (now - b_start_ms b)) b) (JObject []) in
  let o := if include_tunnels
           then cJSON_AddItemToObject (cstr "tunnels")
                  (fold_left (fun arr t => cJSON_AddItemToArray (tunnel_json t) arr) (listed b) (JArray [])) o
           else o in
  (cJSON_PrintUnformatted o, b).

(** ** Requests *)

Definition item (req : json) (name : string) : option json := cJSON_GetObjectItemCaseSensitive req (cstr name).
Definition str_item (req : json) (name : string) : option bytes := cJSON_IsString (item req name).

Definition draw (b : broker) : nat * broker := (b_draws b, b <| b_draws ::= S |>).

(** A secret given in the request (truncated to its array), or a fresh token. *)
Definition given_or_random (given : option bytes) (b : broker) : bytes * broker :=
  match given with
  | Some (c :: s) => (str_trunc (TM_MAX_SECRET + 1) (c :: s), b)
  | _ => let '(i, b) := draw b in (tm_rand_token (rand i) 48, b)
  end.

(** The digest to store and the plaintext to give back: a digest given in the request
    is stored as it is, and no plaintext is known for it. *)
Definition stored_digest (given_hmac : option bytes) (secret : bytes) (b : broker) : bytes * bytes :=
  match given_hmac with
  | Some h => if blen h =? 64 then (h, []) else (secret_digest (b_hmac_key b) secret, secret)
  | None => (secret_digest (b_hmac_key b) secret, secret)
  end.

Definition opt_str (name : string) (s : bytes) (o : json) : json :=
  if bool_decide (s = []) then o else cJSON_AddStringToObject (cstr name) s o.

Definition created_answer (id : bytes) (port : Z) (secret hmac token token_hmac : bytes) : json :=
  let x := cJSON_AddStringToObject (cstr "tunnel_id") id (JObject []) in
  let x := num "public_port" port x in
  let x := opt_str "agent_secret" secret x in
  let x := cJSON_AddStringToObject (cstr "agent_secret_hmac") hmac x in
  let x := opt_str "shared_token" token x in
  opt_str "shared_token_hmac" token_hmac x.

(** The digest of the shared token: given, derived from the token, or none. *)
Definition token_digest (given_hmac : option bytes) (token : bytes) (b : broker) : bytes * bytes :=
  match given_hmac with
  | Some h => if blen h =? 64 then (h, [])
              else if bool_decide (token = []) then ([], []) else (secret_digest (b_hmac_key b) token, token)
  | None => if bool_decide (token = []) then ([], []) else (secret_digest (b_hmac_key b) token, token)
  end.

(** With the id and the protocol of the request. *)
Definition create_as (id proto_name : bytes) (req : json) (b : broker) : answer * broker :=
  if (blen id =? 0) || (TM_TUNNEL_ID_LEN <? blen id) then (AErr (cstr "bad tunnel_id length"), b)
  else
    let proto := if streq proto_name (cstr "udp") then TM_PROTO_UDP else TM_PROTO_TCP in
    let closed := cJSON_IsTrue (item req "closed") in
    if bool_decide (is_Some (tm_tunnel_find b id)) then (AErr (cstr "tunnel already exists"), b)
    else
      let '(secret, b) := given_or_random (str_item req "agent_secret") b in
      let '(token, b) := if closed then given_or_random (str_item req "shared_token") b else ([], b) in
      let '(agent_hmac, secret) := stored_digest (str_item req "agent_secret_hmac") secret b in
      let '(token_hmac, token) := token_digest (str_item req "shared_token_hmac") token b in
      let prefer := match cJSON_IsNumber (item req "prefer_port") with Some d => dbl_to_uint 16 d | None => 0 end in
      let '(i, b) := draw b in
      match tm_tunnel_create clock id proto closed agent_hmac (Some token_hmac) prefer (bind i) b with
      | (None, b) => (AErr (cstr "create failed"), b)
      | (Some ta, b) =>
          match tuns b !! ta with
          | Some t => (AOk (Some (created_answer (t_id t) (public_port t) secret agent_hmac token token_hmac)), b)
          | None => (AErr [], faulty b)
          end
      end.

Definition op_create (req : json) (b : broker) : answer * broker :=
  match str_item req "tunnel_id", str_item req "proto" with
  | Some id, Some p => create_as id p req b
  | _, _ => (AErr (cstr "tunnel_id and proto required"), b)
  end.

(** The tunnel a request names. *)
Definition with_named (req : json) (b : broker) (k : bytes -> Z -> answer * broker) : answer * broker :=
  match str_item req "tunnel_id" with
  | None => (AErr (cstr "tunnel_id required"), b)
  | Some id => match tm_tunnel_find b id with
               | None => (AErr (cstr "tunnel not found"), b)
               | Some ta => k id ta
               end
  end.

Definition op_delete (req : json) (b : broker) : answer * broker :=
  with_named req b (fun id _ =>
  let '(ok, b) := tm_tunnel_delete id b in
  (if ok then AOk None else AErr (cstr "tunnel not found"), b)).

Definition is_enabled (ta : Z) (b : broker) : bool :=
  match tuns b !! ta with Some t => t_enabled t | None => false end.

Definition disable_tunnel (ta : Z) (b : broker) : broker :=
  let b := upd_tun ta (fun t => t <| t_enabled := false |>) b in
  let b := with_tun ta b (fun t => match t_agent t with Some a => tm_agent_drop a b | None => b end) in
  let b := upd_tun ta (fun t => t <| t_udp ::= fun u => u <| usock ::= Listener.tm_tunnel_listener_stop |> |>) b in
  upd_udp ta (fun t => t <| t_udp ::= tm_udp_stop |>) b.

Definition op_disable (req : json) (b : broker) : answer * broker :=
  with_named req b (fun _ ta =>
  if negb (is_enabled ta b) then (AErr (cstr "already disabled"), b)
  else (AOk None, disable_tunnel ta b)).

Definition enable_tunnel (ta : Z) (b : broker) : broker :=
  let '(i, b) := draw b in
  upd_tun ta (fun t => start_socket (bind i) (t <| t_enabled := true |>)) b.

Definition op_enable (req : json) (b : broker) : answer * broker :=
  with_named req b (fun _ ta =>
  if is_enabled ta b then (AErr (cstr "already enabled"), b)
  else (AOk None, enable_tunnel ta b)).

Definition rotate_agent (ta : Z) (hex : bytes) (b : broker) : broker :=
  let b := upd_tun ta (fun t => t <| t_agent_hmac := hex |>) b in
  with_tun ta b (fun t => match t_agent t with Some a => tm_agent_drop a b | None => b end).
Definition rotate_token (ta : Z) (hex : bytes) (b : broker) : broker :=
  upd_tun ta (fun t => t <| t_token_hmac := hex |>) b.

Definition op_rotate (agent : bool) (req : json) (b : broker) : answer * broker :=
  with_named req b (fun _ ta =>
  let '(secret, b) := given_or_random (str_item req "secret") b in
  let hex := secret_digest (b_hmac_key b) secret in
  let b := if agent then rotate_agent ta hex b else rotate_token ta hex b in
  let x := cJSON_AddStringToObject (cstr "secret") secret (JObject []) in
  (AOk (Some (cJSON_AddStringToObject (cstr "secret_hmac") hex x)), b)).

Definition op_kill (req : json) (b : broker) : answer * broker :=
  match str_item req "tunnel_id", cJSON_IsNumber (item req "stream_id") with
  | Some id, Some d =>
      match named_tunnel b id with
      | None => (AErr (cstr "tunnel not found"), b)
      | Some (ta, t) =>
          match stream_find b t (dbl_to_uint 32 d) with
          | None => (AErr (cstr "stream not found"), b)
          | Some sa => (AOk None, tm_stream_close_at sa b)
          end
      end
  | _, _ => (AErr (cstr "tunnel_id and stream_id required"), b)
  end.

(** [cJSON_Parse] of NULL is NULL, and so is a refused text. *)
Definition op_status (include_tunnels : bool) (b : broker) : answer * broker :=
  let '(s, b) := tm_metrics_json include_tunnels b in
  (AOk (match s with
        | Some s => match cJSON_Parse s with POk x => Some x | _ => None end
        | None => None
        end), b).

Definition ipc_op (op : bytes) (req : json) (b : broker) : answer * broker :=
  if streq op (cstr "health") then (AOk (Some (cJSON_AddStringToObject (cstr "status") (cstr "ok") (JObject []))), b)
  else if streq op (cstr "get_status") then op_status false b
  else if streq op (cstr "get_tunnels") then op_status true b
  else if streq op (cstr "create_tunnel") then op_create req b
  else if streq op (cstr "delete_tunnel") then op_delete req b
  else if streq op (cstr "disable_tunnel") then op_disable req b
  else if streq op (cstr "enable_tunnel") then op_enable req b
  else if streq op (cstr "rotate_agent_secret") then op_rotate true req b
  else if streq op (cstr "rotate_shared_token") then op_rotate false req b
  else if streq op (cstr "kill_stream") then op_kill req b
  else if streq op (cstr "reload") then (AOk None, b)
  else (AErr (cstr "unknown op"), b).

Definition ipc_request (req : json) (b : broker) : answer * broker :=
  match str_item req "op" with
  | None => (AErr (cstr "missing op"), b)
  | Some op => ipc_op op req b
  end.

Definition ipc_handle_op (req : json) (pc : tm_ipc_conn) (b : broker) : tm_ipc_conn * broker :=
  let '(a, b) := ipc_request req b in (reply a pc, b).

(** ** Lines *)

(** The bytes in front of the first newline and those behind it. *)
Fixpoint split_line (l : bytes) : option (bytes * bytes) :=
  match l with
  | [] => None
  | c :: l' => if c =? 10 then Some ([], l')
               else '(line, rest) ← split_line l'; Some (c :: line, rest)
  end.

Definition ipc_line (line : bytes) (pc : tm_ipc_conn) (b : broker) : tm_ipc_conn * broker :=
  match cJSON_Parse line with
  | POk req => ipc_handle_op req pc b
  | _ => (reply_err (cstr "bad json") pc, b)
  end.

(** The loop over complete lines; each round consumes a newline. *)
Fixpoint ipc_lines (fuel : nat) (buf : bytes) (pc : tm_ipc_conn) (b : broker) : tm_ipc_conn * broker :=
  match fuel with
  | O => (pc <| rbuf := buf |>, b)
  | S fuel' => match split_line buf with
               | None => (pc <| rbuf := buf |>, b)
               | Some (line, rest) => let '(pc, b) := ipc_line line pc b in ipc_lines fuel' rest pc b
               end
  end.

(** [None]: the peer closed or the read failed. *)
Definition ipc_conn_read (data : option bytes) (pc : tm_ipc_conn) (b : broker) : tm_ipc_conn * broker :=
  match data with
  | None => (ipc_conn_close pc, b)
  | Some [] => (pc, b)
  | Some data =>
      if RBUF_SIZE - 1 <? blen (rbuf pc) + blen data then (ipc_conn_close pc, b)
      else let buf := rbuf pc ++ data in ipc_lines (length buf) buf (pc <| rbuf := buf |>) b
  end.

Definition ipc_on_conn : tm_ipc_conn := IpcConn false false false [] [] false.

(** ** Answers carry every member over *)

Lemma case_insensitive_eq_refl k : case_insensitive_eq k k = true.
Proof. by apply streq_true. Qed.

(** Detaching by name takes the member the loop stands at, and nothing is left behind. *)
Lemma move_items_all l o : move_items l l o = ([], o ++ l).
Proof.
  revert o. induction l as [|[k v] l IH]; intros o; cbn [move_items detach]; [by rewrite app_nil_r|].
  rewrite case_insensitive_eq_refl, IH, <- app_assoc. done.
Qed.

Definition members_of (j : json) : list (bytes * json) := match j with JObject l => l | _ => [] end.

Lemma ok_answer_members extra :
  ok_answer extra = JObject ((cstr "status", JString (cstr "ok")) :: match extra with Some x => members_of x | None => [] end).
Proof. destruct extra as [[]|]; try done. unfold ok_answer. by rewrite move_items_all. Qed.

(** ** The registry stays consistent *)

Lemma binv_put_tun ta t t' (b : broker) : tuns b !! ta = Some t -> t_frame t' = t_frame t -> Broker.deleting t' = Broker.deleting t ->
  binv b -> binv (put_tun ta t' b).
Proof.
  intros Et Ef Ed [Hr G]. split; [by apply reg_put with t|].
  intros k u. change (tuns (put_tun ta t' b)) with (<[ta := t']> (tuns b)). change (tunnels (put_tun ta t' b)) with (tunnels b).
  upd_case k ta; [|apply G]. intros [= <-] Hd. rewrite Ed in Hd. unfold t_frame in Ef. injection Ef as _ _ _ _ -> _ -> _.
  by apply (G ta t).
Qed.

Lemma binv_eq (b b' : broker) : core b' = core b -> (conns b', b_hmac_key b') = (conns b, b_hmac_key b) -> binv b -> binv b'.
Proof.
  intros E E2 Hb. apply (binv_tame b); [|by apply (reg_core b), Hb|done].
  injection E as E1 E3 _ _ E5 _ _ _ _. injection E2 as E6 E7. apply tame_eq. congruence.
Qed.

Lemma binv_upd_tun ta g (b : broker) : (forall t, t_frame (g t) = t_frame t /\ Broker.deleting (g t) = Broker.deleting t) ->
  binv b -> binv (upd_tun ta g b).
Proof.
  intros Hg Hb. unfold upd_tun, with_tun. destruct (tuns b !! ta) as [t|] eqn:Et; [|by apply (binv_eq b)].
  by apply binv_put_tun with t; [done|apply Hg|apply Hg|].
Qed.

Lemma binv_upd_udp ta g (b : broker) : (forall t, t_frame (g t) = t_frame t /\ Broker.deleting (g t) = Broker.deleting t) ->
  binv b -> binv (upd_udp ta g b).
Proof.
  intros Hg Hb. unfold upd_udp, with_tun. destruct (tuns b !! ta) as [t|] eqn:Et; [|by apply (binv_eq b)].
  apply (binv_eq (put_tun ta (g t) b)); [done|done|]. by apply binv_put_tun with t; [done|apply Hg|apply Hg|].
Qed.

Lemma binv_drop_agent ta (b : broker) : binv b ->
  binv (with_tun ta b (fun t => match t_agent t with Some a => tm_agent_drop a b | None => b end)).
Proof.
  intros Hb. unfold with_tun. destruct (tuns b !! ta) as [t|]; [|by apply (binv_eq b)].
  destruct (t_agent t) as [a|]; [|done]. by apply (binv_tame b); [apply tame_agent_drop|apply reg_agent_drop, Hb|].
Qed.

Lemma deleting_listener_stop k : Listener.deleting (Listener.tm_tunnel_listener_stop k) = Listener.deleting k.
Proof. unfold Listener.tm_tunnel_listener_stop, Listener.uv_close. cbn. by case_match. Qed.
Lemma deleting_udp_stop u : Listener.deleting (usock (tm_udp_stop u)) = Listener.deleting (usock u).
Proof. rewrite usock_udp_stop. unfold Listener.udp_sock_stop, Listener.uv_close. cbn. by case_match. Qed.

Lemma binv_disable ta (b : broker) : binv b -> binv (disable_tunnel ta b).
Proof.
  intros Hb. unfold disable_tunnel. cbv zeta. apply binv_upd_udp; [intros t; split; [done|apply deleting_udp_stop]|].
  apply binv_upd_tun; [intros t; split; [done|apply deleting_listener_stop]|]. apply binv_drop_agent, binv_upd_tun; [done|done].
Qed.

Lemma binv_enable ta (b : broker) : binv b -> binv (enable_tunnel ta b).
Proof.
  intros Hb. unfold enable_tunnel, draw. apply binv_upd_tun; [|by apply (binv_eq b)]. intros t.
  split; [etrans; [apply start_socket_frame|reflexivity]|].
  pose proof (start_socket_creds (bind (b_draws b)) (t <| t_enabled := true |>)) as E. by injection E.
Qed.

Lemma binv_rotate (agent : bool) ta hex (b : broker) : binv b -> binv (if agent then rotate_agent ta hex b else rotate_token ta hex b).
Proof.
  intros Hb. destruct agent; [apply binv_drop_agent|]; by apply binv_upd_tun.
Qed.

Lemma given_or_random_core given (b : broker) : core (snd (given_or_random given b)) = core b /\
  (conns (snd (given_or_random given b)), b_hmac_key (snd (given_or_random given b))) = (conns b, b_hmac_key b).
Proof. by destruct given as [[|c s]|]. Qed.

Lemma given_or_random_down given (b : broker) : b_shutting_down (snd (given_or_random given b)) = b_shutting_down b.
Proof. by destruct given as [[|c s]|]. Qed.

Lemma binv_given_or_random given (b : broker) : binv b -> binv (snd (given_or_random given b)).
Proof. apply binv_eq; apply given_or_random_core. Qed.

Lemma binv_create_as id pn req (b : broker) : binv b -> binv (snd (create_as id pn req b)).
Proof.
  intros Hb. unfold create_as. destruct (_ || _); [done|]. cbv zeta. case_bool_decide; [done|].
  pose proof (binv_given_or_random (str_item req "agent_secret") b Hb) as Hq1.
  destruct (given_or_random _ b) as [secret b1]. cbn [snd] in Hq1.
  set (p := if cJSON_IsTrue _ then given_or_random _ b1 else _).
  assert (binv (snd p)) as Hp by (unfold p; destruct (cJSON_IsTrue _); [by apply binv_given_or_random|done]).
  destruct p as [token b2]. cbn [snd] in Hp.
  destruct (stored_digest _ _ _) as [ah secret']. destruct (token_digest _ _ _) as [th token']. cbn [draw].
  assert (binv (b2 <| b_draws ::= S |>)) as Hq3 by (by apply (binv_eq b2)).
  match goal with |- context [tm_tunnel_create ?c ?i ?pr ?cl ?a ?t ?pf ?r ?bb] =>
    pose proof (binv_create c i pr cl a t pf r bb Hq3) as Hq4; destruct (tm_tunnel_create c i pr cl a t pf r bb) as [[ta|] b4] end;
    cbn [snd] in *; [|done]. destruct (tuns b4 !! ta); [done|by apply (binv_eq b4)].
Qed.

Lemma binv_named req (b : broker) k : (forall id ta, binv (snd (k id ta))) -> binv b -> binv (snd (with_named req b k)).
Proof.
  intros Hk Hb. unfold with_named. destruct (str_item req "tunnel_id") as [id|]; [|done]. by destruct (tm_tunnel_find b id).
Qed.

Lemma binv_ipc_request req (b : broker) : binv b -> binv (snd (ipc_request req b)).
Proof.
  intros Hb. unfold ipc_request. destruct (str_item req "op") as [op|]; [|done]. unfold ipc_op.
  assert (forall i, binv (snd (op_status i b))) as Hs by (intros i; by apply (binv_eq b)).
  repeat match goal with |- binv (snd (if ?c then _ else _)) => destruct c; [|] end; try done.
  - unfold op_create. destruct (str_item req "tunnel_id"); [|done]. destruct (str_item req "proto"); [|done]. by apply binv_create_as.
  - apply binv_named; [|done]. intros id ta. pose proof (binv_delete id b Hb). by destruct (tm_tunnel_delete id b).
  - apply binv_named; [|done]. intros id ta. destruct (is_enabled ta b); [by apply binv_disable|done].
  - apply binv_named; [|done]. intros id ta. destruct (is_enabled ta b); [done|by apply binv_enable].
  - apply binv_named; [|done]. intros id ta. pose proof (binv_given_or_random (str_item req "secret") b Hb) as Hq1.
    destruct (given_or_random _ b) as [s b1]. by apply (binv_rotate true).
  - apply binv_named; [|done]. intros id ta. pose proof (binv_given_or_random (str_item req "secret") b Hb) as Hq1.
    destruct (given_or_random _ b) as [s b1]. by apply (binv_rotate false).
  - unfold op_kill. destruct (str_item req "tunnel_id"); [|done]. destruct (cJSON_IsNumber _); [|done].
    destruct (named_tunnel b _) as [[ta t]|]; [|done]. destruct (stream_find b t _); [|done].
    by apply binv_on_stream; [apply keeps_close|].
Qed.

Lemma binv_ipc_lines fuel : forall buf pc (b : broker), binv b -> binv (snd (ipc_lines fuel buf pc b)).
Proof.
  induction fuel as [|fuel IH]; intros buf pc b Hb; cbn [ipc_lines]; [done|].
  destruct (split_line buf) as [[line rest]|]; [|done].
  assert (binv (snd (ipc_line line pc b))) as Hq1.
  { unfold ipc_line. destruct (cJSON_Parse line) as [req| | |]; try done. unfold ipc_handle_op.
    pose proof (binv_ipc_request req b Hb). by destruct (ipc_request req b). }
  destruct (ipc_line line pc b) as [pc1 b1]. by apply IH.
Qed.

Lemma binv_ipc_read data pc (b : broker) : binv b -> binv (snd (ipc_conn_read data pc b)).
Proof.
  intros Hb. destruct data as [[|c data]|]; try done. cbn [ipc_conn_read]. destruct (_ <? _); [done|]. by apply binv_ipc_lines.
Qed.

(** ** Lines do not depend on how the stream is cut *)

(** The complete lines of a byte stream, and what follows the last newline. *)
Fixpoint split_all (l : bytes) : list bytes * bytes :=
  match l with
  | [] => ([], [])
  | c :: l' => let '(ls, r) := split_all l' in
               if c =? 10 then ([] :: ls, r)
               else match ls with
                    | [] => ([], c :: r)
                    | x :: ls' => ((c :: x) :: ls', r)
                    end
  end.

(** The reference: requests served one by one. *)
Fixpoint serve (ls : list bytes) (pc : tm_ipc_conn) (b : broker) : tm_ipc_conn * broker :=
  match ls with
  | [] => (pc, b)
  | line :: ls' => let '(pc, b) := ipc_line line pc b in serve ls' pc b
  end.

Lemma split_all_line l : split_all l = match split_line l with
                                       | None => ([], l)
                                       | Some (line, rest) => let '(ls, r) := split_all rest in (line :: ls, r)
                                       end.
Proof.
  induction l as [|c l IH]; cbn [split_all split_line]; [done|]. destruct (c =? 10) eqn:E; [done|]. rewrite IH.
  destruct (split_line l) as [[line rest]|]; cbn [mbind option_bind]; [|done]. by destruct (split_all rest).
Qed.

Lemma split_line_shorter l line rest : split_line l = Some (line, rest) -> (length rest < length l)%nat.
Proof.
  revert line. induction l as [|c l IH]; intros line; cbn [split_line]; [done|]. destruct (c =? 10); [intros [= <- <-]; cbn; lia|].
  destruct (split_line l) as [[x r]|]; cbn [mbind option_bind]; [|done]. intros [= <- <-]. specialize (IH x eq_refl). cbn. lia.
Qed.

Lemma split_all_app l d : let '(ls, r) := split_all l in
  split_all (l ++ d) = let '(ls2, r2) := split_all (r ++ d) in (ls ++ ls2, r2).
Proof.
  induction l as [|c l IH]; cbn [split_all app]; [by destruct (split_all d)|].
  destruct (split_all l) as [ls r]. rewrite IH. destruct (split_all (r ++ d)) as [ls2 r2] eqn:E2.
  destruct (c =? 10) eqn:Ec; [by rewrite E2|]. destruct ls as [|x ls]; [|by rewrite E2].
  cbn [app split_all]. rewrite E2, Ec. by destruct ls2.
Qed.

(** Answering does not look at the read buffer. *)
Lemma ipc_send_rbuf j x pc : ipc_send j (pc <| rbuf := x |>) = ipc_send j pc <| rbuf := x |>.
Proof. unfold ipc_send. cbn. destruct (_ || _); [done|]. by destruct j. Qed.
Lemma reply_rbuf a x pc : reply a (pc <| rbuf := x |>) = reply a pc <| rbuf := x |>.
Proof. destruct a; apply ipc_send_rbuf. Qed.
Lemma ipc_line_rbuf line x pc b : ipc_line line (pc <| rbuf := x |>) b = (fst (ipc_line line pc b) <| rbuf := x |>, snd (ipc_line line pc b)).
Proof.
  unfold ipc_line, ipc_handle_op. destruct (cJSON_Parse line) as [req| | |].
  - destruct (ipc_request req b) as [a b']. cbn [fst snd]. by rewrite reply_rbuf.
  - cbn [fst snd]. unfold reply_err. by rewrite ipc_send_rbuf.
  - cbn [fst snd]. unfold reply_err. by rewrite ipc_send_rbuf.
  - cbn [fst snd]. unfold reply_err. by rewrite ipc_send_rbuf.
Qed.
Lemma serve_rbuf ls x : forall pc b, serve ls (pc <| rbuf := x |>) b = (fst (serve ls pc b) <| rbuf := x |>, snd (serve ls pc b)).
Proof.
  induction ls as [|l ls IH]; intros pc b; cbn [serve]; [done|]. rewrite ipc_line_rbuf.
  destruct (ipc_line l pc b) as [pc1 b1]. apply IH.
Qed.

Lemma ipc_lines_serve fuel : forall buf pc b, (length buf <= fuel)%nat ->
  ipc_lines fuel buf pc b = (fst (serve (fst (split_all buf)) pc b) <| rbuf := snd (split_all buf) |>, snd (serve (fst (split_all buf)) pc b)).
Proof.
  induction fuel as [|fuel IH]; intros buf pc b Hf.
  { destruct buf; [done|cbn in Hf; lia]. }
  cbn [ipc_lines]. rewrite split_all_line. destruct (split_line buf) as [[line rest]|] eqn:E; [|done].
  apply split_line_shorter in E. pose proof (IH rest) as IH'. destruct (split_all rest) as [ls r]. cbn [fst snd serve] in *.
  destruct (ipc_line line pc b) as [pc1 b1]. apply IH'. lia.
Qed.

Fixpoint ipc_reads (chunks : list bytes) (pc : tm_ipc_conn) (b : broker) : tm_ipc_conn * broker :=
  match chunks with
  | [] => (pc, b)
  | d :: ds => let '(pc, b) := ipc_conn_read (Some d) pc b in ipc_reads ds pc b
  end.

(** No chunk makes an unfinished line overflow the read buffer. *)
Fixpoint fits (rest : bytes) (chunks : list bytes) : Prop :=
  match chunks with
  | [] => True
  | d :: ds => blen rest + blen d <= RBUF_SIZE - 1 /\ fits (snd (split_all (rest ++ d))) ds
  end.

Lemma ipc_reads_from chunks : forall rest pc b, rbuf pc = rest -> split_line rest = None -> fits rest chunks ->
  ipc_reads chunks pc b =
  (fst (serve (fst (split_all (rest ++ concat chunks))) pc b) <| rbuf := snd (split_all (rest ++ concat chunks)) |>,
   snd (serve (fst (split_all (rest ++ concat chunks))) pc b)).
Proof.
  induction chunks as [|d ds IH]; intros rest pc b Hr Hs Hf; cbn [ipc_reads concat].
  { rewrite app_nil_r, split_all_line, Hs. cbn. destruct pc; cbn in *; by subst. }
  destruct Hf as [Hd Hf]. pose proof (split_all_app (rest ++ d) (concat ds)) as Ha. rewrite <- app_assoc in Ha.
  assert (ipc_conn_read (Some d) pc b = (fst (serve (fst (split_all (rest ++ d))) pc b) <| rbuf := snd (split_all (rest ++ d)) |>,
            snd (serve (fst (split_all (rest ++ d))) pc b))) as ->.
  { destruct d as [|c d].
    - rewrite app_nil_r, split_all_line, Hs. cbn. destruct pc; cbn in *; by subst.
    - cbn [ipc_conn_read]. rewrite Hr, (proj2 (Z.ltb_ge _ _)) by lia. rewrite ipc_lines_serve by done. rewrite serve_rbuf. done. }
  destruct (split_all (rest ++ d)) as [ls r] eqn:E. cbn [fst snd] in *. rewrite Ha.
  destruct (serve ls pc b) as [pc1 b1] eqn:E1. cbn [fst snd].
  assert (split_line r = None) as Hr0.
  { clear -E. revert ls r E. generalize (rest ++ d). intros l. induction l as [|c l IHl]; intros ls r; cbn [split_all]; [by intros [= <- <-]|].
    destruct (split_all l) as [ls0 r0]. specialize (IHl ls0 r0 eq_refl). destruct (c =? 10) eqn:Ec; [by intros [= <- <-]|].
    destruct ls0; intros [= <- <-]; [|done]. cbn [split_line]. rewrite Ec, IHl. done. }
  rewrite (IH r) by done. destruct (split_all (r ++ concat ds)) as [ls2 r2]. cbn [fst snd].
  rewrite serve_rbuf.
  assert (forall l1 l2 pc b, serve (l1 ++ l2) pc b = let '(pc, b) := serve l1 pc b in serve l2 pc b) as Hsa.
  { induction l1 as [|l l1 IHl]; intros l2 pc0 b0; cbn [serve app]; [done|]. by destruct (ipc_line l pc0 b0). }
  rewrite Hsa, E1. done.
Qed.

(** C28: requests do not depend on how the socket cuts the stream.  However the bytes of
    a session arrive, as long as no unfinished line overflows the read buffer, the broker
    serves exactly the complete lines of the stream, one after the other and each once,
    and keeps the unfinished rest. *)
Theorem ipc_stream_lines chunks pc b :
  rbuf pc = [] -> fits [] chunks ->
  let '(pc', b') := ipc_reads chunks pc b in
  let '(lines, rest) := split_all (concat chunks) in
  b' = snd (serve lines pc b) /\ isent pc' = isent (fst (serve lines pc b)) /\ rbuf pc' = rest.
Proof.
  intros Hr Hf. rewrite (ipc_reads_from chunks [] pc b Hr eq_refl Hf). cbn [app].
  destruct (split_all (concat chunks)) as [ls r]. cbn [fst snd]. by destruct (serve ls pc b).
Qed.

(** ** One answer in flight *)

(** The text a line is answered with. *)
Definition answer_text (line : bytes) (b : broker) : option bytes :=
  match cJSON_Parse line with
  | POk req => match fst (ipc_request req b) with
               | AOk x => cJSON_PrintUnformatted (ok_answer x)
               | AErr msg => cJSON_PrintUnformatted (err_answer msg)
               end
  | _ => cJSON_PrintUnformatted (err_answer (cstr "bad json"))
  end.
(** What a line does to the broker. *)
Definition line_effect (line : bytes) (b : broker) : broker :=
  match cJSON_Parse line with POk req => snd (ipc_request req b) | _ => b end.

Lemma ipc_line_split line pc b : ipc_line line pc b = (ipc_send (answer_text line b) pc, line_effect line b).
Proof.
  unfold ipc_line, ipc_handle_op, answer_text, line_effect. destruct (cJSON_Parse line) as [req| | |]; try done.
  by destruct (ipc_request req b) as [[] b'].
Qed.

Lemma serve_busy ls : forall pc b, writing pc = true ->
  serve ls pc b = (pc, fold_left (fun b l => line_effect l b) ls b).
Proof.
  induction ls as [|l ls IH]; intros pc b Hw; cbn [serve fold_left]; [done|]. rewrite ipc_line_split.
  unfold ipc_send at 1. rewrite Hw. cbn [orb]. by apply IH.
Qed.

(** Pipelined requests are all carried out but only the first is answered.  When
    several complete lines arrive while no answer is in flight, every one of them takes
    effect, in order, and exactly one answer is sent, that of the first line; the other
    answers are dropped for ever. *)
Theorem ipc_pipelined_answers_lost line more pc b text :
  writing pc = false -> close_pending pc = false -> handle_closing pc = false -> answer_text line b = Some text ->
  let '(pc', b') := serve (line :: more) pc b in
  b' = fold_left (fun b l => line_effect l b) (line :: more) b /\
  isent pc' = isent pc ++ [strz text ++ [10]] /\ writing pc' = true.
Proof.
  intros Hw Hp Hh Ht. cbn [serve]. rewrite ipc_line_split, Ht. unfold ipc_send. rewrite Hw, Hp, Hh. cbn [orb].
  rewrite serve_busy by done. done.
Qed.

(** ** New tunnels and their secrets *)

Lemma secret_digest_len key s : blen (secret_digest key s) = 64.
Proof. unfold blen, secret_digest. by rewrite (proj1 (sha256_hex_shape _)). Qed.

Lemma stored_digest_plain g s b h s' : stored_digest g s b = (h, s') ->
  blen h = 64 /\ (s' <> [] -> s' = s /\ h = secret_digest (b_hmac_key b) s).
Proof.
  pose proof (secret_digest_len (b_hmac_key b) s) as Hl.
  unfold stored_digest. destruct g as [g|]; [destruct (blen g =? 64) eqn:E; zb|]; intros [= <- <-]; split; done.
Qed.

Lemma token_digest_plain g s b h s' : token_digest g s b = (h, s') ->
  blen h <= 64 /\ (s' <> [] -> s' = s /\ h = secret_digest (b_hmac_key b) s).
Proof.
  pose proof (secret_digest_len (b_hmac_key b) s) as Hl.
  unfold token_digest. destruct g as [g|]; [destruct (blen g =? 64) eqn:E; zb|]; repeat case_bool_decide;
    intros [= <- <-]; (split; [rewrite ?blen_nil; lia|done]).
Qed.

Lemma str_item_created id port secret hmac token th :
  let x := created_answer id port secret hmac token th in
  str_item x "tunnel_id" = Some id /\ item x "public_port" = Some (JNumber (dbl_of_Z port)) /\
  str_item x "agent_secret_hmac" = Some hmac /\
  str_item x "agent_secret" = (if bool_decide (secret = []) then None else Some secret) /\
  str_item x "shared_token" = (if bool_decide (token = []) then None else Some token).
Proof. cbv zeta. unfold created_answer, opt_str. by repeat case_bool_decide. Qed.

(** A secret the digest stored for it accepts. *)
Definition accepts (key digest s : bytes) : Prop := s <> [] /\ tm_ct_eq_hex (secret_digest key s) digest = true.

(** What a successful creation gives and says. *)
Record created (id : bytes) (b : broker) (x : json) (b' : broker) (ta : Z) (t : tm_tunnel) : Prop := {
  cr_reg : reg b';
  cr_conns : conns b' = conns b;
  cr_key : b_hmac_key b' = b_hmac_key b;
  cr_new : tm_tunnel_find b id = None;
  cr_find : tm_tunnel_find b' id = Some ta;
  cr_fresh : tuns b !! ta = None;
  cr_tuns : tuns b' = <[ta := t]> (tuns b);
  cr_len : 1 <= blen id <= TM_TUNNEL_ID_LEN;
  cr_id : t_id t = id;
  cr_enabled : t_enabled t = true;
  cr_agent : t_agent t = None;
  cr_says_id : str_item x "tunnel_id" = Some id;
  cr_says_port : item x "public_port" = Some (JNumber (dbl_of_Z (public_port t)));
  cr_says_hmac : str_item x "agent_secret_hmac" = Some (t_agent_hmac t);
  cr_secret s : str_item x "agent_secret" = Some s -> accepts (b_hmac_key b) (t_agent_hmac t) s;
  cr_token s : str_item x "shared_token" = Some s -> t_closed t = true /\ accepts (b_hmac_key b) (t_token_hmac t) s;
}.

Lemma tunnel_find_core (b b' : broker) id : core b' = core b -> tm_tunnel_find b' id = tm_tunnel_find b id.
Proof. intros E. injection E as E1 E2 _ _ _ _ _ _ _. unfold tm_tunnel_find. by rewrite E1, E2. Qed.

Lemma digest_accepts key s : s <> [] -> accepts key (str_trunc 65 (secret_digest key s)) s.
Proof.
  intros Hs. split; [done|]. rewrite str_trunc_id by (rewrite secret_digest_len; lia). by apply digest_match.
Qed.

(** Why a creation fails, and what the answer says of it. *)
Definition named_proto (name : bytes) : tm_proto := if streq name (cstr "udp") then TM_PROTO_UDP else TM_PROTO_TCP.
Definition length_ok (id : bytes) : Prop := 1 <= blen id <= TM_TUNNEL_ID_LEN.
Definition create_error (id : bytes) (proto : tm_proto) (closed : bool) (b : broker) (msg : bytes) : Prop :=
  ~ length_ok id /\ msg = cstr "bad tunnel_id length" \/
  length_ok id /\ is_Some (tm_tunnel_find b id) /\ msg = cstr "tunnel already exists" \/
  length_ok id /\ tm_tunnel_find b id = None /\ create_refused id proto closed b /\ msg = cstr "create failed".

Lemma refused_core (b b' : broker) id proto closed : core b' = core b -> b_shutting_down b' = b_shutting_down b ->
  create_refused id proto closed b' <-> create_refused id proto closed b.
Proof.
  intros Ec Ed. unfold create_refused. rewrite Ed, (tunnel_find_core b b' id Ec). injection Ec as _ _ E3 _ _ _ E7 _ E9. by rewrite E3, E7, E9.
Qed.

Lemma create_as_cases id pn req b : reg b ->
  let proto := named_proto pn in let closed := cJSON_IsTrue (item req "closed") in
  match create_as id pn req b with
  | (AErr msg, b') => core b' = core b /\ create_error id proto closed b msg
  | (AOk None, _) => False
  | (AOk (Some x), b') => ~ create_refused id proto closed b /\
      exists ta t, created id b x b' ta t /\ t_proto t = proto /\ t_closed t = closed
  end.
Proof.
  intros Hr. cbv zeta. unfold create_as, create_error, length_ok. fold (named_proto pn). pose proof (blen_nonneg id).
  destruct ((blen id =? 0) || _) eqn:El; [split; [done|]; left; zb; split; [destruct El; lia|done]|]. cbv zeta.
  apply orb_false_iff in El as [El1 El2]. zb. assert (1 <= blen id <= TM_TUNNEL_ID_LEN) as Hlen by lia.
  destruct (tm_tunnel_find b id) as [k|] eqn:Ef; [rewrite bool_decide_true by eauto; split; [done|]; right; left; eauto|].
  rewrite bool_decide_false by (by intros []).
  destruct (given_or_random_core (str_item req "agent_secret") b) as [C1 D1].
  pose proof (given_or_random_down (str_item req "agent_secret") b) as Sd1.
  destruct (given_or_random (str_item req "agent_secret") b) as [secret b1]. cbn [snd] in C1, D1, Sd1.
  set (closed := cJSON_IsTrue _).
  set (p := if closed then given_or_random _ b1 else _).
  assert (core (snd p) = core b /\ (conns (snd p), b_hmac_key (snd p)) = (conns b, b_hmac_key b) /\ (closed = false -> fst p = []) /\
          b_shutting_down (snd p) = b_shutting_down b) as (C2 & D2 & Hcl & Sd2).
  { unfold p. destruct closed; [|done]. destruct (given_or_random_core (str_item req "shared_token") b1) as [-> ->].
    by rewrite given_or_random_down. }
  clearbody p. destruct p as [token b2]. cbn [fst snd] in C2, D2, Hcl, Sd2. injection D2 as D3 D4.
  destruct (stored_digest (str_item req "agent_secret_hmac") secret b2) as [ah s'] eqn:Eh. apply stored_digest_plain in Eh as [La Hs].
  destruct (token_digest (str_item req "shared_token_hmac") token b2) as [th tok'] eqn:Et. apply token_digest_plain in Et as [Lt Ht].
  cbn [draw]. set (b3 := b2 <| b_draws ::= S |>). assert (core b3 = core b) as C3 by done.
  assert (reg b3) as Hr3 by (by apply (reg_core b)).
  set (prefer := match cJSON_IsNumber _ with Some d => _ | None => 0 end). set (proto := named_proto pn).
  set (r := bind _). pose proof (tunnel_create_cases clock id proto closed ah (Some th) prefer r b3 Hr3) as Hc.
  pose proof (tunnel_create_iff clock id proto closed ah (Some th) prefer r b3 Hr3) as Hno.
  pose proof (refused_core b b3 id proto closed C3 Sd2) as Href.
  pose proof (reg_tunnel_create clock id proto closed ah (Some th) prefer r b3 Hr3) as Hr4.
  destruct (tm_tunnel_create _ _ _ _ _ _ _ _ _) as [[ta|] b4].
  2: { destruct Hc as [-> Hc]. split; [done|]. right. right. by rewrite <- Href. }
  cbn [snd] in Hr4.
  destruct Hc as (port & ps & now & -> & _ & _ & _ & C4 & Ek & Eq & _). set (t := start_socket r _) in *.
  pose proof (start_socket_frame r (new_tunnel id proto closed ah (Some th) port now)) as Fr. fold t in Fr.
  unfold t_frame in Fr. injection Fr as F1 F2 F3 F4 F5 _ F7 _.
  pose proof (start_socket_creds r (new_tunnel id proto closed ah (Some th) port now)) as Cr. fold t in Cr.
  injection Cr as _ G2 G3 G4 G5 _. injection C4 as E1 E2 _ _ _ _ _ _ _. injection C3 as K1 K2 _ _ _ _ _ K8 _.
  rewrite E1, lookup_insert_eq. destruct (str_item_created (t_id t) (public_port t) s' ah tok' th) as (I1 & I2 & I3 & I4 & I5).
  set (x := created_answer _ _ _ _ _ _) in *.
  assert (t_agent_hmac t = ah) as Eah by (rewrite G4; cbn; rewrite str_trunc_id by lia; done).
  assert (t_token_hmac t = th) as Eth by (rewrite G5; cbn; rewrite str_trunc_id by lia; done).
  split; [by rewrite <- Href|]. exists (b_next b3), t. split; [|by rewrite F2, F3]. constructor; try done.
  - by rewrite Ek.
  - by rewrite Eq.
  - apply find_tunnel_iff with t; [done|rewrite E2; by left|by rewrite E1, lookup_insert_eq|done].
  - destruct (tuns b !! b_next b3) as [u|] eqn:Eu; [|done]. apply (fr_tun _ _ _ _ (rg_fresh _ Hr)) in Eu.
    change (b_next b3) with (b_next b2) in *. lia.
  - by rewrite E1, K1.
  - by rewrite I1, F1.
  - by rewrite I3, Eah.
  - intros s0. rewrite I4, Eah. destruct (bool_decide (s' = [])) eqn:Es; [intros [=]|]. intros [= <-].
    apply bool_decide_eq_false in Es. destruct (Hs Es) as [-> ->].
    split; [done|]. rewrite D4. by apply digest_match.
  - intros s0. rewrite I5, Eth. destruct (bool_decide (tok' = [])) eqn:Es; [intros [=]|]. intros [= <-].
    apply bool_decide_eq_false in Es. destruct (Ht Es) as [-> ->].
    split; [|split; [done|rewrite D4; by apply digest_match]]. rewrite G2. cbn. destruct closed; [done|]. exfalso. by apply Es, Hcl.
Qed.


Lemma find_named (b : broker) id ta t : tm_tunnel_find b id = Some ta -> tuns b !! ta = Some t -> named_tunnel b id = Some (ta, t).
Proof. intros E1 E2. unfold named_tunnel. by rewrite E1, E2. Qed.

(** C8: the secret handed out is the key to the tunnel.  When the administrator creates
    a tunnel and the answer carries a secret, then any connection of the control port
    that said HELLO and registers with the tunnel's name and that secret becomes the
    tunnel's agent session, and the tunnel is online. *)
Theorem created_tunnel_registers raw req id x s b b' c cn i fr i' f :
  reg b -> str_item req "op" = Some (cstr "create_tunnel") -> str_item req "tunnel_id" = Some id -> strz id = id ->
  ipc_request req b = (AOk (Some x), b') -> str_item x "agent_secret" = Some s ->
  conns b' !! c = Some cn -> got_hello cn = true -> peer_authed cn = false -> c_io cn = Some i -> c_fr cn = Some fr ->
  f_type f = TM_MSG_REGISTER -> credentials f = Some (id, s) ->
  io_write i register_ok_frame = (TM_OK, [], i') ->
  let b'' := conn_frame clock raw c f b' in
  exists ta a ag t, tm_tunnel_find b' id = Some ta /\ tuns b'' !! ta = Some t /\ t_agent t = Some a /\
    agent_online t = true /\ agents b'' !! a = Some ag /\ a_tun ag = ta /\ a_io ag = i'.
Proof.
  intros Hr Ho Hi Hz Hq Hs Hcn Hh Hp Hio Hfr Hty Hcr Hw. cbv zeta.
  unfold ipc_request in Hq. rewrite Ho in Hq. change (ipc_op (cstr "create_tunnel") req b) with (op_create req b) in Hq.
  unfold op_create in Hq. rewrite Hi in Hq. destruct (str_item req "proto") as [pn|]; [|done].
  pose proof (create_as_cases id pn req b Hr) as Hc. cbv zeta in Hc. rewrite Hq in Hc.
  destruct Hc as (_ & ta & t & C & _).
  destruct (cr_secret _ _ _ _ _ _ C s Hs) as [_ Hd].
  assert (tuns b' !! ta = Some t) as Et by (rewrite (cr_tuns _ _ _ _ _ _ C); apply lookup_insert_eq).
  destruct (register_ok clock raw c f b' ta t cn i fr i' id s) as (a & ag & t' & Q); try done.
  - apply C.
  - rewrite Hz. apply find_named; [apply C|done].
  - apply C.
  - by rewrite (cr_key _ _ _ _ _ _ C).
  - exists ta, a, ag, t'. split; [apply C|done].
Qed.

(** ** Rotation *)

(** C17: rotating an agent secret revokes the old one.  The answer carries the new secret
    and its digest, which is what the tunnel now stores, so that another secret is
    accepted only if it has the same digest; the control session that was registered with
    the old secret is gone and the tunnel is offline.  The tunnel's UDP state, an agent
    session authenticated with the old secret included, stays as it was, and so do all
    other tunnels. *)
Theorem ipc_rotate_revokes req id ta t b :
  reg b -> str_item req "op" = Some (cstr "rotate_agent_secret") -> str_item req "tunnel_id" = Some id ->
  tm_tunnel_find b id = Some ta -> tuns b !! ta = Some t ->
  exists x b' t' s, ipc_request req b = (AOk (Some x), b') /\ str_item x "secret" = Some s /\
    str_item x "secret_hmac" = Some (t_agent_hmac t') /\ tuns b' !! ta = Some t' /\
    (forall s0, tm_ct_eq_hex (secret_digest (b_hmac_key b) s0) (t_agent_hmac t') = true <->
                secret_digest (b_hmac_key b) s0 = secret_digest (b_hmac_key b) s) /\
    t_agent t' = None /\ agent_online t' = false /\ (forall a ag, agents b' !! a = Some ag -> a_tun ag <> ta) /\
    t_udp t' = t_udp t /\ t_token_hmac t' = t_token_hmac t /\ (forall k, k <> ta -> tuns b' !! k = tuns b !! k) /\ reg b'.
Proof.
  intros Hr Ho Hi Hf Et. unfold ipc_request. rewrite Ho. change (ipc_op (cstr "rotate_agent_secret") req b) with (op_rotate true req b).
  unfold op_rotate, with_named. rewrite Hi, Hf. destruct (given_or_random_core (str_item req "secret") b) as [C D].
  destruct (given_or_random (str_item req "secret") b) as [s b1]. cbn [snd] in C, D. injection D as _ Dk. cbv zeta.
  assert (reg b1) as Hr1 by (by apply (reg_core b)). injection C as K1 _ _ K4 _ _ _ _ _.
  set (hex := secret_digest (b_hmac_key b1) s). set (t1 := t <| t_agent_hmac := hex |>). set (b2 := put_tun ta t1 b1).
  assert (reg b2) as Hr2 by (apply reg_put with t; [by rewrite K1|done|done]).
  assert (tuns b2 !! ta = Some t1) as E2 by apply lookup_insert_eq.
  set (b3 := without_agent t1 b2).
  assert (rotate_agent ta hex b1 = b3) as ->.
  { unfold rotate_agent, upd_tun, with_tun. rewrite K1, Et. fold t1. fold b2. by rewrite E2. }
  assert (exists t3, tuns b3 !! ta = Some t3 /\ t_agent t3 = None /\ agent_online t3 = false /\ t_agent_hmac t3 = hex /\
            t_udp t3 = t_udp t /\ t_token_hmac t3 = t_token_hmac t /\ (forall k, k <> ta -> tuns b3 !! k = tuns b2 !! k))
    as (t3 & E3 & Ha & Hon & Hh & Hu & Htk & Hk).
  { unfold b3, without_agent. destruct (t_agent t1) as [a|] eqn:Ea.
    - destruct (ag_live _ _ (rg_agents _ Hr2) ta t1 a E2 Ea) as (ag & Eg & Eo).
      unfold tm_agent_drop. rewrite Eg, Eo, E2, bool_decide_true by done. eexists. split; [apply lookup_insert_eq|].
      split_and!; try done. intros k Hne. by apply lookup_insert_ne.
    - exists t1. split_and!; try done. rewrite (ag_online _ _ (rg_agents _ Hr2) ta t1 E2), Ea. done. }
  assert (reg b3) as Hr3 by (by apply reg_without_agent).
  exists (JObject [(cstr "secret", JString s); (cstr "secret_hmac", JString hex)]), b3, t3, s.
  split_and!; try done.
  - cbn. by rewrite Hh.
  - intros s0. rewrite Hh. unfold hex. rewrite <- Dk. apply digest_match.
  - intros a ag Eg Eq. destruct (ag_owned _ _ (rg_agents _ Hr3) a ag Eg) as (u & Eu & Hu'). congruence.
  - intros k Hne. rewrite Hk by done. unfold b2. change (tuns (put_tun ta t1 b1)) with (<[ta := t1]> (tuns b1)).
    by rewrite lookup_insert_ne, K1.
Qed.

(** ** Every answer is a line *)

Section Answers.
(** The C library prints small integers so that [strtod] reads them back. *)
Context (port_prints : forall n, 0 <= n < 2 ^ 16 -> num_ok (dbl_of_Z n)).

Definition short (s : bytes) : Prop := str_ok s /\ blen s <= 256.

(** An object of at most [n] short strings and printable numbers. *)
Definition field_ok (kv : bytes * json) : Prop :=
  short (fst kv) /\ match snd kv with JString s => short s | JNumber d => num_ok d | _ => False end.
Definition flat (n : Z) (j : json) : Prop := exists l, j = JObject l /\ Forall field_ok l /\ blen l <= n.

Lemma blen_escape s : blen (escape s) <= 6 * blen s.
Proof.
  induction s as [|c s IH]; [done|]. rewrite escape_cons, blen_app, blen_cons.
  assert (blen (escape_char c) <= 6) by (unfold escape_char; repeat case_match; rewrite !blen_cons, blen_nil; lia). lia.
Qed.

Lemma blen_quoted s : short s -> blen (quoted s) <= 1538.
Proof. intros [_ Hs]. unfold quoted. rewrite blen_cons, blen_app, blen_cons, blen_nil. pose proof (blen_escape s). lia. Qed.

Lemma field_text k v : field_ok (k, v) -> printable v /\ height v = 0%nat /\ blen (quoted k) + blen (json_text v) <= 3076.
Proof.
  intros [Hk Hv]. cbn [fst snd] in *. pose proof (blen_quoted k Hk). destruct v; try done.
  - split; [by constructor|]. split; [done|]. cbn [json_text]. destruct Hv as [Hl _]. lia.
  - split; [constructor; apply Hv|]. split; [done|]. cbn [json_text]. pose proof (blen_quoted s Hv). lia.
Qed.

Lemma flat_prints n j : 0 <= n <= 16 -> flat n j ->
  printable j /\ Z.of_nat (height j) <= CJSON_NESTING_LIMIT /\ blen (json_text j) + 4 <= INT_MAX.
Proof.
  intros Hn (l & -> & Hl & Hb). split; [|split].
  - constructor. eapply Forall_impl; [exact Hl|]. intros [k v] Hf. split; [apply Hf|by apply (field_text k v)].
  - rewrite height_object. assert (heights (map snd l) = 0%nat) as ->; [|done].
    induction Hl as [|[k v] l Hf _ IH]; [done|]. cbn [map snd heights foldr]. destruct (field_text k v Hf) as (_ & -> & _).
    rewrite blen_cons in Hb. apply IH. lia.
  - rewrite json_text_object, blen_cons, blen_app. change (blen [125]) with 1.
    enough (blen (members_text l) <= 3078 * blen l) by (change INT_MAX with 2147483647; lia). clear Hb.
    induction Hl as [|[k v] l Hf _ IH]; [done|]. cbn [members_text]. rewrite !blen_app, (blen_cons (k, v)).
    destruct (field_text k v Hf) as (_ & _ & Hx). change (blen [58]) with 1.
    assert (blen (if is_cons l then [44] else []) <= 1) by (by destruct (is_cons l)). lia.
Qed.

Lemma short_cstr s : bool_decide (Forall (fun c => 0 < c < 256) (cstr s)) && (blen (cstr s) <=? 256) = true -> short (cstr s).
Proof. intros [Hs Hl]%andb_true_iff. apply bool_decide_eq_true in Hs. zb. done. Qed.

Lemma flat_add_string n name s j : flat n j -> short name -> short s -> flat (n + 1) (cJSON_AddStringToObject name s j).
Proof.
  intros (l & -> & Hl & Hb) Hn Hs. exists (l ++ [(name, JString s)]). split; [done|]. rewrite blen_app. change (blen [_]) with 1.
  split; [|lia]. apply Forall_app_2; [done|]. by constructor; [|constructor].
Qed.
Lemma flat_add_port n name p j : flat n j -> short (cstr name) -> num_ok (dbl_of_Z p) -> flat (n + 1) (num name p j).
Proof.
  intros (l & -> & Hl & Hb) Hn Hs. exists (l ++ [(cstr name, JNumber (dbl_of_Z p))]). split; [done|]. rewrite blen_app. change (blen [_]) with 1.
  split; [|lia]. apply Forall_app_2; [done|]. by constructor; [|constructor].
Qed.
Lemma flat_opt_str n name s j : flat n j -> short (cstr name) -> short s -> flat (n + 1) (opt_str name s j).
Proof.
  intros Hj Hn Hs. unfold opt_str. case_bool_decide; [|by apply flat_add_string].
  destruct Hj as (l & -> & Hl & Hb). exists l. split; [done|]. split; [done|lia].
Qed.
Lemma flat_nil : flat 0 (JObject []).
Proof. by exists []. Qed.

Definition answer_json (a : answer) : json := match a with AOk x => ok_answer x | AErr msg => err_answer msg end.

Definition answer_flat (a : answer) : Prop :=
  match a with AOk None => True | AOk (Some x) => flat 6 x | AErr msg => short msg end.

Ltac short_lit := by apply short_cstr.

Lemma answer_flat_json a : answer_flat a -> flat 7 (answer_json a).
Proof.
  destruct a as [[x|]|msg]; cbn [answer_flat answer_json].
  - intros (l & -> & Hl & Hb). rewrite ok_answer_members. cbn [members_of].
    eexists. split; [reflexivity|]. rewrite blen_cons. split; [|lia]. constructor; [|done]. split; short_lit.
  - intros _. rewrite ok_answer_members. eexists. split; [reflexivity|]. split; [|done]. constructor; [|constructor]. split; short_lit.
  - intros Hm. assert (flat (0 + 1 + 1) (err_answer msg)) as (l & -> & Hl & Hb).
    { apply flat_add_string; [apply flat_add_string; [apply flat_nil|short_lit|short_lit]|short_lit|done]. }
    exists l. split; [done|]. split; [done|lia].
Qed.

(** The answer reaches the client: as one line, which the client's parser turns back
    into the answer. *)
Lemma reply_line a pc : answer_flat a -> writing pc = false -> close_pending pc = false -> handle_closing pc = false ->
  exists text, isent (reply a pc) = isent pc ++ [text ++ [10]] /\ ifault (reply a pc) = ifault pc /\
    Forall (fun c => c <> 10) text /\ cJSON_Parse text = POk (answer_json a).
Proof.
  intros Ha Hw Hp Hh. destruct (flat_prints 7 (answer_json a)) as (P1 & P2 & P3); [lia|by apply answer_flat_json|].
  pose proof (print_text _ P1 P2 P3) as Hpr. destruct (text_line _ P1) as [Hz Hn].
  exists (json_text (answer_json a)).
  assert (reply a pc = ipc_send (Some (json_text (answer_json a))) pc) as ->.
  { rewrite <- Hpr. by destruct a. }
  unfold ipc_send. rewrite Hw, Hp, Hh. cbn [orb isent ifault]. split_and!; [|done|done|by apply parse_text].
  cbn. by rewrite Hz.
Qed.

Definition req_ok (req : json) : Prop := forall name s, str_item req name = Some s -> str_ok s.

Lemma short_nil : short [].
Proof. by split; [constructor|]. Qed.

Lemma short_token raw : short (tm_rand_token raw 48).
Proof.
  destruct raw as [raw|]; [|apply short_nil]. destruct (rand_token_shape raw 48) as [[Hl Ha] _].
  split; [|unfold blen; rewrite Hl; done]. eapply Forall_impl; [exact Ha|]. intros c Hc.
  assert (Forall (fun c => 0 < c < 256) alphabet) as Hal by (apply (bool_decide_unpack _); by vm_compute).
  rewrite Forall_forall in Hal. by apply Hal, list_elem_of_In.
Qed.

Lemma short_trunc s : str_ok s -> short (str_trunc (TM_MAX_SECRET + 1) s).
Proof.
  intros Hs. split; [by apply Forall_take|]. pose proof (blen_str_trunc (TM_MAX_SECRET + 1) s). change TM_MAX_SECRET with 256 in *. lia.
Qed.

Lemma short_given req name b : req_ok req -> short (fst (given_or_random (str_item req name) b)).
Proof.
  intros Hq. specialize (Hq name). destruct (str_item req name) as [[|c s]|]; [apply short_token|by apply short_trunc, Hq|apply short_token].
Qed.

Lemma short_digest key s : short (secret_digest key s).
Proof.
  split; [|rewrite secret_digest_len; lia]. eapply Forall_impl; [apply (sha256_hex_shape _)|]. unfold lower_hex. cbn. lia.
Qed.

Lemma short_stored req name s b h s' : req_ok req -> short s -> stored_digest (str_item req name) s b = (h, s') -> short h /\ short s'.
Proof.
  intros Hq Hs. pose proof (short_digest (b_hmac_key b) s). unfold stored_digest. specialize (Hq name).
  destruct (str_item req name) as [g|]; [destruct (blen g =? 64) eqn:E; zb|]; intros [= <- <-]; split; try done; try apply short_nil.
  split; [by apply Hq|lia].
Qed.
Lemma short_token_digest req name s b h s' : req_ok req -> short s -> token_digest (str_item req name) s b = (h, s') -> short h /\ short s'.
Proof.
  intros Hq Hs. pose proof (short_digest (b_hmac_key b) s). pose proof short_nil. unfold token_digest. specialize (Hq name).
  destruct (str_item req name) as [g|]; [destruct (blen g =? 64) eqn:E; zb|]; repeat case_bool_decide; intros [= <- <-]; split; try done.
  split; [by apply Hq|lia].
Qed.

Lemma flat_mono n m j : n <= m -> flat n j -> flat m j.
Proof. intros Hn (l & -> & Hl & Hb). exists l. split; [done|]. split; [done|lia]. Qed.

Lemma created_flat id port secret hmac token th : short id -> num_ok (dbl_of_Z port) -> short secret -> short hmac -> short token -> short th ->
  flat 6 (created_answer id port secret hmac token th).
Proof.
  intros. unfold created_answer. change 6 with (0 + 1 + 1 + 1 + 1 + 1 + 1).
  apply flat_opt_str; [|short_lit|done]. apply flat_opt_str; [|short_lit|done]. apply flat_add_string; [|short_lit|done].
  apply flat_opt_str; [|short_lit|done]. apply flat_add_port; [|short_lit|done]. apply flat_add_string; [apply flat_nil|short_lit|done].
Qed.

(** The port of a listed tunnel. *)
Lemma listed_port (b : broker) id ta t : reg b -> tm_tunnel_find b id = Some ta -> tuns b !! ta = Some t -> 0 <= public_port t < 2 ^ 16.
Proof.
  intros [N _ _ _] Hf Et. destruct (find_tunnel_elem b id ta Hf) as (Hin & _).
  destruct (Ports.po_range _ (nm_ports _ _ _ _ _ N)) as [Hlo Hhi].
  destruct (needs_port t) eqn:En.
  - destruct (nm_slot _ _ _ _ _ N ta t Hin Et En) as [Hr _]. unfold Ports.tm_port_in_range in Hr. apply andb_true_iff in Hr as [? ?]. zb. lia.
  - rewrite (nm_none _ _ _ _ _ N ta t Hin Et En). lia.
Qed.

Lemma create_as_flat id pn req b : reg b -> req_ok req -> str_ok id -> answer_flat (fst (create_as id pn req b)).
Proof.
  intros Hr Hq Hid. pose proof (create_as_cases id pn req b Hr) as Hc. revert Hc. cbv zeta. unfold create_as.
  destruct ((blen id =? 0) || _) eqn:El; [intros _; short_lit|]. cbv zeta. apply orb_false_iff in El as [_ El]. zb.
  case_bool_decide; [intros _; short_lit|].
  pose proof (short_given req "agent_secret" b Hq) as S1. destruct (given_or_random _ b) as [secret b1]. cbn [fst] in S1.
  set (p := if cJSON_IsTrue _ then given_or_random _ b1 else _).
  assert (short (fst p)) as S2 by (unfold p; destruct (cJSON_IsTrue _); [by apply short_given|apply short_nil]).
  destruct p as [token b2]. cbn [fst] in S2.
  destruct (stored_digest _ _ _) as [ah s'] eqn:E1. destruct (short_stored _ _ _ _ _ _ Hq S1 E1) as [S3 S4].
  destruct (token_digest _ _ _) as [th tok'] eqn:E2. destruct (short_token_digest _ _ _ _ _ _ Hq S2 E2) as [S5 S6].
  cbn [draw]. destruct (tm_tunnel_create _ _ _ _ _ _ _ _ _) as [[ta|] b4]; [|intros _; short_lit].
  destruct (tuns b4 !! ta) as [t|] eqn:Et; [|intros _; apply short_nil]. intros (_ & ta' & t' & C & _). cbn [fst answer_flat].
  destruct (str_item_created (t_id t) (public_port t) s' ah tok' th) as (I1 & I2 & _).
  pose proof (cr_says_id _ _ _ _ _ _ C) as J1. rewrite I1 in J1. injection J1 as ->.
  pose proof (cr_says_port _ _ _ _ _ _ C) as J2. rewrite I2 in J2. injection J2 as J2.
  apply created_flat; try done; [split; [done|change TM_TUNNEL_ID_LEN with 24 in El; lia]|].
  rewrite J2. apply port_prints, (listed_port b4 id ta' t'); [apply C|apply C|]. rewrite (cr_tuns _ _ _ _ _ _ C). apply lookup_insert_eq.
Qed.

Lemma with_named_flat req b k : (forall id ta, answer_flat (fst (k id ta))) -> answer_flat (fst (with_named req b k)).
Proof.
  intros Hk. unfold with_named. destruct (str_item req "tunnel_id") as [id|]; [|short_lit].
  destruct (tm_tunnel_find b id); [apply Hk|short_lit].
Qed.

Lemma rotate_flat agent req b : req_ok req -> answer_flat (fst (op_rotate agent req b)).
Proof.
  intros Hq. apply with_named_flat. intros id ta. pose proof (short_given req "secret" b Hq) as Hs.
  destruct (given_or_random _ b) as [s b1]. cbn [fst] in Hs. cbv zeta. cbn [fst answer_flat].
  apply (flat_mono (0 + 1 + 1)); [lia|].
  apply flat_add_string; [apply flat_add_string; [apply flat_nil|short_lit|done]|short_lit|apply short_digest].
Qed.

Lemma req_texts line req : bytes_ok line -> cJSON_Parse line = POk req -> req_ok req.
Proof.
  intros Hl Hp name s. destruct (parsed_texts line req Hl Hp) as [_ Ht]. unfold str_item, item.
  destruct req as [| | | | | |l]; try done. cbn [cJSON_GetObjectItemCaseSensitive].
  destruct (List.find _ l) as [[k v]|] eqn:Ef; [|done]. apply List.find_some in Ef as [Hin _].
  rewrite Forall_forall in Ht. specialize (Ht (k, v) (proj2 (list_elem_of_In _ _) Hin)). cbn in *. destruct v; try done. by intros [= ->].
Qed.

(** The requests for the status of the broker. *)
Definition asks_status (req : json) : Prop :=
  str_item req "op" = Some (cstr "get_status") \/ str_item req "op" = Some (cstr "get_tunnels").

Lemma request_flat req b : reg b -> req_ok req -> ~ asks_status req -> answer_flat (fst (ipc_request req b)).
Proof.
  intros Hr Hq Hn. unfold asks_status in Hn. unfold ipc_request. destruct (str_item req "op") as [op|]; [|short_lit]. unfold ipc_op.
  rewrite (proj2 (streq_false op (cstr "get_status"))), (proj2 (streq_false op (cstr "get_tunnels"))) by (intros ->; tauto).
  repeat match goal with |- answer_flat (fst (if ?c then _ else _)) => destruct c; [|] end; try done; try short_lit.
  - apply (flat_mono (0 + 1)); [lia|]. apply flat_add_string; [apply flat_nil|short_lit|short_lit].
  - unfold op_create. destruct (str_item req "tunnel_id") as [id|] eqn:Ei; [|short_lit].
    destruct (str_item req "proto"); [|short_lit]. apply create_as_flat; [done|done|]. by apply (Hq "tunnel_id").
  - apply with_named_flat. intros id ta. destruct (tm_tunnel_delete id b) as [[] b']; [done|short_lit].
  - apply with_named_flat. intros id ta. destruct (is_enabled ta b); [done|short_lit].
  - apply with_named_flat. intros id ta. destruct (is_enabled ta b); [short_lit|done].
  - by apply rotate_flat.
  - by apply rotate_flat.
  - unfold op_kill. destruct (str_item req "tunnel_id"); [|short_lit]. destruct (cJSON_IsNumber _); [|short_lit].
    destruct (named_tunnel b _) as [[ta t]|]; [|short_lit]. destruct (stream_find b t _); [done|short_lit].
Qed.

(** How a line is answered. *)
Definition line_answer (line : bytes) (b : broker) : answer :=
  match cJSON_Parse line with POk req => fst (ipc_request req b) | _ => AErr (cstr "bad json") end.

(** C29: a line is answered.  On an idle connection, with no answer under way, every
    complete line that is not a request for the status or the tunnels (one that is not
    JSON, has no operation or an unknown one, or asks for any of the others, whether it
    succeeds or not) is answered by exactly one line: the text holds no newline of its
    own, and parsing it gives an object whose "status" is "ok" or "error" as the request
    ended, and whose "error" is then the message. *)
Theorem ipc_request_answered line pc b :
  reg b -> bytes_ok line -> (forall req, cJSON_Parse line = POk req -> ~ asks_status req) ->
  writing pc = false -> close_pending pc = false -> handle_closing pc = false ->
  let '(pc', b') := ipc_line line pc b in
  exists text j, isent pc' = isent pc ++ [text ++ [10]] /\ ifault pc' = ifault pc /\ Forall (fun c => c <> 10) text /\
    cJSON_Parse text = POk j /\
    match line_answer line b with
    | AOk _ => str_item j "status" = Some (cstr "ok")
    | AErr msg => str_item j "status" = Some (cstr "error") /\ str_item j "error" = Some msg
    end.
Proof.
  intros Hr Hl Hn Hw Hp Hh.
  assert (fst (ipc_line line pc b) = reply (line_answer line b) pc /\ answer_flat (line_answer line b)) as [E Ha].
  { unfold ipc_line, line_answer. destruct (cJSON_Parse line) as [req| | |] eqn:Ep; try (split; [done|short_lit]).
    unfold ipc_handle_op. pose proof (request_flat req b Hr (req_texts line req Hl Ep) (Hn req eq_refl)) as Hf.
    by destruct (ipc_request req b) as [a b']. }
  destruct (ipc_line line pc b) as [pc' b']. cbn [fst] in E. subst pc'.
  destruct (reply_line _ pc Ha Hw Hp Hh) as (text & E1 & E2 & E3 & E4). exists text, (answer_json (line_answer line b)). split_and!; try done.
  destruct (line_answer line b) as [x|msg]; [|done]. cbn [answer_json]. by rewrite ok_answer_members.
Qed.

End Answers.

End Ipc.
