(* ===== verification/IpcSample.v ===== *)
(** * A concrete administration session

    The inputs at which the theorems of Ipc.v are applied: the broker of
    BrokerSample.v, an idle connection, and requests that create and rotate. *)

From S2P Require Import Prelude.
From S2P Require Import Wire.
From S2P Require Import Text.
From S2P Require Import Config.
From S2P Require Import Io.
From S2P Require Import Json.
From S2P Require Import Relay.
From S2P Require Import Registry.
From S2P Require Import Udp.
From S2P Require Import Broker.
From S2P Require Import Control.
From S2P Require Import Ipc.
From S2P Require Import BrokerSample.
Import Crypto.

Module IpcSample.
Import Tcp TcpLeg UdpSample ControlSample.
#[local] Existing Instances plain short JsonSample.int_double.

Definition rand0 (_ : nat) : option bytes := Some (repeat 7 48).
Definition bind0 (_ : nat) : Listener.bind_result := Listener.LISTENING.
Definition idle0 : tm_ipc_conn := ipc_on_conn.

Definition op_req (op : string) (more : list (bytes * json)) : json := JObject ((cstr "op", JString (cstr op)) :: more).
Definition create_req : json :=
  op_req "create_tunnel" [(cstr "tunnel_id", JString (cstr "new")); (cstr "proto", JString (cstr "tcp")); (cstr "prefer_port", JNumber 20001)].
Definition rotate_req : json := op_req "rotate_agent_secret" [(cstr "tunnel_id", JString (cstr "tun"))].
Definition health_line : bytes := json_text (op_req "health" []).

(** Small integers are printed and read back. *)
Definition num_okb (n : Z) : bool :=
  let t := number_text n in
  (blen t <=? 25) && forallb is_num_char t &&
  match t with x :: _ => (x =? 45) || (48 <=? x) && (x <=? 57) | [] => false end &&
  (fst (strtod t) =? n) && (snd (strtod t) =? length t)%nat.

Fixpoint check_from (fuel : nat) (n : Z) : bool :=
  match fuel with O => true | S fuel' => num_okb n && check_from fuel' (n + 1) end.

Lemma check_from_spec fuel : forall n, check_from fuel n = true -> forall m, n <= m < n + Z.of_nat fuel -> num_okb m = true.
Proof.
  induction fuel as [|fuel IH]; intros n Hc m Hm; [lia|]. cbn [check_from] in Hc. apply andb_true_iff in Hc as [H1 H2].
  destruct (decide (m = n)) as [->|Hne]; [done|]. apply (IH (n + 1)); [done|lia].
Qed.

Lemma ports_print n : 0 <= n < 2 ^ 16 -> num_ok (dbl_of_Z n).
Proof.
  intros Hn. assert (check_from (Z.to_nat 65536) 0 = true) as Hall by (vm_compute; reflexivity).
  assert (num_okb n = true) as Hb by (apply (check_from_spec _ _ Hall); rewrite Z2Nat.id; lia). clear Hall.
  unfold num_okb in Hb. change (dbl_of_Z n) with n. unfold num_ok. set (t := @number_text JsonSample.int_double n) in *. clearbody t.
  apply andb_true_iff in Hb as [Hb B5]. apply andb_true_iff in Hb as [Hb B4]. apply andb_true_iff in Hb as [Hb B3].
  apply andb_true_iff in Hb as [B1 B2]. apply Z.leb_le in B1. apply Z.eqb_eq in B4. apply Nat.eqb_eq in B5.
  rewrite forallb_forall in B2. split_and!; [done| | |].
  - apply Forall_forall. intros x Hx. by apply B2, list_elem_of_In.
  - destruct t as [|x t]; [done|]. exists x, t. split; [done|]. lia.
  - destruct (strtod t) as [v k]. cbn in B4, B5. by subst.
Qed.

Lemma ipc_stream_lines_witness :
  let chunks := [take 5 health_line; drop 5 health_line ++ [10] ++ take 3 health_line] in
  fits [] chunks /\ rbuf (fst (ipc_reads tick rand0 bind0 chunks idle0 b2)) = take 3 health_line.
Proof.
  cbv zeta. assert (fits [] [take 5 health_line; drop 5 health_line ++ [10] ++ take 3 health_line]) as Hf by (vm_compute; repeat split; discriminate).
  split; [exact Hf|].
  pose proof (ipc_stream_lines tick rand0 bind0 [take 5 health_line; drop 5 health_line ++ [10] ++ take 3 health_line] idle0 b2 eq_refl Hf) as Hl.
  destruct (ipc_reads _ _ _ _ _ _) as [pc' b']. destruct (split_all _) as [lines rest] eqn:E. destruct Hl as (_ & _ & Hr).
  cbn [fst]. rewrite Hr. apply (f_equal snd) in E. vm_compute in E. symmetry. exact E.
Defined.

Lemma ipc_pipelined_answers_lost_witness : exists text,
  answer_text tick rand0 bind0 health_line b2 = Some text /\
  isent (fst (serve tick rand0 bind0 [health_line; json_text create_req] idle0 b2)) = [strz text ++ [10]] /\
  bool_decide (is_Some (tm_tunnel_find (snd (serve tick rand0 bind0 [health_line; json_text create_req] idle0 b2)) (cstr "new"))) = true.
Proof.
  destruct (answer_text tick rand0 bind0 health_line b2) as [text|] eqn:E; [|vm_compute in E; discriminate].
  exists text. split; [reflexivity|].
  pose proof (ipc_pipelined_answers_lost tick rand0 bind0 health_line [json_text create_req] idle0 b2 text eq_refl eq_refl eq_refl E) as Hl.
  split; [|vm_compute; reflexivity].
  destruct (serve _ _ _ _ _ _) as [pc' b']. exact (proj1 (proj2 Hl)).
Defined.

Definition says (a : answer) : option json := match a with AOk x => x | AErr _ => None end.
Definition is_done (a : answer) : bool := match a with AOk (Some _) => true | _ => false end.
Lemma create_done : is_done (fst (ipc_request tick rand0 bind0 create_req b2)) = true.
Proof. vm_compute. reflexivity. Qed.


(** The broker after the creation, and the agent's registration on connection 2. *)
Definition b4 : @broker tm_io_tcp plain := snd (ipc_request tick rand0 bind0 create_req b2).
Definition token_given : bytes := tm_rand_token (rand0 0) 48.
Definition register0 : tm_frame := login TM_MSG_REGISTER (cstr "new") token_given.

Definition wrote (r : tm_status * list upcall) : bool := match r with (TM_OK, []) => true | _ => false end.

Lemma conn2_ready : exists cn i fr i', conns b4 !! 2 = Some cn /\ got_hello cn = true /\ peer_authed cn = false /\
  c_io cn = Some i /\ c_fr cn = Some fr /\ io_write i register_ok_frame = (TM_OK, [], i').
Proof.
  assert (match conns b4 !! 2 with
          | Some cn => got_hello cn && negb (peer_authed cn) && bool_decide (is_Some (c_fr cn)) &&
              match c_io cn with Some i => wrote (fst (io_write i register_ok_frame)) | None => false end
          | None => false end = true) as C by (vm_compute; reflexivity).
  destruct (conns b4 !! 2) as [cn|]; [|discriminate].
  apply andb_true_iff in C as [C C4]. apply andb_true_iff in C as [C C3]. apply andb_true_iff in C as [C1 C2].
  apply negb_true_iff in C2. apply bool_decide_eq_true in C3 as [fr Ef]. destruct (c_io cn) as [i|] eqn:Ei; [|discriminate].
  destruct (io_write i register_ok_frame) as [[st us] i'] eqn:Ew. cbn [fst] in C4. destruct st, us; try discriminate.
  by exists cn, i, fr, i'.
Qed.

Lemma created_tunnel_registers_witness :
  exists ta t, tm_tunnel_find b4 (cstr "new") = Some ta /\ tuns (conn_frame tick leg0 2 register0 b4) !! ta = Some t /\ agent_online t = true.
Proof.
  destruct conn2_ready as (cn & i & fr & i' & Q1 & Q2 & Q3 & Q4 & Q5 & Q6).
  assert ((says (fst (ipc_request tick rand0 bind0 create_req b2)) ≫= fun x => str_item x "agent_secret") = Some token_given) as Hs
    by (vm_compute; reflexivity).
  pose proof create_done as Hd. destruct (ipc_request tick rand0 bind0 create_req b2) as [[[x|]|msg] b'] eqn:E; [|discriminate..].
  assert (b' = b4) as -> by (unfold b4; rewrite E; reflexivity).
  destruct (created_tunnel_registers tick rand0 bind0 leg0 create_req (cstr "new") x token_given b2 b4 2 cn i fr i' register0
    (proj1 b2_binv) eq_refl eq_refl eq_refl E Hs Q1 Q2 Q3 Q4 Q5 eq_refl eq_refl Q6) as (ta & a & ag & t & R1 & R2 & _ & R4 & _).
  exists ta, t. split; [exact R1|]. split; [exact R2|exact R4].
Defined.

Lemma ipc_rotate_revokes_witness :
  exists x b' s, ipc_request tick rand0 bind0 rotate_req b2 = (AOk (Some x), b') /\ str_item x "secret" = Some s /\ reg b'.
Proof.
  destruct (tm_tunnel_find b2 (cstr "tun")) as [ta|] eqn:Ef; [|vm_compute in Ef; discriminate].
  assert (ta = 1) as -> by (vm_compute in Ef; congruence).
  destruct (tuns b2 !! 1) as [t|] eqn:Et; [|vm_compute in Et; discriminate].
  destruct (ipc_rotate_revokes tick rand0 bind0 rotate_req (cstr "tun") 1 t b2 (proj1 b2_binv) eq_refl eq_refl Ef Et)
    as (x & b' & t' & s & R1 & R2 & _ & _ & _ & _ & _ & _ & _ & _ & _ & R).
  exists x, b', s. split; [exact R1|]. split; [exact R2|exact R].
Defined.

(** A line that creates a tunnel; and one that is not JSON. *)
Definition create_line : bytes := json_text create_req.

Definition no_status (line : bytes) : bool :=
  match cJSON_Parse line with
  | POk req => match str_item req "op" with
               | Some op => negb (streq op (cstr "get_status")) && negb (streq op (cstr "get_tunnels"))
               | None => true
               end
  | _ => true
  end.
Lemma no_status_ok line : no_status line = true -> forall req, cJSON_Parse line = POk req -> ~ asks_status req.
Proof. unfold no_status. intros H req E. rewrite E in H. intros [E1|E1]; rewrite E1 in H; discriminate H. Qed.
Definition refused_line (line : bytes) : bool := match cJSON_Parse line with POk _ => false | _ => true end.

Lemma ipc_request_answered_witness :
  (exists text j, isent (fst (ipc_line tick rand0 bind0 create_line idle0 b2)) = [text ++ [10]] /\ cJSON_Parse text = POk j /\
     str_item j "status" = Some (cstr "ok")) /\
  exists text j, isent (fst (ipc_line tick rand0 bind0 (cstr "{op") idle0 b2)) = [text ++ [10]] /\ cJSON_Parse text = POk j /\
     str_item j "error" = Some (cstr "bad json").
Proof.
  assert (forall line, bool_decide (Forall (fun x => 0 <= x < 256) line) = true -> bytes_ok line) as Hb.
  { intros line Hl. apply bool_decide_eq_true in Hl. exact Hl. }
  split.
  - pose proof (ipc_request_answered tick rand0 bind0 ports_print create_line idle0 b2 (proj1 b2_binv) ltac:(apply Hb; vm_compute; reflexivity)
      (no_status_ok create_line ltac:(vm_compute; reflexivity)) eq_refl eq_refl eq_refl) as Ha.
    assert (is_done (line_answer tick rand0 bind0 create_line b2) = true) as Ed by (vm_compute; reflexivity).
    destruct (ipc_line _ _ _ _ _ _) as [pc' b']. destruct Ha as (text & j & E1 & _ & _ & E4 & E5). exists text, j.
    split; [exact E1|]. split; [exact E4|]. destruct (line_answer _ _ _ _ _); [exact E5|discriminate Ed].
  - assert (refused_line (cstr "{op") = true) as Ep by (vm_compute; reflexivity).
    pose proof (ipc_request_answered tick rand0 bind0 ports_print (cstr "{op") idle0 b2 (proj1 b2_binv) ltac:(apply Hb; vm_compute; reflexivity)
      (no_status_ok (cstr "{op") ltac:(vm_compute; reflexivity)) eq_refl eq_refl eq_refl) as Ha.
    destruct (ipc_line _ _ _ _ _ _) as [pc' b']. destruct Ha as (text & j & E1 & _ & _ & E4 & E5).
    unfold line_answer in E5. unfold refused_line in Ep. destruct (cJSON_Parse (cstr "{op")); [discriminate Ep|..]; destruct E5 as [_ E5].
    all: exists text, j; split; [exact E1|]; split; [exact E4|exact E5].
Defined.
End IpcSample.
