(* ===== verification/System.v ===== *)
(** * The broker as a whole

    Everything the event loop can run on a broker, as one step relation: the
    administration socket (Ipc.v), the control port and the agents' sessions
    (Control.v), public connections and the sockets of tunnels (Broker.v), the legs of
    streams (Relay.v), the datagrams of UDP tunnels (Udp.v), the sweep and the shutdown
    (src/broker/src/main.c).  The invariant of the registry holds in every reachable
    state. *)

From S2P Require Import Prelude.
From S2P Require Import Wire.
From S2P Require Import Text.
From S2P Require Import Config.
From S2P Require Import Net.
From S2P Require Import Io.
From S2P Require Import Json.
From S2P Require Import Relay.
From S2P Require Import Registry.
From S2P Require Import Udp.
From S2P Require Import Broker.
From S2P Require Import Control.
From S2P Require Import Ipc.
From S2P Require Import BrokerSample.
From S2P Require Import IpcSample.
Import Crypto.

#[local] Arguments Z.of_nat : simpl never.

(** ** Datagrams leave the socket of the tunnel alone *)

Section UdpSocket.
Context `{OpenSSL} `{DTLS}.
Variable cfg : udp_cfg.
Variable clock : nat -> Z.
Variable send_ok : nat -> bool.
Variable ssl_new : nat -> option SSL.

Lemma usock_with_s a st k : (forall s, usock (k s) = usock st) -> usock (with_s a st k) = usock st.
Proof. intros Hk. unfold with_s. by destruct (mem st !! a). Qed.

Lemma usock_udp_send_raw s dst buf st : usock (udp_send_raw cfg send_ok s dst buf st) = usock st.
Proof. unfold udp_send_raw. destruct (_ <=? _); [done|]. cbv zeta. by destruct (send_ok _). Qed.

Lemma usock_pump_out a st : usock (pump_out cfg send_ok a st) = usock st.
Proof.
  apply usock_with_s. intros s. destruct (_ || _); [done|]. destruct (write_head s) as [go_on s1]. destruct (negb go_on); [done|]. cbv zeta.
  destruct (BIO_read _) as [[c|] e]; [|done]. set (st1 := udp_send_raw _ _ _ _ _ _).
  assert (usock st1 = usock st) as <- by (unfold st1; by rewrite usock_udp_send_raw). by destruct (tun _).
Qed.

Lemma usock_session_queue a data st : usock (session_queue cfg send_ok a data st) = usock st.
Proof.
  apply usock_with_s. intros s. destruct (Udp.closing s); [done|]. cbv zeta. destruct (_ || _ || _); [done|]. by rewrite usock_pump_out.
Qed.

Lemma usock_send_done i st : usock (send_done cfg send_ok i st) = usock st.
Proof.
  unfold send_done. destruct (reqs st !! i) as [[a|]|]; cbv zeta; [| by destruct (_ =? 0) | done].
  set (st1 := if udp_raw_inflight _ =? 0 then _ else _). assert (usock st1 = usock st) as <- by (unfold st1; by destruct (_ =? 0)).
  apply usock_with_s. intros s. destruct (Udp.closing s); [|by rewrite usock_pump_out].
  unfold session_maybe_free. by rewrite usock_with_s by (intros s1; by destruct (_ || _ || _)).
Qed.

Lemma usock_timer_closed a st : usock (session_timer_closed a st) = usock st.
Proof.
  apply usock_with_s. intros s. unfold session_maybe_free. by rewrite usock_with_s by (intros s1; by destruct (_ || _ || _)).
Qed.

Lemma usock_session_timer_cb a st : usock (session_timer_cb cfg clock send_ok a st) = usock st.
Proof.
  apply usock_with_s. intros s. destruct (Udp.closing s); [done|]. cbn [tm_now_ms]. destruct (_ <? _); [by rewrite usock_session_close|].
  destruct (negb _); [|done]. cbv zeta. set (st1 := pump_out _ _ _ _).
  assert (usock st1 = usock st) as <- by (unfold st1; by rewrite usock_pump_out). by apply usock_with_s.
Qed.

Lemma usock_forward_to_agent fid payload st : usock (forward_to_agent cfg send_ok fid payload st) = usock st.
Proof.
  unfold forward_to_agent. destruct (agent_session st) as [a|]; [|done]. apply usock_with_s. intros s.
  destruct (negb _); [done|]. destruct (_ <? _); [done|]. by rewrite usock_session_queue.
Qed.
Lemma usock_forward_to_peer f payload st : usock (forward_to_peer cfg send_ok f payload st) = usock st.
Proof.
  unfold forward_to_peer. destruct (_ <? _); [done|]. destruct (from_peer_session f).
  - destruct (peer_session f) as [a|]; [|done]. apply usock_with_s. intros s. destruct (Udp.closing s); [done|]. by rewrite usock_session_queue.
  - change (usock (count _ _ (count _ _ ?x))) with (usock x). by rewrite usock_udp_send_raw.
Qed.
Lemma usock_agent_session_env fid payload st : usock (agent_session_env cfg clock send_ok fid payload st) = usock st.
Proof.
  unfold agent_session_env. destruct (fid =? 0); [done|]. destruct (flow_find fid _); [|done]. by rewrite usock_forward_to_peer.
Qed.
Lemma usock_tunnel_pkt_limit st : usock (tunnel_pkt_limit cfg clock st).2 = usock st.
Proof. unfold tunnel_pkt_limit. cbn [tm_now_ms]. by destruct (rate_check _ _ _). Qed.
Lemma usock_flow_creation_limit st : usock (flow_creation_limit cfg clock st).2 = usock st.
Proof. unfold flow_creation_limit. cbn [tm_now_ms]. by destruct (rate_check _ _ _). Qed.
Lemma usock_flow_get found mk st : (forall s, usock (mk s) = usock s) -> usock (flow_get cfg clock found mk st).2 = usock st.
Proof.
  intros Hm. unfold flow_get. destruct found; [done|]. pose proof (usock_flow_creation_limit st) as Hl.
  destruct (flow_creation_limit cfg clock st) as [ok st1]. cbn [snd] in Hl. destruct (_ || _); [done|]. cbn. by rewrite Hm.
Qed.
Lemma usock_flow_deliver fo payload : usock (flow_deliver cfg clock send_ok fo payload) = usock fo.2.
Proof. destruct fo as [[f|] st]; [|done]. cbn [flow_deliver]. by rewrite usock_forward_to_agent. Qed.

Lemma usock_peer_session_env a fid payload st : usock (peer_session_env cfg clock send_ok a fid payload st) = usock st.
Proof.
  apply usock_with_s. intros s. cbn [tm_now_ms]. destruct (rate_check _ _ _) as [ok w]. cbv zeta. destruct (negb ok); [done|].
  set (st1 := put a _ _). assert (usock st1 = usock st) as <- by done. clearbody st1.
  pose proof (usock_tunnel_pkt_limit st1) as Hl. destruct (tunnel_pkt_limit cfg clock st1) as [ok2 st2]. cbn [snd] in Hl.
  destruct (negb ok2); [done|]. destruct (fid =? 0); [done|]. by rewrite usock_flow_deliver, usock_flow_get.
Qed.
Lemma usock_open_client addr payload st : usock (open_client_datagram cfg clock send_ok addr payload st) = usock st.
Proof.
  unfold open_client_datagram. pose proof (usock_tunnel_pkt_limit st) as Hl. destruct (tunnel_pkt_limit cfg clock st) as [ok2 st2].
  cbn [snd] in Hl. destruct (negb ok2); [done|]. by rewrite usock_flow_deliver, usock_flow_get.
Qed.

Lemma usock_session_env a s data st : usock (session_env cfg clock send_ok a s data st) = usock st.
Proof.
  unfold session_env. destruct (_ || _); [done|]. destruct (tm_env_decode data) as [[[fid fl] payload]|]; [|done].
  destruct (is_agent s); [apply usock_agent_session_env|apply usock_peer_session_env].
Qed.
Lemma usock_promote_agent a st : usock (promote_agent a st) = usock st.
Proof.
  unfold promote_agent. cbv zeta. destruct (agent_session st) as [old|]; [|done]. destruct (old =? a); [done|].
  change (usock (tm_udp_session_close old st)  = usock st). apply usock_session_close.
Qed.
Lemma usock_session_auth again a data st : (forall d s, usock (again d s) = usock s) ->
  usock (session_auth cfg send_ok again a data st) = usock st.
Proof.
  intros Hag. unfold session_auth. destruct (auth_secret data) as [secret|]; [|done].
  destruct (_ && _); [by rewrite usock_session_queue|]. cbv zeta.
  set (st1 := with_s a st _). assert (usock st1 = usock st) as <- by (unfold st1; by apply usock_with_s).
  set (st2 := if auth_agent cfg secret then _ else st1).
  assert (usock st2 = usock st1) as <- by (unfold st2; destruct (auth_agent cfg secret); [apply usock_promote_agent|done]).
  set (st3 := session_queue _ _ _ _ _). assert (usock st3 = usock st2) as <- by apply usock_session_queue.
  destruct (_ <? _); [apply Hag|done].
Qed.
Lemma usock_session_appdata_n fuel a : forall data st, usock (session_appdata_n cfg clock send_ok fuel a data st) = usock st.
Proof.
  induction fuel as [|fuel IH]; intros data st; cbn [session_appdata_n]; apply usock_with_s; intros s; cbv zeta;
    (set (st1 := if tun s then st else _); assert (usock st1 = usock st) as <- by (unfold st1; by destruct (tun s)));
    (destruct (negb _); [|apply usock_session_env]); [done|].
  change (usock st1) with (usock (put a (s <| presented := auth_secret data |>) st1)). by apply usock_session_auth.
Qed.
Lemma usock_drain_n fuel a : forall st st', drain_n cfg clock send_ok fuel a st = Some st' -> usock st' = usock st.
Proof.
  induction fuel as [|fuel IH]; intros st st'; cbn [drain_n]; [done|]. destruct (mem st !! a) as [s|]; [|by intros [= <-]].
  destruct (SSL_read (ssl s)) as [[d|] e]; [|by intros [= <-]]. intros E. rewrite (IH _ _ E). unfold session_appdata.
  by rewrite usock_session_appdata_n.
Qed.
Lemma usock_drain_ssl a st : usock (drain_ssl cfg clock send_ok a st) = usock st.
Proof.
  apply usock_with_s. intros s. destruct (negb _); [done|]. destruct (drain_n _ _ _ _ _ _) as [st'|] eqn:E; [|done]. by apply usock_drain_n in E.
Qed.
Lemma usock_pump_in a st : usock (pump_in cfg clock send_ok a st) = usock st.
Proof.
  apply usock_with_s. intros s. destruct (Udp.closing s); [done|]. destruct (handshake_done s); [by rewrite usock_pump_out, usock_drain_ssl|].
  destruct (SSL_accept (ssl s)) as [[n| |] e]; cbv zeta.
  - by rewrite usock_pump_out, usock_drain_ssl.
  - by rewrite usock_pump_out.
  - by destruct (tun _).
Qed.
Lemma usock_session_rx a data st : usock (session_rx cfg clock send_ok a data st) = usock st.
Proof.
  unfold session_rx. cbn [tm_now_ms]. set (st1 := st <| ticks ::= S |>). change (usock st) with (usock st1).
  apply usock_with_s. intros s. by rewrite usock_pump_in.
Qed.

Lemma usock_packet r st : usock (on_udp_packet cfg clock send_ok ssl_new r st) = usock st.
Proof.
  destruct r as [| |addr data]; [done|done|]. cbn [on_udp_packet]. destruct (_ || _); [done|]. destruct (_ && _).
  { destruct (_ <? _); [done|]. apply usock_open_client. }
  unfold dtls_packet. destruct (find_session addr st); [apply usock_session_rx|].
  pose proof (usock_flow_creation_limit st) as Hl. destruct (flow_creation_limit cfg clock st) as [ok st1]. cbn [snd] in Hl.
  destruct (negb ok); [done|]. assert (usock (session_create clock ssl_new addr st1).2 = usock st1) as Hc.
  { unfold session_create. cbn [tm_now_ms]. cbv zeta. by destruct (ssl_new _). }
  destruct (session_create clock ssl_new addr st1) as [[a|] st2]; cbn [snd] in Hc; [by rewrite usock_session_rx, Hc|congruence].
Qed.

(** What the loop runs on a tunnel's UDP state by itself. *)
Definition spontaneous (e : Udp.event) : Prop :=
  match e with E_PACKET _ | E_SEND_DONE _ | E_SESSION_TIMER _ | E_TIMER_CLOSED _ | E_FLOW_IDLE _ => True | _ => False end.

Lemma usock_handle e st : spontaneous e -> usock (handle cfg clock send_ok ssl_new e st) = usock st.
Proof.
  destruct e as [r|i|a|a|i| | |]; intros He; try done; cbn [handle].
  - apply usock_packet.
  - apply usock_send_done.
  - case_bool_decide; [apply usock_session_timer_cb|done].
  - destruct (mem st !! a) as [s|]; [|done]. destruct (_ && _); [apply usock_timer_closed|done].
  - by destruct (udp_flows st !! i).
Qed.
End UdpSocket.

(** ** The events of a broker *)

Section System.
Context {io : Type} `{TmIo io} `{OpenSSL} `{DTLS} `{CDouble}.
Abbreviation broker := (@broker io _).
Abbreviation stream := (@Relay.tm_stream io).

Variable clock : nat -> Z.
Variable raw : io.
Variable rand : nat -> option bytes.
Variable bind : nat -> Listener.bind_result.
(** The clock, the results of [uv_udp_send] and of [SSL_new], seen by each tunnel. *)
Variable uclock : Z -> nat -> Z.
Variable usend : Z -> nat -> bool.
Variable ussl : Z -> nat -> option SSL.

(** The settings udp.c reads, of the broker and of the tunnel. *)
Definition udp_cfg_of (b : broker) (t : tm_tunnel) : udp_cfg :=
  let c := b_cfg b in
  UdpCfg (BrokerCfg.udp_flow_idle_timeout_ms c) (BrokerCfg.udp_max_flows_per_tunnel c) (BrokerCfg.udp_max_datagram_size c)
    (BrokerCfg.udp_max_packets_per_tunnel c) (BrokerCfg.udp_max_packets_per_source c) (BrokerCfg.udp_flow_creation_rate c)
    (BrokerCfg.udp_queue_packets c) (b_hmac_key b) (t_closed t) (t_agent_hmac t) (t_token_hmac t).

(** An event of the UDP plane of tunnel [ta]. *)
Definition on_udp (ta : Z) (e : Udp.event) (b : broker) : broker :=
  upd_udp ta (fun t => t <| t_udp ::= fun u =>
    handle (udp_cfg_of b t) (uclock ta) (usend ta) (ussl ta) e
      (u <| Udp.enabled := t_enabled t |> <| Udp.shutting_down := b_shutting_down b |>) |>) b.

(** What a leg or the timer of a stream reports. *)
Inductive stream_event :=
  | SReadA (data : bytes) | SReadB (data : bytes) | SEofA | SEofB | SErrorA | SErrorB | SLowA | SLowB
  | SMove (s : side) (i : io) | SBindTimeout.

Definition stream_run (e : stream_event) (r : stream) : stream :=
  match e with
  | SReadA d => relay_a_read (upcall_n relay_depth) d r
  | SReadB d => relay_b_read (upcall_n relay_depth) d r
  | SEofA => relay_a_eof r
  | SEofB => relay_b_eof r
  | SErrorA => relay_a_error r
  | SErrorB => relay_b_error r
  | SLowA => relay_a_low r
  | SLowB => relay_b_low r
  | SMove s i => mod_ s (fun d => d <| leg := Some i |>) r
  | SBindTimeout => stream_bind_timer_cb r
  end.

(** [stream_timer_closed]. *)
Definition stream_free (sa : Z) (b : broker) : broker := b <| strs ::= fun m => delete sa m |>.

(** ** Run and shutdown *)

(** The broker with the connections of its administration socket, the two listeners it
    accepts on, the timer of a shutdown and whether it has been cleaned up. *)
Record system := Sys {
  sb : broker;
  ipcs : gmap Z tm_ipc_conn;
  control_listening : bool;
  ipc_open : bool;
  shutdown_timer : bool;
  cleaned_up : bool;
}.
#[global] Instance eta_system : Eta system :=
  settable! Sys <sb; ipcs; control_listening; ipc_open; shutdown_timer; cleaned_up>.

Definition with_ipc (s : system) (p : Z) (r : tm_ipc_conn * broker) : system :=
  s <| sb := snd r |> <| ipcs ::= fun m => <[p := fst r]> m |>.
Definition with_b (s : system) (b : broker) : system := s <| sb := b |>.

(** The start of the loop: a control port that cannot be bound is only logged, an
    administration socket that cannot be bound ends the program. *)
Definition tm_broker_run (listening ipc_started : bool) (b : broker) : option system :=
  let '(now, b) := now_ms clock b in
  if ipc_started then Some (Sys (b <| b_start_ms := now |>) ∅ listening true false false) else None.

Definition tm_broker_shutdown (s : system) : system :=
  if b_shutting_down (sb s) then s
  else s <| sb := tm_control_goaway_all (sb s <| b_shutting_down := true |>) |> <| control_listening := false |>
         <| shutdown_timer := true |>.

(** The tunnels that are left are torn down but not freed; the program ends. *)
Definition broker_cleanup (s : system) : system :=
  if cleaned_up s then s
  else
    let b := tm_control_close_all (sb s) in
    let b := fold_left (fun b ta => tm_tunnel_teardown ta b) (tunnels b) b in
    s <| cleaned_up := true |> <| sb := b <| tunnels := [] |> |> <| ipc_open := false |>.

(** [shutdown_timer_cb]: the loop stops. *)
Definition shutdown_timer_cb (s : system) : system := broker_cleanup (s <| shutdown_timer := false |>).

(** One callback of the event loop.  The premises say which object the loop runs it on:
    a connection, session or stream that is there and whose handle is open; the legs of
    connections and of sessions also do their own work ([io_moves]). *)
Inductive step (s : system) : system -> Prop :=
  | st_ipc_conn p : ipc_open s = true -> ipcs s !! p = None -> step s (with_ipc s p (ipc_on_conn, sb s))
  | st_ipc_read p pc data : ipcs s !! p = Some pc -> handle_closing pc = false -> close_pending pc = false ->
      step s (with_ipc s p (ipc_conn_read clock rand bind data pc (sb s)))
  | st_ipc_written p pc : ipcs s !! p = Some pc -> writing pc = true -> step s (with_ipc s p (ipc_write_done pc, sb s))
  | st_ipc_closed p pc : ipcs s !! p = Some pc -> handle_closing pc = true -> step s (s <| ipcs ::= fun m => delete p m |>)
  | st_control_accept leg remote failed : control_listening s = true ->
      step s (with_b s (on_control_accept clock leg remote failed (sb s)))
  | st_conn_read c x data : conns (sb s) !! c = Some x -> c_closing x = false -> is_Some (c_io x) ->
      step s (with_b s (conn_read clock raw c data (sb s)))
  | st_conn_end c x : conns (sb s) !! c = Some x -> is_Some (c_io x) -> step s (with_b s (conn_eof c (sb s)))
  | st_hs_timeout c x : conns (sb s) !! c = Some x -> hs_closing x = false -> step s (with_b s (conn_hs_timeout c (sb s)))
  | st_conn_free c x : conns (sb s) !! c = Some x -> hs_closing x = true -> step s (with_b s (conn_free_cb c (sb s)))
  | st_agent_read a ag data : agents (sb s) !! a = Some ag -> step s (with_b s (agent_conn_read clock a data (sb s)))
  | st_agent_end a ag : agents (sb s) !! a = Some ag -> step s (with_b s (agent_conn_eof a (sb s)))
  | st_public_accept ta t peer : tuns (sb s) !! ta = Some t -> Listener.listener_open (usock (t_udp t)) = true ->
      step s (with_b s (on_public_accept clock ta peer (sb s)))
  | st_sock_closed ta t r : tuns (sb s) !! ta = Some t -> Listener.handle (usock (t_udp t)) = Listener.H_CLOSING ->
      step s (with_b s (tunnel_sock_closed ta r (sb s)))
  | st_udp ta t e : tuns (sb s) !! ta = Some t -> spontaneous e -> step s (with_b s (on_udp ta e (sb s)))
  | st_stream sa ta r e : strs (sb s) !! sa = Some (ta, r) -> step s (with_b s (on_stream sa (stream_run e) (sb s)))
  | st_stream_free sa ta r : strs (sb s) !! sa = Some (ta, r) -> Relay.closing r = true -> step s (with_b s (stream_free sa (sb s)))
  | st_conn_move c x i i' : conns (sb s) !! c = Some x -> c_io x = Some i -> io_moves i i' ->
      step s (with_b s (put_conn c (x <| c_io := Some i' |>) (sb s)))
  | st_agent_move a ag i' : agents (sb s) !! a = Some ag -> io_moves (a_io ag) i' ->
      step s (with_b s (sb s <| agents ::= fun m => <[a := ag <| a_io := i' |>]> m |>))
  | st_tick : step s (with_b s (tm_agent_tick clock (sb s)))
  | st_shutdown : step s (tm_broker_shutdown s).

(** What a configured broker can get into before its cleanup. *)
Inductive reachable (cfg : BrokerCfg.tm_broker_cfg) (key : bytes) : system -> Prop :=
  | rc_start b listening s : broker_new cfg key = Some b -> tm_broker_run listening true b = Some s -> reachable cfg key s
  | rc_step s s' : reachable cfg key s -> step s s' -> reachable cfg key s'.

(** ** The registry in every reachable state *)

Lemma binv_udp ta e b : spontaneous e -> binv b -> binv (on_udp ta e b).
Proof.
  intros He. apply binv_upd_udp. intros t. split; [done|]. unfold Broker.deleting.
  change (t_udp (t <| t_udp ::= ?f |>)) with (f (t_udp t)). cbv beta. by rewrite usock_handle.
Qed.

Lemma keeps_stream_run e : keeps (stream_run e).
Proof.
  destruct e; cbn [stream_run].
  - apply keeps_a_read, keeps_upcall.
  - apply keeps_b_read, keeps_upcall.
  - apply keeps_eof, keeps_upcall.
  - apply keeps_eof, keeps_upcall.
  - apply keeps_error, keeps_upcall.
  - apply keeps_error, keeps_upcall.
  - apply keeps_low, keeps_upcall.
  - apply keeps_low, keeps_upcall.
  - apply keeps_mod.
  - intros r. change (same_id r (if bound r then r else tm_stream_close r)). destruct (bound r); [by apply same_id_eq|apply keeps_closing].
Qed.

(** Freeing a closed stream: no list holds it. *)
Lemma binv_stream_free sa ta r b : strs b !! sa = Some (ta, r) -> Relay.closing r = true -> binv b -> binv (stream_free sa b).
Proof.
  intros Es Hc [[N A S F] G].
  assert (Relay.linked r = false) as Hl by (rewrite (proj1 (so_linked _ _ _ _ S sa ta r Es)), Hc; done).
  split; [|exact G]. constructor; [exact N|exact A| |].
  - constructor.
    + intros k t x Et Hx. destruct (so_list _ _ _ _ S k t x Et Hx) as (u & Eu & Hu). exists u. split; [|done].
      change (strs (stream_free sa b)) with (delete sa (strs b)). rewrite lookup_delete_ne; [done|]. intros ->. congruence.
    + intros x k u. change (strs (stream_free sa b)) with (delete sa (strs b)). upd_case x sa; [done|]. apply S.
    + apply S.
    + apply S.
    + change (b_stream_count b = nlinked (delete sa (strs b))). rewrite (so_count _ _ _ _ S). unfold nlinked. do 2 f_equal.
      apply map_eq. intros k. rewrite !map_lookup_filter. upd_case k sa; [|done]. rewrite Es. cbn. rewrite option_guard_False; [done|]. cbn. by rewrite Hl.
    + apply S.
    + apply S.
  - destruct F as [F1 F2 F3]. constructor; [done|done|]. intros x u. change (strs (stream_free sa b)) with (delete sa (strs b)).
    upd_case x sa; [done|apply F3].
Qed.

Lemma binv_step s s' : step s s' -> binv (sb s) -> binv (sb s').
Proof.
  intros Hs Hb. destruct Hs; cbn [sb with_ipc with_b snd]; try done.
  - by apply binv_ipc_read.
  - by apply (binv_steady (sb s)); [apply steady_control_accept|].
  - by apply binv_conn_read.
  - by apply (binv_steady (sb s)); [apply steady_conn_close|].
  - by apply (binv_steady (sb s)); [apply steady_hs_timeout|].
  - by apply (binv_steady (sb s)); [apply steady_conn_free|].
  - by apply (binv_steady (sb s)); [apply steady_agent_conn_read|].
  - by apply (binv_tame (sb s)); [apply tame_agent_drop|apply reg_agent_drop, Hb|].
  - destruct (public_accept_tame clock ta peer (sb s) (proj1 Hb)) as [Ht Hr]. by apply (binv_tame (sb s)).
  - by apply binv_sock_closed.
  - by apply binv_udp.
  - by apply binv_on_stream; [apply keeps_stream_run|].
  - by apply (binv_stream_free sa ta r).
  - by apply (binv_steady (sb s)); [apply (steady_put_conn c x)|].
  - by apply (binv_steady (sb s)); [apply (steady_put_agent a ag)|].
  - by apply (binv_steady (sb s)); [apply steady_tick|].
  - unfold tm_broker_shutdown. destruct (b_shutting_down (sb s)); [done|].
    change (binv (tm_control_goaway_all (sb s <| b_shutting_down := true |>))). apply (binv_steady (sb s <| b_shutting_down := true |>)); [apply steady_goaway|]. by apply (binv_eq (sb s)).
Qed.

Lemma binv_reachable cfg key s : 1 <= BrokerCfg.public_port_start cfg -> BrokerCfg.public_port_end cfg < 2 ^ 16 ->
  reachable cfg key s -> binv (sb s).
Proof.
  intros Hlo Hhi Hr. induction Hr as [b l s Hn Hs|s s' _ IH Hst]; [|by apply (binv_step s)].
  unfold tm_broker_run, now_ms in Hs. injection Hs as <-. apply (binv_eq b); [done|done|]. by apply (binv_new cfg key).
Qed.

(** C1: the registry is consistent in every state the broker can get into, whatever the
    order of the callbacks: listed tunnels have distinct names, no two of them share a
    public port of one protocol, and a slot of a port table is taken exactly while a
    listed tunnel holds that port; the counters of tunnels and of streams are the numbers
    of listed tunnels and of open streams and stay in the configured limits, and so does
    the counter of each tunnel, which is the number of its open streams; a tunnel's
    session and the session's tunnel refer to each other, and a tunnel is online exactly
    while it has a session; a tunnel lists exactly its open streams, each once; and a
    tunnel that is being deleted is no longer listed and has no session or stream. *)
Theorem registry_consistent cfg key s :
  1 <= BrokerCfg.public_port_start cfg -> BrokerCfg.public_port_end cfg < 2 ^ 16 -> reachable cfg key s ->
  let b := sb s in
  (forall ta ta' t t', ta ∈ tunnels b -> ta' ∈ tunnels b -> tuns b !! ta = Some t -> tuns b !! ta' = Some t' ->
     (t_id t = t_id t' -> ta = ta') /\
     (needs_port t = true -> needs_port t' = true -> t_proto t = t_proto t' -> public_port t = public_port t' -> ta = ta')) /\
  (forall p i, Ports.slot (Ports.table (b_ports b) p) i = true <->
     exists ta t, ta ∈ tunnels b /\ tuns b !! ta = Some t /\ needs_port t = true /\ t_proto t = p /\
                  Ports.port_index (b_ports b) (public_port t) = i) /\
  (NoDup (tunnels b) /\ (forall ta, ta ∈ tunnels b -> is_Some (tuns b !! ta)) /\
   tunnel_count b = blen (tunnels b) /\ tunnel_count b <= Z.max 0 (BrokerCfg.max_tunnels (b_cfg b))) /\
  (b_stream_count b = nlinked (strs b) /\ b_stream_count b <= Z.max 0 (BrokerCfg.max_streams (b_cfg b))) /\
  (forall ta t, tuns b !! ta = Some t ->
     t_streams_active t = blen (t_streams t) /\ NoDup (t_streams t) /\
     t_streams_active t <= Z.max 0 (BrokerCfg.max_streams_per_tunnel (b_cfg b)) /\
     (forall sa, sa ∈ t_streams t <-> exists r, strs b !! sa = Some (ta, r) /\ Relay.closing r = false)) /\
  (forall sa ta r, strs b !! sa = Some (ta, r) -> Relay.linked r = negb (Relay.closing r)) /\
  (forall a ta, (exists ag, agents b !! a = Some ag /\ a_tun ag = ta) <->
     exists t, tuns b !! ta = Some t /\ t_agent t = Some a) /\
  (forall ta t, tuns b !! ta = Some t -> agent_online t = bool_decide (is_Some (t_agent t))) /\
  (forall ta t, tuns b !! ta = Some t -> Broker.deleting t = true -> ta ∉ tunnels b /\ t_agent t = None /\ t_streams t = []).
Proof.
  intros Hlo Hhi Hr. destruct (binv_reachable cfg key s Hlo Hhi Hr) as [[N A S F] G]. cbv zeta.
  split_and!; try apply N; try apply S; try apply A; [| | | |exact G].
  - intros ta ta' t t' Hi Hi' E1 E2. split; intros; [by eapply (nm_ids _ _ _ _ _ N)|by eapply (nm_excl _ _ _ _ _ N)].
  - intros p i. split; [apply N|]. intros (ta & t & Hl & Et & Hn & <- & <-). by destruct (nm_slot _ _ _ _ _ N ta t Hl Et Hn).
  - intros ta t Et. split_and!; [by apply (so_active _ _ _ _ S ta)|by apply (so_nodup _ _ _ _ S ta)|by apply (so_max_tun _ _ _ _ S ta)|].
    intros sa. split.
    + intros Hin. destruct (so_list _ _ _ _ S ta t sa Et Hin) as (r & Er & Hl). exists r. split; [done|].
      rewrite (proj1 (so_linked _ _ _ _ S sa ta r Er)) in Hl. by apply negb_true_iff.
    + intros (r & Er & Hc). destruct (so_linked _ _ _ _ S sa ta r Er) as [Hl Hx]. rewrite Hc in Hl.
      destruct (Hx Hl) as (u & Eu & Hu). congruence.
  - intros a ta. split.
    + intros (ag & Ea & <-). by apply (ag_owned _ _ A).
    + intros (t & Et & Ha). by apply (ag_live _ _ A ta t).
Qed.

End System.

Module SystemSample.
Import Tcp TcpLeg UdpSample ControlSample JsonSample IpcSample.
#[local] Existing Instances plain short int_double.

(** A broker from its start on: a client of the administration socket creates a tunnel,
    the agent's connection says HELLO and registers, and a consumer connects to the
    tunnel's public port. *)
Abbreviation state := (@system tm_io_tcp plain).
Definition sys0 : state := Sys (empty0 <| b_ticks ::= S |> <| b_start_ms := 0 |>) ∅ true true false false.
Definition sys1 : state := with_ipc sys0 1 (ipc_on_conn, sb sys0).
Definition sys2 : state := with_ipc sys1 1 (ipc_conn_read tick rand0 bind0 (Some (json_text create_req ++ [10])) ipc_on_conn (sb sys1)).
Definition sys3 : state := with_b sys2 (on_control_accept tick (Some leg0) [] false (sb sys2)).
Definition frame_bytes (f : tm_frame) : bytes := default [] (tm_frame_encode f).
Definition hello_register : bytes := frame_bytes (frame0 TM_MSG_HELLO 0 []) ++ frame_bytes register0.
Definition sys4 : state := with_b sys3 (conn_read tick leg0 2 hello_register (sb sys3)).
Definition sys5 : state := with_b sys4 (on_public_accept tick 1 (Some client_addr) (sb sys4)).

Abbreviation reached := (reachable tick leg0 rand0 bind0 (fun _ => tick) (fun _ _ => true) (fun _ _ => None) cfg0 key0).

Definition some_conn (c : Z) (s : state) : bool :=
  match conns (sb s) !! c with Some x => negb (c_closing x) && bool_decide (is_Some (c_io x)) | None => false end.
Definition some_listener (ta : Z) (s : state) : bool :=
  match tuns (sb s) !! ta with Some t => Listener.listener_open (usock (t_udp t)) | None => false end.

Lemma reach_read c data s : reached s -> some_conn c s = true -> reached (with_b s (conn_read tick leg0 c data (sb s))).
Proof.
  intros Hr Hc. unfold some_conn in Hc. destruct (conns (sb s) !! c) as [x|] eqn:Ex; [|done].
  apply andb_true_iff in Hc as [H1 H2]. apply negb_true_iff in H1. apply bool_decide_eq_true in H2.
  eapply rc_step; [exact Hr|]. by eapply st_conn_read.
Qed.
Lemma reach_accept ta peer s : reached s -> some_listener ta s = true -> reached (with_b s (on_public_accept tick ta peer (sb s))).
Proof.
  intros Hr Hc. unfold some_listener in Hc. destruct (tuns (sb s) !! ta) as [t|] eqn:Et; [|done].
  eapply rc_step; [exact Hr|]. by eapply st_public_accept.
Qed.

Lemma sys5_reached : reached sys5.
Proof.
  unfold sys5. apply reach_accept; [|vm_compute; reflexivity].
  unfold sys4. apply reach_read; [|vm_compute; reflexivity].
  unfold sys3. eapply rc_step; [|apply st_control_accept; reflexivity].
  unfold sys2. eapply rc_step; [|apply (st_ipc_read _ _ _ _ _ _ _ _ 1 ipc_on_conn); reflexivity].
  unfold sys1. eapply rc_step; [|apply st_ipc_conn; reflexivity].
  eapply (rc_start _ _ _ _ _ _ _ _ _ empty0 true); reflexivity.
Defined.

(** There is a tunnel with a session and an open stream. *)
Definition busy (s : state) : bool :=
  match tunnels (sb s) with
  | [ta] => match tuns (sb s) !! ta with
            | Some t => agent_online t && (t_streams_active t =? 1) && (public_port t =? 20001)
            | None => false
            end
  | _ => false
  end.

Lemma registry_consistent_witness :
  busy sys5 = true /\ tunnel_count (sb sys5) = blen (tunnels (sb sys5)) /\ b_stream_count (sb sys5) = nlinked (strs (sb sys5)) /\
  exists t a ag, tuns (sb sys5) !! 1 = Some t /\ t_agent t = Some a /\ agents (sb sys5) !! a = Some ag /\ a_tun ag = 1 /\
    t_streams_active t = blen (t_streams t).
Proof.
  destruct (registry_consistent tick leg0 rand0 bind0 (fun _ => tick) (fun _ _ => true) (fun _ _ => None) cfg0 key0 sys5
    ltac:(vm_compute; discriminate) ltac:(vm_compute; reflexivity) sys5_reached)
    as (_ & _ & (_ & _ & T1 & _) & (T2 & _) & T3 & _ & T4 & _).
  split; [vm_compute; reflexivity|]. split; [exact T1|]. split; [exact T2|].
  assert ((tuns (sb sys5) !! 1 ≫= t_agent) = Some 3) as Ea by (vm_compute; reflexivity).
  destruct (tuns (sb sys5) !! 1) as [t|] eqn:Et; [|discriminate]. cbn in Ea.
  destruct (proj2 (T4 3 1)) as (ag & Eg & Eo); [exists t; split; [exact Et|exact Ea]|].
  exists t, 3, ag. split; [reflexivity|]. split; [exact Ea|]. split; [exact Eg|]. split; [exact Eo|].
  exact (proj1 (T3 1 t Et)).
Defined.

End SystemSample.
